(** * The Halide parallel-for thread pool (src/runtime/thread_pool_common.h)

    A shallow embedding of the work queue, of [worker_thread], of
    [default_do_par_for] and of [halide_shutdown_thread_pool] as a
    transition system over an explicit machine state, and the properties of
    the scheduler proved (or refuted) on it.

    Modelling conventions.
    - A C [int] is a [Z]; every arithmetic operation of the source is
      followed by [wrap], the two's-complement wrap-around to 32 bits.
    - Job records live on the submitter's stack in the source.  Here they
      live in [heap], a list indexed by address; a fresh address is the
      length of the heap, and records are never reclaimed.
    - Every thread is a call stack of frames, innermost first.  The pool of
      threads is a list indexed by thread id.
    - All fields of the queue are read and written under
      [work_queue.mutex].  One transition of a thread is therefore one
      critical section: from the acquisition of the mutex to the next point
      where it is released ([halide_mutex_unlock] or [halide_cond_wait]),
      together with the thread-local code around it.  The lock itself needs
      no representation: between two transitions it is free.
    - A condition variable is the set of threads whose innermost frame waits
      on it; a broadcast moves them all to the woken state.
    - The initialisation and the destruction of the primitives (lines
      143-145 and 251-254) are recorded in two flags of the queue; the
      transitions do not depend on them. *)

From Stdlib Require Import ZArith Lia Bool List String.
From stdpp Require Import base list.
Import ListNotations.
Local Open Scope Z_scope.

(** ** Data model *)

(** Addresses of job records and thread handles. *)
Abbreviation addr := nat (only parsing).
Abbreviation tid := nat (only parsing).

(** Code run by a thread outside the scheduler: a task body, or the client
    code of a thread that uses the pool.  It returns a status, or calls
    [halide_do_par_for] and continues with the status it returned, or calls
    [halide_shutdown_thread_pool].  The task of a parallel-for has the type
    of [halide_task_t]: user context, index and closure to a body. *)
Inductive prog : Type :=
| Ret (status : Z)
| ParFor (f : Z -> Z -> Z -> prog) (user_context min size closure : Z)
    (k : Z -> prog)
| Shutdown (k : prog).

Definition halide_task_t : Type := Z -> Z -> Z -> prog.

(** [struct work] *)
Record work : Type := mk_work {
  next_job : option addr;
  f : halide_task_t;
  user_context : Z;
  next : Z;
  max : Z;
  closure : Z;
  active_workers : Z;
  exit_status : Z
}.

(** The three [halide_cond] fields of the queue. *)
Inductive cond : Type := wakeup_owners | wakeup_a_team | wakeup_b_team.

(** [struct work_queue_t].  The mutex and the three condition variables are
    objects of the host's threading layer; what this file does to them is
    kept as two flags.  [conds_ready] says that the three [halide_cond]
    fields have been initialised (lines 143-145) and not destroyed since
    (lines 252-254).  [mutex_destroyed] says that [halide_mutex_destroy] has
    been called on [mutex] (line 251); no line of the file initialises the
    mutex (lines 137-138 rely on the zero-initialised static), so the flag
    is never cleared. *)
Record work_queue_t : Type := mk_queue {
  jobs : option addr;
  a_team_size : Z;
  target_a_team_size : Z;
  threads : list (option tid);
  shutdown : bool;
  mutex_destroyed : bool;
  conds_ready : bool
}.

(** Where a thread stands inside [worker_thread]. *)
Inductive worker_pc : Type :=
| W_entry                            (* line 67, about to take the mutex *)
| W_wait (c : cond)                  (* asleep in halide_cond_wait *)
| W_woken (c : cond)                 (* signalled, about to retake the mutex *)
| W_task (job : addr) (myjob : work) (* line 113, inside halide_do_task *).

(** Where a thread stands inside [default_do_par_for]. *)
Inductive par_for_pc : Type :=
| PF_wake_a (job : addr) (wake_b_team : bool) (* line 207 *)
| PF_wake_b (job : addr)                      (* line 211 *)
| PF_work (job : addr)                        (* line 215, in worker_thread(&job) *)
| PF_return (job : addr)                      (* line 219 *).

(** Where a thread stands inside [halide_shutdown_thread_pool]. *)
Inductive shutdown_pc : Type :=
| SD_join (i : Z)                    (* line 244, loop variable i *).

Inductive frame : Type :=
| FTask (p : prog)
| FParFor (pc : par_for_pc)
| FWorker (owned_job : option addr) (pc : worker_pc)
| FShutdown (pc : shutdown_pc).

(** Ghost record of what happened: [EvSubmit job min size] when a job is
    pushed, [EvInvoke job idx] when [halide_do_task] is entered for index
    [idx] of [job], [EvReturn job idx r] when its result [r] is taken back
    under the mutex. *)
Inductive event : Type :=
| EvSubmit (job : addr) (min size : Z)
| EvInvoke (job : addr) (idx : Z)
| EvReturn (job : addr) (idx : Z) (result : Z).

Record state : Type := mk_state {
  num_threads : Z;
  thread_pool_initialized : bool;
  work_queue : work_queue_t;
  heap : list work;
  pool : list (list frame);
  log : list event
}.

(** What the host gives: the environment, libc's [atoi], the CPU count. *)
Record host : Type := mk_host {
  getenv : string -> option string;
  atoi : string -> Z;
  halide_host_cpu_count : Z
}.

Definition MAX_THREADS : Z := 64.

Definition INT_MAX : Z := 2147483647.
Definition INT_MIN : Z := -2147483648.

(** 32-bit two's-complement wrap-around of an [int] result. *)
Definition wrap (z : Z) : Z := (z + 2 ^ 31) mod 2 ^ 32 - 2 ^ 31.

(** ** Field updates *)

Definition set_next (v : Z) (w : work) : work :=
  mk_work (next_job w) (f w) (user_context w) v (max w) (closure w)
    (active_workers w) (exit_status w).

Definition set_active_workers (v : Z) (w : work) : work :=
  mk_work (next_job w) (f w) (user_context w) (next w) (max w) (closure w)
    v (exit_status w).

Definition set_exit_status (v : Z) (w : work) : work :=
  mk_work (next_job w) (f w) (user_context w) (next w) (max w) (closure w)
    (active_workers w) v.

Definition set_jobs (v : option addr) (q : work_queue_t) : work_queue_t :=
  mk_queue v (a_team_size q) (target_a_team_size q) (threads q) (shutdown q)
    (mutex_destroyed q) (conds_ready q).

Definition set_a_team_size (v : Z) (q : work_queue_t) : work_queue_t :=
  mk_queue (jobs q) v (target_a_team_size q) (threads q) (shutdown q)
    (mutex_destroyed q) (conds_ready q).

Definition set_target_a_team_size (v : Z) (q : work_queue_t) : work_queue_t :=
  mk_queue (jobs q) (a_team_size q) v (threads q) (shutdown q)
    (mutex_destroyed q) (conds_ready q).

Definition set_threads (v : list (option tid)) (q : work_queue_t)
  : work_queue_t :=
  mk_queue (jobs q) (a_team_size q) (target_a_team_size q) v (shutdown q)
    (mutex_destroyed q) (conds_ready q).

Definition set_shutdown (v : bool) (q : work_queue_t) : work_queue_t :=
  mk_queue (jobs q) (a_team_size q) (target_a_team_size q) (threads q) v
    (mutex_destroyed q) (conds_ready q).

Definition set_mutex_destroyed (v : bool) (q : work_queue_t) : work_queue_t :=
  mk_queue (jobs q) (a_team_size q) (target_a_team_size q) (threads q)
    (shutdown q) v (conds_ready q).

Definition set_conds_ready (v : bool) (q : work_queue_t) : work_queue_t :=
  mk_queue (jobs q) (a_team_size q) (target_a_team_size q) (threads q)
    (shutdown q) (mutex_destroyed q) v.

Definition set_num_threads (v : Z) (s : state) : state :=
  mk_state v (thread_pool_initialized s) (work_queue s) (heap s) (pool s)
    (log s).

Definition set_initialized (v : bool) (s : state) : state :=
  mk_state (num_threads s) v (work_queue s) (heap s) (pool s) (log s).

Definition set_queue (v : work_queue_t) (s : state) : state :=
  mk_state (num_threads s) (thread_pool_initialized s) v (heap s) (pool s)
    (log s).

Definition set_heap (v : list work) (s : state) : state :=
  mk_state (num_threads s) (thread_pool_initialized s) (work_queue s) v
    (pool s) (log s).

Definition set_pool (v : list (list frame)) (s : state) : state :=
  mk_state (num_threads s) (thread_pool_initialized s) (work_queue s)
    (heap s) v (log s).

Definition set_log (v : list event) (s : state) : state :=
  mk_state (num_threads s) (thread_pool_initialized s) (work_queue s)
    (heap s) (pool s) v.

(** The call stack of thread [t] becomes [fs]. *)
Definition set_frames (t : tid) (fs : list frame) (s : state) : state :=
  set_pool (<[t := fs]> (pool s)) s.

(** ** The predicates of the two structs *)

(** [work::running] *)
Definition running (w : work) : bool :=
  (next w <? max w) || (0 <? active_workers w).

(** [work_queue_t::running] *)
Definition queue_running (q : work_queue_t) : bool := negb (shutdown q).

(** ** Primitives *)

Definition cond_eqb (a b : cond) : bool :=
  match a, b with
  | wakeup_owners, wakeup_owners => true
  | wakeup_a_team, wakeup_a_team => true
  | wakeup_b_team, wakeup_b_team => true
  | _, _ => false
  end.

(** The effect of a broadcast of [c] on one call stack. *)
Definition wake (c : cond) (fs : list frame) : list frame :=
  match fs with
  | FWorker o (W_wait c') :: rest =>
      if cond_eqb c c' then FWorker o (W_woken c') :: rest else fs
  | _ => fs
  end.

Definition halide_cond_broadcast (c : cond) (s : state) : state :=
  set_pool (wake c <$> pool s) s.

(** [halide_spawn_thread(worker_thread, NULL)]: a new thread that starts at
    the top of [worker_thread] with no owned job; its handle is returned. *)
Definition halide_spawn_thread (s : state) : tid * state :=
  (length (pool s), set_pool (pool s ++ [[FWorker None W_entry]]) s).

(** A joined thread is one whose call stack is empty. *)
Definition exited (s : state) (t : tid) : bool :=
  match pool s !! t with
  | Some [] => true
  | _ => false
  end.

(** [default_do_task] *)
Definition default_do_task (user_context : Z) (f : halide_task_t) (idx : Z)
  (closure : Z) : prog :=
  f user_context idx closure.

(** ** [default_do_par_for], lines 139-204: the submission *)

(** Lines 148-160. *)
Definition choose_num_threads (h : host) (n : Z) : Z :=
  if n =? 0 then
    let threads_str :=
      match getenv h "HL_NUM_THREADS" with
      | Some str => Some str
      | None => getenv h "HL_NUMTHREADS"
      end in
    match threads_str with
    | Some str => atoi h str
    | None => halide_host_cpu_count h
    end
  else n.

(** Lines 161-165. *)
Definition clamp_num_threads (n : Z) : Z :=
  if MAX_THREADS <? n then MAX_THREADS
  else if n <? 1 then 1
  else n.

(** Lines 166-169: [count] more rounds of the loop, at loop variable [i]. *)
Fixpoint spawn_workers (count : nat) (i : nat) (s : state) : state :=
  match count with
  | O => s
  | S count' =>
      let '(t, s1) := halide_spawn_thread s in
      let q := work_queue s1 in
      spawn_workers count' (S i)
        (set_queue (set_threads (<[i := Some t]> (threads q)) q) s1)
  end.

(** Lines 141-174. *)
Definition lazy_init (h : host) (s : state) : state :=
  if thread_pool_initialized s then s
  else
    let s1 :=
      set_queue
        (set_jobs None
           (set_conds_ready true (set_shutdown false (work_queue s)))) s in
    let n := clamp_num_threads (choose_num_threads h (num_threads s1)) in
    let s2 := set_num_threads n s1 in
    let s3 := spawn_workers (Z.to_nat (n - 1)) 0 s2 in
    let s4 := set_queue (set_a_team_size n (work_queue s3)) s3 in
    set_initialized true s4.

(** Lines 139-204: the whole critical section of a submission.  Returns the
    address of the job, [wake_b_team] and the new state. *)
Definition par_for_enter (h : host) (task : halide_task_t)
  (uc min size cl : Z) (s : state) : addr * bool * state :=
  let s1 := lazy_init h s in
  let q := work_queue s1 in
  let target :=
    if bool_decide (jobs q = None) && (size <? num_threads s1)
    then size else num_threads s1 in
  let q1 := set_target_a_team_size target q in
  let wake_b_team := a_team_size q1 <? size in
  let job := mk_work (jobs q1) task uc min (wrap (min + size)) cl 0 0 in
  let a := length (heap s1) in
  let q2 := set_jobs (Some a) q1 in
  (a, wake_b_team,
   set_log (log s1 ++ [EvSubmit a min size])
     (set_heap (heap s1 ++ [job]) (set_queue q2 s1))).

(** ** [worker_thread] *)

(** Lines 94-109: claim a task from [job], whose record is [w]. *)
Definition claim (job : addr) (w : work) (s : state) : state :=
  let w1 := set_next (wrap (next w + 1)) w in
  let q := work_queue s in
  let q1 := if next w1 =? max w1 then set_jobs (next_job w1) q else q in
  let w2 := set_active_workers (wrap (active_workers w1 + 1)) w1 in
  set_log (log s ++ [EvInvoke job (next w)])
    (set_heap (<[job := w2]> (heap s)) (set_queue q1 s)).

(** The frame under a [worker_thread] frame when the worker returns. *)
Definition worker_return (rest : list frame) : list frame :=
  match rest with
  | FParFor (PF_work job) :: rest' => FParFor (PF_return job) :: rest'
  | _ => rest
  end.

(** Lines 73-112 and 132: with the mutex held, test the loop condition and
    run the loop body up to the point where the mutex is released.  [rest]
    is the call stack of thread [t] under its [worker_thread] frame. *)
Definition worker_loop (t : tid) (owned_job : option addr)
  (rest : list frame) (s : state) : option state :=
  match
    match owned_job with
    | Some a => running <$> heap s !! a
    | None => Some (queue_running (work_queue s))
    end
  with
  | None => None
  | Some false => Some (set_frames t (worker_return rest) s)
  | Some true =>
      let q := work_queue s in
      match jobs q with
      | None =>
          match owned_job with
          | Some _ =>
              Some (set_frames t
                      (FWorker owned_job (W_wait wakeup_owners) :: rest) s)
          | None =>
              if a_team_size q <=? target_a_team_size q then
                Some (set_frames t
                        (FWorker owned_job (W_wait wakeup_a_team) :: rest) s)
              else
                Some (set_frames t
                        (FWorker owned_job (W_wait wakeup_b_team) :: rest)
                        (set_queue
                           (set_a_team_size (wrap (a_team_size q - 1)) q) s))
          end
      | Some job =>
          match heap s !! job with
          | None => None
          | Some w =>
              Some (set_frames t
                      (FTask (default_do_task (user_context w) (f w) (next w)
                                (closure w))
                       :: FWorker owned_job (W_task job w) :: rest)
                      (claim job w s))
          end
      end
  end.

(** Lines 115-129: the task of [job] claimed as [myjob] returned [result]. *)
Definition finish_task (owned_job : option addr) (job : addr) (myjob : work)
  (result : Z) (s : state) : option state :=
  match heap s !! job with
  | None => None
  | Some w =>
      let w1 := if result =? 0 then w else set_exit_status result w in
      let w2 := set_active_workers (wrap (active_workers w1 - 1)) w1 in
      let s1 :=
        set_log (log s ++ [EvReturn job (next myjob) result])
          (set_heap (<[job := w2]> (heap s)) s) in
      Some (if negb (running w2) && negb (bool_decide (owned_job = Some job))
            then halide_cond_broadcast wakeup_owners s1
            else s1)
  end.

(** Line 90: back from [halide_cond_wait] on [c] with the mutex held. *)
Definition after_wait (c : cond) (s : state) : state :=
  match c with
  | wakeup_b_team =>
      let q := work_queue s in
      set_queue (set_a_team_size (wrap (a_team_size q + 1)) q) s
  | _ => s
  end.

(** ** [halide_shutdown_thread_pool] *)

(** Lines 236-241. *)
Definition shutdown_enter (s : state) : state :=
  let s1 := set_queue (set_shutdown true (work_queue s)) s in
  halide_cond_broadcast wakeup_b_team
    (halide_cond_broadcast wakeup_a_team
       (halide_cond_broadcast wakeup_owners s1)).

(** Lines 251-255: the mutex and the three condition variables are
    destroyed, the latch is cleared. *)
Definition shutdown_leave (s : state) : state :=
  let q := work_queue s in
  set_initialized false
    (set_queue (set_conds_ready false (set_mutex_destroyed true q)) s).

(** ** One transition of one thread *)

Definition thread_step (h : host) (t : tid) (s : state) : option state :=
  match pool s !! t with
  | None => None
  | Some frames =>
      match frames with
      (* a call of halide_do_par_for: lines 139-204 *)
      | FTask (ParFor task uc min size cl k) :: rest =>
          let '(job, wake_b_team, s1) := par_for_enter h task uc min size cl s in
          Some (set_frames t (FParFor (PF_wake_a job wake_b_team) :: frames) s1)
      (* lines 207-209, and the call of line 215 when the B team sleeps on *)
      | FParFor (PF_wake_a job wake_b_team) :: rest =>
          let s1 := halide_cond_broadcast wakeup_a_team s in
          if wake_b_team then
            Some (set_frames t (FParFor (PF_wake_b job) :: rest) s1)
          else
            Some (set_frames t
                    (FWorker (Some job) W_entry :: FParFor (PF_work job)
                     :: rest) s1)
      (* lines 211-215 *)
      | FParFor (PF_wake_b job) :: rest =>
          let s1 := halide_cond_broadcast wakeup_b_team s in
          Some (set_frames t
                  (FWorker (Some job) W_entry :: FParFor (PF_work job) :: rest)
                  s1)
      (* line 219 *)
      | FParFor (PF_return job) :: FTask (ParFor _ _ _ _ _ k) :: rest =>
          match heap s !! job with
          | None => None
          | Some w => Some (set_frames t (FTask (k (exit_status w)) :: rest) s)
          end
      (* worker_thread from its first line *)
      | FWorker o W_entry :: rest => worker_loop t o rest s
      (* worker_thread after a wait *)
      | FWorker o (W_woken c) :: rest => worker_loop t o rest (after_wait c s)
      (* worker_thread after the task: lines 115-129, then the loop *)
      | FTask (Ret result) :: FWorker o (W_task job myjob) :: rest =>
          match finish_task o job myjob result s with
          | None => None
          | Some s1 => worker_loop t o rest s1
          end
      (* a call of halide_shutdown_thread_pool: lines 232-241 *)
      | FTask (Shutdown k) :: rest =>
          if thread_pool_initialized s then
            Some (set_frames t (FShutdown (SD_join 0) :: frames)
                    (shutdown_enter s))
          else Some (set_frames t (FTask k :: rest) s)
      (* lines 244-255 *)
      | FShutdown (SD_join i) :: FTask (Shutdown k) :: rest =>
          if i <? num_threads s - 1 then
            match threads (work_queue s) !! Z.to_nat i with
            | Some (Some th) =>
                if exited s th then
                  Some (set_frames t
                          (FShutdown (SD_join (wrap (i + 1))) ::
                           FTask (Shutdown k) :: rest) s)
                else None
            | _ => None
            end
          else
            Some (set_frames t (FTask k :: rest) (shutdown_leave s))
      | _ => None
      end
  end.

(** ** The system: threads interleaved *)

(** The clients' side of the contract of section 4.4: shutdown is called
    from client code only (never from inside a task), when no client thread
    has a call of the pool in progress; and no client starts a parallel-for
    while a shutdown is in progress. *)
Definition in_call (fs : list frame) : bool :=
  match last fs with
  | Some (FTask _) => (1 <? length fs)%nat
  | _ => false
  end.

Definition is_shutdown_frame (fr : frame) : bool :=
  match fr with
  | FShutdown _ => true
  | _ => false
  end.

Definition in_shutdown (fs : list frame) : bool := existsb is_shutdown_frame fs.

Definition contract (t : tid) (s : state) : bool :=
  match pool s !! t with
  | Some (FTask (Shutdown _) :: rest) =>
      bool_decide (rest = []) && forallb (fun fs => negb (in_call fs)) (pool s)
  | Some [FTask (ParFor _ _ _ _ _ _)] =>
      forallb (fun fs => negb (in_shutdown fs)) (pool s)
  | _ => true
  end.

(** A sleeping thread may also wake with no broadcast (a spurious wake-up of
    the condition variable). *)
Inductive step (h : host) : state -> state -> Prop :=
| step_thread t s s' :
    contract t s = true -> thread_step h t s = Some s' -> step h s s'
| step_spurious t s o c rest :
    pool s !! t = Some (FWorker o (W_wait c) :: rest) ->
    step h s (set_frames t (FWorker o (W_woken c) :: rest) s).

(** Before the first call: the queue is zero-initialised, [n] is the value
    of [num_threads] (zero unless it was set), each client thread is about
    to run its code. *)
Definition init_state (n : Z) (clients : list prog) : state :=
  mk_state n false
    (mk_queue None 0 0 (replicate 64 None) false false false) []
    ((fun p => [FTask p]) <$> clients) [].

Inductive reachable (h : host) (s0 : state) : state -> Prop :=
| reachable_init : reachable h s0 s0
| reachable_step s s' : reachable h s0 s -> step h s s' -> reachable h s0 s'.

(** Run the threads in the order of [sched]. *)
Fixpoint run (h : host) (sched : list tid) (s : state) : option state :=
  match sched with
  | [] => Some s
  | t :: sched' =>
      if contract t s then
        match thread_step h t s with
        | Some s' => run h sched' s'
        | None => None
        end
      else None
  end.

(** Repeat the transition of one thread. *)
Fixpoint run_thread (h : host) (t : tid) (n : nat) (s : state)
  : option state :=
  match n with
  | O => Some s
  | S n' =>
      match thread_step h t s with
      | Some s' => run_thread h t n' s'
      | None => None
      end
  end.

(** ** The transitions, statement by statement

    [thread_step] cut at the points where the source passes from one group
    of statements to the next.  A transition of [thread_step] taken after a
    wait or after a task is two of these in sequence (see
    [thread_step_prims]); invariants are proved on these. *)
Inductive prim (h : host) (t : tid) (s : state) : state -> Prop :=
| prim_submit task uc min size cl k rest job wake_b_team s1 :
    pool s !! t = Some (FTask (ParFor task uc min size cl k) :: rest) ->
    contract t s = true ->
    par_for_enter h task uc min size cl s = (job, wake_b_team, s1) ->
    prim h t s
      (set_frames t
         (FParFor (PF_wake_a job wake_b_team)
          :: FTask (ParFor task uc min size cl k) :: rest) s1)
| prim_wake_a job wake_b_team rest :
    pool s !! t = Some (FParFor (PF_wake_a job wake_b_team) :: rest) ->
    prim h t s
      (set_frames t
         (if wake_b_team then FParFor (PF_wake_b job) :: rest
          else FWorker (Some job) W_entry :: FParFor (PF_work job) :: rest)
         (halide_cond_broadcast wakeup_a_team s))
| prim_wake_b job rest :
    pool s !! t = Some (FParFor (PF_wake_b job) :: rest) ->
    prim h t s
      (set_frames t
         (FWorker (Some job) W_entry :: FParFor (PF_work job) :: rest)
         (halide_cond_broadcast wakeup_b_team s))
| prim_return job task uc min size cl k rest w :
    pool s !! t =
      Some (FParFor (PF_return job) :: FTask (ParFor task uc min size cl k)
            :: rest) ->
    heap s !! job = Some w ->
    prim h t s (set_frames t (FTask (k (exit_status w)) :: rest) s)
| prim_loop o rest s' :
    pool s !! t = Some (FWorker o W_entry :: rest) ->
    worker_loop t o rest s = Some s' ->
    prim h t s s'
| prim_woken o c rest :
    pool s !! t = Some (FWorker o (W_woken c) :: rest) ->
    prim h t s (set_frames t (FWorker o W_entry :: rest) (after_wait c s))
| prim_finish result o job myjob rest s1 :
    pool s !! t =
      Some (FTask (Ret result) :: FWorker o (W_task job myjob) :: rest) ->
    finish_task o job myjob result s = Some s1 ->
    prim h t s (set_frames t (FWorker o W_entry :: rest) s1)
| prim_shutdown_idle k rest :
    pool s !! t = Some (FTask (Shutdown k) :: rest) ->
    contract t s = true ->
    thread_pool_initialized s = false ->
    prim h t s (set_frames t (FTask k :: rest) s)
| prim_shutdown_enter k rest :
    pool s !! t = Some (FTask (Shutdown k) :: rest) ->
    contract t s = true ->
    thread_pool_initialized s = true ->
    prim h t s
      (set_frames t (FShutdown (SD_join 0) :: FTask (Shutdown k) :: rest)
         (shutdown_enter s))
| prim_join i k rest th :
    pool s !! t = Some (FShutdown (SD_join i) :: FTask (Shutdown k) :: rest) ->
    i < num_threads s - 1 ->
    threads (work_queue s) !! Z.to_nat i = Some (Some th) ->
    exited s th = true ->
    prim h t s
      (set_frames t
         (FShutdown (SD_join (wrap (i + 1))) :: FTask (Shutdown k) :: rest) s)
| prim_shutdown_finish i k rest :
    pool s !! t = Some (FShutdown (SD_join i) :: FTask (Shutdown k) :: rest) ->
    num_threads s - 1 <= i ->
    prim h t s (set_frames t (FTask k :: rest) (shutdown_leave s))
| prim_spurious o c rest :
    pool s !! t = Some (FWorker o (W_wait c) :: rest) ->
    prim h t s (set_frames t (FWorker o (W_woken c) :: rest) s).

Inductive prims (h : host) (s0 : state) : state -> Prop :=
| prims_init : prims h s0 s0
| prims_step t s s' : prims h s0 s -> prim h t s s' -> prims h s0 s'.

(** ** Example hosts, tasks and clients *)

(** The decimal numeral at the head of a string, as libc's [atoi] reads an
    unsigned number. *)
Fixpoint atoi_digits (acc : Z) (str : string) : Z :=
  match str with
  | EmptyString => acc
  | String c rest =>
      let d := Z.of_nat (Ascii.nat_of_ascii c) - 48 in
      if (0 <=? d) && (d <=? 9) then atoi_digits (10 * acc + d) rest else acc
  end.

(** A host with [n] CPUs and an empty environment. *)
Definition host_cpus (n : Z) : host :=
  mk_host (fun _ => None) (atoi_digits 0) n.

(** A host with 8 CPUs where only the legacy variable is set. *)
Definition host_legacy_env (value : string) : host :=
  mk_host (fun name => if String.eqb name "HL_NUMTHREADS" then Some value
                       else None)
    (atoi_digits 0) 8.

(** A task that succeeds at every index. *)
Definition task_ok : halide_task_t := fun _ _ _ => Ret 0.

(** A client that submits one parallel-for and stops with its status. *)
Definition client_par_for (task : halide_task_t) (min size : Z) : prog :=
  ParFor task 0 min size 0 (fun status => Ret status).

(** The state of a run that went through, or the state it started from. *)
Definition state_after (h : host) (sched : list tid) (s : state) : state :=
  default s (run h sched s).

(** Scenario 4: [par_for(0, 0, f)] on a host with two CPUs, just after the
    submitter has pushed the job and released the mutex. *)
Definition empty_job_pushed : state :=
  state_after (host_cpus 2) [0%nat] (init_state 0 [client_par_for task_ok 0 0]).

(** ** Invariant I3 of the specification *)

(** [linked hp fuel head a]: the record at [a] is on the singly linked list
    that starts at [head], followed for at most [fuel] links. *)
Fixpoint linked (hp : list work) (fuel : nat) (head : option addr) (a : addr)
  : bool :=
  match fuel, head with
  | S fuel', Some b =>
      (b =? a)%nat ||
      match hp !! b with
      | Some w => linked hp fuel' (next_job w) a
      | None => false
      end
  | _, _ => false
  end.

(** The job at [a] is on the job stack [work_queue.jobs]. *)
Definition on_stack (s : state) (a : addr) : bool :=
  linked (heap s) (length (heap s)) (jobs (work_queue s)) a.

(** (I3) a job with [next < max] is on the stack, a job with [next == max]
    is not. *)
Definition I3 (s : state) : Prop :=
  forall a w, heap s !! a = Some w ->
    (next w < max w -> on_stack s a = true) /\
    (next w = max w -> on_stack s a = false).

(** ** A nested submission of an empty job *)

(** A task whose body submits an empty parallel-for. *)
Definition task_nested_empty : halide_task_t :=
  fun _ _ _ => ParFor task_ok 0 0 0 0 (fun status => Ret status).

(** [par_for(0, 2, i => par_for(0, 0, task_ok))] *)
Definition client_nested_empty : prog := client_par_for task_nested_empty 0 2.

(** The state of the single thread of a pool of size 1 while it runs the
    inner task at index [k] as an iteration of the outer worker loop: the
    outer job (address 0) has one of its two iterations left, the inner job
    (address 1) is still at the head of the stack with its cursor at
    [k + 1]. *)
Definition spin_state (k : Z) (lg : list event) : state :=
  mk_state 1 true
    (mk_queue (Some 1%nat) 1 1 (replicate 64 None) false false true)
    [mk_work None task_nested_empty 0 1 2 0 0 0;
     mk_work (Some 0%nat) task_ok 0 (k + 1) 0 0 1 0]
    [[FTask (Ret 0);
      FWorker (Some 0%nat) (W_task 1 (mk_work (Some 0%nat) task_ok 0 k 0 0 0 0));
      FParFor (PF_work 0);
      FTask client_nested_empty]]
    lg.

(** ** The exit status and the results of the tasks *)

(** Every address the threads and the queue hold is the address of a job
    record: no lookup of the transitions can fail. *)
Definition frame_valid (hp : list work) (fr : frame) : Prop :=
  match fr with
  | FParFor (PF_wake_a job _) | FParFor (PF_wake_b job)
  | FParFor (PF_work job) | FParFor (PF_return job) =>
      (job < length hp)%nat
  | FWorker o pc =>
      (forall a, o = Some a -> (a < length hp)%nat) /\
      match pc with
      | W_task job _ => (job < length hp)%nat
      | _ => True
      end
  | _ => True
  end.

Definition valid_addrs (s : state) : Prop :=
  (forall a, jobs (work_queue s) = Some a -> (a < length (heap s))%nat) /\
  (forall b w a, heap s !! b = Some w -> next_job w = Some a ->
                 (a < length (heap s))%nat) /\
  (forall t fs, pool s !! t = Some fs -> Forall (frame_valid (heap s)) fs).

(** [exit_status] of a job is zero as long as every result taken back for
    it was zero, and otherwise it is one of the non-zero results taken back
    for it. *)
Definition status_inv (s : state) : Prop :=
  (forall a i r, In (EvReturn a i r) (log s) -> (a < length (heap s))%nat) /\
  (forall a w, heap s !! a = Some w ->
     (exit_status w = 0 /\ forall i r, In (EvReturn a i r) (log s) -> r = 0) \/
     (exit_status w <> 0 /\ exists i, In (EvReturn a i (exit_status w)) (log s))).

(** Scenario 2: the task fails with status 7 at index 12. *)
Definition task_fails_at_12 : halide_task_t :=
  fun _ idx _ => if idx =? 12 then Ret 7 else Ret 0.

(** A task that fails with status 7 at every index. *)
Definition task_fails : halide_task_t := fun _ _ _ => Ret 7.

(** [par_for(10, 5, task_fails_at_12)] on a pool of size 1, when the
    submitter is about to return. *)
Definition failing_job_done : state :=
  state_after (host_cpus 1) (replicate 9 0%nat)
    (init_state 0 [client_par_for task_fails_at_12 10 5]).

(** ** The five ways through the worker loop *)

(** The loop condition of [worker_thread] for a thread that owns [o]. *)
Definition loop_condition (o : option addr) (s : state) : option bool :=
  match o with
  | Some a => running <$> heap s !! a
  | None => Some (queue_running (work_queue s))
  end.

Inductive loop_outcome (t : tid) (o : option addr) (rest : list frame)
  (s : state) : state -> Prop :=
| loop_exit :
    loop_condition o s = Some false ->
    loop_outcome t o rest s (set_frames t (worker_return rest) s)
| loop_wait_owners a :
    loop_condition o s = Some true ->
    o = Some a ->
    jobs (work_queue s) = None ->
    loop_outcome t o rest s
      (set_frames t (FWorker o (W_wait wakeup_owners) :: rest) s)
| loop_wait_a_team :
    loop_condition o s = Some true ->
    o = None ->
    jobs (work_queue s) = None ->
    a_team_size (work_queue s) <= target_a_team_size (work_queue s) ->
    loop_outcome t o rest s
      (set_frames t (FWorker o (W_wait wakeup_a_team) :: rest) s)
| loop_wait_b_team :
    loop_condition o s = Some true ->
    o = None ->
    jobs (work_queue s) = None ->
    target_a_team_size (work_queue s) < a_team_size (work_queue s) ->
    loop_outcome t o rest s
      (set_frames t (FWorker o (W_wait wakeup_b_team) :: rest)
         (set_queue
            (set_a_team_size (wrap (a_team_size (work_queue s) - 1))
               (work_queue s)) s))
| loop_claim job w :
    loop_condition o s = Some true ->
    jobs (work_queue s) = Some job ->
    heap s !! job = Some w ->
    loop_outcome t o rest s
      (set_frames t
         (FTask (default_do_task (user_context w) (f w) (next w) (closure w))
          :: FWorker o (W_task job w) :: rest)
         (claim job w s)).

(** ** What a transition does to the job records and to the log *)

Inductive heap_effect (s s' : state) : Prop :=
| effect_none :
    heap s' = heap s -> log s' = log s -> heap_effect s s'
| effect_push w :
    heap s' = heap s ++ [w] ->
    (exists min size, log s' = log s ++ [EvSubmit (length (heap s)) min size]) ->
    exit_status w = 0 -> active_workers w = 0 ->
    heap_effect s s'
| effect_claim job w :
    heap s !! job = Some w ->
    heap s'
    = <[job := set_active_workers (wrap (active_workers w + 1))
                 (set_next (wrap (next w + 1)) w)]> (heap s) ->
    log s' = log s ++ [EvInvoke job (next w)] ->
    heap_effect s s'
| effect_finish job w idx result :
    heap s !! job = Some w ->
    heap s'
    = <[job := set_active_workers
                 (wrap (active_workers
                          (if result =? 0 then w
                           else set_exit_status result w) - 1))
                 (if result =? 0 then w else set_exit_status result w)]>
        (heap s) ->
    log s' = log s ++ [EvReturn job idx result] ->
    heap_effect s s'.

(** ** Invariant I4 of the specification, and what it rests on *)

(** (I4) [a_team_size] and [target_a_team_size] are in [0, num_threads]. *)
Definition I4 (s : state) : Prop :=
  0 <= a_team_size (work_queue s) <= num_threads s /\
  0 <= target_a_team_size (work_queue s) <= num_threads s.

(** The input contract of section 4.3: every parallel-for that the code of
    a client or of a task can submit has [size >= 0]. *)
Inductive sizes_ok : prog -> Prop :=
| sizes_ok_Ret status : sizes_ok (Ret status)
| sizes_ok_ParFor task uc min size cl k :
    0 <= size ->
    (forall a b c, sizes_ok (task a b c)) ->
    (forall status, sizes_ok (k status)) ->
    sizes_ok (ParFor task uc min size cl k)
| sizes_ok_Shutdown k : sizes_ok k -> sizes_ok (Shutdown k).

Definition frame_sizes_ok (fr : frame) : Prop :=
  match fr with
  | FTask p => sizes_ok p
  | _ => True
  end.

Definition heap_sizes_ok (s : state) : Prop :=
  forall a w, heap s !! a = Some w -> forall x y z, sizes_ok (f w x y z).

Definition sizes_inv (s : state) : Prop :=
  (forall t fs, pool s !! t = Some fs -> Forall frame_sizes_ok fs) /\
  heap_sizes_ok s.

(** A [worker_thread] frame with no owned job: the frame of a thread
    spawned by the pool. *)
Definition is_unowned (fr : frame) : bool :=
  match fr with
  | FWorker None _ => true
  | _ => false
  end.

(** A frame that has left the A team: between the decrement of line 88 and
    the increment of line 90. *)
Definition is_b_frame (fr : frame) : bool :=
  match fr with
  | FWorker _ (W_wait wakeup_b_team) | FWorker _ (W_woken wakeup_b_team) => true
  | _ => false
  end.

(** The number of frames of a stack that satisfy [P]. *)
Fixpoint tally (P : frame -> bool) (fs : list frame) : Z :=
  match fs with
  | [] => 0
  | fr :: fs' => Z.b2z (P fr) + tally P fs'
  end.

(** The sum of [F] over the threads of the pool. *)
Fixpoint total (F : list frame -> Z) (pl : list (list frame)) : Z :=
  match pl with
  | [] => 0
  | fs :: pl' => F fs + total F pl'
  end.

(** Only a thread without owned job moves to the B team. *)
Definition b_frame_unowned (fr : frame) : Prop :=
  is_b_frame fr = true -> is_unowned fr = true.

Definition top_not_shutdown (fs : list frame) : Prop :=
  match fs with
  | FShutdown _ :: _ => False
  | _ => True
  end.

(** What broadcasts do to a call stack: nothing, or wake it. *)
Definition wake_like (g : list frame -> list frame) : Prop :=
  forall fs,
    g fs = fs \/
    exists o c rest, fs = FWorker o (W_wait c) :: rest /\
                     g fs = FWorker o (W_woken c) :: rest.

(** The transitions seen from the thread pool: what each one does to the
    stacks, to the pool size and to the team sizes. *)
Inductive astep (s s' : state) : Prop :=
| astep_ordinary t fs fs' g :
    pool s !! t = Some fs ->
    fs <> [] ->
    wake_like g ->
    pool s' = <[t := fs']> (g <$> pool s) ->
    num_threads s' = num_threads s ->
    thread_pool_initialized s' = thread_pool_initialized s ->
    threads (work_queue s') = threads (work_queue s) ->
    target_a_team_size (work_queue s') = target_a_team_size (work_queue s) ->
    (a_team_size (work_queue s') = a_team_size (work_queue s) /\
       tally is_b_frame fs' = tally is_b_frame fs) \/
    (a_team_size (work_queue s') = wrap (a_team_size (work_queue s) - 1) /\
       target_a_team_size (work_queue s) < a_team_size (work_queue s) /\
       tally is_b_frame fs' = tally is_b_frame fs + 1) \/
    (a_team_size (work_queue s') = wrap (a_team_size (work_queue s) + 1) /\
       tally is_b_frame fs' = tally is_b_frame fs - 1) ->
    tally is_unowned fs' <= tally is_unowned fs ->
    (Forall b_frame_unowned fs -> Forall b_frame_unowned fs') ->
    top_not_shutdown fs ->
    (in_shutdown fs' = true -> in_shutdown fs = true) ->
    (in_call fs' = true -> in_call fs = true) ->
    (sizes_inv s -> Forall frame_sizes_ok fs' /\ heap_sizes_ok s') ->
    astep s s'
| astep_submit t task uc min size cl k rest job wb m w :
    pool s !! t = Some (FTask (ParFor task uc min size cl k) :: rest) ->
    pool s'
    = <[t := FParFor (PF_wake_a job wb) :: FTask (ParFor task uc min size cl k)
             :: rest]>
        (pool s ++ replicate m [FWorker None W_entry]) ->
    (rest = [] ->
     forall t' x, pool s !! t' = Some x -> in_shutdown x = false) ->
    heap s' = heap s ++ [w] ->
    f w = task ->
    thread_pool_initialized s' = true ->
    (target_a_team_size (work_queue s') = size /\ size < num_threads s') \/
    target_a_team_size (work_queue s') = num_threads s' ->
    (thread_pool_initialized s = true ->
     m = 0%nat /\ num_threads s' = num_threads s /\
     threads (work_queue s') = threads (work_queue s) /\
     a_team_size (work_queue s') = a_team_size (work_queue s)) ->
    (thread_pool_initialized s = false ->
     m = Z.to_nat (num_threads s' - 1) /\
     1 <= num_threads s' <= MAX_THREADS /\
     a_team_size (work_queue s') = num_threads s' /\
     (length (threads (work_queue s)) = 64%nat ->
      length (threads (work_queue s')) = 64%nat /\
      forall j, (j < m)%nat ->
        threads (work_queue s') !! j = Some (Some (length (pool s) + j)%nat))) ->
    astep s s'
| astep_enter t k g :
    pool s !! t = Some [FTask (Shutdown k)] ->
    (forall t' x, pool s !! t' = Some x -> in_call x = false) ->
    thread_pool_initialized s = true ->
    wake_like g ->
    pool s' = <[t := [FShutdown (SD_join 0); FTask (Shutdown k)]]> (g <$> pool s) ->
    num_threads s' = num_threads s ->
    thread_pool_initialized s' = true ->
    threads (work_queue s') = threads (work_queue s) ->
    target_a_team_size (work_queue s') = target_a_team_size (work_queue s) ->
    a_team_size (work_queue s') = a_team_size (work_queue s) ->
    heap s' = heap s ->
    astep s s'
| astep_join t i k rest th :
    pool s !! t = Some (FShutdown (SD_join i) :: FTask (Shutdown k) :: rest) ->
    i < num_threads s - 1 ->
    threads (work_queue s) !! Z.to_nat i = Some (Some th) ->
    exited s th = true ->
    s' = set_frames t
           (FShutdown (SD_join (wrap (i + 1))) :: FTask (Shutdown k) :: rest)
           s ->
    astep s s'
| astep_finish t i k rest :
    pool s !! t = Some (FShutdown (SD_join i) :: FTask (Shutdown k) :: rest) ->
    num_threads s - 1 <= i ->
    s' = set_frames t (FTask k :: rest) (shutdown_leave s) ->
    astep s s'.

(** At most one thread is inside [halide_shutdown_thread_pool]; while one
    is, the pool is initialised, the workers it has joined so far have
    exited, and no other client has a call in progress. *)
Definition shutdown_inv (s : state) : Prop :=
  (thread_pool_initialized s = true -> 1 <= num_threads s <= MAX_THREADS) /\
  forall t fs, pool s !! t = Some fs -> in_shutdown fs = true ->
    thread_pool_initialized s = true /\
    (exists i k,
       fs = [FShutdown (SD_join i); FTask (Shutdown k)] /\ 0 <= i /\
       forall j, (j < Z.to_nat i)%nat ->
         exists th, threads (work_queue s) !! j = Some (Some th) /\
                    exited s th = true) /\
    (forall t' fs', t' <> t -> pool s !! t' = Some fs' -> in_call fs' = false).

(** The accounting of the teams: the A team and the frames that have left
    it add up to the pool size; the frames of spawned workers are at most
    [num_threads - 1], all in threads whose handle is in
    [work_queue.threads]; there is none when the pool is not initialised. *)
Definition team_inv (s : state) : Prop :=
  I4 s /\
  length (threads (work_queue s)) = 64%nat /\
  (forall t fs, pool s !! t = Some fs -> Forall b_frame_unowned fs) /\
  (thread_pool_initialized s = true ->
     1 <= num_threads s <= MAX_THREADS /\
     a_team_size (work_queue s) + total (tally is_b_frame) (pool s)
     = num_threads s /\
     total (tally is_unowned) (pool s) <= num_threads s - 1 /\
     (forall t fs, pool s !! t = Some fs -> 0 < tally is_unowned fs ->
        exists j, (j < Z.to_nat (num_threads s - 1))%nat /\
                  threads (work_queue s) !! j = Some (Some t)) /\
     (forall j, (j < Z.to_nat (num_threads s - 1))%nat ->
        exists th, threads (work_queue s) !! j = Some (Some th))) /\
  (thread_pool_initialized s = false ->
     total (tally is_unowned) (pool s) = 0).

(** ** Example states of the pool *)

(** [par_for(0, 1, task_ok)] on a host with two CPUs: the submitter runs the
    only task, the spawned worker finds the stack empty with the A team
    larger than its target and parks on the B team. *)
Definition b_team_parked : state :=
  state_after (host_cpus 2) [0; 0; 0; 1]%nat
    (init_state 0 [client_par_for task_ok 0 1]).

(** A client that runs a parallel-for, shuts the pool down and runs a second
    parallel-for. *)
Definition client_restart : prog :=
  ParFor task_ok 0 0 2 0 (fun _ => Shutdown (client_par_for task_ok 0 2)).

(** [client_restart] on a host with two CPUs, when its first parallel-for
    has returned and it is about to call [halide_shutdown_thread_pool]. *)
Definition restart_before_shutdown : state :=
  state_after (host_cpus 2) (replicate 6 0%nat) (init_state 0 [client_restart]).

(** ** Clients that submit non-empty ranges and never shut down *)

(** Every parallel-for the code can submit has [size >= 1] and a range
    [min, min + size] within [int]; there is no call of
    [halide_shutdown_thread_pool]. *)
Inductive calls_pos : prog -> Prop :=
| calls_pos_Ret status : calls_pos (Ret status)
| calls_pos_ParFor task uc min size cl k :
    1 <= size <= INT_MAX -> INT_MIN <= min -> min + size <= INT_MAX ->
    (forall a b c, calls_pos (task a b c)) ->
    (forall status, calls_pos (k status)) ->
    calls_pos (ParFor task uc min size cl k).

(** The indices at which the task of job [a] was invoked, in order. *)
Fixpoint invoked (a : addr) (lg : list event) : list Z :=
  match lg with
  | [] => []
  | EvInvoke job idx :: lg' =>
      if (job =? a)%nat then idx :: invoked a lg' else invoked a lg'
  | _ :: lg' => invoked a lg'
  end.

(** The indices and results of the tasks of job [a] that have returned. *)
Fixpoint returned (a : addr) (lg : list event) : list (Z * Z) :=
  match lg with
  | [] => []
  | EvReturn job idx r :: lg' =>
      if (job =? a)%nat then (idx, r) :: returned a lg' else returned a lg'
  | _ :: lg' => returned a lg'
  end.

(** A frame that executes a claimed iteration of job [a]. *)
Definition is_task_of (a : addr) (fr : frame) : bool :=
  match fr with
  | FWorker _ (W_task job _) => (job =? a)%nat
  | _ => false
  end.

(** [chain hp head l]: [l] is the list of the jobs linked from [head]. *)
Inductive chain (hp : list work) : option addr -> list addr -> Prop :=
| chain_nil : chain hp None []
| chain_cons a w l :
    hp !! a = Some w -> chain hp (next_job w) l -> chain hp (Some a) (a :: l).

Definition pc_job (pc : par_for_pc) : addr :=
  match pc with
  | PF_wake_a job _ | PF_wake_b job | PF_work job | PF_return job => job
  end.

(** Job [a] has no task left and none in progress: [running()] is false. *)
Definition finished (s : state) (a : addr) : Prop :=
  exists w, heap s !! a = Some w /\ next w = max w /\ active_workers w = 0.

(** A well-formed call stack: a [default_do_par_for] frame sits on the call
    that made it and its job was submitted with the arguments of that call;
    a [worker_thread] frame with an owned job sits on the
    [default_do_par_for] frame of that job; a thread is past its worker loop
    only if its job is finished; a [worker_thread] frame without owned job
    is the whole stack of a thread of the pool. *)
Fixpoint stack_ok (s : state) (fs : list frame) : Prop :=
  match fs with
  | [] => True
  | FTask p :: rest => calls_pos p /\ stack_ok s rest
  | FParFor pc :: rest =>
      match rest with
      | FTask (ParFor _ _ min size _ _) :: _ =>
          In (EvSubmit (pc_job pc) min size) (log s) /\
          match pc with
          | PF_return job => finished s job
          | _ => True
          end
      | _ => False
      end /\ stack_ok s rest
  | FWorker (Some a) _ :: rest =>
      match rest with
      | FParFor (PF_work b) :: _ => a = b
      | _ => False
      end /\ stack_ok s rest
  | FWorker None _ :: rest => rest = []
  | FShutdown _ :: _ => False
  end.

(** What holds of the record [w] of job [a], with [l] the job stack: the
    cursor is within the range submitted, the indices below it are those
    invoked so far, once each and in order, [active_workers] counts the
    frames that execute a task of the job and, with the tasks that have
    returned, adds up to the number of indices claimed; the job is on the
    stack exactly while it has an index left. *)
Definition job_ok (s : state) (l : list addr) (a : addr) (w : work) : Prop :=
  exists min size,
    In (EvSubmit a min size) (log s) /\
    1 <= size <= INT_MAX /\ INT_MIN <= min /\ min + size <= INT_MAX /\
    max w = min + size /\
    min <= next w <= max w /\
    invoked a (log s) = seqZ min (next w - min) /\
    active_workers w + Z.of_nat (length (returned a (log s))) = next w - min /\
    active_workers w = total (tally (is_task_of a)) (pool s) /\
    (next w < max w <-> In a l).

Definition jobs_inv (s : state) : Prop :=
  (forall t fs, pool s !! t = Some fs -> stack_ok s fs) /\
  (forall a w, heap s !! a = Some w -> forall x y z, calls_pos (f w x y z)) /\
  (exists l, chain (heap s) (jobs (work_queue s)) l /\ List.NoDup l /\
             forall a w, heap s !! a = Some w -> job_ok s l a w) /\
  (forall a min size,
     In (EvSubmit a min size) (log s) -> (a < length (heap s))%nat) /\
  (forall a m1 s1 m2 s2,
     In (EvSubmit a m1 s1) (log s) -> In (EvSubmit a m2 s2) (log s) ->
     m1 = m2 /\ s1 = s2) /\
  (forall a, (length (heap s) <= a)%nat ->
     invoked a (log s) = [] /\ returned a (log s) = []) /\
  (thread_pool_initialized s = false ->
   heap s = [] /\ jobs (work_queue s) = None).

(** A task whose body submits a parallel-for of one index. *)
Definition task_nested_one : halide_task_t :=
  fun _ _ _ => ParFor task_ok 0 0 1 0 (fun status => Ret status).

(** [par_for(0, 2, i => par_for(0, 1, task_ok))] *)
Definition client_nested_one : prog := client_par_for task_nested_one 0 2.

(** ** One thread alone *)

(** [exit_status] of a job that held [status] after its tasks have given
    back [results], in this order (lines 117-120: a non-zero result
    overwrites the status, a zero result leaves it). *)
Definition record_results (status : Z) (results : list Z) : Z :=
  fold_left (fun st r => if r =? 0 then st else r) results status.

(** The status [p] ends with when every parallel-for in it is a loop over
    its indices in increasing order, each task run to its end before the
    next one starts: the reference for a pool of one thread. *)
Fixpoint sequential (p : prog) : Z :=
  match p with
  | Ret status => status
  | ParFor task uc min size cl k =>
      sequential
        (k (record_results 0
              (List.map (fun idx => sequential (task uc idx cl))
                 (seqZ min size))))
  | Shutdown k => sequential k
  end.

(** The pool has, or will have at its initialisation, one thread: the
    submitter. *)
Definition pool_of_one (h : host) (s : state) : Prop :=
  num_threads (lazy_init h s) = 1 /\
  (thread_pool_initialized s = false -> jobs (work_queue s) = None).

(** From [s] to [s'] the job records of [s] are untouched and every record
    made since is that of a job that is over. *)
Definition heap_kept (s s' : state) : Prop :=
  (forall a w, heap s !! a = Some w -> heap s' !! a = Some w) /\
  (forall a w, heap s' !! a = Some w -> (length (heap s) <= a)%nat ->
               running w = false).

(** [client_restart] from [restart_before_shutdown] on, on a host that now
    reports eight CPUs: the shutdown, the exit of the worker, the join, and
    the submission that initialises the pool again. *)
Definition restart_on_eight_cpus : state :=
  state_after (host_cpus 8) [0; 1; 0; 0; 0]%nat restart_before_shutdown.

(** [failing_job_done] one transition later: the submitter has returned. *)
Definition failing_job_returned : state :=
  state_after (host_cpus 1) [0%nat] failing_job_done.

(** ** The spawned workers *)

(** While the pool is initialised and [shutdown] is not set, each handle in
    [work_queue.threads[0 .. num_threads - 2]] is that of a thread which is
    still inside the call [worker_thread(NULL)] it was spawned with. *)
Definition workers_alive (s : state) : Prop :=
  length (threads (work_queue s)) = 64%nat /\
  (thread_pool_initialized s = true -> shutdown (work_queue s) = false ->
   forall j, (j < Z.to_nat (num_threads s - 1))%nat ->
     exists th fs pc,
       threads (work_queue s) !! j = Some (Some th) /\
       pool s !! th = Some fs /\
       last fs = Some (FWorker None pc)).

(** ** Wake-ups *)

(** The thread sleeps in [halide_cond_wait] on [c]. *)
Definition waits_on (c : cond) (fs : list frame) : bool :=
  match fs with
  | FWorker _ (W_wait c') :: _ => cond_eqb c c'
  | _ => false
  end.

(** The thread has pushed a job and released the mutex (line 204) and has
    not yet broadcast [wakeup_a_team] (line 207). *)
Definition wake_a_pending (fs : list frame) : bool :=
  match fs with
  | FParFor (PF_wake_a _ _) :: _ => true
  | _ => false
  end.

Definition is_wait_frame (fr : frame) : bool :=
  match fr with
  | FWorker _ (W_wait _) => true
  | _ => false
  end.

(** Only the innermost frame of a thread sleeps. *)
Definition no_wait_below (fs : list frame) : Prop :=
  Forall (fun fr => is_wait_frame fr = false) (tail fs).

(** A thread sleeps on [wakeup_a_team] with a job on the stack only while
    the broadcast of the submission that pushed it is still to come. *)
Definition a_team_inv (s : state) : Prop :=
  (forall t fs, pool s !! t = Some fs -> no_wait_below fs) /\
  (jobs (work_queue s) <> None ->
   (exists t fs, pool s !! t = Some fs /\ waits_on wakeup_a_team fs = true) ->
   exists t fs, pool s !! t = Some fs /\ wake_a_pending fs = true).

(** Two parallel-fors of two indices, one after the other. *)
Definition client_twice : prog :=
  ParFor task_ok 0 0 2 0 (fun _ => client_par_for task_ok 0 2).

(** [client_twice] on a host with two CPUs: the first parallel-for has
    returned, the worker has gone to sleep on [wakeup_a_team], the second
    job has just been pushed. *)
Definition second_job_pushed : state :=
  state_after (host_cpus 2) [0; 0; 0; 0; 0; 0; 1; 0]%nat
    (init_state 0 [client_twice]).

(** A frame of the call of [default_do_par_for] that submitted job [a]. *)
Definition is_par_for_of (a : addr) (fr : frame) : bool :=
  match fr with
  | FParFor pc => (pc_job pc =? a)%nat
  | _ => false
  end.

(** A job has the frames of one call of [default_do_par_for] at most; an
    owner asleep on [wakeup_owners] (line 80) has every index of its job
    claimed and a task of it in progress. *)
Definition owner_inv (s : state) : Prop :=
  (forall a, total (tally (is_par_for_of a)) (pool s) <= 1) /\
  (forall t a rest,
     pool s !! t = Some (FWorker (Some a) (W_wait wakeup_owners) :: rest) ->
     exists w, heap s !! a = Some w /\ next w = max w /\
               0 < active_workers w).

(** [par_for(0, 2, task_ok)] on a host with two CPUs: the submitter has run
    index 0, the worker is inside the task at index 1, the submitter has
    found the stack empty and sleeps on [wakeup_owners]. *)
Definition owner_asleep : state :=
  state_after (host_cpus 2) [0; 0; 0; 1; 0]%nat
    (init_state 0 [client_par_for task_ok 0 2]).

(** ** The shape of a call stack *)

(** A frame that waits for the call above it to return: [worker_thread]
    inside [halide_do_task], [default_do_par_for] inside
    [worker_thread(&job)]. *)
Definition is_suspended (fr : frame) : bool :=
  match fr with
  | FWorker _ (W_task _ _) | FParFor (PF_work _) => true
  | _ => false
  end.

(** The innermost frame is where the thread runs. *)
Definition top_ok (fs : list frame) : Prop :=
  match fs with
  | fr :: _ => is_suspended fr = false
  | [] => True
  end.

(** A task claimed from a job submitted before [b]. *)
Definition claimed_before (b : addr) (fr : frame) : Prop :=
  match fr with
  | FWorker _ (W_task job _) => (job < b)%nat
  | _ => True
  end.

(** Code runs at the bottom of a client's stack or as the task of a
    [worker_thread] frame; the job of a call of [default_do_par_for] is
    younger than every job a task of which is under way beneath that call; an
    owner sleeps on [wakeup_owners] only. *)
Fixpoint stack_shape (fs : list frame) : Prop :=
  match fs with
  | [] => True
  | FTask _ :: rest =>
      match rest with
      | [] | FWorker _ (W_task _ _) :: _ => True
      | _ => False
      end /\ stack_shape rest
  | FParFor pc :: rest =>
      Forall (claimed_before (pc_job pc)) rest /\ stack_shape rest
  | FWorker (Some _) (W_wait c) :: rest => c = wakeup_owners /\ stack_shape rest
  | _ :: rest => stack_shape rest
  end.

Definition shape_inv (s : state) : Prop :=
  forall t fs, pool s !! t = Some fs -> top_ok fs /\ stack_shape fs.

(** Thread [t] can take a transition of its own in [s]. *)
Definition can_step (h : host) (s : state) (t : tid) : Prop :=
  contract t s = true /\ is_Some (thread_step h t s).

(** Two threads on a host with two CPUs, in the middle of
    [par_for(0, 2, i => par_for(0, 1, task_ok))]: the submitter sleeps on
    [wakeup_owners] for the outer job while the worker, inside the task at
    index 1, is about to submit the inner job. *)
Definition nested_owner_asleep : state :=
  state_after (host_cpus 2) [0; 0; 0; 1; 0; 0; 0; 0; 0; 0]%nat
    (init_state 0 [client_nested_one]).

(** ** Shutdown and restart *)

(** Whenever [shutdown] is set in an initialised pool, some thread is inside
    [halide_shutdown_thread_pool]: the flag is set at line 237 and cleared by
    the next initialisation only (line 142). *)
Definition shutdown_flag_inv (s : state) : Prop :=
  thread_pool_initialized s = true -> shutdown (work_queue s) = true ->
  exists t fs, pool s !! t = Some fs /\ in_shutdown fs = true.

(** The call stack of a thread for which no job is outstanding: a client
    outside any call of the pool, a spawned worker in its loop with no task
    claimed (at its first line, asleep or just woken), or a thread that has
    exited. *)
Definition at_rest (fs : list frame) : bool :=
  match fs with
  | [] | [FTask _] => true
  | [FWorker None pc] =>
      match pc with
      | W_task _ _ => false
      | _ => true
      end
  | _ => false
  end.

(** The precondition of section 4.4 on [halide_shutdown_thread_pool]: no
    job is outstanding, every parallel-for has returned.  (Jobs left on the
    job stack by calls that have returned do not count.) *)
Definition no_job_outstanding (s : state) : bool := forallb at_rest (pool s).

(** Thread [t] is inside [halide_shutdown_thread_pool], in the join loop at
    index [i], in a pool of size [N] with handles [TH]: [shutdown] is set,
    no other thread runs a task or sleeps, the handles
    [TH[0 .. N - 2]] are those of spawned workers, and those below [i] are
    handles of threads that have exited.  [P0] is the pool when the call
    started; its clients have not moved. *)
Definition joining (N : Z) (TH : list (option tid)) (P0 : list (list frame))
  (t : tid) (k : prog) (i : Z) (s : state) : Prop :=
  pool s !! t = Some [FShutdown (SD_join i); FTask (Shutdown k)] /\
  thread_pool_initialized s = true /\
  shutdown (work_queue s) = true /\
  num_threads s = N /\
  threads (work_queue s) = TH /\
  length (pool s) = length P0 /\
  (forall t' fs, t' <> t -> pool s !! t' = Some fs ->
     at_rest fs = true /\ forall o c rest, fs <> FWorker o (W_wait c) :: rest) /\
  (forall t' p, t' <> t -> P0 !! t' = Some [FTask p] ->
     pool s !! t' = Some [FTask p]) /\
  (forall j, (j < Z.to_nat (N - 1))%nat ->
     exists th fs, TH !! j = Some (Some th) /\ th <> t /\
                   pool s !! th = Some fs /\ forall p, fs <> [FTask p]) /\
  (forall j, (j < Z.to_nat i)%nat ->
     exists th, TH !! j = Some (Some th) /\ exited s th = true).

(** The states the system can reach from [s1], by the transitions of any
    threads, while thread [t] stays inside [halide_shutdown_thread_pool]. *)
Inductive inside_shutdown (h : host) (t : tid) (s1 : state) : state -> Prop :=
| inside_start : inside_shutdown h t s1 s1
| inside_step s s' fs :
    inside_shutdown h t s1 s ->
    step h s s' ->
    pool s' !! t = Some fs ->
    in_shutdown fs = true ->
    inside_shutdown h t s1 s'.

(** [client_restart] on a host with two CPUs, when its first parallel-for
    has returned and the spawned worker has gone to sleep on
    [wakeup_a_team]: the client is about to call
    [halide_shutdown_thread_pool]. *)
Definition restart_worker_asleep : state :=
  state_after (host_cpus 2) [0; 0; 0; 0; 0; 1; 0]%nat
    (init_state 0 [client_restart]).

(** ** One thread running while the others stand still *)

(** What a broadcast may have done to the call stack of a thread that has
    not run: nothing, or turned its wait into a wake-up. *)
Definition woken_from (fs fs' : list frame) : Prop :=
  fs' = fs \/
  exists o c rest, fs = FWorker o (W_wait c) :: rest /\
                   fs' = FWorker o (W_woken c) :: rest.

(** Between [s] and [s'] no thread but [t] has run. *)
Definition others_woken (t : tid) (s s' : state) : Prop :=
  length (pool s') = length (pool s) /\
  forall t' fs, t' <> t -> pool s !! t' = Some fs ->
    exists fs', pool s' !! t' = Some fs' /\ woken_from fs fs'.

(** The pool is the same: its size, its latch, its A team, its handles,
    its shutdown flag and its primitives. *)
Definition same_pool (s s' : state) : Prop :=
  num_threads s' = num_threads s /\
  thread_pool_initialized s' = thread_pool_initialized s /\
  a_team_size (work_queue s') = a_team_size (work_queue s) /\
  threads (work_queue s') = threads (work_queue s) /\
  shutdown (work_queue s') = shutdown (work_queue s) /\
  mutex_destroyed (work_queue s') = mutex_destroyed (work_queue s) /\
  conds_ready (work_queue s') = conds_ready (work_queue s).

(** From [s] to [s'] thread [t] has run alone and has left the pool as it
    was. *)
Definition solo (t : tid) (s s' : state) : Prop :=
  same_pool s s' /\ others_woken t s s'.

(** No thread but [t] is inside [halide_shutdown_thread_pool]. *)
Definition calm (t : tid) (s : state) : Prop :=
  forall t' fs, t' <> t -> pool s !! t' = Some fs -> in_shutdown fs = false.

(** Thread [t], about to run [p] in an initialised pool, can run it to its
    end with no other thread taking a step; [p] ends with the status of its
    sequential reading, the job stack is as it was and no job made on the
    way is still running. *)
Definition runs_solo (h : host) (t : tid) (p : prog) : Prop :=
  forall s rest,
    pool s !! t = Some (FTask p :: rest) ->
    thread_pool_initialized s = true ->
    calm t s ->
    exists steps s',
      run h (replicate steps t) s = Some s' /\
      pool s' !! t = Some (FTask (Ret (sequential p)) :: rest) /\
      solo t s s' /\
      jobs (work_queue s') = jobs (work_queue s) /\
      heap_kept s s'.

(** ** The primitives *)

(** The outermost frame of a thread is client code or the call
    [worker_thread(NULL)] the thread was spawned with. *)
Definition bottom_ok (fs : list frame) : Prop :=
  match last fs with
  | None | Some (FTask _) | Some (FWorker None _) => True
  | _ => False
  end.

(** A thread that is not inside the code of the pool. *)
Definition outside_pool (fs : list frame) : Prop :=
  fs = [] \/ exists p, fs = [FTask p].

(** The condition variables are initialised exactly while the pool is, and
    no thread is inside the code of the pool while it is not. *)
Definition primitives_inv (s : state) : Prop :=
  conds_ready (work_queue s) = thread_pool_initialized s /\
  (forall t fs, pool s !! t = Some fs -> bottom_ok fs) /\
  (thread_pool_initialized s = false ->
   forall t fs, pool s !! t = Some fs -> outside_pool fs).

(** ** Submissions with any range *)

(** The claims it takes to unlink a job whose cursor is [n]: the test of
    line 99 succeeds when the incremented cursor equals [max]; for a cursor
    at or beyond [max] that takes a trip around the [int] range. *)
Definition claims_left (n mx : Z) : Z :=
  let d := (mx - n) mod 2 ^ 32 in
  if d =? 0 then 2 ^ 32 else d.

(** Thread [t] at the head of the loop of [worker_thread(&o)], in state [s]
    with the mutex held, can run on its own to a state that satisfies
    [P]. *)
Definition loop_from (h : host) (t : tid) (o : addr) (R : list frame)
  (s : state) (P : state -> Prop) : Prop :=
  exists steps s',
    match worker_loop t (Some o) R s with
    | Some s1 => run h (replicate steps t) s1
    | None => None
    end = Some s' /\ P s'.

(** From [s] to [s'] no job record has been lost, and those outside [X] are
    as they were. *)
Definition kept_except (X : list addr) (s s' : state) : Prop :=
  (length (heap s) <= length (heap s'))%nat /\
  forall a w, a ∉ X -> heap s !! a = Some w -> heap s' !! a = Some w.

(** The job at address [E], with no task in progress, can be taken off the
    head of the job stack by thread [t] alone, from the loop of any owner
    whose own job is still running: [t] claims from [E] until the cursor
    meets [max]. *)
Definition clearable (h : host) (t : tid) (E : addr) (J : option addr)
  (task : halide_task_t) (uc mx cl : Z) : Prop :=
  forall o R s n st P,
    is_Some (pool s !! t) ->
    thread_pool_initialized s = true ->
    jobs (work_queue s) = Some E ->
    heap s !! E = Some (mk_work J task uc n mx cl 0 st) ->
    INT_MIN <= n <= INT_MAX ->
    (o < E)%nat ->
    (exists wo, heap s !! o = Some wo /\ next wo < max wo) ->
    (forall s2,
       solo t s s2 ->
       jobs (work_queue s2) = J ->
       kept_except [E] s s2 ->
       loop_from h t o R s2 P) ->
    loop_from h t o R s P.

(** The jobs [L], youngest first, are linked on the job stack from [top]
    down to [base]; each has no task in progress and can be cleared. *)
Fixpoint left_over (h : host) (t : tid) (hp : list work) (top : option addr)
  (L : list addr) (base : option addr) : Prop :=
  match L with
  | [] => top = base
  | E :: L' =>
      top = Some E /\
      Forall (fun E' => (E' < E)%nat) L' /\
      exists w,
        hp !! E = Some w /\
        active_workers w = 0 /\
        INT_MIN <= next w <= INT_MAX /\
        INT_MIN <= max w <= INT_MAX /\
        clearable h t E (next_job w) (f w) (user_context w) (max w)
          (closure w) /\
        left_over h t hp (next_job w) L' base
  end.

(** Thread [t], about to run [p] in an initialised pool, can run it to its
    end with no other thread taking a step.  The jobs it leaves on the job
    stack can be cleared. *)
Definition completes (h : host) (t : tid) (p : prog) : Prop :=
  forall s rest,
    pool s !! t = Some (FTask p :: rest) ->
    thread_pool_initialized s = true ->
    (rest = [] -> calm t s) ->
    exists steps s' v L,
      run h (replicate steps t) s = Some s' /\
      pool s' !! t = Some (FTask (Ret v) :: rest) /\
      solo t s s' /\
      kept_except [] s s' /\
      left_over h t (heap s') (jobs (work_queue s')) L (jobs (work_queue s)) /\
      Forall (fun E => (length (heap s) <= E)%nat) L.

(** Code whose parallel-fors take C [int]s and that does not call
    [halide_shutdown_thread_pool]. *)
Inductive calls_int : prog -> Prop :=
| calls_int_Ret status : calls_int (Ret status)
| calls_int_ParFor task uc min size cl k :
    INT_MIN <= min <= INT_MAX ->
    INT_MIN <= size <= INT_MAX ->
    (forall a b c, calls_int (task a b c)) ->
    (forall status, calls_int (k status)) ->
    calls_int (ParFor task uc min size cl k).

(** * Properties *)

(** ** Arithmetic on [int] *)

Lemma wrap_small z : INT_MIN <= z <= INT_MAX -> wrap z = z.
Proof.
  unfold wrap, INT_MIN, INT_MAX. intros Hz.
  rewrite Z.mod_small; lia.
Qed.

Lemma wrap_range z : INT_MIN <= wrap z <= INT_MAX.
Proof.
  unfold wrap, INT_MIN, INT_MAX.
  pose proof (Z.mod_pos_bound (z + 2 ^ 31) (2 ^ 32)). lia.
Qed.

(** ** Call stacks and the pool *)

Lemma set_frames_twice t fs1 fs2 s :
  set_frames t fs1 (set_frames t fs2 s) = set_frames t fs1 s.
Proof.
  unfold set_frames, set_pool. cbn. by rewrite list_insert_insert_eq.
Qed.

Lemma pool_set_frames_eq t fs s :
  is_Some (pool s !! t) -> pool (set_frames t fs s) !! t = Some fs.
Proof.
  intros Hl. cbn. apply list_lookup_insert_eq. by apply lookup_lt_is_Some.
Qed.

Lemma pool_set_frames_ne t t' fs s :
  t <> t' -> pool (set_frames t fs s) !! t' = pool s !! t'.
Proof. intros Hne. cbn. by apply list_lookup_insert_ne. Qed.

Lemma worker_loop_set_frames t o rest fs s :
  worker_loop t o rest (set_frames t fs s) = worker_loop t o rest s.
Proof.
  unfold worker_loop, claim, set_frames, set_pool, set_queue, set_heap,
    set_log; cbn.
  repeat case_match; simplify_eq; cbn; rewrite ?list_insert_insert_eq; done.
Qed.

Lemma pool_broadcast c s t :
  pool (halide_cond_broadcast c s) !! t = wake c <$> pool s !! t.
Proof. apply list_lookup_fmap. Qed.

Lemma finish_task_pool o job myjob r s s1 t :
  finish_task o job myjob r s = Some s1 ->
  pool s1 !! t = pool s !! t \/
  pool s1 !! t = wake wakeup_owners <$> pool s !! t.
Proof.
  unfold finish_task. destruct (heap s !! job) as [w|]; [|done].
  intros [= <-]. destruct (negb _ && negb _).
  - right. by rewrite pool_broadcast.
  - by left.
Qed.

(** ** [thread_step] is one or two statement-level transitions *)

Lemma thread_step_prims h t s s' :
  contract t s = true ->
  thread_step h t s = Some s' ->
  prim h t s s' \/ exists s1, prim h t s s1 /\ prim h t s1 s'.
Proof.
  intros Hc. unfold thread_step.
  destruct (pool s !! t) as [frames|] eqn:Hp; [|done].
  destruct frames as [|[p|pc|o pc|pc] rest]; [done|..].
  - destruct p as [r|task uc min size cl k|k].
    + destruct rest as [|[|?|o [| | |job myjob]|?] rest]; try done.
      destruct (finish_task o job myjob r s) as [s1|] eqn:Hf; [|done].
      intros Hl. right.
      exists (set_frames t (FWorker o W_entry :: rest) s1). split.
      * by eapply prim_finish.
      * eapply prim_loop.
        -- eapply pool_set_frames_eq.
           destruct (finish_task_pool _ _ _ _ _ _ t Hf) as [-> | ->];
             rewrite Hp; eauto.
        -- by rewrite worker_loop_set_frames.
    + destruct (par_for_enter h task uc min size cl s) as [[job wb] s1] eqn:He.
      intros [= <-]. left. by eapply prim_submit.
    + destruct (thread_pool_initialized s) eqn:Hi; intros [= <-]; left.
      * by eapply prim_shutdown_enter.
      * by eapply prim_shutdown_idle.
  - destruct pc as [job wb|job|job|job].
    + intros Hs. left.
      replace s' with
        (set_frames t
           (if wb then FParFor (PF_wake_b job) :: rest
            else FWorker (Some job) W_entry :: FParFor (PF_work job) :: rest)
           (halide_cond_broadcast wakeup_a_team s))
        by (destruct wb; congruence).
      by eapply prim_wake_a.
    + intros [= <-]. left. by eapply prim_wake_b.
    + done.
    + destruct rest as [|[[|task uc min size cl k|]|?|? ?|?] rest]; try done.
      destruct (heap s !! job) as [w|] eqn:Hw; [|done].
      intros [= <-]. left. by eapply prim_return.
  - destruct pc as [|c|c|job myjob]; try done.
    + intros Hl. left. by eapply prim_loop.
    + intros Hl. right.
      exists (set_frames t (FWorker o W_entry :: rest) (after_wait c s)).
      split; [by eapply prim_woken|].
      eapply prim_loop.
      * eapply pool_set_frames_eq. destruct c; cbn; rewrite Hp; eauto.
      * by rewrite worker_loop_set_frames.
  - destruct pc as [i].
    destruct rest as [|[[| |k]|?|? ?|?] rest]; try done.
    destruct (i <? num_threads s - 1) eqn:Hi.
    + destruct (threads (work_queue s) !! Z.to_nat i) as [[th|]|] eqn:Ht;
        try done.
      destruct (exited s th) eqn:He; [|done].
      intros [= <-]. left. eapply prim_join; eauto. lia.
    + intros [= <-]. left. eapply prim_shutdown_finish; eauto. lia.
Qed.

Lemma step_prims h s0 s s' : prims h s0 s -> step h s s' -> prims h s0 s'.
Proof.
  intros Hr Hst. destruct Hst as [t s s' Hc Hs|t s o c rest Hp].
  - destruct (thread_step_prims _ _ _ _ Hc Hs) as [H1|(sm & H1 & H2)].
    + by eapply prims_step.
    + eapply prims_step; [|exact H2]. by eapply prims_step.
  - eapply prims_step; [exact Hr|]. by eapply prim_spurious.
Qed.

Lemma reachable_prims h s0 s : reachable h s0 s -> prims h s0 s.
Proof.
  induction 1 as [|s s' _ IH Hs]; [constructor|]. by eapply step_prims.
Qed.

Lemma reachable_trans h s0 s1 s2 :
  reachable h s0 s1 -> reachable h s1 s2 -> reachable h s0 s2.
Proof.
  intros H1 H2. induction H2 as [|s s' _ IH Hs]; [done|].
  by eapply reachable_step.
Qed.

Lemma run_reachable h sched s s' :
  run h sched s = Some s' -> reachable h s s'.
Proof.
  revert s. induction sched as [|t sched IH]; intros s; cbn.
  - intros [= <-]. constructor.
  - destruct (contract t s) eqn:Hc; [|done].
    destruct (thread_step h t s) as [s1|] eqn:Hs; [|done].
    intros Hr. eapply reachable_trans; [|by apply IH].
    eapply reachable_step; [constructor|]. by eapply step_thread.
Qed.

(** ** Lazy initialisation *)

Lemma spawn_workers_frame count i s :
  num_threads (spawn_workers count i s) = num_threads s /\
  thread_pool_initialized (spawn_workers count i s)
    = thread_pool_initialized s /\
  heap (spawn_workers count i s) = heap s /\
  log (spawn_workers count i s) = log s /\
  jobs (work_queue (spawn_workers count i s)) = jobs (work_queue s) /\
  a_team_size (work_queue (spawn_workers count i s))
    = a_team_size (work_queue s) /\
  target_a_team_size (work_queue (spawn_workers count i s))
    = target_a_team_size (work_queue s) /\
  shutdown (work_queue (spawn_workers count i s)) = shutdown (work_queue s) /\
  length (threads (work_queue (spawn_workers count i s)))
    = length (threads (work_queue s)).
Proof.
  revert i s. induction count as [|count IH]; intros i s; [done|].
  cbn [spawn_workers halide_spawn_thread].
  match goal with
  | |- context [spawn_workers count (S i) ?x] =>
      destruct (IH (S i) x) as (-> & -> & -> & -> & -> & -> & -> & -> & ->)
  end.
  cbn. by rewrite length_insert.
Qed.

Lemma spawn_workers_pool count i s :
  pool (spawn_workers count i s)
  = pool s ++ replicate count [FWorker None W_entry].
Proof.
  revert i s. induction count as [|count IH]; intros i s; cbn.
  - by rewrite app_nil_r.
  - rewrite IH. cbn. by rewrite <- app_assoc.
Qed.

Lemma spawn_workers_threads_before count i s j :
  (j < i)%nat ->
  threads (work_queue (spawn_workers count i s)) !! j
  = threads (work_queue s) !! j.
Proof.
  revert i s. induction count as [|count IH]; intros i s Hj; [done|].
  cbn. rewrite IH by lia. cbn. apply list_lookup_insert_ne. lia.
Qed.

Lemma spawn_workers_threads count i s j :
  (i + count <= length (threads (work_queue s)))%nat ->
  (j < count)%nat ->
  threads (work_queue (spawn_workers count i s)) !! (i + j)%nat
  = Some (Some (length (pool s) + j)%nat).
Proof.
  revert i s j. induction count as [|count IH]; intros i s j Hlen Hj; [lia|].
  cbn. destruct j as [|j].
  - rewrite Nat.add_0_r, spawn_workers_threads_before by lia. cbn.
    rewrite Nat.add_0_r. apply list_lookup_insert_eq. lia.
  - replace (i + S j)%nat with (S i + j)%nat by lia.
    rewrite IH; cbn; rewrite ?length_insert, ?length_app; cbn; try lia.
    do 2 f_equal. lia.
Qed.

Lemma clamp_num_threads_spec n :
  clamp_num_threads n = Z.max 1 (Z.min MAX_THREADS n).
Proof.
  unfold clamp_num_threads, MAX_THREADS.
  destruct (64 <? n) eqn:H1; [lia|]. destruct (n <? 1) eqn:H2; lia.
Qed.

Lemma lazy_init_initialized h s :
  thread_pool_initialized s = true -> lazy_init h s = s.
Proof. unfold lazy_init. by intros ->. Qed.

(** What [lazy_init] leaves in the state of a pool that was not initialised. *)
Lemma lazy_init_fresh h s :
  thread_pool_initialized s = false ->
  let n := clamp_num_threads (choose_num_threads h (num_threads s)) in
  num_threads (lazy_init h s) = n /\
  thread_pool_initialized (lazy_init h s) = true /\
  heap (lazy_init h s) = heap s /\
  log (lazy_init h s) = log s /\
  jobs (work_queue (lazy_init h s)) = None /\
  a_team_size (work_queue (lazy_init h s)) = n /\
  target_a_team_size (work_queue (lazy_init h s))
    = target_a_team_size (work_queue s) /\
  shutdown (work_queue (lazy_init h s)) = false /\
  length (threads (work_queue (lazy_init h s)))
    = length (threads (work_queue s)) /\
  pool (lazy_init h s)
    = pool s ++ replicate (Z.to_nat (n - 1)) [FWorker None W_entry].
Proof.
  intros Hi. unfold lazy_init. rewrite Hi. cbn.
  set (n := clamp_num_threads (choose_num_threads h (num_threads s))).
  set (s2 := set_num_threads n _).
  destruct (spawn_workers_frame (Z.to_nat (n - 1)) 0 s2)
    as (E1 & E2 & E3 & E4 & E5 & E6 & E7 & E8 & E9).
  rewrite E1, E3, E4, E5, E7, E8, E9, spawn_workers_pool. done.
Qed.

Lemma lazy_init_threads h s i :
  thread_pool_initialized s = false ->
  length (threads (work_queue s)) = 64%nat ->
  (i < Z.to_nat (num_threads (lazy_init h s) - 1))%nat ->
  threads (work_queue (lazy_init h s)) !! i
  = Some (Some (length (pool s) + i)%nat).
Proof.
  intros Hi Hlen. destruct (lazy_init_fresh h s Hi) as (-> & _).
  unfold lazy_init. rewrite Hi. cbn.
  set (n := clamp_num_threads (choose_num_threads h (num_threads s))).
  intros Hlt.
  assert (1 <= n <= 64) by (subst n; rewrite clamp_num_threads_spec;
                            unfold MAX_THREADS; lia).
  match goal with
  | |- threads (work_queue (spawn_workers ?c 0 ?x)) !! _ = _ =>
      apply (spawn_workers_threads c 0 x i)
  end; cbn; [|done].
  rewrite Hlen. lia.
Qed.

(** C7.  Lazy initialisation chooses the pool size.  When a submission finds
    the pool not initialised and [num_threads] still zero, the size is read
    from [HL_NUM_THREADS]; if that variable is absent, from the legacy
    [HL_NUMTHREADS]; if both are absent it is the host CPU count.  A value
    of [num_threads] set beforehand is kept.  In every case the value is
    then clamped into [1, MAX_THREADS], with [MAX_THREADS = 64], and exactly
    [num_threads - 1] threads are spawned, each at the top of
    [worker_thread] with no owned job, their handles stored in
    [work_queue.threads[0 .. num_threads - 2]]. *)
Theorem lazy_init_pool_size h task uc min size cl s :
  thread_pool_initialized s = false ->
  length (threads (work_queue s)) = 64%nat ->
  let s' := (par_for_enter h task uc min size cl s).2 in
  let clamp := fun n => Z.max 1 (Z.min 64 n) in
  (num_threads s = 0 ->
   forall str, getenv h "HL_NUM_THREADS" = Some str ->
   num_threads s' = clamp (atoi h str)) /\
  (num_threads s = 0 ->
   getenv h "HL_NUM_THREADS" = None ->
   forall str, getenv h "HL_NUMTHREADS" = Some str ->
   num_threads s' = clamp (atoi h str)) /\
  (num_threads s = 0 ->
   getenv h "HL_NUM_THREADS" = None ->
   getenv h "HL_NUMTHREADS" = None ->
   num_threads s' = clamp (halide_host_cpu_count h)) /\
  (num_threads s <> 0 -> num_threads s' = clamp (num_threads s)) /\
  MAX_THREADS = 64 /\
  1 <= num_threads s' <= MAX_THREADS /\
  thread_pool_initialized s' = true /\
  pool s'
  = pool s ++ replicate (Z.to_nat (num_threads s' - 1)) [FWorker None W_entry] /\
  (forall i, (i < Z.to_nat (num_threads s' - 1))%nat ->
   threads (work_queue s') !! i = Some (Some (length (pool s) + i)%nat)).
Proof.
  intros Hi Hlen s' clamp.
  assert (Hn : num_threads s' = num_threads (lazy_init h s)) by done.
  assert (Hp : pool s' = pool (lazy_init h s)) by done.
  assert (Ht : threads (work_queue s') = threads (work_queue (lazy_init h s)))
    by done.
  assert (Hti : thread_pool_initialized s'
                = thread_pool_initialized (lazy_init h s)) by done.
  rewrite Hn, Hp, Ht, Hti. clear Hn Hp Ht Hti s'.
  destruct (lazy_init_fresh h s Hi) as (En & Ei & _ & _ & _ & _ & _ & _ & _ & Ep).
  cbn zeta in En, Ep. rewrite <- En in Ep. rewrite clamp_num_threads_spec in En.
  change MAX_THREADS with 64 in *. fold (clamp (choose_num_threads h (num_threads s))) in En.
  repeat split.
  - intros H0 str Hs. rewrite En. unfold choose_num_threads.
    by rewrite H0, Hs.
  - intros H0 H1 str Hs. rewrite En. unfold choose_num_threads.
    by rewrite H0, H1, Hs.
  - intros H0 H1 H2. rewrite En. unfold choose_num_threads.
    by rewrite H0, H1, H2.
  - intros H0. rewrite En. unfold choose_num_threads.
    destruct (num_threads s =? 0) eqn:E; [lia|done].
  - rewrite En. unfold clamp. lia.
  - rewrite En. unfold clamp. lia.
  - exact Ei.
  - exact Ep.
  - intros i Hlt. by apply lazy_init_threads.
Qed.

Lemma lazy_init_pool_size_witness :
  let s := init_state 0 [client_par_for task_ok 0 5] in
  let s' := (par_for_enter (host_legacy_env "3") task_ok 0 0 5 0 s).2 in
  thread_pool_initialized s = false /\
  length (threads (work_queue s)) = 64%nat /\
  num_threads s' = 3 /\
  length (pool s') = 3%nat.
Proof.
  intros s s'.
  destruct (lazy_init_pool_size (host_legacy_env "3") task_ok 0 0 5 0 s
              eq_refl eq_refl) as (_ & Hleg & _ & _ & _ & _ & _ & Hpool & _).
  split; [reflexivity|]. split; [reflexivity|]. split.
  - exact (Hleg eq_refl eq_refl "3"%string eq_refl).
  - fold s' in Hpool. rewrite Hpool. reflexivity.
Defined.

(** C6.  Team sizing on submission.  In the critical section of
    [default_do_par_for], after lazy initialisation and before the job is
    pushed, [target_a_team_size] becomes [size] when the job stack is empty
    and [size < num_threads], and [num_threads] in every other case.  The
    job is pushed afterwards: its [next_job] is the stack the test saw. *)
Theorem submit_sets_target_a_team_size h task uc min size cl s :
  let s1 := lazy_init h s in
  let s' := (par_for_enter h task uc min size cl s).2 in
  let job := (par_for_enter h task uc min size cl s).1.1 in
  (jobs (work_queue s1) = None /\ size < num_threads s1 ->
   target_a_team_size (work_queue s') = size) /\
  (~ (jobs (work_queue s1) = None /\ size < num_threads s1) ->
   target_a_team_size (work_queue s') = num_threads s1) /\
  num_threads s' = num_threads s1 /\
  jobs (work_queue s') = Some job /\
  heap s' !! job
  = Some (mk_work (jobs (work_queue s1)) task uc min (wrap (min + size)) cl 0 0) /\
  (thread_pool_initialized s = true -> s1 = s).
Proof.
  intros s1 s' job. subst s' job. unfold par_for_enter. fold s1. cbn.
  repeat split.
  - intros [Hj Hlt]. destruct (bool_decide _) eqn:E1.
    + destruct (size <? num_threads s1) eqn:E; [done|lia].
    + by apply bool_decide_eq_false_1 in E1.
  - intros Hn. destruct (bool_decide _) eqn:E1; [|done].
    destruct (size <? num_threads s1) eqn:E2; [|done].
    exfalso. apply Hn. split; [|lia].
    by apply bool_decide_eq_true in E1.
  - by rewrite list_lookup_middle.
  - apply lazy_init_initialized.
Qed.

(** C5.  The claim step does not guard against a job with no task left.
    When the worker loop runs with a job at the head of the stack whose
    cursor has reached or passed its bound ([max <= next]; [next = max] is
    the state in which a job of size 0 is pushed), it increments [next]
    (from [max] to [max + 1]), the test [next == max] fails, so the job
    stays at the head of the stack, and the task is invoked at the index
    [next] it found (the out-of-range index [max]).  The state it leaves
    has [max < next] again, so the same holds for every later claim: the
    job is never unlinked.  [next < INT_MAX] keeps the increment defined. *)
Theorem claim_does_not_guard_empty_job t o rest s job w :
  is_Some (pool s !! t) ->
  match o with
  | Some a => running <$> heap s !! a
  | None => Some (queue_running (work_queue s))
  end = Some true ->
  jobs (work_queue s) = Some job ->
  heap s !! job = Some w ->
  max w <= next w ->
  INT_MIN <= next w < INT_MAX ->
  exists s' w',
    worker_loop t o rest s = Some s' /\
    heap s' !! job = Some w' /\
    next w' = next w + 1 /\
    max w' = max w /\
    max w' < next w' /\
    active_workers w' = wrap (active_workers w + 1) /\
    jobs (work_queue s') = Some job /\
    pool s' !! t
    = Some (FTask (f w (user_context w) (next w) (closure w))
            :: FWorker o (W_task job w) :: rest) /\
    log s' = log s ++ [EvInvoke job (next w)].
Proof.
  intros Ht Hcond Hj Hw Hge Hr. unfold worker_loop.
  rewrite Hcond, Hj, Hw.
  eexists _, (set_active_workers (wrap (active_workers w + 1))
                (set_next (wrap (next w + 1)) w)).
  split; [reflexivity|].
  assert (Hwrap : wrap (next w + 1) = next w + 1)
    by (apply wrap_small; unfold INT_MIN, INT_MAX in *; lia).
  assert (Hne : (wrap (next w + 1) =? max w) = false) by lia.
  unfold claim. cbn. rewrite Hne. cbn.
  split; [|repeat split; try done; try lia].
  - apply list_lookup_insert_eq. by eapply lookup_lt_Some.
  - apply list_lookup_insert_eq. by apply lookup_lt_is_Some.
Qed.

Lemma claim_does_not_guard_empty_job_witness :
  let s := empty_job_pushed in
  let w := mk_work None task_ok 0 0 0 0 0 0 in
  heap s !! 0%nat = Some w /\
  jobs (work_queue s) = Some 0%nat /\
  next w = max w /\
  exists s' w',
    worker_loop 1 None [] s = Some s' /\
    heap s' !! 0%nat = Some w' /\
    next w' = 1 /\
    jobs (work_queue s') = Some 0%nat /\
    log s' = [EvSubmit 0 0 0; EvInvoke 0 0].
Proof.
  intros s w. split; [reflexivity|]. split; [reflexivity|].
  split; [reflexivity|].
  destruct (claim_does_not_guard_empty_job 1 None [] s 0 w)
    as (s' & w' & H1 & H2 & H3 & _ & _ & _ & H4 & _ & H5).
  - by eexists.
  - reflexivity.
  - reflexivity.
  - reflexivity.
  - cbn. lia.
  - cbn. unfold INT_MIN, INT_MAX. lia.
  - exists s', w'. repeat split; assumption.
Defined.

(** ** The empty job: [par_for] with [size == 0] *)

(** C1 at its failing input.  [par_for(0, 0, task_ok)] on a host with two
    CPUs.  The job is pushed with [next == max], so it sits on the stack.
    If the spawned worker runs before the submitter enters its worker loop,
    it claims index 0 of the empty range; the submitter then finds
    [active_workers > 0], stays in its loop and itself claims index 1: after
    these four steps the task has been invoked twice and the call has not
    returned.  If the submitter runs first, it returns 0 at once, and
    the worker invokes the task at index 0 afterwards. *)
Theorem par_for_size_zero_invokes_task :
  let h := host_cpus 2 in
  let s0 := init_state 0 [client_par_for task_ok 0 0] in
  (exists s, run h [0; 1; 0; 0]%nat s0 = Some s /\
     log s = [EvSubmit 0 0 0; EvInvoke 0 0; EvInvoke 0 1] /\
     pool s !! 0%nat
     = Some [FTask (Ret 0);
             FWorker (Some 0%nat)
               (W_task 0 (mk_work None task_ok 0 1 0 0 1 0));
             FParFor (PF_work 0);
             FTask (client_par_for task_ok 0 0)]) /\
  (exists s, run h [0; 0; 0; 0; 1]%nat s0 = Some s /\
     pool s !! 0%nat = Some [FTask (Ret 0)] /\
     log s = [EvSubmit 0 0 0; EvInvoke 0 0]).
Proof.
  intros h s0. split; eexists; (split; [vm_compute; reflexivity|]);
    split; reflexivity.
Qed.

(** C3 at its failing input.  [par_for(0, 0, task_ok)] on a host with two
    CPUs: the submitter's worker loop sees [running()] false and leaves; the
    worker then claims from the job, which is still on the stack; the
    submitter returns (status 0) while the worker is inside the task of its
    job and the job's [running()] is true. *)
Theorem par_for_size_zero_returns_while_running :
  let h := host_cpus 2 in
  let s0 := init_state 0 [client_par_for task_ok 0 0] in
  exists s w,
    run h [0; 0; 0; 1; 0]%nat s0 = Some s /\
    pool s !! 0%nat = Some [FTask (Ret 0)] /\
    pool s !! 1%nat
    = Some [FTask (Ret 0);
            FWorker None (W_task 0 (mk_work None task_ok 0 0 0 0 0 0))] /\
    heap s !! 0%nat = Some w /\
    active_workers w = 1 /\
    running w = true.
Proof.
  intros h s0. eexists _, _. split; [vm_compute; reflexivity|].
  repeat split; reflexivity.
Qed.

(** C4 at its failing input.  After the submission of
    [par_for(0, 0, task_ok)] the job has [next == max] and is on the stack:
    a reachable state in which I3 does not hold. *)
Theorem I3_broken_by_empty_job :
  let h := host_cpus 2 in
  let s0 := init_state 0 [client_par_for task_ok 0 0] in
  reachable h s0 empty_job_pushed /\
  (exists w, heap empty_job_pushed !! 0%nat = Some w /\
             next w = max w /\ on_stack empty_job_pushed 0 = true) /\
  ~ I3 empty_job_pushed.
Proof.
  intros h s0. split; [|split].
  - apply (run_reachable h [0%nat]). reflexivity.
  - eexists. repeat split; reflexivity.
  - intros HI3.
    destruct (HI3 0%nat (mk_work None task_ok 0 0 0 0 0 0) eq_refl) as [_ H].
    specialize (H eq_refl). discriminate H.
Qed.

(** ** Nested submission of an empty job on a pool of one thread *)

Lemma run_thread_app h t n m s :
  run_thread h t (n + m) s
  = match run_thread h t n s with
    | Some s1 => run_thread h t m s1
    | None => None
    end.
Proof.
  revert s. induction n as [|n IH]; intros s; cbn; [done|].
  destruct (thread_step h t s); [apply IH|done].
Qed.

Lemma spin_start :
  run_thread (host_cpus 1) 0 9 (init_state 0 [client_nested_empty])
  = Some (spin_state 0
            [EvSubmit 0 0 2; EvInvoke 0 0; EvSubmit 1 0 0; EvReturn 0 0 0;
             EvInvoke 1 0]).
Proof. vm_compute. reflexivity. Qed.

Lemma spin_step h k lg :
  0 <= k -> k + 2 <= INT_MAX ->
  thread_step h 0 (spin_state k lg)
  = Some (spin_state (k + 1) (lg ++ [EvReturn 1 k 0; EvInvoke 1 (k + 1)])).
Proof.
  intros Hk Hmax. unfold INT_MAX in Hmax.
  assert (E1 : (k + 1 <? 0) = false) by lia.
  assert (E2 : wrap (k + 1 + 1) = k + 1 + 1)
    by (apply wrap_small; unfold INT_MIN, INT_MAX; lia).
  assert (E3 : (k + 1 + 1 =? 0) = false) by lia.
  unfold thread_step, spin_state, finish_task, running, set_active_workers.
  cbn -[wrap Z.ltb Z.add Z.sub].
  change (wrap (1 - 1)) with 0. rewrite E1. change (0 <? 0) with false.
  change (bool_decide (Some 0%nat = Some 1%nat)) with false.
  cbn -[wrap Z.ltb Z.add Z.sub].
  unfold worker_loop, running, claim, set_active_workers, set_next.
  cbn -[wrap Z.ltb Z.add Z.sub Z.eqb].
  change (1 <? 2) with true. rewrite E2, E3.
  cbn -[wrap Z.ltb Z.add Z.sub Z.eqb].
  change (wrap (0 + 1)) with 1.
  unfold set_frames, set_pool, set_log, set_heap, set_queue.
  cbn -[wrap Z.ltb Z.add Z.sub Z.eqb].
  by rewrite <- app_assoc.
Qed.

Lemma spin_rounds (n : nat) :
  Z.of_nat n + 2 <= INT_MAX ->
  exists lg,
    run_thread (host_cpus 1) 0 (9 + n) (init_state 0 [client_nested_empty])
    = Some (spin_state (Z.of_nat n) lg) /\
    In (EvInvoke 1 (Z.of_nat n)) lg.
Proof.
  induction n as [|n IH]; intros Hn.
  - eexists. split; [apply spin_start|]. cbn. auto 10.
  - destruct IH as (lg & Hrun & Hin); [lia|].
    exists (lg ++ [EvReturn 1 (Z.of_nat n) 0; EvInvoke 1 (Z.of_nat n + 1)]).
    replace (9 + S n)%nat with ((9 + n) + 1)%nat by lia.
    rewrite run_thread_app, Hrun. cbn [run_thread].
    rewrite spin_step by lia.
    replace (Z.of_nat (S n)) with (Z.of_nat n + 1) by lia.
    split; [done|]. apply in_or_app. right. cbn. auto.
Qed.



(** ** What a submission does to the state *)

Lemma lazy_init_heap h s : heap (lazy_init h s) = heap s.
Proof.
  destruct (thread_pool_initialized s) eqn:Hi.
  - by rewrite lazy_init_initialized.
  - by destruct (lazy_init_fresh h s Hi) as (_ & _ & -> & _).
Qed.

Lemma lazy_init_log h s : log (lazy_init h s) = log s.
Proof.
  destruct (thread_pool_initialized s) eqn:Hi.
  - by rewrite lazy_init_initialized.
  - by destruct (lazy_init_fresh h s Hi) as (_ & _ & _ & -> & _).
Qed.

Lemma lazy_init_jobs h s :
  jobs (work_queue (lazy_init h s))
  = if thread_pool_initialized s then jobs (work_queue s) else None.
Proof.
  destruct (thread_pool_initialized s) eqn:Hi.
  - by rewrite lazy_init_initialized.
  - by destruct (lazy_init_fresh h s Hi) as (_ & _ & _ & _ & -> & _).
Qed.

Lemma lazy_init_pool h s :
  exists m, pool (lazy_init h s)
            = pool s ++ replicate m [FWorker None W_entry].
Proof.
  destruct (thread_pool_initialized s) eqn:Hi.
  - exists 0%nat. by rewrite lazy_init_initialized, app_nil_r.
  - destruct (lazy_init_fresh h s Hi) as (_ & _ & _ & _ & _ & _ & _ & _ & _ & ->).
    by eexists.
Qed.

Lemma par_for_enter_effect h task uc min size cl s job wb s1 :
  par_for_enter h task uc min size cl s = (job, wb, s1) ->
  job = length (heap s) /\
  heap s1
  = heap s ++ [mk_work (jobs (work_queue (lazy_init h s))) task uc min
                 (wrap (min + size)) cl 0 0] /\
  log s1 = log s ++ [EvSubmit job min size] /\
  jobs (work_queue s1) = Some job /\
  pool s1 = pool (lazy_init h s) /\
  num_threads s1 = num_threads (lazy_init h s) /\
  thread_pool_initialized s1 = thread_pool_initialized (lazy_init h s) /\
  a_team_size (work_queue s1) = a_team_size (work_queue (lazy_init h s)) /\
  threads (work_queue s1) = threads (work_queue (lazy_init h s)) /\
  shutdown (work_queue s1) = shutdown (work_queue (lazy_init h s)) /\
  target_a_team_size (work_queue s1)
  = (if bool_decide (jobs (work_queue (lazy_init h s)) = None)
        && (size <? num_threads (lazy_init h s))
     then size else num_threads (lazy_init h s)) /\
  wb = (a_team_size (work_queue (lazy_init h s)) <? size).
Proof.
  unfold par_for_enter. intros [= <- <- <-]. cbn.
  by rewrite lazy_init_heap, lazy_init_log.
Qed.

(** ** Lookups in the pool after a transition *)

Lemma lookup_set_frames t fs s t' x :
  pool (set_frames t fs s) !! t' = Some x ->
  (t' = t /\ x = fs) \/ (t' <> t /\ pool s !! t' = Some x).
Proof.
  cbn. intros H. apply list_lookup_insert_Some in H.
  destruct H as [(-> & -> & _)|[? ?]]; auto.
Qed.

Lemma lookup_broadcast c s t x :
  pool (halide_cond_broadcast c s) !! t = Some x ->
  exists x0, pool s !! t = Some x0 /\ x = wake c x0.
Proof.
  rewrite pool_broadcast. destruct (pool s !! t) as [x0|]; [|done].
  intros [= <-]. eauto.
Qed.

Lemma lookup_spawned (pl : list (list frame)) m t x :
  (pl ++ replicate m [FWorker None W_entry]) !! t = Some x ->
  pl !! t = Some x \/
  ((length pl <= t)%nat /\ x = [FWorker None W_entry]).
Proof.
  intros H. apply lookup_app_Some in H. destruct H as [H|[Hle H]]; [auto|].
  right. split; [done|]. apply lookup_replicate in H. by destruct H.
Qed.

Lemma wake_cases c fs :
  wake c fs = fs \/
  exists o rest, fs = FWorker o (W_wait c) :: rest /\
                 wake c fs = FWorker o (W_woken c) :: rest.
Proof.
  destruct fs as [|[?|?|o [|c'|?|? ?]|?] rest]; cbn; auto.
  destruct c, c'; cbn; eauto.
Qed.

(** ** No dangling address *)

Lemma frame_valid_mono hp hp' fr :
  (length hp <= length hp')%nat -> frame_valid hp fr -> frame_valid hp' fr.
Proof.
  intros Hle. destruct fr as [?|[]|o []|?]; cbn; try done; try lia.
  all: intros [Ho Hj]; split; [intros a Ha; specialize (Ho a Ha); lia|];
    try done; lia.
Qed.

Lemma frames_valid_mono hp hp' fs :
  (length hp <= length hp')%nat ->
  Forall (frame_valid hp) fs -> Forall (frame_valid hp') fs.
Proof.
  intros Hle H. eapply Forall_impl; [exact H|].
  intros fr. by apply frame_valid_mono.
Qed.

Lemma frames_valid_wake hp c fs :
  Forall (frame_valid hp) fs -> Forall (frame_valid hp) (wake c fs).
Proof.
  destruct (wake_cases c fs) as [->|(o & rest & -> & ->)]; [done|].
  intros H. inversion H; subst. constructor; [|done]. done.
Qed.

(** ** The worker loop by cases *)

Lemma worker_loop_outcome t o rest s s' :
  worker_loop t o rest s = Some s' -> loop_outcome t o rest s s'.
Proof.
  unfold worker_loop. fold (loop_condition o s).
  destruct (loop_condition o s) as [[|]|] eqn:Hc; [| |done].
  - destruct (jobs (work_queue s)) as [job|] eqn:Hj.
    + destruct (heap s !! job) as [w|] eqn:Hw; [|done].
      intros [= <-]. by apply loop_claim.
    + destruct o as [a|].
      * intros [= <-]. by eapply loop_wait_owners.
      * destruct (_ <=? _) eqn:Hle; intros [= <-].
        -- apply loop_wait_a_team; auto. lia.
        -- apply loop_wait_b_team; auto. lia.
  - intros [= <-]. by apply loop_exit.
Qed.

Lemma valid_addrs_prim h t s s' :
  valid_addrs s -> prim h t s s' -> valid_addrs s'.
Proof.
  intros (Hjobs & Hlinks & Hframes) Hp.
  assert (Hrest : forall fr fs, pool s !! t = Some (fr :: fs) ->
            frame_valid (heap s) fr /\ Forall (frame_valid (heap s)) fs).
  { intros fr fs Hl. specialize (Hframes _ _ Hl). by inversion Hframes. }
  destruct Hp as
    [task uc min size cl k rest job wb s1 Hl Hc He
    |job wb rest Hl|job rest Hl|job task uc min size cl k rest w Hl Hw
    |o rest s' Hl Hloop|o c rest Hl|result o job myjob rest s1 Hl Hf
    |k rest Hl Hc Hi|k rest Hl Hc Hi|i k rest th Hl Hi Hth Hex
    |i k rest Hl Hi|o c rest Hl].
  - destruct (par_for_enter_effect _ _ _ _ _ _ _ _ _ _ He)
      as (-> & Hh & _ & Hj & Hpool & _).
    destruct (lazy_init_pool h s) as [m Hm]. rewrite Hm in Hpool.
    assert (Hlen : (length (heap s) <= length (heap s1))%nat)
      by (rewrite Hh, length_app; lia).
    split; [|split].
    + cbn. rewrite Hj. intros a [= <-]. rewrite Hh, length_app. cbn. lia.
    + cbn. intros b w a Hb Ha. rewrite Hh in Hb.
      apply lookup_app_Some in Hb. destruct Hb as [Hb|[_ Hb]].
      * specialize (Hlinks _ _ _ Hb Ha). lia.
      * apply list_lookup_singleton_Some in Hb. destruct Hb as [_ <-].
        cbn in Ha. rewrite lazy_init_jobs in Ha.
        destruct (thread_pool_initialized s); [|done].
        specialize (Hjobs _ Ha). lia.
    + intros t' fs Hfs. apply lookup_set_frames in Hfs. cbn [heap set_frames set_pool].
      destruct Hfs as [[-> ->]|[Hne Hfs]].
      * specialize (Hframes _ _ Hl). constructor.
        -- cbn. rewrite Hh, length_app. cbn. lia.
        -- by eapply frames_valid_mono.
      * rewrite Hpool in Hfs. apply lookup_spawned in Hfs.
        destruct Hfs as [Hfs|[_ ->]].
        -- eapply frames_valid_mono; eauto.
        -- constructor; [|constructor]. cbn. split; [done|done].
  - split; [done|]. split; [done|].
    intros t' fs Hfs. apply lookup_set_frames in Hfs.
    destruct (Hrest _ _ Hl) as [Hfr Hfs'].
    destruct Hfs as [[-> ->]|[Hne Hfs]].
    + destruct wb; repeat constructor; cbn in *; try done.
      intros a [= <-]. done.
    + apply lookup_broadcast in Hfs. destruct Hfs as (x0 & Hx0 & ->).
      apply frames_valid_wake. eauto.
  - split; [done|]. split; [done|].
    intros t' fs Hfs. apply lookup_set_frames in Hfs.
    destruct (Hrest _ _ Hl) as [Hfr Hfs'].
    destruct Hfs as [[-> ->]|[Hne Hfs]].
    + repeat constructor; cbn in *; try done. intros a [= <-]. done.
    + apply lookup_broadcast in Hfs. destruct Hfs as (x0 & Hx0 & ->).
      apply frames_valid_wake. eauto.
  - split; [done|]. split; [done|].
    intros t' fs Hfs. apply lookup_set_frames in Hfs.
    destruct (Hrest _ _ Hl) as [Hfr Hfs'].
    destruct Hfs as [[-> ->]|[Hne Hfs]]; [|eauto].
    inversion Hfs'; subst. by constructor.
  - destruct (Hrest _ _ Hl) as [[Ho _] Hfs'].
    apply worker_loop_outcome in Hloop.
    destruct Hloop as [Hc|a Hc -> Hj|Hc -> Hj Hle|Hc -> Hj Hlt|job w Hc Hj Hw].
    + split; [done|]. split; [done|].
      intros t' fs Hfs. apply lookup_set_frames in Hfs.
      destruct Hfs as [[-> ->]|[Hne Hfs]]; [|eauto].
      destruct rest as [|[?|[]|? ?|?] rest]; cbn; try done.
      inversion Hfs'; subst. by constructor.
    + split; [done|]. split; [done|].
      intros t' fs Hfs. apply lookup_set_frames in Hfs.
      destruct Hfs as [[-> ->]|[Hne Hfs]]; [|eauto].
      by constructor.
    + split; [done|]. split; [done|].
      intros t' fs Hfs. apply lookup_set_frames in Hfs.
      destruct Hfs as [[-> ->]|[Hne Hfs]]; [|eauto].
      by constructor.
    + split; [done|]. split; [done|].
      intros t' fs Hfs. apply lookup_set_frames in Hfs.
      destruct Hfs as [[-> ->]|[Hne Hfs]]; [|eauto].
      by constructor.
    + assert (Hjob : (job < length (heap s))%nat) by by eapply lookup_lt_Some.
      unfold claim, set_frames, set_pool, set_log, set_heap, set_queue.
      split; [|split]; cbn; rewrite ?length_insert.
      * destruct (_ =? _); cbn; [|done]. intros a Ha. eauto.
      * intros b w' a Hb Ha. apply list_lookup_insert_Some in Hb.
        destruct Hb as [(-> & <- & _)|[_ Hb]]; cbn in Ha; eauto.
      * intros t' fs Hfs. apply list_lookup_insert_Some in Hfs.
        destruct Hfs as [(-> & <- & _)|[_ Hfs]].
        -- repeat constructor; cbn; rewrite ?length_insert; try done.
           eapply frames_valid_mono; [|exact Hfs']. by rewrite length_insert.
        -- eapply frames_valid_mono; [|eauto]. by rewrite length_insert.
  - split; [by destruct c|]. split; [by destruct c|].
    destruct (Hrest _ _ Hl) as [[Ho _] Hfs'].
    replace (heap (set_frames t (FWorker o W_entry :: rest) (after_wait c s)))
      with (heap s) by by destruct c.
    intros t' fs Hfs. apply lookup_set_frames in Hfs.
    destruct Hfs as [[-> ->]|[Hne Hfs]].
    + by constructor.
    + replace (pool (after_wait c s)) with (pool s) in Hfs by by destruct c.
      eauto.
  - destruct (Hrest _ _ Hl) as [_ Hfs']. inversion Hfs' as [|? ? Hfr Hfs'']; subst.
    destruct Hfr as [Ho Hjob].
    unfold finish_task in Hf. destruct (heap s !! job) as [w|] eqn:Hw; [|done].
    injection Hf as <-.
    set (w2 := set_active_workers _ _).
    assert (Hkeep : forall s0 : state, heap s0 = <[job:=w2]> (heap s) ->
              jobs (work_queue s0) = jobs (work_queue s) ->
              (forall t' fs, pool s0 !! t' = Some fs ->
                 exists fs0, pool s !! t' = Some fs0 /\
                   (fs = fs0 \/ fs = wake wakeup_owners fs0)) ->
              valid_addrs (set_frames t (FWorker o W_entry :: rest) s0)).
    { intros s0 Hh Hj Hpl. unfold valid_addrs. cbn. rewrite Hh, length_insert, Hj.
      split; [done|]. split.
      - intros b w' a Hb Ha. apply list_lookup_insert_Some in Hb.
        destruct Hb as [(-> & <- & _)|[_ Hb]]; [|eauto].
        subst w2. destruct (result =? 0); cbn in Ha; eauto.
      - intros t' fs Hfs. apply list_lookup_insert_Some in Hfs.
        destruct Hfs as [(-> & <- & _)|[_ Hfs]].
        + eapply frames_valid_mono with (hp := heap s);
            [by rewrite length_insert|].
          by constructor.
        + destruct (Hpl _ _ Hfs) as (fs0 & Hfs0 & [->| ->]).
          * eapply frames_valid_mono; [|eauto]. by rewrite length_insert.
          * apply frames_valid_wake.
            eapply frames_valid_mono; [|eauto]. by rewrite length_insert. }
    destruct (negb _ && negb _).
    + apply Hkeep; [done|done|].
      intros t' fs Hfs. apply lookup_broadcast in Hfs.
      destruct Hfs as (x0 & Hx0 & ->). eauto.
    + apply Hkeep; [done|done|]. intros t' fs Hfs. eauto.
  - split; [done|]. split; [done|].
    intros t' fs Hfs. apply lookup_set_frames in Hfs.
    destruct (Hrest _ _ Hl) as [Hfr Hfs'].
    destruct Hfs as [[-> ->]|[Hne Hfs]]; [|eauto]. by constructor.
  - split; [done|]. split; [done|].
    intros t' fs Hfs. apply lookup_set_frames in Hfs.
    destruct Hfs as [[-> ->]|[Hne Hfs]].
    + constructor; [done|]. eauto.
    + unfold shutdown_enter in Hfs.
      apply lookup_broadcast in Hfs. destruct Hfs as (x2 & Hfs & ->).
      apply lookup_broadcast in Hfs. destruct Hfs as (x1 & Hfs & ->).
      apply lookup_broadcast in Hfs. destruct Hfs as (x0 & Hfs & ->).
      do 3 apply frames_valid_wake. eapply (Hframes t'). exact Hfs.
  - split; [done|]. split; [done|].
    intros t' fs Hfs. apply lookup_set_frames in Hfs.
    destruct (Hrest _ _ Hl) as [Hfr Hfs'].
    destruct Hfs as [[-> ->]|[Hne Hfs]]; [|eauto]. by constructor.
  - split; [done|]. split; [done|].
    intros t' fs Hfs. apply lookup_set_frames in Hfs.
    destruct (Hrest _ _ Hl) as [Hfr Hfs'].
    destruct Hfs as [[-> ->]|[Hne Hfs]]; [|eauto].
    inversion Hfs'; subst. by constructor.
  - split; [done|]. split; [done|].
    intros t' fs Hfs. apply lookup_set_frames in Hfs.
    destruct (Hrest _ _ Hl) as [Hfr Hfs'].
    destruct Hfs as [[-> ->]|[Hne Hfs]]; [|eauto]. by constructor.
Qed.

(** ** The exit status of a job *)

Lemma prim_heap_effect h t s s' : prim h t s s' -> heap_effect s s'.
Proof.
  intros Hp.
  destruct Hp as
    [task uc min size cl k rest job wb s1 Hl Hc He
    |job wb rest Hl|job rest Hl|job task uc min size cl k rest w Hl Hw
    |o rest s' Hl Hloop|o c rest Hl|result o job myjob rest s1 Hl Hf
    |k rest Hl Hc Hi|k rest Hl Hc Hi|i k rest th Hl Hi Hth Hex
    |i k rest Hl Hi|o c rest Hl];
    try (by apply effect_none).
  - destruct (par_for_enter_effect _ _ _ _ _ _ _ _ _ _ He)
      as (-> & Hh & Hlog & _).
    eapply effect_push; [exact Hh|eauto|done|done].
  - apply worker_loop_outcome in Hloop.
    destruct Hloop as [Hc|a Hc -> Hj|Hc -> Hj Hle|Hc -> Hj Hlt|job w Hc Hj Hw];
      try (by apply effect_none).
    by eapply effect_claim.
  - by destruct c; apply effect_none.
  - unfold finish_task in Hf. destruct (heap s !! job) as [w|] eqn:Hw; [|done].
    injection Hf as <-.
    eapply effect_finish with (idx := next myjob); [exact Hw|..];
      by destruct (negb _ && negb _).
Qed.

Lemma status_inv_init n clients : status_inv (init_state n clients).
Proof. split; [done|]. intros a w H. done. Qed.

Lemma status_inv_effect s s' :
  status_inv s -> heap_effect s s' -> status_inv s'.
Proof.
  intros [Hlog Hst] [Hh Hl|w Hh Hl Hex Haw|job w Hw Hh Hl|job w idx r Hw Hh Hl].
  - split.
    + intros a i r. rewrite Hh, Hl. apply Hlog.
    + intros a w Ha. rewrite Hl. rewrite Hh in Ha. eauto.
  - destruct Hl as (mn & sz & Hl).
    assert (Hin : forall a i r, In (EvReturn a i r) (log s') ->
                               In (EvReturn a i r) (log s)).
    { intros a i r. rewrite Hl, in_app_iff. cbn. intros [H|[H|[]]]; done. }
    split.
    + intros a i r H. rewrite Hh, length_app. specialize (Hlog _ _ _ (Hin _ _ _ H)).
      lia.
    + intros a w' Ha. rewrite Hh in Ha. apply lookup_app_Some in Ha.
      destruct Ha as [Ha|[Hge Ha]].
      * destruct (Hst _ _ Ha) as [[E Hz]|[E (i & Hi)]].
        -- left. split; [done|]. eauto.
        -- right. split; [done|]. exists i. rewrite Hl, in_app_iff. auto.
      * apply list_lookup_singleton_Some in Ha. destruct Ha as [Hz <-].
        left. split; [done|]. intros i r H.
        specialize (Hlog _ _ _ (Hin _ _ _ H)). lia.
  - assert (Hin : forall a i r, In (EvReturn a i r) (log s') ->
                               In (EvReturn a i r) (log s)).
    { intros a i r. rewrite Hl, in_app_iff. cbn. intros [H|[H|[]]]; done. }
    split.
    + intros a i r H. rewrite Hh, length_insert. eauto.
    + intros a w' Ha. rewrite Hh in Ha. apply list_lookup_insert_Some in Ha.
      assert (Hex : exists w0, heap s !! a = Some w0 /\
                               exit_status w' = exit_status w0).
      { destruct Ha as [(-> & <- & _)|[_ Ha]]; eauto. }
      destruct Hex as (w0 & Hw0 & ->).
      destruct (Hst _ _ Hw0) as [[E Hz]|[E (i & Hi)]].
      * left. split; [done|]. eauto.
      * right. split; [done|]. exists i. rewrite Hl, in_app_iff. auto.
  - assert (Hjob : (job < length (heap s))%nat) by by eapply lookup_lt_Some.
    split.
    + intros a i r'. rewrite Hl, Hh, length_insert, in_app_iff. cbn.
      intros [H|[H|[]]]; [eauto|by simplify_eq].
    + intros a w' Ha. rewrite Hh in Ha. apply list_lookup_insert_Some in Ha.
      destruct Ha as [(-> & <- & _)|[Hne Ha]].
      * destruct (r =? 0) eqn:Hr; cbn.
        -- assert (r = 0) as -> by lia.
           destruct (Hst _ _ Hw) as [[E Hz]|[E (i & Hi)]].
           ++ left. split; [done|]. intros i r'. rewrite Hl, in_app_iff. cbn.
              intros [H|[H|[]]]; [eauto|by simplify_eq].
           ++ right. split; [done|]. exists i. rewrite Hl, in_app_iff. auto.
        -- right. split; [lia|]. exists idx. rewrite Hl, in_app_iff. cbn. auto.
      * destruct (Hst _ _ Ha) as [[E Hz]|[E (i & Hi)]].
        -- left. split; [done|]. intros i r'. rewrite Hl, in_app_iff. cbn.
           intros [H|[H|[]]]; [eauto|by simplify_eq].
        -- right. split; [done|]. exists i. rewrite Hl, in_app_iff. auto.
Qed.

Lemma valid_addrs_init n clients : valid_addrs (init_state n clients).
Proof.
  split; [done|]. split; [done|]. cbn. intros t fs Hfs.
  rewrite list_lookup_fmap in Hfs. destruct (clients !! t); [|done].
  injection Hfs as <-. by repeat constructor.
Qed.

Lemma prims_invariants h n clients s :
  prims h (init_state n clients) s -> valid_addrs s /\ status_inv s.
Proof.
  induction 1 as [|t s s' _ [IH1 IH2] Hp].
  - split; [apply valid_addrs_init|apply status_inv_init].
  - split; [by eapply valid_addrs_prim|].
    eapply status_inv_effect; [done|]. by eapply prim_heap_effect.
Qed.



(** C2 at its failing input.  [par_for(0, 0, task_fails)] on a host with two
    CPUs.  The submitter pushes the empty job, finds [running()] false and
    leaves its loop (three transitions); the spawned worker then claims
    index 0 from the job that is still on the stack and invokes the task;
    the submitter executes line 219 and returns 0; the task returns 7 (and
    the worker goes on to claim index 1).  One invocation of the task of
    this call has returned a non-zero status and the call has returned
    zero. *)
Theorem par_for_size_zero_misses_failing_task :
  let h := host_cpus 2 in
  let client := client_par_for task_fails 0 0 in
  exists s1 s2 s3,
    run h [0; 0; 0; 1]%nat (init_state 0 [client]) = Some s1 /\
    pool s1 !! 0%nat = Some [FParFor (PF_return 0); FTask client] /\
    log s1 = [EvSubmit 0 0 0; EvInvoke 0 0] /\
    run h [0%nat] s1 = Some s2 /\
    pool s2 !! 0%nat = Some [FTask (Ret 0)] /\
    run h [1%nat] s2 = Some s3 /\
    pool s3 !! 0%nat = Some [FTask (Ret 0)] /\
    log s3 = [EvSubmit 0 0 0; EvInvoke 0 0; EvReturn 0 0 7; EvInvoke 0 1] /\
    exit_status <$> heap s3 !! 0%nat = Some 7.
Proof.
  intros h client. eexists _, _, _.
  split; [vm_compute; reflexivity|]. split; [reflexivity|].
  split; [reflexivity|]. split; [vm_compute; reflexivity|].
  split; [reflexivity|]. split; [vm_compute; reflexivity|].
  split; [reflexivity|]. split; reflexivity.
Qed.

(** ** Broadcasts and the shape of call stacks *)

Lemma wake_like_id : wake_like id.
Proof. intros fs. by left. Qed.

Lemma wake_like_wake c : wake_like (wake c).
Proof.
  intros fs. destruct (wake_cases c fs) as [->|(o & rest & -> & ->)]; eauto 6.
Qed.

Lemma wake_like_compose g1 g2 :
  wake_like g1 -> wake_like g2 -> wake_like (g2 ∘ g1).
Proof.
  intros H1 H2 fs. unfold compose.
  destruct (H1 fs) as [->|(o & c & rest & -> & ->)]; [apply H2|].
  destruct (H2 (FWorker o (W_woken c) :: rest)) as [->|(? & ? & ? & ? & ?)];
    [eauto 6|done].
Qed.

Lemma wake_like_nil g : wake_like g -> g [] = [].
Proof. intros H. destruct (H []) as [->|(? & ? & ? & ? & ?)]; done. Qed.

Lemma wake_like_tally_unowned g fs :
  wake_like g -> tally is_unowned (g fs) = tally is_unowned fs.
Proof. intros H. by destruct (H fs) as [->|(o & c & rest & -> & ->)]. Qed.

Lemma wake_like_tally_b g fs :
  wake_like g -> tally is_b_frame (g fs) = tally is_b_frame fs.
Proof. intros H. by destruct (H fs) as [->|(o & [] & rest & -> & ->)]. Qed.

Lemma wake_like_b_unowned g fs :
  wake_like g -> Forall b_frame_unowned fs -> Forall b_frame_unowned (g fs).
Proof.
  intros H. destruct (H fs) as [->|(o & c & rest & -> & ->)]; [done|].
  intros Hf. inversion Hf as [|? ? Hfr ?]; subst. constructor; [|done].
  unfold b_frame_unowned in *. by destruct c, o.
Qed.

Lemma wake_like_in_shutdown g fs :
  wake_like g -> in_shutdown (g fs) = in_shutdown fs.
Proof. intros H. by destruct (H fs) as [->|(o & c & rest & -> & ->)]. Qed.

Lemma wake_like_in_call g fs : wake_like g -> in_call (g fs) = in_call fs.
Proof.
  intros H. destruct (H fs) as [->|(o & c & rest & -> & ->)]; [done|].
  unfold in_call. by destruct rest.
Qed.

Lemma wake_like_sizes g fs :
  wake_like g -> Forall frame_sizes_ok fs -> Forall frame_sizes_ok (g fs).
Proof.
  intros H. destruct (H fs) as [->|(o & c & rest & -> & ->)]; [done|].
  intros Hf. inversion Hf; subst. by constructor.
Qed.

(** ** Counting frames and threads *)

Lemma tally_nonneg P fs : 0 <= tally P fs.
Proof. induction fs as [|fr fs IH]; cbn; [done|]. destruct (P fr); cbn; lia. Qed.

Lemma tally_b_le_unowned fs :
  Forall b_frame_unowned fs -> tally is_b_frame fs <= tally is_unowned fs.
Proof.
  induction 1 as [|fr fs Hfr _ IH]; cbn; [done|].
  unfold b_frame_unowned in Hfr. destruct (is_b_frame fr); cbn; [|
    destruct (is_unowned fr); cbn; lia].
  rewrite Hfr by done. cbn. lia.
Qed.

Lemma total_nonneg F pl : (forall fs, 0 <= F fs) -> 0 <= total F pl.
Proof.
  intros H. induction pl as [|fs pl IH]; cbn; [done|]. specialize (H fs). lia.
Qed.

Lemma total_app F l1 l2 : total F (l1 ++ l2) = total F l1 + total F l2.
Proof. induction l1 as [|fs l1 IH]; cbn; [done|]. lia. Qed.

Lemma total_replicate F m fs : total F (replicate m fs) = F fs * Z.of_nat m.
Proof. induction m as [|m IH]; cbn [replicate total]; lia. Qed.

Lemma total_fmap F g pl :
  (forall fs, F (g fs) = F fs) -> total F (g <$> pl) = total F pl.
Proof. intros H. induction pl as [|fs pl IH]; cbn; [done|]. by rewrite H, IH. Qed.

Lemma total_insert F pl t fs fs' :
  pl !! t = Some fs ->
  total F (<[t := fs']> pl) = total F pl - F fs + F fs'.
Proof.
  revert t. induction pl as [|x pl IH]; intros [|t] H; try done.
  - cbn in H. injection H as ->. cbn. lia.
  - cbn in H.
    change (total F (x :: <[t:=fs']> pl) = total F (x :: pl) - F fs + F fs').
    cbn [total]. rewrite (IH _ H). lia.
Qed.

Lemma total_zero F pl t fs :
  (forall x, 0 <= F x) -> total F pl = 0 -> pl !! t = Some fs -> F fs = 0.
Proof.
  intros Hnn. revert t. induction pl as [|x pl IH]; intros [|t]; cbn; try done.
  - intros Hc [= ->]. pose proof (total_nonneg F pl Hnn).
    specialize (Hnn fs). lia.
  - intros Hc. apply IH. pose proof (total_nonneg F pl Hnn).
    specialize (Hnn x). lia.
Qed.

Lemma total_all_zero F pl :
  (forall t fs, pl !! t = Some fs -> F fs = 0) -> total F pl = 0.
Proof.
  induction pl as [|x pl IH]; intros H; cbn; [done|].
  rewrite (H 0%nat x eq_refl). cbn. apply IH.
  intros t fs Ht. by apply (H (S t)).
Qed.

Lemma total_le F G pl :
  (forall t fs, pl !! t = Some fs -> F fs <= G fs) ->
  total F pl <= total G pl.
Proof.
  induction pl as [|x pl IH]; intros H; cbn; [done|].
  assert (total F pl <= total G pl)
    by (apply IH; intros t fs Ht; by apply (H (S t))).
  specialize (H 0%nat x eq_refl). lia.
Qed.

(** ** What the contract grants *)

Lemma forallb_lookup (P : list frame -> bool) pl t fs :
  forallb P pl = true -> pl !! t = Some fs -> P fs = true.
Proof.
  intros H Hl. rewrite forallb_forall in H. apply H.
  apply list_elem_of_In. by eapply list_elem_of_lookup_2.
Qed.

Lemma contract_submit t s task uc min size cl k :
  pool s !! t = Some [FTask (ParFor task uc min size cl k)] ->
  contract t s = true ->
  forall t' x, pool s !! t' = Some x -> in_shutdown x = false.
Proof.
  unfold contract. intros -> Hc t' x Hx.
  apply negb_true_iff. by apply (forallb_lookup _ _ _ _ Hc Hx).
Qed.

Lemma contract_shutdown t s k rest :
  pool s !! t = Some (FTask (Shutdown k) :: rest) ->
  contract t s = true ->
  rest = [] /\ forall t' x, pool s !! t' = Some x -> in_call x = false.
Proof.
  unfold contract. intros -> Hc. apply andb_true_iff in Hc.
  destruct Hc as [Hr Hc]. split; [by apply bool_decide_eq_true in Hr|].
  intros t' x Hx. apply negb_true_iff. by apply (forallb_lookup _ _ _ _ Hc Hx).
Qed.

(** ** Calls in progress *)

Lemma in_call_replace_top a b rest : in_call (a :: rest) = in_call (b :: rest).
Proof.
  unfold in_call. destruct rest as [|c rest]; [by destruct a, b|done].
Qed.

Lemma in_call_push a b rest :
  (forall p, b <> FTask p) -> in_call (a :: b :: rest) = in_call (b :: rest).
Proof.
  intros Hb. unfold in_call. destruct rest as [|c rest].
  - cbn. destruct b; try done. by destruct (Hb p).
  - cbn [last length]. by destruct (last (c :: rest)) as [[]|].
Qed.

Lemma in_call_push_deep a b rest :
  rest <> [] -> in_call (a :: b :: rest) = in_call (b :: rest).
Proof.
  intros Hr. unfold in_call. destruct rest as [|c rest]; [done|].
  cbn [last length]. by destruct (last (c :: rest)) as [[]|].
Qed.

Lemma in_call_mono a fs : in_call fs = true -> in_call (a :: fs) = true.
Proof.
  unfold in_call. destruct fs as [|b rest]; [done|].
  cbn [last length]. destruct (last (b :: rest)) as [[]|]; try done.
Qed.

Lemma in_call_worker_return rest : in_call (worker_return rest) = in_call rest.
Proof.
  destruct rest as [|[?|[]|? ?|?] rest]; try done.
  apply in_call_replace_top.
Qed.

Lemma in_shutdown_worker_return rest :
  in_shutdown (worker_return rest) = in_shutdown rest.
Proof. by destruct rest as [|[?|[]|? ?|?] rest]. Qed.

Lemma tally_unowned_worker_return rest :
  tally is_unowned (worker_return rest) = tally is_unowned rest.
Proof. by destruct rest as [|[?|[]|? ?|?] rest]. Qed.

Lemma tally_b_worker_return rest :
  tally is_b_frame (worker_return rest) = tally is_b_frame rest.
Proof. by destruct rest as [|[?|[]|? ?|?] rest]. Qed.

Lemma b_unowned_worker_return rest :
  Forall b_frame_unowned rest -> Forall b_frame_unowned (worker_return rest).
Proof.
  destruct rest as [|[?|[]|? ?|?] rest]; try done.
  intros H. inversion H; subst. by constructor.
Qed.

Lemma sizes_worker_return rest :
  Forall frame_sizes_ok rest -> Forall frame_sizes_ok (worker_return rest).
Proof.
  destruct rest as [|[?|[]|? ?|?] rest]; try done.
  intros H. inversion H; subst. by constructor.
Qed.

Lemma Forall_tail {A} (P : A -> Prop) x l : Forall P (x :: l) -> Forall P l.
Proof. intros H. by inversion H. Qed.

Lemma sizes_inv_frames s t fs :
  sizes_inv s -> pool s !! t = Some fs -> Forall frame_sizes_ok fs.
Proof. intros [H _]. apply H. Qed.

(** ** Every transition is one of the five kinds *)

Lemma heap_sizes_same s s' :
  heap s' = heap s -> heap_sizes_ok s -> heap_sizes_ok s'.
Proof. unfold heap_sizes_ok. by intros ->. Qed.

Lemma heap_sizes_insert s s' job w w' :
  heap s !! job = Some w -> f w' = f w ->
  heap s' = <[job := w']> (heap s) ->
  heap_sizes_ok s -> heap_sizes_ok s'.
Proof.
  intros Hw Hf Hh Hs a w0 Ha. rewrite Hh in Ha.
  apply list_lookup_insert_Some in Ha.
  destruct Ha as [(-> & <- & _)|[_ Ha]]; [rewrite Hf|]; eauto.
Qed.

Ltac frame_facts :=
  cbn [tally is_b_frame is_unowned in_shutdown existsb is_shutdown_frame
       top_not_shutdown Z.b2z orb];
  rewrite ?tally_unowned_worker_return, ?tally_b_worker_return,
    ?in_shutdown_worker_return;
  try done; try lia.

Lemma prim_astep h t s s' : prim h t s s' -> astep s s'.
Proof.
  intros Hp.
  destruct Hp as
    [task uc min size cl k rest job wb s1 Hl Hc He
    |job wb rest Hl|job rest Hl|job task uc min size cl k rest w Hl Hw
    |o rest s' Hl Hloop|o c rest Hl|result o job myjob rest s1 Hl Hf
    |k rest Hl Hc Hi|k rest Hl Hc Hi|i k rest th Hl Hi Hth Hex
    |i k rest Hl Hi|o c rest Hl].
  - (* submission *)
    destruct (par_for_enter_effect _ _ _ _ _ _ _ _ _ _ He)
      as (-> & Hh & _ & _ & Hpool & Hn & Hini & Ha & Hth & _ & Htg & _).
    destruct (thread_pool_initialized s) eqn:Hi.
    + rewrite (lazy_init_initialized h s Hi) in *.
      eapply (astep_submit _ _ t task uc min size cl k rest _ wb 0%nat);
        cbn [pool set_frames set_pool heap num_threads thread_pool_initialized
             work_queue].
      * exact Hl.
      * by rewrite Hpool, app_nil_r.
      * intros ->. by eapply contract_submit.
      * exact Hh.
      * done.
      * by rewrite Hini.
      * rewrite Htg, Hn. destruct (_ && _) eqn:E; [|by right].
        left. split; [done|]. apply andb_true_iff in E. lia.
      * done.
      * intros Hi'. by rewrite Hi' in Hi.
    + destruct (lazy_init_fresh h s Hi)
        as (En & Ei & _ & _ & _ & Ea & _ & _ & Elen & Ep).
      cbn zeta in *.
      eapply (astep_submit _ _ t task uc min size cl k rest _ wb
                (Z.to_nat (num_threads (lazy_init h s) - 1)));
        cbn [pool set_frames set_pool heap num_threads thread_pool_initialized
             work_queue].
      * exact Hl.
      * rewrite Hpool, Ep. by rewrite En.
      * intros ->. by eapply contract_submit.
      * exact Hh.
      * done.
      * by rewrite Hini.
      * rewrite Htg, Hn. destruct (_ && _) eqn:E; [|by right].
        left. split; [done|]. apply andb_true_iff in E. lia.
      * intros Hi'. by rewrite Hi' in Hi.
      * intros _. rewrite Hn, Ha, Hth, Ea, En.
        split; [done|]. split.
        { rewrite clamp_num_threads_spec. unfold MAX_THREADS. lia. }
        split; [done|]. intros Hlen. split; [by rewrite Elen|].
        intros j Hj. rewrite <- En in Hj. by apply lazy_init_threads.
  - (* broadcast of wakeup_a_team *)
    eapply (astep_ordinary _ _ t _ _ (wake wakeup_a_team));
      [exact Hl|done|apply wake_like_wake|done|done|done|done|done|..].
    + left. split; [done|]. by destruct wb.
    + destruct wb; frame_facts.
    + intros H. apply Forall_tail in H. destruct wb; by repeat constructor.
    + done.
    + by destruct wb.
    + destruct wb; [by rewrite (in_call_replace_top _ (FParFor (PF_wake_a job true)))|].
      rewrite in_call_push by done.
      by rewrite (in_call_replace_top _ (FParFor (PF_wake_a job false))).
    + intros Hs. split; [|by destruct Hs].
      pose proof (sizes_inv_frames _ _ _ Hs Hl) as H. apply Forall_tail in H.
      destruct wb; by repeat constructor.
  - (* broadcast of wakeup_b_team *)
    eapply (astep_ordinary _ _ t _ _ (wake wakeup_b_team));
      [exact Hl|done|apply wake_like_wake|done|done|done|done|done|..].
    + by left.
    + frame_facts.
    + intros H. apply Forall_tail in H. by repeat constructor.
    + done.
    + done.
    + rewrite in_call_push by done.
      by rewrite (in_call_replace_top _ (FParFor (PF_wake_b job))).
    + intros Hs. split; [|by destruct Hs].
      pose proof (sizes_inv_frames _ _ _ Hs Hl) as H. apply Forall_tail in H.
      by repeat constructor.
  - (* return from default_do_par_for *)
    eapply (astep_ordinary _ _ t _ _ id);
      [exact Hl|done|apply wake_like_id|by rewrite list_fmap_id
      |done|done|done|done|..].
    + by left.
    + frame_facts.
    + intros H. do 2 apply Forall_tail in H. by repeat constructor.
    + done.
    + done.
    + intros H. apply in_call_mono.
      by rewrite (in_call_replace_top _ (FTask (k (exit_status w)))).
    + intros Hs. split; [|by destruct Hs].
      pose proof (sizes_inv_frames _ _ _ Hs Hl) as H. apply Forall_tail in H.
      inversion H as [|? ? Hk H']; subst. constructor; [|done].
      cbn in Hk. inversion Hk; subst. cbn. auto.
  - (* the worker loop *)
    apply worker_loop_outcome in Hloop.
    destruct Hloop as [Hc|a Hc -> Hj|Hc -> Hj Hle|Hc -> Hj Hlt|job w Hc Hj Hw].
    + eapply (astep_ordinary _ _ t _ _ id);
        [exact Hl|done|apply wake_like_id|by rewrite list_fmap_id
        |done|done|done|done|..].
      * left. split; [done|]. frame_facts.
      * frame_facts. destruct o; cbn; lia.
      * intros H. apply Forall_tail in H. by apply b_unowned_worker_return.
      * done.
      * frame_facts.
      * rewrite in_call_worker_return. intros H. by apply in_call_mono.
      * intros Hs. split; [|by destruct Hs].
        pose proof (sizes_inv_frames _ _ _ Hs Hl) as H. apply Forall_tail in H.
        by apply sizes_worker_return.
    + eapply (astep_ordinary _ _ t _ _ id);
        [exact Hl|done|apply wake_like_id|by rewrite list_fmap_id
        |done|done|done|done|..].
      * by left.
      * frame_facts.
      * intros H. apply Forall_tail in H. by repeat constructor.
      * done.
      * done.
      * by rewrite (in_call_replace_top _ (FWorker (Some a) W_entry)).
      * intros Hs. split; [|by destruct Hs].
        pose proof (sizes_inv_frames _ _ _ Hs Hl) as H. apply Forall_tail in H.
        by repeat constructor.
    + eapply (astep_ordinary _ _ t _ _ id);
        [exact Hl|done|apply wake_like_id|by rewrite list_fmap_id
        |done|done|done|done|..].
      * by left.
      * frame_facts.
      * intros H. apply Forall_tail in H. by repeat constructor.
      * done.
      * done.
      * by rewrite (in_call_replace_top _ (FWorker None W_entry)).
      * intros Hs. split; [|by destruct Hs].
        pose proof (sizes_inv_frames _ _ _ Hs Hl) as H. apply Forall_tail in H.
        by repeat constructor.
    + eapply (astep_ordinary _ _ t _ _ id);
        [exact Hl|done|apply wake_like_id|by rewrite list_fmap_id
        |done|done|done|done|..].
      * right. left. split; [done|]. split; [done|]. frame_facts.
      * frame_facts.
      * intros H. apply Forall_tail in H. by repeat constructor.
      * done.
      * done.
      * by rewrite (in_call_replace_top _ (FWorker None W_entry)).
      * intros Hs. split; [|by destruct Hs].
        pose proof (sizes_inv_frames _ _ _ Hs Hl) as H. apply Forall_tail in H.
        by repeat constructor.
    + eapply (astep_ordinary _ _ t _ _ id);
        [exact Hl|done|apply wake_like_id|by rewrite list_fmap_id
        |done|done|..].
      * unfold claim. cbn. by destruct (_ =? _).
      * unfold claim. cbn. by destruct (_ =? _).
      * left. split; [|frame_facts]. unfold claim. cbn. by destruct (_ =? _).
      * frame_facts.
      * intros H. inversion H; subst. by repeat constructor.
      * done.
      * done.
      * rewrite in_call_push by done.
        by rewrite (in_call_replace_top _ (FWorker o W_entry)).
      * intros [Hfr Hhp]. split.
        -- specialize (Hfr _ _ Hl). apply Forall_tail in Hfr.
           constructor; [|by constructor]. cbn. eapply Hhp; eauto.
        -- eapply heap_sizes_insert; [exact Hw| |reflexivity|done]. done.
  - (* back from a wait *)
    eapply (astep_ordinary _ _ t _ _ id);
      [exact Hl|done|apply wake_like_id|by destruct c; rewrite list_fmap_id
      |by destruct c|by destruct c|by destruct c|by destruct c|..].
    + destruct c; [by left|by left|]. right. right. split; [done|]. frame_facts.
    + frame_facts.
    + intros H. inversion H as [|? ? Hfr H']; subst. by constructor.
    + done.
    + done.
    + by rewrite (in_call_replace_top _ (FWorker o (W_woken c))).
    + intros Hs. split.
      * pose proof (sizes_inv_frames _ _ _ Hs Hl) as H. apply Forall_tail in H.
        by repeat constructor.
      * destruct Hs as [_ Hs]. by destruct c.
  - (* the result of a task *)
    unfold finish_task in Hf. destruct (heap s !! job) as [w|] eqn:Hw; [|done].
    injection Hf as <-.
    set (w2 := set_active_workers _ _).
    destruct (negb (running w2) && negb (bool_decide (o = Some job))).
    + eapply (astep_ordinary _ _ t _ _ (wake wakeup_owners));
        [exact Hl|done|apply wake_like_wake|done|done|done|done|done|..].
      * by left.
      * frame_facts.
      * intros H. do 2 apply Forall_tail in H. by repeat constructor.
      * done.
      * done.
      * rewrite (in_call_replace_top _ (FWorker o (W_task job myjob))).
        intros H. by rewrite in_call_push.
      * intros [Hfr Hhp]. split.
        -- specialize (Hfr _ _ Hl). do 2 apply Forall_tail in Hfr.
           by constructor.
        -- eapply heap_sizes_insert; [exact Hw| |reflexivity|done].
           subst w2. by destruct (result =? 0).
    + eapply (astep_ordinary _ _ t _ _ id);
        [exact Hl|done|apply wake_like_id|by rewrite list_fmap_id
        |done|done|done|done|..].
      * by left.
      * frame_facts.
      * intros H. do 2 apply Forall_tail in H. by repeat constructor.
      * done.
      * done.
      * rewrite (in_call_replace_top _ (FWorker o (W_task job myjob))).
        intros H. by rewrite in_call_push.
      * intros [Hfr Hhp]. split.
        -- specialize (Hfr _ _ Hl). do 2 apply Forall_tail in Hfr.
           by constructor.
        -- eapply heap_sizes_insert; [exact Hw| |reflexivity|done].
           subst w2. by destruct (result =? 0).
  - (* shutdown of a pool that is not initialised *)
    destruct (contract_shutdown _ _ _ _ Hl Hc) as [-> Hcalls].
    eapply (astep_ordinary _ _ t _ _ id);
      [exact Hl|done|apply wake_like_id|by rewrite list_fmap_id
      |done|done|done|done|..].
    + by left.
    + frame_facts.
    + intros H. by repeat constructor.
    + done.
    + done.
    + done.
    + intros Hs. split; [|by destruct Hs].
      pose proof (sizes_inv_frames _ _ _ Hs Hl) as H.
      inversion H as [|? ? Hk H']; subst. constructor; [|done].
      cbn in Hk. by inversion Hk.
  - (* shutdown: lines 236-241 *)
    destruct (contract_shutdown _ _ _ _ Hl Hc) as [-> Hcalls].
    eapply (astep_enter _ _ t k
              (wake wakeup_b_team ∘ wake wakeup_a_team ∘ wake wakeup_owners));
      try done.
    + repeat apply wake_like_compose; apply wake_like_wake.
    + cbn. by rewrite <- !list_fmap_compose.
  - by eapply astep_join.
  - by eapply astep_finish.
  - (* spurious wake-up *)
    eapply (astep_ordinary _ _ t _ _ id);
      [exact Hl|done|apply wake_like_id|by rewrite list_fmap_id
      |done|done|done|done|..].
    + left. split; [done|]. by destruct c.
    + frame_facts.
    + intros H. inversion H as [|? ? Hfr H']; subst. constructor; [|done].
      unfold b_frame_unowned in *. by destruct c.
    + done.
    + done.
    + by rewrite (in_call_replace_top _ (FWorker o (W_wait c))).
    + intros Hs. split; [|by destruct Hs].
      pose proof (sizes_inv_frames _ _ _ Hs Hl) as H. apply Forall_tail in H.
      by repeat constructor.
Qed.

(** ** Lookups in an updated pool *)

Lemma lookup_update (pl : list (list frame)) t (fs' : list frame)
  (g : list frame -> list frame) t' x :
  (<[t := fs']> (g <$> pl)) !! t' = Some x ->
  (t' = t /\ x = fs') \/
  (t' <> t /\ exists x0, pl !! t' = Some x0 /\ x = g x0).
Proof.
  intros H. apply list_lookup_insert_Some in H.
  destruct H as [(-> & -> & _)|[Hne H]]; [by left|right].
  split; [done|]. rewrite list_lookup_fmap in H.
  destruct (pl !! t') as [x0|]; [|done]. injection H as <-. eauto.
Qed.

Lemma lookup_update_spawn (pl : list (list frame)) t (fs' : list frame) m t'
  x :
  (<[t := fs']> (pl ++ replicate m [FWorker None W_entry])) !! t' = Some x ->
  (t' = t /\ x = fs') \/
  (t' <> t /\ pl !! t' = Some x) \/
  (t' <> t /\ (length pl <= t' < length pl + m)%nat /\
   x = [FWorker None W_entry]).
Proof.
  intros H. apply list_lookup_insert_Some in H.
  destruct H as [(-> & -> & _)|[Hne H]]; [by left|right].
  pose proof (lookup_lt_Some _ _ _ H) as Hlt.
  rewrite length_app, length_replicate in Hlt.
  apply lookup_spawned in H. destruct H as [H|[Hle ->]]; [by left|right].
  split; [done|]. split; [lia|done].
Qed.

Lemma exited_update s s' t fs fs' g th :
  pool s !! t = Some fs -> fs <> [] -> wake_like g ->
  pool s' = <[t := fs']> (g <$> pool s) ->
  exited s th = true -> exited s' th = true.
Proof.
  intros Hl Hne Hg Hp. unfold exited. rewrite Hp.
  destruct (pool s !! th) as [[|]|] eqn:Hth; try done. intros _.
  assert (th <> t) by (intros ->; rewrite Hl in Hth; by injection Hth).
  rewrite list_lookup_insert_ne by done.
  rewrite list_lookup_fmap, Hth. cbn. by rewrite (wake_like_nil g).
Qed.

Lemma exited_update_spawn s s' t fs fs' m th :
  pool s !! t = Some fs -> fs <> [] ->
  pool s' = <[t := fs']> (pool s ++ replicate m [FWorker None W_entry]) ->
  exited s th = true -> exited s' th = true.
Proof.
  intros Hl Hne Hp. unfold exited. rewrite Hp.
  destruct (pool s !! th) as [[|]|] eqn:Hth; try done. intros _.
  assert (th <> t) by (intros ->; rewrite Hl in Hth; by injection Hth).
  rewrite list_lookup_insert_ne by done.
  by rewrite (lookup_app_l_Some _ _ _ _ Hth).
Qed.

(** ** The sizes stay non-negative *)

Lemma sizes_inv_astep s s' : sizes_inv s -> astep s s' -> sizes_inv s'.
Proof.
  intros Hs Ha. pose proof Hs as [Hfr Hhp].
  destruct Ha as
    [t fs fs' g Hl Hne Hg Hp _ _ _ _ _ _ _ _ _ _ Hsz
    |t task uc min size cl k rest job wb m w Hl Hp _ Hh Hf _ _ _ _
    |t k g Hl _ _ Hg Hp _ _ _ _ _ Hh
    |t i k rest th Hl _ _ _ ->
    |t i k rest Hl _ ->].
  - destruct (Hsz Hs) as [Hfs' Hhp']. split; [|done].
    intros t' x Hx. rewrite Hp in Hx. apply lookup_update in Hx.
    destruct Hx as [[-> ->]|(_ & x0 & Hx0 & ->)]; [done|].
    apply wake_like_sizes; eauto.
  - specialize (Hfr _ _ Hl) as Hfs. split.
    + intros t' x Hx. rewrite Hp in Hx. apply lookup_update_spawn in Hx.
      destruct Hx as [[-> ->]|[[_ Hx]|(_ & _ & ->)]]; eauto.
      * by constructor.
      * by repeat constructor.
    + intros a w0 Ha. rewrite Hh in Ha. apply lookup_app_Some in Ha.
      destruct Ha as [Ha|[_ Ha]]; [eauto|].
      apply list_lookup_singleton_Some in Ha. destruct Ha as [_ <-].
      rewrite Hf. inversion Hfs as [|? ? Hk _]; subst. cbn in Hk.
      by inversion Hk.
  - split; [|by eapply heap_sizes_same].
    intros t' x Hx. rewrite Hp in Hx. apply lookup_update in Hx.
    destruct Hx as [[-> ->]|(_ & x0 & Hx0 & ->)].
    + specialize (Hfr _ _ Hl). by constructor.
    + apply wake_like_sizes; eauto.
  - split; [|done]. intros t' x Hx. apply lookup_set_frames in Hx.
    destruct Hx as [[-> ->]|[_ Hx]]; [|eauto].
    specialize (Hfr _ _ Hl). apply Forall_tail in Hfr. by constructor.
  - split; [|done]. intros t' x Hx. apply lookup_set_frames in Hx.
    destruct Hx as [[-> ->]|[_ Hx]]; [|eauto].
    specialize (Hfr _ _ Hl). apply Forall_tail in Hfr.
    inversion Hfr as [|? ? Hk Hr]; subst. constructor; [|done].
    cbn in Hk. by inversion Hk.
Qed.

Lemma sizes_inv_init n clients :
  Forall sizes_ok clients -> sizes_inv (init_state n clients).
Proof.
  intros Hc. split; [|done]. cbn. intros t fs Hfs.
  rewrite list_lookup_fmap in Hfs. destruct (clients !! t) as [p|] eqn:Hp; [|done].
  injection Hfs as <-. constructor; [|done]. cbn.
  rewrite Forall_forall in Hc. apply Hc. by eapply list_elem_of_lookup_2.
Qed.

(** ** One shutdown at a time *)

Lemma shutdown_inv_init n clients : shutdown_inv (init_state n clients).
Proof.
  split; [done|]. cbn. intros t fs Hfs.
  rewrite list_lookup_fmap in Hfs. destruct (clients !! t); [|done].
  by injection Hfs as <-.
Qed.

(** A thread in [halide_shutdown_thread_pool] excludes every other. *)
Lemma shutdown_inv_unique s t1 t2 fs1 fs2 :
  shutdown_inv s ->
  pool s !! t1 = Some fs1 -> in_shutdown fs1 = true ->
  pool s !! t2 = Some fs2 -> in_shutdown fs2 = true ->
  t1 = t2.
Proof.
  intros [_ Hsd] H1 Hs1 H2 Hs2.
  destruct (decide (t1 = t2)) as [|Hne]; [done|].
  destruct (Hsd _ _ H1 Hs1) as (_ & _ & Hothers).
  destruct (Hsd _ _ H2 Hs2) as (_ & (i & k & -> & _) & _).
  specialize (Hothers t2 _ (not_eq_sym Hne) H2). done.
Qed.

Lemma shutdown_inv_astep s s' : shutdown_inv s -> astep s s' -> shutdown_inv s'.
Proof.
  intros Hinv Ha. pose proof Hinv as [Hn Hsd].
  destruct Ha as
    [t fs fs' g Hl Hne Hg Hp En Ei Eth _ _ _ _ Htop Hsd' Hcall _
    |t task uc min size cl k rest job wb m w Hl Hp Hcontract _ _ Ei' _ Hini Hfresh
    |t k g Hl Hcalls Hi Hg Hp En Ei Eth _ _ _
    |t i k rest th Hl Hi Hth Hex ->
    |t i k rest Hl Hi ->].
  - (* ordinary *)
    split; [by rewrite En, Ei|].
    intros t1 x Hx Hsx. rewrite Hp in Hx. apply lookup_update in Hx.
    destruct Hx as [[-> ->]|(Hne1 & x0 & Hx0 & ->)].
    + destruct (Hsd _ _ Hl (Hsd' Hsx)) as (_ & (i & k & -> & _) & _). done.
    + rewrite wake_like_in_shutdown in Hsx by done.
      destruct (Hsd _ _ Hx0 Hsx) as (Hi & (i & k & -> & Hi0 & Hj) & Hothers).
      assert (Hgx : g [FShutdown (SD_join i); FTask (Shutdown k)]
                    = [FShutdown (SD_join i); FTask (Shutdown k)]).
      { destruct (Hg [FShutdown (SD_join i); FTask (Shutdown k)])
          as [->|(? & ? & ? & ? & _)]; done. }
      rewrite Hgx. split; [by rewrite Ei|]. split.
      * exists i, k. split; [done|]. split; [done|].
        intros j Hlt. destruct (Hj j Hlt) as (th & Hth & Hex).
        exists th. rewrite Eth. split; [done|].
        by apply (exited_update s s' t fs fs' g).
      * intros t2 x2 Hne2 Hx2. rewrite Hp in Hx2. apply lookup_update in Hx2.
        destruct Hx2 as [[-> ->]|(_ & x3 & Hx3 & ->)].
        -- specialize (Hothers _ _ (not_eq_sym Hne1) Hl).
           destruct (in_call fs') eqn:E; [|done]. by rewrite (Hcall eq_refl) in Hothers.
        -- rewrite wake_like_in_call by done. eauto.
  - (* submission *)
    split.
    { intros _. destruct (thread_pool_initialized s) eqn:Hi.
      - destruct (Hini eq_refl) as (_ & -> & _). auto.
      - by destruct (Hfresh eq_refl) as (_ & ? & _). }
    intros t1 x Hx Hsx. rewrite Hp in Hx. apply lookup_update_spawn in Hx.
    destruct Hx as [[-> ->]|[[Hne1 Hx]|(_ & _ & ->)]]; [| |done].
    + assert (Hs : in_shutdown (FTask (ParFor task uc min size cl k) :: rest)
                   = true) by done.
      by destruct (Hsd _ _ Hl Hs) as (_ & (? & ? & ? & _) & _).
    + destruct (Hsd _ _ Hx Hsx) as (Hi & (i & k0 & -> & Hi0 & Hj) & Hothers).
      destruct (Hini Hi) as (-> & En & Eth & _).
      split; [done|]. split.
      * exists i, k0. split; [done|]. split; [done|].
        intros j Hlt. destruct (Hj j Hlt) as (th & Hth & Hex).
        exists th. rewrite Eth. split; [done|].
        eapply (exited_update_spawn s s' t); [exact Hl|done|exact Hp|done].
      * intros t2 x2 Hne2 Hx2. rewrite Hp in Hx2.
        apply lookup_update_spawn in Hx2.
        destruct Hx2 as [[-> ->]|[[_ Hx2]|(_ & _ & ->)]]; [|eauto|done].
        specialize (Hothers _ _ (not_eq_sym Hne1) Hl).
        destruct rest as [|r rest].
        -- by rewrite (Hcontract eq_refl _ _ Hx) in Hsx.
        -- by rewrite in_call_push_deep.
  - (* shutdown entered *)
    split; [intros _; rewrite En; auto|].
    intros t1 x Hx Hsx. rewrite Hp in Hx. apply lookup_update in Hx.
    destruct Hx as [[-> ->]|(Hne1 & x0 & Hx0 & ->)].
    + split; [done|]. split.
      * exists 0, k. split; [done|]. split; [done|]. intros j Hj. cbn in Hj. lia.
      * intros t2 x2 Hne2 Hx2. rewrite Hp in Hx2. apply lookup_update in Hx2.
        destruct Hx2 as [[-> ->]|(_ & x3 & Hx3 & ->)]; [done|].
        rewrite wake_like_in_call by done. eauto.
    + rewrite wake_like_in_shutdown in Hsx by done.
      destruct (Hsd _ _ Hx0 Hsx) as (_ & (i & k0 & -> & _) & _).
      by specialize (Hcalls _ _ Hx0).
  - (* a worker joined *)
    assert (Hs : in_shutdown (FShutdown (SD_join i) :: FTask (Shutdown k) :: rest)
                 = true) by done.
    destruct (Hsd _ _ Hl Hs) as (Hini & (i0 & k0 & Heq & Hi0 & Hj) & Hothers).
    injection Heq as <- <- ->.
    split; [done|].
    intros t1 x Hx Hsx. apply lookup_set_frames in Hx.
    destruct Hx as [[-> ->]|[Hne1 Hx]].
    + split; [done|]. split; [|intros t2 x2 Hne2 Hx2;
        apply lookup_set_frames in Hx2;
        destruct Hx2 as [[-> ->]|[_ Hx2]]; [done|eauto]].
      specialize (Hn Hini). unfold MAX_THREADS in Hn.
      rewrite wrap_small by (unfold INT_MIN, INT_MAX; lia).
      exists (i + 1), k. split; [done|]. split; [lia|].
      intros j Hlt.
      assert (Hkeep : forall th0, exited s th0 = true ->
                exited (set_frames t
                          [FShutdown (SD_join (i + 1)); FTask (Shutdown k)] s)
                  th0 = true).
      { intros th0. eapply (exited_update s _ t _ _ id);
          [exact Hl|done|apply wake_like_id|].
        cbn. by rewrite list_fmap_id. }
      destruct (decide (j < Z.to_nat i)%nat) as [Hlt'|Hge].
      * destruct (Hj j Hlt') as (th0 & ? & ?). exists th0. split; [done|eauto].
      * assert (j = Z.to_nat i) as -> by lia. exists th. split; [done|eauto].
    + by rewrite (shutdown_inv_unique _ _ _ _ _ Hinv Hx Hsx Hl Hs) in Hne1.
  - (* shutdown finished *)
    assert (Hs : in_shutdown (FShutdown (SD_join i) :: FTask (Shutdown k) :: rest)
                 = true) by done.
    destruct (Hsd _ _ Hl Hs) as (Hini & (i0 & k0 & Heq & Hi0 & Hj) & Hothers).
    injection Heq as <- <- ->.
    split; [done|].
    intros t1 x Hx Hsx. apply lookup_set_frames in Hx.
    destruct Hx as [[-> ->]|[Hne1 Hx]]; [done|].
    cbn in Hx.
    by rewrite (shutdown_inv_unique _ _ _ _ _ Hinv Hx Hsx Hl Hs) in Hne1.
Qed.

(** ** The accounting of the teams *)

Lemma total_update F (pl : list (list frame)) t fs fs' g :
  pl !! t = Some fs ->
  (forall x, F (g x) = F x) ->
  total F (<[t := fs']> (g <$> pl)) = total F pl - F fs + F fs'.
Proof.
  intros Hl Hg. rewrite (total_insert F _ t (g fs)).
  - by rewrite total_fmap, Hg.
  - by rewrite list_lookup_fmap, Hl.
Qed.

Lemma total_ge_elem F (pl : list (list frame)) t fs :
  (forall x, 0 <= F x) -> pl !! t = Some fs -> F fs <= total F pl.
Proof.
  intros Hnn. revert t. induction pl as [|x pl IH]; intros [|t]; cbn; try done.
  - intros [= ->]. pose proof (total_nonneg F pl Hnn). lia.
  - intros H. specialize (IH _ H). specialize (Hnn x). lia.
Qed.

Lemma team_inv_init n clients : 0 <= n -> team_inv (init_state n clients).
Proof.
  intros Hn. split; [|split; [|split; [|split]]]; try done.
  - cbn. intros t fs Hfs. rewrite list_lookup_fmap in Hfs.
    destruct (clients !! t); [|done]. injection Hfs as <-.
    by repeat constructor.
  - intros _. apply total_all_zero. cbn. intros t fs Hfs.
    rewrite list_lookup_fmap in Hfs.
    destruct (clients !! t); [|done]. by injection Hfs as <-.
Qed.

(** A transition that spawns no thread and keeps the pool size. *)
Lemma team_inv_update s s' t fs fs' g :
  team_inv s ->
  pool s !! t = Some fs ->
  wake_like g ->
  pool s' = <[t := fs']> (g <$> pool s) ->
  num_threads s' = num_threads s ->
  thread_pool_initialized s' = thread_pool_initialized s ->
  threads (work_queue s') = threads (work_queue s) ->
  0 <= target_a_team_size (work_queue s') <= num_threads s ->
  (a_team_size (work_queue s') = a_team_size (work_queue s) /\
     tally is_b_frame fs' = tally is_b_frame fs) \/
  (a_team_size (work_queue s') = wrap (a_team_size (work_queue s) - 1) /\
     target_a_team_size (work_queue s) < a_team_size (work_queue s) /\
     tally is_b_frame fs' = tally is_b_frame fs + 1) \/
  (a_team_size (work_queue s') = wrap (a_team_size (work_queue s) + 1) /\
     tally is_b_frame fs' = tally is_b_frame fs - 1) ->
  tally is_unowned fs' <= tally is_unowned fs ->
  Forall b_frame_unowned fs' ->
  team_inv s'.
Proof.
  intros ([Ha Htg] & Hlen & Hbu & Hinit & Huninit) Hl Hg Hp En Ei Eth Htg' Hdis
    Hun Hbu'.
  assert (HB : total (tally is_b_frame) (pool s')
               = total (tally is_b_frame) (pool s) - tally is_b_frame fs
                 + tally is_b_frame fs').
  { rewrite Hp. apply total_update; [done|].
    intros x. by apply wake_like_tally_b. }
  assert (HU : total (tally is_unowned) (pool s')
               = total (tally is_unowned) (pool s) - tally is_unowned fs
                 + tally is_unowned fs').
  { rewrite Hp. apply total_update; [done|].
    intros x. by apply wake_like_tally_unowned. }
  assert (Hbu_s' : forall t' x, pool s' !! t' = Some x ->
                                Forall b_frame_unowned x).
  { intros t' x Hx. rewrite Hp in Hx. apply lookup_update in Hx.
    destruct Hx as [[-> ->]|(_ & x0 & Hx0 & ->)]; [done|].
    apply wake_like_b_unowned; eauto. }
  pose proof (tally_nonneg is_b_frame fs') as Hb0.
  pose proof (tally_nonneg is_unowned fs') as Hu0.
  pose proof (tally_b_le_unowned fs' Hbu') as Hbu1.
  pose proof (tally_b_le_unowned fs (Hbu _ _ Hl)) as Hbu2.
  pose proof (total_ge_elem (tally is_b_frame) _ _ _
                (tally_nonneg is_b_frame) Hl) as HgeB.
  pose proof (total_nonneg (tally is_b_frame) (pool s')
                (tally_nonneg is_b_frame)) as HB0.
  assert (HBU : total (tally is_b_frame) (pool s')
                <= total (tally is_unowned) (pool s')).
  { apply total_le. intros t' x Hx. apply tally_b_le_unowned. eauto. }
  destruct (thread_pool_initialized s) eqn:Hi.
  - destruct (Hinit eq_refl) as (Hrange & Hsum & Hlive & Hincl & Hfill).
    unfold MAX_THREADS in Hrange.
    assert (Ha' : a_team_size (work_queue s')
                  + total (tally is_b_frame) (pool s') = num_threads s).
    { destruct Hdis as [[-> Hb]|[(-> & Hlt & Hb)|[-> Hb]]].
      - lia.
      - rewrite wrap_small by (unfold INT_MIN, INT_MAX; lia). lia.
      - rewrite wrap_small by (unfold INT_MIN, INT_MAX; lia). lia. }
    split; [|split; [|split; [|split]]].
    + unfold I4. rewrite En. split; lia.
    + by rewrite Eth.
    + done.
    + intros _. rewrite En, Eth. split; [done|]. split; [done|]. split; [lia|].
      split; [|done].
      intros t' x Hx Hpos. rewrite Hp in Hx. apply lookup_update in Hx.
      destruct Hx as [[-> ->]|(_ & x0 & Hx0 & ->)].
      * apply (Hincl _ _ Hl). lia.
      * rewrite wake_like_tally_unowned in Hpos by done. eauto.
    + intros Hi'. rewrite Ei in Hi'. done.
  - specialize (Huninit eq_refl).
    pose proof (total_zero _ _ _ _ (tally_nonneg is_unowned) Huninit Hl) as Hz.
    split; [|split; [|split; [|split]]].
    + unfold I4. rewrite En. split; [|done].
      pose proof (tally_nonneg is_b_frame fs).
      destruct Hdis as [[-> Hb]|[(-> & Hlt & Hb)|[-> Hb]]];
        [done|exfalso; lia|exfalso; lia].
    + by rewrite Eth.
    + done.
    + intros Hi'. rewrite Ei in Hi'. done.
    + intros _. lia.
Qed.

Lemma team_inv_astep s s' :
  sizes_inv s -> shutdown_inv s -> team_inv s -> astep s s' -> team_inv s'.
Proof.
  intros Hsz Hsd Hinv Ha.
  pose proof Hinv as ([Hrange Htg] & Hlen & Hbu & Hinit & Huninit).
  destruct Ha as
    [t fs fs' g Hl Hne Hg Hp En Ei Eth Etg Hdis Hun Hbu' _ _ _ _
    |t task uc min size cl k rest job wb m w Hl Hp _ _ _ Ei' Htg' Hini Hfresh
    |t k g Hl _ Hi Hg Hp En Ei Eth Etg Ea _
    |t i k rest th Hl Hi Hth Hex ->
    |t i k rest Hl Hi ->].
  - (* ordinary *)
    eapply (team_inv_update s s' t fs fs' g); eauto.
    by rewrite Etg.
  - (* submission *)
    assert (Hsize : 0 <= size).
    { pose proof (sizes_inv_frames _ _ _ Hsz Hl) as H.
      inversion H as [|? ? Hk _]; subst. cbn in Hk. by inversion Hk. }
    destruct (thread_pool_initialized s) eqn:Hi.
    + destruct (Hini eq_refl) as (-> & En & Eth & Ea).
      rewrite app_nil_r in Hp.
      eapply (team_inv_update s s' t _ _ id);
        [done|exact Hl|apply wake_like_id|by rewrite list_fmap_id
        |done|by rewrite Ei'|done| |by left| |].
      * rewrite En in Htg'. destruct Htg' as [[-> ?]| ->]; lia.
      * cbn. lia.
      * constructor; [done|]. eauto.
    + destruct (Hfresh eq_refl) as (-> & Hn' & Ea & Hth).
      destruct (Hth Hlen) as [Hlen' Hth']. clear Hth.
      specialize (Huninit eq_refl). unfold MAX_THREADS in Hn'.
      assert (Hz : forall t' x, pool s !! t' = Some x ->
                                tally is_unowned x = 0).
      { intros t' x Hx.
        by eapply (total_zero _ _ _ _ (tally_nonneg is_unowned) Huninit). }
      assert (HzB : total (tally is_b_frame) (pool s) = 0).
      { apply total_all_zero. intros t' x Hx.
        pose proof (tally_b_le_unowned x (Hbu _ _ Hx)).
        pose proof (tally_nonneg is_b_frame x). specialize (Hz _ _ Hx). lia. }
      assert (Hl' : (pool s ++ replicate (Z.to_nat (num_threads s' - 1))
                                 [FWorker None W_entry]) !! t
                    = Some (FTask (ParFor task uc min size cl k) :: rest))
        by by apply lookup_app_l_Some.
      split; [|split; [|split; [|split]]].
      * unfold I4. rewrite Ea. split; [lia|].
        destruct Htg' as [[-> ?]| ->]; lia.
      * done.
      * intros t' x Hx. rewrite Hp in Hx. apply lookup_update_spawn in Hx.
        destruct Hx as [[-> ->]|[[_ Hx]|(_ & _ & ->)]]; eauto.
        -- constructor; [done|]. eauto.
        -- by repeat constructor.
      * intros _. split; [done|]. rewrite Hp.
        rewrite !(total_insert _ _ _ _ _ Hl'), !total_app, !total_replicate.
        pose proof (Hz _ _ Hl) as Hzt.
        rewrite HzB, Huninit. cbn [tally is_b_frame is_unowned Z.b2z] in *.
        split; [lia|]. split; [lia|].
        split; [|intros j Hj; eexists; by apply Hth'].
        intros t' x Hx Hpos. apply lookup_update_spawn in Hx.
        destruct Hx as [[-> ->]|[[_ Hx]|(_ & Hrg & ->)]].
        -- cbn [tally is_b_frame is_unowned Z.b2z] in Hpos. lia.
        -- rewrite (Hz _ _ Hx) in Hpos. lia.
        -- exists (t' - length (pool s))%nat. split; [lia|].
           rewrite Hth' by lia. do 2 f_equal. lia.
      * intros Hi'. by rewrite Ei' in Hi'.
  - (* shutdown entered *)
    eapply (team_inv_update s s' t _ _ g); eauto.
    + by rewrite Etg.
    + done.
    + by repeat constructor.
  - (* a worker joined *)
    eapply (team_inv_update s _ t _ _ id);
      [done|exact Hl|apply wake_like_id|by cbn; rewrite list_fmap_id
      |done|done|done|done|by left|done|].
    specialize (Hbu _ _ Hl). apply Forall_tail in Hbu. by constructor.
  - (* shutdown finished *)
    assert (Hs : in_shutdown (FShutdown (SD_join i) :: FTask (Shutdown k) :: rest)
                 = true) by done.
    destruct Hsd as [_ Hsd].
    destruct (Hsd _ _ Hl Hs) as (Hi' & (i0 & k0 & Heq & Hi0 & Hj) & _).
    injection Heq as <- <- ->.
    destruct (Hinit Hi') as (Hn & Hsum & Hlive & Hincl & _).
    assert (Hz : forall t' x, pool s !! t' = Some x ->
                              tally is_unowned x = 0).
    { intros t' x Hx. pose proof (tally_nonneg is_unowned x) as Hnn.
      destruct (decide (0 < tally is_unowned x)) as [Hpos|]; [|lia].
      destruct (Hincl _ _ Hx Hpos) as (j & Hlt & Hthj).
      destruct (Hj j) as (th & Hthj' & Hex); [lia|].
      rewrite Hthj in Hthj'. injection Hthj' as <-.
      unfold exited in Hex. rewrite Hx in Hex. by destruct x. }
    split; [|split; [|split; [|split]]]; try done.
    + intros t' x Hx. apply lookup_set_frames in Hx.
      destruct Hx as [[-> ->]|[_ Hx]]; [by repeat constructor|eauto].
    + intros _. apply total_all_zero. intros t' x Hx.
      apply lookup_set_frames in Hx.
      destruct Hx as [[-> ->]|[_ Hx]]; [done|eauto].
Qed.

(** ** The invariants hold in every reachable state *)

Lemma astep_invariants h n clients s :
  0 <= n -> Forall sizes_ok clients ->
  prims h (init_state n clients) s ->
  sizes_inv s /\ shutdown_inv s /\ team_inv s.
Proof.
  intros Hn Hc. induction 1 as [|t s s' _ (IH1 & IH2 & IH3) Hp].
  - split; [by apply sizes_inv_init|].
    split; [apply shutdown_inv_init|by apply team_inv_init].
  - apply prim_astep in Hp. split; [by eapply sizes_inv_astep|].
    split; [by eapply shutdown_inv_astep|by eapply team_inv_astep].
Qed.

(** C8.  Invariant I4.  Let the clients respect the input contract
    ([size >= 0] in every submission) and let [num_threads] start at zero or
    at a count that was set.  Then in every state the system can reach
    [a_team_size] and [target_a_team_size] are in [0, num_threads].  The
    bound on [a_team_size] rests on the accounting kept by lines 88-90:
    while the pool is initialised, [a_team_size] plus the number of frames
    that stand between the decrement of line 88 and the increment of line 90
    is [num_threads].  Lazy initialisation establishes it with
    [a_team_size = num_threads]. *)
Theorem I4_in_every_reachable_state h n clients s :
  0 <= n ->
  Forall sizes_ok clients ->
  reachable h (init_state n clients) s ->
  I4 s /\
  (thread_pool_initialized s = true ->
   a_team_size (work_queue s) + total (tally is_b_frame) (pool s)
   = num_threads s) /\
  (forall task uc min size cl,
     thread_pool_initialized s = false ->
     let s' := (par_for_enter h task uc min size cl s).2 in
     a_team_size (work_queue s') = num_threads s').
Proof.
  intros Hn Hc Hr. apply reachable_prims in Hr.
  destruct (astep_invariants _ _ _ _ Hn Hc Hr) as (_ & _ & Ht).
  destruct Ht as (HI4 & _ & _ & Hinit & _).
  split; [done|]. split.
  - intros Hi. by destruct (Hinit Hi) as (_ & ? & _).
  - intros task uc min size cl Hi s'.
    destruct (lazy_init_fresh h s Hi) as (En & _ & _ & _ & _ & Ea & _).
    subst s'. unfold par_for_enter. cbn. by rewrite Ea, En.
Qed.

Lemma I4_in_every_reachable_state_witness :
  let s0 := init_state 0 [client_par_for task_ok 0 1] in
  0 <= 0 /\
  reachable (host_cpus 2) s0 b_team_parked /\
  num_threads b_team_parked = 2 /\
  a_team_size (work_queue b_team_parked) = 1 /\
  I4 b_team_parked.
Proof.
  intros s0.
  assert (Hr : reachable (host_cpus 2) s0 b_team_parked).
  { apply (run_reachable _ [0; 0; 0; 1]%nat). vm_compute. reflexivity. }
  assert (Hc : Forall sizes_ok [client_par_for task_ok 0 1]).
  { constructor; [|constructor]. apply sizes_ok_ParFor; [lia| |];
      intros; apply sizes_ok_Ret. }
  split; [lia|]. split; [exact Hr|].
  split; [vm_compute; reflexivity|]. split; [vm_compute; reflexivity|].
  exact (proj1 (I4_in_every_reachable_state (host_cpus 2) 0 _ _
                  (Z.le_refl 0) Hc Hr)).
Defined.

(** ** Shutdown and restart *)

Lemma lazy_init_num_threads h s :
  1 <= num_threads s <= MAX_THREADS ->
  num_threads (lazy_init h s) = num_threads s.
Proof.
  intros Hn. destruct (thread_pool_initialized s) eqn:Hi.
  - by rewrite lazy_init_initialized.
  - destruct (lazy_init_fresh h s Hi) as (-> & _).
    rewrite clamp_num_threads_spec. unfold choose_num_threads.
    unfold MAX_THREADS in *. destruct (num_threads s =? 0) eqn:E; lia.
Qed.

Lemma num_threads_prim h t s s' :
  1 <= num_threads s <= MAX_THREADS -> prim h t s s' ->
  num_threads s' = num_threads s.
Proof.
  intros Hn Hp.
  destruct Hp as
    [task uc min size cl k rest job wb s1 Hl Hc He
    |job wb rest Hl|job rest Hl|job task uc min size cl k rest w Hl Hw
    |o rest s' Hl Hloop|o c rest Hl|result o job myjob rest s1 Hl Hf
    |k rest Hl Hc Hi|k rest Hl Hc Hi|i k rest th Hl Hi Hth Hex
    |i k rest Hl Hi|o c rest Hl]; try done.
  - destruct (par_for_enter_effect _ _ _ _ _ _ _ _ _ _ He)
      as (_ & _ & _ & _ & _ & En & _).
    cbn. rewrite En. by apply lazy_init_num_threads.
  - apply worker_loop_outcome in Hloop.
    by destruct Hloop as [Hc|a Hc -> Hj|Hc -> Hj Hle|Hc -> Hj Hlt|job w Hc Hj Hw].
  - by destruct c.
  - unfold finish_task in Hf. destruct (heap s !! job) as [w|]; [|done].
    injection Hf as <-. by destruct (negb _ && negb _).
Qed.

Lemma num_threads_prims h s1 s2 :
  1 <= num_threads s1 <= MAX_THREADS -> prims h s1 s2 ->
  num_threads s2 = num_threads s1.
Proof.
  intros Hn. induction 1 as [|t s s' _ IH Hp]; [done|].
  rewrite <- IH. eapply num_threads_prim; [|exact Hp]. by rewrite IH.
Qed.

Lemma wake_all_not_waiting fs o c rest :
  wake wakeup_b_team (wake wakeup_a_team (wake wakeup_owners fs))
  <> FWorker o (W_wait c) :: rest.
Proof. by destruct fs as [|[?|?|? [|[]| |]|?] ?]. Qed.

Lemma shutdown_enter_wakes_all s t fs o c rest :
  pool (shutdown_enter s) !! t = Some fs -> fs <> FWorker o (W_wait c) :: rest.
Proof.
  unfold shutdown_enter. intros H.
  apply lookup_broadcast in H. destruct H as (x2 & H & ->).
  apply lookup_broadcast in H. destruct H as (x1 & H & ->).
  apply lookup_broadcast in H. destruct H as (x0 & H & ->).
  apply wake_all_not_waiting.
Qed.

(** X15.  The join loop waits for each worker, in every interleaving.
    [halide_shutdown_thread_pool] is called under its contract in a state
    the system can reach (no assumption on the jobs outstanding).
    - If the pool is not initialised the call returns at once and changes
      nothing.
    - Otherwise its critical section sets [shutdown] and broadcasts the three
      condition variables: no thread is left asleep.  In every state the
      system can reach from there in which the caller stands in the join
      loop at index [i]: [num_threads] has not changed; if
      [i < num_threads - 1], [work_queue.threads[i]] holds a handle and the
      join passes if and only if the thread of that handle has exited (the
      caller is blocked otherwise); if [num_threads - 1 <= i], the caller
      clears the latch, and at that point no spawned worker is left in the
      pool.
    - The critical section of a submission made in that last state performs
      the lazy initialisation again: the latch is set, [shutdown] is
      cleared, [num_threads - 1] workers are spawned (the pool size is
      kept), [a_team_size = num_threads], and the job is alone on a stack
      that was emptied.
    Nothing is said here of the workers leaving their loops: that they do,
    and that the call returns, is shown with the life cycle of the pool. *)
Theorem shutdown_join_waits_for_exit h n clients s t k rest :
  0 <= n ->
  Forall sizes_ok clients ->
  reachable h (init_state n clients) s ->
  pool s !! t = Some (FTask (Shutdown k) :: rest) ->
  contract t s = true ->
  (thread_pool_initialized s = false ->
   thread_step h t s = Some (set_frames t (FTask k :: rest) s)) /\
  (thread_pool_initialized s = true ->
   exists s1,
     thread_step h t s = Some s1 /\
     shutdown (work_queue s1) = true /\
     thread_pool_initialized s1 = true /\
     pool s1 !! t = Some [FShutdown (SD_join 0); FTask (Shutdown k)] /\
     (forall t' o c fs, pool s1 !! t' <> Some (FWorker o (W_wait c) :: fs)) /\
     forall s2 i,
       reachable h s1 s2 ->
       pool s2 !! t = Some [FShutdown (SD_join i); FTask (Shutdown k)] ->
       num_threads s2 = num_threads s /\
       0 <= i /\
       (i < num_threads s - 1 ->
        exists th,
          threads (work_queue s2) !! Z.to_nat i = Some (Some th) /\
          thread_step h t s2
          = if exited s2 th
            then Some (set_frames t
                         [FShutdown (SD_join (i + 1)); FTask (Shutdown k)] s2)
            else None) /\
       (num_threads s - 1 <= i ->
        exists s3,
          thread_step h t s2 = Some s3 /\
          thread_pool_initialized s3 = false /\
          pool s3 !! t = Some [FTask k] /\
          (forall t' fs, pool s3 !! t' = Some fs -> tally is_unowned fs = 0) /\
          forall task uc min size cl,
            let s4 := (par_for_enter h task uc min size cl s3).2 in
            let job := (par_for_enter h task uc min size cl s3).1.1 in
            thread_pool_initialized s4 = true /\
            shutdown (work_queue s4) = false /\
            num_threads s4 = num_threads s /\
            a_team_size (work_queue s4) = num_threads s /\
            pool s4
            = pool s3 ++ replicate (Z.to_nat (num_threads s - 1))
                           [FWorker None W_entry] /\
            jobs (work_queue s4) = Some job /\
            next_job <$> heap s4 !! job = Some None)).
Proof.
  intros Hn Hc Hr Hl Hct.
  destruct (contract_shutdown _ _ _ _ Hl Hct) as [-> _].
  split.
  { intros Hi. unfold thread_step. by rewrite Hl, Hi. }
  intros Hi.
  set (s1 := set_frames t [FShutdown (SD_join 0); FTask (Shutdown k)]
               (shutdown_enter s)).
  assert (Hstep : thread_step h t s = Some s1).
  { unfold thread_step. by rewrite Hl, Hi. }
  assert (Hr1 : reachable h (init_state n clients) s1).
  { eapply reachable_step; [exact Hr|]. by eapply step_thread. }
  assert (Hrange : 1 <= num_threads s <= MAX_THREADS).
  { destruct (astep_invariants _ _ _ _ Hn Hc (reachable_prims _ _ _ Hr))
      as (_ & [Hns _] & _). auto. }
  exists s1. split; [done|]. split; [done|]. split; [done|]. split.
  { subst s1. apply pool_set_frames_eq. unfold shutdown_enter.
    rewrite !pool_broadcast.
    change (pool (set_queue (set_shutdown true (work_queue s)) s))
      with (pool s).
    rewrite Hl. eauto. }
  split.
  { intros t' o c fs Hfs. apply lookup_set_frames in Hfs.
    destruct Hfs as [[_ ?]|[_ Hfs]]; [done|].
    by eapply shutdown_enter_wakes_all. }
  intros s2 i Hr2 Hl2.
  assert (Hr02 : reachable h (init_state n clients) s2)
    by by eapply reachable_trans.
  assert (En : num_threads s2 = num_threads s).
  { by rewrite (num_threads_prims h s1 s2 Hrange (reachable_prims _ _ _ Hr2)). }
  destruct (astep_invariants _ _ _ _ Hn Hc (reachable_prims _ _ _ Hr02))
    as (_ & [_ Hsd] & Ht).
  assert (Hs : in_shutdown [FShutdown (SD_join i); FTask (Shutdown k)] = true)
    by done.
  destruct (Hsd _ _ Hl2 Hs) as (Hi2 & (i0 & k0 & Heq & Hi0 & Hj) & _).
  injection Heq as <- <-.
  destruct Ht as (_ & _ & _ & Hinit & _).
  destruct (Hinit Hi2) as (_ & _ & _ & _ & Hfill).
  unfold MAX_THREADS in Hrange.
  split; [done|]. split; [done|]. split.
  - intros Hlt. destruct (Hfill (Z.to_nat i)) as [th Hth]; [lia|].
    exists th. split; [done|]. unfold thread_step. rewrite Hl2, Hth, En.
    destruct (i <? num_threads s - 1) eqn:E; [|lia].
    by rewrite wrap_small by (unfold INT_MIN, INT_MAX; lia).
  - intros Hge.
    set (s3 := set_frames t [FTask k] (shutdown_leave s2)).
    assert (Hstep3 : thread_step h t s2 = Some s3).
    { unfold thread_step. rewrite Hl2, En.
      destruct (i <? num_threads s - 1) eqn:E; [lia|done]. }
    assert (Hr3 : reachable h (init_state n clients) s3).
    { eapply reachable_step; [exact Hr02|]. eapply step_thread; [|exact Hstep3].
      unfold contract. by rewrite Hl2. }
    destruct (astep_invariants _ _ _ _ Hn Hc (reachable_prims _ _ _ Hr3))
      as (_ & _ & (_ & _ & _ & _ & Hun3)).
    exists s3. split; [done|]. split; [done|]. split.
    { subst s3. apply pool_set_frames_eq. cbn. rewrite Hl2. eauto. }
    split.
    { intros t' fs Hfs.
      by eapply (total_zero _ _ _ _ (tally_nonneg is_unowned) (Hun3 eq_refl)). }
    intros task uc min size cl s4 job.
    assert (Hi3 : thread_pool_initialized s3 = false) by done.
    assert (En3 : num_threads s3 = num_threads s) by done.
    destruct (lazy_init_fresh h s3 Hi3)
      as (E1 & E2 & _ & _ & E5 & E6 & _ & E8 & _ & E10).
    cbn zeta in *.
    assert (Ecl : clamp_num_threads (choose_num_threads h (num_threads s3))
                  = num_threads s).
    { rewrite clamp_num_threads_spec, En3. unfold choose_num_threads, MAX_THREADS.
      destruct (num_threads s =? 0) eqn:E; lia. }
    rewrite Ecl in *.
    subst s4 job.
    destruct (par_for_enter h task uc min size cl s3) as [[job wb] s4] eqn:He.
    cbn [fst snd].
    destruct (par_for_enter_effect _ _ _ _ _ _ _ _ _ _ He)
      as (-> & Hh & _ & Hjobs & Hpool & Hnum & Hini & Hat & _ & Hsh & _).
    rewrite Hini, Hsh, Hnum, Hat, Hpool, Hjobs, Hh, E1, E2, E5, E6, E8, E10.
    repeat split; try done.
    by rewrite list_lookup_middle.
Qed.

Lemma shutdown_join_waits_for_exit_witness :
  let h := host_cpus 2 in
  let s0 := init_state 0 [client_restart] in
  let s := restart_before_shutdown in
  reachable h s0 s /\
  pool s !! 0%nat = Some [FTask (Shutdown (client_par_for task_ok 0 2))] /\
  contract 0 s = true /\
  thread_pool_initialized s = true /\
  exists s1, thread_step h 0 s = Some s1 /\ shutdown (work_queue s1) = true.
Proof.
  intros h s0 s.
  assert (Hr : reachable h s0 s).
  { apply (run_reachable _ (replicate 6 0%nat)). vm_compute. reflexivity. }
  assert (Hl : pool s !! 0%nat
               = Some [FTask (Shutdown (client_par_for task_ok 0 2))]).
  { vm_compute. reflexivity. }
  assert (Hct : contract 0 s = true) by (vm_compute; reflexivity).
  assert (Hi : thread_pool_initialized s = true) by (vm_compute; reflexivity).
  assert (Hc : Forall sizes_ok [client_restart]).
  { constructor; [|constructor].
    apply sizes_ok_ParFor; [lia|intros; apply sizes_ok_Ret|].
    intros _. apply sizes_ok_Shutdown.
    apply sizes_ok_ParFor; [lia| |]; intros; apply sizes_ok_Ret. }
  split; [exact Hr|]. split; [exact Hl|]. split; [exact Hct|].
  split; [exact Hi|].
  destruct (shutdown_join_waits_for_exit h 0 [client_restart] s 0 _ []
              (Z.le_refl 0) Hc Hr Hl Hct) as [_ H].
  destruct (H Hi) as (s1 & Hstep & Hsd & _).
  exists s1. split; [exact Hstep|exact Hsd].
Defined.

(** The whole of [client_restart] on a host with two CPUs: after the
    shutdown the second parallel-for initialises the pool again (a new
    worker, thread 2, is spawned) and returns 0, and each of the two jobs
    had each of its indices run once. *)
Example restart_runs_to_completion :
  exists s,
    run (host_cpus 2) [0; 0; 0; 0; 0; 0; 0; 1; 0; 0; 0; 0; 0; 0; 0; 0]%nat
      (init_state 0 [client_restart]) = Some s /\
    pool s = [[FTask (Ret 0)]; []; [FWorker None W_entry]] /\
    thread_pool_initialized s = true /\
    log s = [EvSubmit 0 0 2; EvInvoke 0 0; EvReturn 0 0 0; EvInvoke 0 1;
             EvReturn 0 1 0; EvSubmit 1 0 2; EvInvoke 1 0; EvReturn 1 0 0;
             EvInvoke 1 1; EvReturn 1 1 0].
Proof. eexists. split; [vm_compute; reflexivity|]. repeat split. Qed.

(** * Submissions of non-empty ranges *)

(** ** The log *)

Lemma invoked_app a l1 l2 : invoked a (l1 ++ l2) = invoked a l1 ++ invoked a l2.
Proof.
  induction l1 as [|[| |] l1 IH]; cbn; try done.
  destruct (_ =? _)%nat; cbn; by rewrite IH.
Qed.

Lemma returned_app a l1 l2 :
  returned a (l1 ++ l2) = returned a l1 ++ returned a l2.
Proof.
  induction l1 as [|[| |] l1 IH]; cbn; try done.
  destruct (_ =? _)%nat; cbn; by rewrite IH.
Qed.

Lemma seqZ_snoc m n : 0 <= n -> seqZ m (n + 1) = seqZ m n ++ [m + n].
Proof. intros Hn. rewrite seqZ_app by lia. f_equal. Qed.

(** ** The job stack as a list *)

Lemma chain_lt hp head l a : chain hp head l -> In a l -> (a < length hp)%nat.
Proof.
  induction 1 as [|b w l Hb _ IH]; cbn; [done|].
  intros [<-|Hin]; [by eapply lookup_lt_Some|auto].
Qed.

Lemma chain_ext hp hp' head l :
  chain hp head l ->
  (forall a w, In a l -> hp !! a = Some w ->
     exists w', hp' !! a = Some w' /\ next_job w' = next_job w) ->
  chain hp' head l.
Proof.
  induction 1 as [|b w l Hb _ IH]; intros Hext; [constructor|].
  destruct (Hext b w (or_introl eq_refl) Hb) as (w' & Hb' & Hn).
  econstructor; [exact Hb'|]. rewrite Hn. apply IH.
  intros a w0 Hin. apply Hext. by right.
Qed.

Lemma linked_chain hp head l fuel a :
  chain hp head l -> (length l <= fuel)%nat ->
  linked hp fuel head a = true <-> In a l.
Proof.
  intros Hc. revert fuel. induction Hc as [|b w l Hb _ IH]; intros fuel Hlen.
  - destruct fuel; cbn; split; done.
  - destruct fuel as [|fuel]; [cbn in Hlen; lia|].
    cbn [linked]. rewrite Hb, orb_true_iff, IH by (cbn in Hlen; lia).
    cbn. rewrite Nat.eqb_eq. tauto.
Qed.

Lemma NoDup_bounded_length (l : list nat) n :
  List.NoDup l -> (forall a, In a l -> (a < n)%nat) -> (length l <= n)%nat.
Proof.
  intros Hnd Hb.
  assert (H : incl l (seq 0 n)).
  { intros a Ha. apply in_seq. specialize (Hb a Ha). lia. }
  apply NoDup_incl_length in H; [|done]. by rewrite length_seq in H.
Qed.

Lemma on_stack_chain s l a :
  chain (heap s) (jobs (work_queue s)) l -> List.NoDup l ->
  on_stack s a = true <-> In a l.
Proof.
  intros Hc Hnd. apply linked_chain; [done|].
  apply NoDup_bounded_length; [done|]. intros b. by eapply chain_lt.
Qed.

(** ** Frames that execute a task *)

Lemma wake_like_tally_task g a fs :
  wake_like g -> tally (is_task_of a) (g fs) = tally (is_task_of a) fs.
Proof. intros H. by destruct (H fs) as [->|(o & c & rest & -> & ->)]. Qed.

Lemma tally_task_worker_return a rest :
  tally (is_task_of a) (worker_return rest) = tally (is_task_of a) rest.
Proof. by destruct rest as [|[?|[]|? ?|?] rest]. Qed.

Lemma tally_task_fresh hp fs :
  Forall (frame_valid hp) fs -> tally (is_task_of (length hp)) fs = 0.
Proof.
  induction 1 as [|fr fs Hfr _ IH]; cbn; [done|]. rewrite IH.
  destruct fr as [?|?|o [| | |job myjob]|?]; cbn; try done.
  destruct Hfr as [_ Hfr]. destruct (Nat.eqb_spec job (length hp)); [lia|done].
Qed.

(** ** Well-formed call stacks *)

Lemma finished_ext s s' a :
  (forall w, heap s !! a = Some w -> next w = max w -> active_workers w = 0 ->
             heap s' !! a = Some w) ->
  finished s a -> finished s' a.
Proof. intros H (w & Hw & Hn & Ha). exists w. auto. Qed.

Lemma stack_ok_mono s s' fs :
  (forall e, In e (log s) -> In e (log s')) ->
  (forall a, finished s a -> finished s' a) ->
  stack_ok s fs -> stack_ok s' fs.
Proof.
  intros Hlog Hfin. induction fs as [|fr fs IH]; [done|].
  destruct fr as [p|pc|[a|] pc|pc]; cbn [stack_ok]; try tauto.
  intros [H1 H2]. split; [|auto].
  destruct fs as [|[[| |]|?|? ?|?] fs]; try done.
  destruct H1 as [H1 H3]. split; [auto|]. destruct pc; auto.
Qed.

Lemma stack_ok_same s s' fs :
  heap s' = heap s -> log s' = log s -> stack_ok s fs -> stack_ok s' fs.
Proof.
  intros Hh Hl. apply stack_ok_mono.
  - intros e. by rewrite Hl.
  - intros a (w & Hw & ?). exists w. by rewrite Hh.
Qed.

Lemma stack_ok_wake_like s g fs :
  wake_like g -> stack_ok s fs -> stack_ok s (g fs).
Proof.
  intros H. destruct (H fs) as [->|(o & c & rest & -> & ->)]; [done|].
  by destruct o.
Qed.

Lemma stack_ok_tail s fr fs : stack_ok s (fr :: fs) -> stack_ok s fs.
Proof.
  destruct fr as [p|pc|[a|] pc|pc]; cbn [stack_ok]; try tauto. by intros ->.
Qed.

Lemma stack_ok_worker_pc s o pc pc' rest :
  stack_ok s (FWorker o pc :: rest) -> stack_ok s (FWorker o pc' :: rest).
Proof. done. Qed.

(** ** The invariant of the jobs, transition by transition *)

Lemma jobs_inv_init n clients :
  Forall calls_pos clients -> jobs_inv (init_state n clients).
Proof.
  intros Hc. split; [|split; [|split; [|split; [|split; [|split]]]]];
    try done.
  - cbn. intros t fs Hfs. rewrite list_lookup_fmap in Hfs.
    destruct (clients !! t) as [p|] eqn:Hp; [|done]. injection Hfs as <-.
    cbn. split; [|done]. rewrite Forall_forall in Hc. apply Hc.
    by eapply list_elem_of_lookup_2.
  - exists []. split; [constructor|]. split; [constructor|]. done.
Qed.

(** A transition that touches no job record: only the stacks change. *)
Lemma jobs_inv_keep s s' t fs fs' g :
  jobs_inv s ->
  pool s !! t = Some fs ->
  wake_like g ->
  pool s' = <[t := fs']> (g <$> pool s) ->
  heap s' = heap s ->
  log s' = log s ->
  jobs (work_queue s') = jobs (work_queue s) ->
  thread_pool_initialized s' = thread_pool_initialized s ->
  (forall a, tally (is_task_of a) fs' = tally (is_task_of a) fs) ->
  stack_ok s fs' ->
  jobs_inv s'.
Proof.
  intros (Hst & Hpos & (l & Hch & Hnd & Hjobs) & Hsub & Huniq & Hfresh & Hun)
    Hl Hg Hp Hh Hlog Hj Hi Htally Hfs'.
  assert (Htot : forall a, total (tally (is_task_of a)) (pool s')
                           = total (tally (is_task_of a)) (pool s)).
  { intros a. rewrite Hp, (total_update _ _ _ fs) by
      (done || intros; by apply wake_like_tally_task).
    rewrite Htally. lia. }
  split; [|split; [|split; [|split; [|split; [|split]]]]].
  - intros t' x Hx. apply (stack_ok_same s); [done|done|].
    rewrite Hp in Hx. apply lookup_update in Hx.
    destruct Hx as [[-> ->]|(_ & x0 & Hx0 & ->)]; [done|].
    apply stack_ok_wake_like; eauto.
  - by rewrite Hh.
  - exists l. rewrite Hh, Hj. split; [done|]. split; [done|].
    intros a w Hw. destruct (Hjobs a w Hw)
      as (mn & sz & H1 & H2 & H3 & H4 & H5 & H6 & H7 & H8 & H9 & H10).
    exists mn, sz. rewrite Hlog, Htot. tauto.
  - by rewrite Hh, Hlog.
  - by rewrite Hlog.
  - by rewrite Hh, Hlog.
  - by rewrite Hh, Hj, Hi.
Qed.

Lemma lazy_init_is_initialized h s :
  thread_pool_initialized (lazy_init h s) = true.
Proof.
  destruct (thread_pool_initialized s) eqn:Hi.
  - by rewrite lazy_init_initialized.
  - by destruct (lazy_init_fresh h s Hi) as (_ & ? & _).
Qed.

Lemma jobs_inv_submit h s t task uc min size cl k rest job wb s1 :
  valid_addrs s ->
  jobs_inv s ->
  pool s !! t = Some (FTask (ParFor task uc min size cl k) :: rest) ->
  par_for_enter h task uc min size cl s = (job, wb, s1) ->
  jobs_inv
    (set_frames t
       (FParFor (PF_wake_a job wb) :: FTask (ParFor task uc min size cl k)
        :: rest) s1).
Proof.
  intros (_ & _ & Hvalid)
    (Hst & Hpos & (l & Hch & Hnd & Hjobs) & Hsub & Huniq & Hfresh & Hun)
    Hl He.
  destruct (par_for_enter_effect _ _ _ _ _ _ _ _ _ _ He)
    as (-> & Hh & Hlog & Hj & Hpool & _ & Hini & _).
  destruct (lazy_init_pool h s) as [m Hm]. rewrite Hm in Hpool.
  rewrite lazy_init_is_initialized in Hini.
  assert (Hjb : jobs (work_queue (lazy_init h s)) = jobs (work_queue s)).
  { rewrite lazy_init_jobs. destruct (thread_pool_initialized s) eqn:Hi; [done|].
    by destruct (Hun eq_refl) as [_ ->]. }
  rewrite Hjb in Hh.
  pose proof (Hst _ _ Hl) as Hfs. cbn in Hfs. destruct Hfs as [Hcp Hrest].
  inversion Hcp as [|? ? ? ? ? ? Hsz Hmin Hmax Htask Hk]; subst.
  set (w0 := mk_work (jobs (work_queue s)) task uc min (wrap (min + size)) cl 0 0)
    in *.
  set (fs' := FParFor _ :: _).
  assert (Hlog_in : forall e, In e (log s) -> In e (log s1)).
  { intros e He'. rewrite Hlog, in_app_iff. by left. }
  assert (Hfin : forall a, finished s a -> finished s1 a).
  { intros a (w & Hw & ?). exists w. split; [|done].
    rewrite Hh. by apply lookup_app_l_Some. }
  assert (Hmono : forall x, stack_ok s x -> stack_ok (set_frames t fs' s1) x).
  { intros x. by apply stack_ok_mono. }
  assert (Htot : forall a, total (tally (is_task_of a)) (pool (set_frames t fs' s1))
                           = total (tally (is_task_of a)) (pool s)).
  { intros a. cbn [pool set_frames set_pool]. rewrite Hpool.
    rewrite (total_insert _ _ _ (FTask (ParFor task uc min size cl k) :: rest))
      by by apply lookup_app_l_Some.
    rewrite total_app, total_replicate. subst fs'. cbn. lia. }
  split; [|split; [|split; [|split; [|split; [|split]]]]].
  - intros t' x Hx. apply lookup_set_frames in Hx.
    destruct Hx as [[-> ->]|[_ Hx]].
    + subst fs'. cbn [stack_ok pc_job]. split.
      * split; [|done]. cbn [log set_frames set_pool]. rewrite Hlog, in_app_iff.
        right. by left.
      * split; [exact Hcp|by apply Hmono].
    + rewrite Hpool in Hx. apply lookup_spawned in Hx.
      destruct Hx as [Hx|[_ ->]]; [eauto|done].
  - cbn [heap set_frames set_pool]. intros a w Hw. rewrite Hh in Hw.
    apply lookup_app_Some in Hw. destruct Hw as [Hw|[_ Hw]]; [eauto|].
    apply list_lookup_singleton_Some in Hw. destruct Hw as [_ <-]. exact Htask.
  - exists (length (heap s) :: l). cbn [heap work_queue set_frames set_pool].
    rewrite Hj, Hh. split; [|split].
    + econstructor; [by apply list_lookup_middle|]. cbn.
      eapply chain_ext; [exact Hch|]. intros a w _ Hw. exists w.
      split; [by apply lookup_app_l_Some|done].
    + constructor; [|done]. intros Hin.
      pose proof (chain_lt _ _ _ _ Hch Hin). lia.
    + intros a w Hw. apply lookup_app_Some in Hw.
      destruct Hw as [Hw|[Hge Hw]].
      * destruct (Hjobs a w Hw)
          as (mn & sz & H1 & H2 & H3 & H4 & H5 & H6 & H7 & H8 & H9 & H10).
        pose proof (lookup_lt_Some _ _ _ Hw) as Hlt.
        exists mn, sz. rewrite Htot.
        cbn [log set_frames set_pool]. rewrite Hlog, invoked_app, returned_app.
        cbn. rewrite !app_nil_r. repeat split; try done; try tauto.
        -- apply in_app_iff. by left.
        -- intros [Heq|Hin]; [lia|tauto].
      * apply list_lookup_singleton_Some in Hw. destruct Hw as [Hz <-].
        assert (a = length (heap s)) as -> by lia.
        destruct (Hfresh (length (heap s))) as [Hinv0 Hret0]; [lia|].
        exists min, size. rewrite Htot.
        cbn [log set_frames set_pool]. rewrite Hlog, invoked_app, returned_app.
        rewrite Hinv0, Hret0. subst w0. cbn.
        rewrite wrap_small by (unfold INT_MIN, INT_MAX in *; lia).
        repeat split; try done; try lia.
        -- apply in_app_iff. right. by left.
        -- by rewrite Z.sub_diag.
        -- symmetry. apply total_all_zero. intros t' x Hx.
           apply tally_task_fresh. eauto.
  - cbn [heap log set_frames set_pool]. intros a mn sz. rewrite Hlog, Hh.
    rewrite in_app_iff, length_app. cbn. intros [Hin|[[= <- _ _]|[]]]; [|lia].
    specialize (Hsub _ _ _ Hin). lia.
  - cbn [log set_frames set_pool]. intros a m1 z1 m2 z2. rewrite Hlog.
    rewrite !in_app_iff. cbn.
    intros [H1|[H1|[]]] [H2|[H2|[]]]; [eauto| | |].
    + injection H2 as <- <- <-. specialize (Hsub _ _ _ H1). lia.
    + injection H1 as <- <- <-. specialize (Hsub _ _ _ H2). lia.
    + injection H1 as <- <- <-. by injection H2 as <- <-.
  - cbn [heap log set_frames set_pool]. intros a. rewrite Hh, Hlog, length_app.
    cbn. intros Hge. rewrite invoked_app, returned_app. cbn.
    destruct (Hfresh a) as [-> ->]; [lia|done].
  - cbn [thread_pool_initialized set_frames set_pool]. by rewrite Hini.
Qed.

Lemma chain_head hp a l :
  chain hp (Some a) l ->
  exists w l', l = a :: l' /\ hp !! a = Some w /\ chain hp (next_job w) l'.
Proof. inversion 1; subst; eauto. Qed.

Lemma total_task_nonneg a pl : 0 <= total (tally (is_task_of a)) pl.
Proof. apply total_nonneg. intros fs. apply tally_nonneg. Qed.

(** Lines 96-107: a worker takes the next index of the job on top of the
    stack. *)
Lemma jobs_inv_claim s t o rest job w :
  jobs_inv s ->
  pool s !! t = Some (FWorker o W_entry :: rest) ->
  jobs (work_queue s) = Some job ->
  heap s !! job = Some w ->
  jobs_inv
    (set_frames t
       (FTask (default_do_task (user_context w) (f w) (next w) (closure w))
        :: FWorker o (W_task job w) :: rest)
       (claim job w s)).
Proof.
  intros (Hst & Hpos & (l & Hch & Hnd & Hjobs) & Hsub & Huniq & Hfresh & Hun)
    Hl Hj Hw.
  rewrite Hj in Hch. destruct (chain_head _ _ _ Hch) as (w' & l' & -> & Hw' & Hch').
  rewrite Hw in Hw'. injection Hw' as <-.
  destruct (Hjobs job w Hw)
    as (mn & sz & J1 & J2 & J3 & J4 & J5 & J6 & J7 & J8 & J9 & J10).
  assert (Hlt : next w < max w) by (apply J10; by left).
  pose proof (total_task_nonneg job (pool s)) as Hnn.
  assert (Hn1 : wrap (next w + 1) = next w + 1)
    by (apply wrap_small; unfold INT_MIN, INT_MAX in *; lia).
  assert (Ha1 : wrap (active_workers w + 1) = active_workers w + 1)
    by (apply wrap_small; unfold INT_MIN, INT_MAX in *; lia).
  inversion Hnd as [|? ? Hnotin Hnd']; subst.
  pose proof (lookup_lt_Some _ _ _ Hw) as Hjlt.
  set (fs := FWorker o W_entry :: rest) in *.
  set (fs' := FTask _ :: _).
  set (w2 := set_active_workers (wrap (active_workers w + 1))
               (set_next (wrap (next w + 1)) w)).
  set (s' := set_frames t fs' (claim job w s)).
  assert (Hh : heap s' = <[job := w2]> (heap s)) by done.
  assert (Hlog : log s' = log s ++ [EvInvoke job (next w)]) by done.
  assert (Hp : pool s' = <[t := fs']> (pool s)) by done.
  assert (Hq : jobs (work_queue s')
               = if next w + 1 =? max w then next_job w else Some job).
  { subst s'. unfold claim. cbn. rewrite Hn1.
    destruct (next w + 1 =? max w); [done|]. by rewrite Hj. }
  assert (Hi : thread_pool_initialized s' = thread_pool_initialized s).
  { subst s'. unfold claim. cbn. by destruct (_ =? _). }
  clearbody s'.
  assert (Hlog_in : forall e, In e (log s) -> In e (log s')).
  { intros e He. rewrite Hlog, in_app_iff. by left. }
  assert (Hfin : forall a, finished s a -> finished s' a).
  { intros a (wa & Hwa & Hna & Haa). exists wa. split; [|done].
    rewrite Hh, list_lookup_insert_ne; [done|]. intros <-.
    rewrite Hw in Hwa. injection Hwa as <-. lia. }
  assert (Htot : forall a, total (tally (is_task_of a)) (pool s')
                 = total (tally (is_task_of a)) (pool s)
                   + Z.b2z (job =? a)%nat).
  { intros a. rewrite Hp, (total_insert _ _ _ fs) by done.
    subst fs fs'. cbn. lia. }
  split; [|split; [|split; [|split; [|split; [|split]]]]].
  - intros t' x Hx. rewrite Hp in Hx. apply list_lookup_insert_Some in Hx.
    destruct Hx as [(<- & <- & _)|[_ Hx]].
    + subst fs'. split; [apply (Hpos job w Hw)|].
      apply (stack_ok_worker_pc _ _ W_entry), (stack_ok_mono s); [done|done|].
      apply (Hst _ _ Hl).
    + apply (stack_ok_mono s); eauto.
  - intros a wa Hwa. rewrite Hh in Hwa. apply list_lookup_insert_Some in Hwa.
    destruct Hwa as [(<- & <- & _)|[_ Hwa]]; [apply (Hpos job w Hw)|eauto].
  - exists (if next w + 1 =? max w then l' else job :: l').
    rewrite Hq, Hh. split; [|split].
    + destruct (Z.eqb_spec (next w + 1) (max w)).
      * eapply chain_ext; [exact Hch'|]. intros a wa _ Hwa.
        destruct (decide (a = job)) as [->|Hne].
        -- exists w2. rewrite list_lookup_insert_eq by done.
           rewrite Hw in Hwa. by injection Hwa as <-.
        -- exists wa. by rewrite list_lookup_insert_ne.
      * eapply chain_ext; [exact Hch|]. intros a wa _ Hwa.
        destruct (decide (a = job)) as [->|Hne].
        -- exists w2. rewrite list_lookup_insert_eq by done.
           rewrite Hw in Hwa. by injection Hwa as <-.
        -- exists wa. by rewrite list_lookup_insert_ne.
    + destruct (_ =? _); [done|by constructor].
    + intros a wa Hwa. apply list_lookup_insert_Some in Hwa.
      destruct Hwa as [(<- & <- & _)|[Hne Hwa]].
      * exists mn, sz. rewrite Htot, Hlog, invoked_app, returned_app.
        subst w2. cbn. rewrite Nat.eqb_refl, Hn1, Ha1, J7, app_nil_r.
        repeat split; try done; try lia.
        -- apply in_app_iff. by left.
        -- replace (next w + 1 - mn) with (next w - mn + 1) by lia.
           rewrite seqZ_snoc by lia. do 2 f_equal. lia.
        -- cbn. lia.
        -- intros Hlt'. destruct (Z.eqb_spec (next w + 1) (max w)); [lia|].
           by left.
        -- destruct (Z.eqb_spec (next w + 1) (max w)); [done|lia].
      * destruct (Hjobs a wa Hwa)
          as (mn' & sz' & K1 & K2 & K3 & K4 & K5 & K6 & K7 & K8 & K9 & K10).
        exists mn', sz'. rewrite Htot, Hlog, invoked_app, returned_app. cbn.
        destruct (Nat.eqb_spec job a) as [->|_]; [done|]. cbn.
        rewrite !app_nil_r, Z.add_0_r.
        repeat split; try done; try lia.
        -- apply in_app_iff. by left.
        -- intros Hlt'. apply K10 in Hlt'. cbn in Hlt'.
           destruct Hlt' as [->|Hin]; [done|].
           destruct (_ =? _); [done|by right].
        -- intros Hin. apply K10. destruct (_ =? _); [by right|].
           destruct Hin as [->|Hin]; [done|by right].
  - intros a mn' sz'. rewrite Hlog, Hh, in_app_iff, length_insert. cbn.
    intros [Hin|[[=]|[]]]. eauto.
  - intros a m1 z1 m2 z2. rewrite Hlog, !in_app_iff. cbn.
    intros [H1|[[=]|[]]] [H2|[[=]|[]]]. eauto.
  - intros a. rewrite Hh, Hlog, length_insert, invoked_app, returned_app. cbn.
    intros Hge. destruct (Nat.eqb_spec job a); [lia|].
    destruct (Hfresh a Hge) as [-> ->]. done.
  - rewrite Hi. intros Hf. destruct (Hun Hf) as [Hnil _].
    by rewrite Hnil in Hw.
Qed.

(** Lines 115-129: the task of a claimed index returned. *)
Lemma jobs_inv_finish s t o job myjob r rest s1 :
  jobs_inv s ->
  pool s !! t = Some (FTask (Ret r) :: FWorker o (W_task job myjob) :: rest) ->
  finish_task o job myjob r s = Some s1 ->
  jobs_inv (set_frames t (FWorker o W_entry :: rest) s1).
Proof.
  intros (Hst & Hpos & (l & Hch & Hnd & Hjobs) & Hsub & Huniq & Hfresh & Hun)
    Hl Hf.
  unfold finish_task in Hf. destruct (heap s !! job) as [w|] eqn:Hw; [|done].
  injection Hf as <-.
  destruct (Hjobs job w Hw)
    as (mn & sz & J1 & J2 & J3 & J4 & J5 & J6 & J7 & J8 & J9 & J10).
  set (fs := FTask (Ret r) :: _) in *.
  set (fs' := FWorker o W_entry :: rest).
  assert (Hge : 1 <= active_workers w).
  { rewrite J9.
    pose proof (total_ge_elem (tally (is_task_of job)) _ _ _
                  (tally_nonneg _) Hl) as Hle.
    pose proof (tally_nonneg (is_task_of job) rest).
    subst fs. cbn in Hle. rewrite Nat.eqb_refl in Hle. cbn in Hle. lia. }
  assert (Ha1 : wrap (active_workers w - 1) = active_workers w - 1)
    by (apply wrap_small; unfold INT_MIN, INT_MAX in *; lia).
  pose proof (lookup_lt_Some _ _ _ Hw) as Hjlt.
  set (w1 := if r =? 0 then w else set_exit_status r w) in *.
  assert (Hw1 : next_job w1 = next_job w /\ f w1 = f w /\ next w1 = next w /\
                max w1 = max w /\ active_workers w1 = active_workers w)
    by (subst w1; by destruct (r =? 0)).
  destruct Hw1 as (N1 & N2 & N3 & N4 & N5).
  set (w2 := set_active_workers (wrap (active_workers w1 - 1)) w1) in *.
  set (s' := set_frames t fs' _).
  assert (Hh : heap s' = <[job := w2]> (heap s))
    by (subst s'; by destruct (negb _ && negb _)).
  assert (Hlog : log s' = log s ++ [EvReturn job (next myjob) r])
    by (subst s'; by destruct (negb _ && negb _)).
  assert (Hq : jobs (work_queue s') = jobs (work_queue s))
    by (subst s'; by destruct (negb _ && negb _)).
  assert (Hi : thread_pool_initialized s' = thread_pool_initialized s)
    by (subst s'; by destruct (negb _ && negb _)).
  assert (Hp : exists g, wake_like g /\ pool s' = <[t := fs']> (g <$> pool s)).
  { subst s'. destruct (negb _ && negb _).
    - exists (wake wakeup_owners). split; [apply wake_like_wake|done].
    - exists id. split; [apply wake_like_id|]. cbn. by rewrite list_fmap_id. }
  destruct Hp as (g & Hg & Hp). clearbody s'.
  assert (Hlog_in : forall e, In e (log s) -> In e (log s')).
  { intros e He. rewrite Hlog, in_app_iff. by left. }
  assert (Hfin : forall a, finished s a -> finished s' a).
  { intros a (wa & Hwa & Hna & Haa). exists wa. split; [|done].
    rewrite Hh, list_lookup_insert_ne; [done|]. intros <-.
    rewrite Hw in Hwa. injection Hwa as <-. lia. }
  assert (Htot : forall a, total (tally (is_task_of a)) (pool s')
                 = total (tally (is_task_of a)) (pool s)
                   - Z.b2z (job =? a)%nat).
  { intros a. rewrite Hp, (total_update _ _ _ fs) by
      (done || intros; by apply wake_like_tally_task).
    subst fs fs'. cbn. lia. }
  split; [|split; [|split; [|split; [|split; [|split]]]]].
  - intros t' x Hx. rewrite Hp in Hx. apply lookup_update in Hx.
    destruct Hx as [[-> ->]|(_ & x0 & Hx0 & ->)].
    + apply (stack_ok_worker_pc _ _ (W_task job myjob)), (stack_ok_mono s);
        [done|done|].
      eapply stack_ok_tail, (Hst _ _ Hl).
    + apply stack_ok_wake_like; [done|]. apply (stack_ok_mono s); eauto.
  - intros a wa Hwa. rewrite Hh in Hwa. apply list_lookup_insert_Some in Hwa.
    destruct Hwa as [(<- & <- & _)|[_ Hwa]]; [|eauto].
    subst w2. cbn. rewrite N2. apply (Hpos job w Hw).
  - exists l. rewrite Hq, Hh. split; [|split; [done|]].
    + eapply chain_ext; [exact Hch|]. intros a wa _ Hwa.
      destruct (decide (a = job)) as [->|Hne].
      * exists w2. rewrite list_lookup_insert_eq by done.
        rewrite Hw in Hwa. by injection Hwa as <-.
      * exists wa. by rewrite list_lookup_insert_ne.
    + intros a wa Hwa. apply list_lookup_insert_Some in Hwa.
      destruct Hwa as [(<- & <- & _)|[Hne Hwa]].
      * exists mn, sz. rewrite Htot, Hlog, invoked_app, returned_app.
        subst w2. cbn. rewrite Nat.eqb_refl, N3, N4, N5, Ha1, app_nil_r.
        rewrite length_app. cbn.
        repeat split; try done; try lia; try tauto.
        apply in_app_iff. by left.
      * destruct (Hjobs a wa Hwa)
          as (mn' & sz' & K1 & K2 & K3 & K4 & K5 & K6 & K7 & K8 & K9 & K10).
        exists mn', sz'. rewrite Htot, Hlog, invoked_app, returned_app. cbn.
        destruct (Nat.eqb_spec job a) as [->|_]; [done|]. cbn.
        rewrite !app_nil_r, Z.sub_0_r.
        repeat split; try done; try lia; try tauto.
        apply in_app_iff. by left.
  - intros a mn' sz'. rewrite Hlog, Hh, in_app_iff, length_insert. cbn.
    intros [Hin|[[=]|[]]]. eauto.
  - intros a m1 z1 m2 z2. rewrite Hlog, !in_app_iff. cbn.
    intros [H1|[[=]|[]]] [H2|[[=]|[]]]. eauto.
  - intros a. rewrite Hh, Hlog, length_insert, invoked_app, returned_app. cbn.
    intros Hge'. destruct (Nat.eqb_spec job a); [lia|].
    destruct (Hfresh a Hge') as [-> ->]. done.
  - rewrite Hi. intros Hf. destruct (Hun Hf) as [Hnil _].
    by rewrite Hnil in Hw.
Qed.

Lemma jobs_inv_same s s' t fs fs' :
  jobs_inv s ->
  pool s !! t = Some fs ->
  pool s' = <[t := fs']> (pool s) ->
  heap s' = heap s ->
  log s' = log s ->
  jobs (work_queue s') = jobs (work_queue s) ->
  thread_pool_initialized s' = thread_pool_initialized s ->
  (forall a, tally (is_task_of a) fs' = tally (is_task_of a) fs) ->
  stack_ok s fs' ->
  jobs_inv s'.
Proof.
  intros Hinv Hl Hp. eapply (jobs_inv_keep s s' t fs fs' id); try done.
  - apply wake_like_id.
  - by rewrite list_fmap_id.
Qed.

Lemma finished_not_running s l a w :
  heap s !! a = Some w -> job_ok s l a w -> running w = false -> finished s a.
Proof.
  intros Hw (mn & sz & _ & _ & _ & _ & _ & J6 & _ & _ & J9 & _) Hr.
  pose proof (total_task_nonneg a (pool s)).
  unfold running in Hr. apply orb_false_iff in Hr. destruct Hr as [Hr1 Hr2].
  exists w. split; [done|]. lia.
Qed.

Lemma jobs_inv_prim h t s s' :
  valid_addrs s -> jobs_inv s -> prim h t s s' -> jobs_inv s'.
Proof.
  intros Hva Hinv Hp.
  destruct Hp as
    [task uc min size cl k rest job wb s1 Hl Hc He
    |job wb rest Hl|job rest Hl|job task uc min size cl k rest w Hl Hw
    |o rest s' Hl Hloop|o c rest Hl|result o job myjob rest s1 Hl Hf
    |k rest Hl Hc Hi|k rest Hl Hc Hi|i k rest th Hl Hi Hth Hex
    |i k rest Hl Hi|o c rest Hl];
    pose proof (proj1 Hinv _ _ Hl) as Hfs.
  - by eapply jobs_inv_submit.
  - eapply (jobs_inv_keep s _ t _ _ (wake wakeup_a_team));
      [done|done|apply wake_like_wake|done|done|done|done|done| |].
    + intros a. by destruct wb.
    + destruct rest as [|[[| |]|?|? ?|?] rest]; try (cbn in Hfs; tauto).
      destruct wb; cbn in *; tauto.
  - eapply (jobs_inv_keep s _ t _ _ (wake wakeup_b_team));
      [done|done|apply wake_like_wake|done|done|done|done|done|done|].
    destruct rest as [|[[| |]|?|? ?|?] rest]; try (cbn in Hfs; tauto).
    cbn in *; tauto.
  - eapply (jobs_inv_same s _ t); [done|done|done|done|done|done|done|done|].
    cbn in Hfs. destruct Hfs as (_ & Hcp & Hrest).
    inversion Hcp; subst. by split.
  - apply worker_loop_outcome in Hloop.
    destruct Hloop as [Hcond|a Hcond -> Hj|Hcond -> Hj Hle|Hcond -> Hj Hlt
                      |job w Hcond Hj Hw].
    + eapply (jobs_inv_same s _ t); [done|done|done|done|done|done|done| |].
      * intros a. by rewrite tally_task_worker_return.
      * destruct o as [a|]; [|cbn in Hfs; by subst rest].
        destruct rest as [|[?|[]|? ?|?] rest]; try (cbn in Hfs; tauto).
        destruct rest as [|[[| |]|?|? ?|?] rest]; try (cbn in Hfs; tauto).
        cbn in Hfs. destruct Hfs as (<- & (Hin & _) & Hrest).
        cbn. split; [|done]. split; [done|].
        cbn in Hcond. destruct (heap s !! a) as [w|] eqn:Hw; [|done].
        injection Hcond as Hr.
        destruct Hinv as (_ & _ & (l & _ & _ & Hjobs) & _).
        eapply finished_not_running; eauto.
    + by eapply (jobs_inv_same s _ t).
    + by eapply (jobs_inv_same s _ t).
    + by eapply (jobs_inv_same s _ t).
    + by apply jobs_inv_claim.
  - destruct c; by eapply (jobs_inv_same s _ t).
  - by eapply jobs_inv_finish.
  - cbn in Hfs. destruct Hfs as [Hcp _]. inversion Hcp.
  - cbn in Hfs. destruct Hfs as [Hcp _]. inversion Hcp.
  - by cbn in Hfs.
  - by cbn in Hfs.
  - by eapply (jobs_inv_same s _ t).
Qed.

(** ** Clients that submit non-empty ranges only *)

Lemma jobs_inv_prims h n clients s :
  Forall calls_pos clients -> prims h (init_state n clients) s -> jobs_inv s.
Proof.
  intros Hc. induction 1 as [|t s s' Hr IH Hp]; [by apply jobs_inv_init|].
  eapply jobs_inv_prim; [|exact IH|exact Hp].
  by destruct (prims_invariants _ _ _ _ Hr).
Qed.

(** X1.  Invariant I3 for clients whose every parallel-for, nested ones
    included, has [size >= 1] and a range within [int], and that never call
    [halide_shutdown_thread_pool] ([calls_pos]): in every state
    the system can reach, a job with [next < max] is on the job stack and a job
    with [next == max] is not. *)
Theorem I3_for_non_empty_jobs h n clients s :
  Forall calls_pos clients ->
  reachable h (init_state n clients) s ->
  I3 s.
Proof.
  intros Hc Hr. apply reachable_prims in Hr.
  destruct (jobs_inv_prims _ _ _ _ Hc Hr)
    as (_ & _ & (l & Hch & Hnd & Hjobs) & _).
  intros a w Hw.
  destruct (Hjobs a w Hw) as (mn & sz & _ & _ & _ & _ & _ & J6 & _ & _ & _ & J10).
  pose proof (on_stack_chain s l a Hch Hnd) as Hon. split.
  - intros Hlt. apply Hon, J10, Hlt.
  - intros Heq. destruct (on_stack s a) eqn:E; [|done].
    assert (In a l) as Hin by by apply Hon. apply J10 in Hin. lia.
Qed.


(** X3.  For clients whose every parallel-for, nested ones
    included, has [size >= 1] and a range within [int], and that never call
    [halide_shutdown_thread_pool] ([calls_pos]): when a thread is about to return
    from [default_do_par_for(f, min, size)] (line 219), the task has been
    invoked at [min], ..., [min + size - 1], once each, every one of these
    invocations has returned, and no thread executes a task of the job. *)
Theorem non_empty_par_for_returns_when_done h n clients s t job task uc min
  size cl k rest :
  Forall calls_pos clients ->
  reachable h (init_state n clients) s ->
  pool s !! t
  = Some (FParFor (PF_return job) :: FTask (ParFor task uc min size cl k)
          :: rest) ->
  exists w,
    heap s !! job = Some w /\
    running w = false /\
    invoked job (log s) = seqZ min size /\
    Z.of_nat (length (returned job (log s))) = size /\
    total (tally (is_task_of job)) (pool s) = 0.
Proof.
  intros Hc Hr Hl. apply reachable_prims in Hr.
  destruct (jobs_inv_prims _ _ _ _ Hc Hr)
    as (Hst & _ & (l & _ & _ & Hjobs) & _ & Huniq & _).
  specialize (Hst _ _ Hl). cbn in Hst.
  destruct Hst as ((Hin & (w & Hw & Hnext & Haw)) & _).
  destruct (Hjobs job w Hw)
    as (mn & sz & J1 & J2 & J3 & J4 & J5 & J6 & J7 & J8 & J9 & J10).
  destruct (Huniq _ _ _ _ _ Hin J1) as [-> ->].
  exists w. split; [done|]. split; [|split; [|split]].
  - unfold running. apply orb_false_iff. split; lia.
  - rewrite J7. f_equal. lia.
  - lia.
  - lia.
Qed.

(** ** Two runs with non-empty ranges *)

Lemma calls_pos_failing_client :
  Forall calls_pos [client_par_for task_fails_at_12 10 5].
Proof.
  repeat constructor; unfold INT_MIN, INT_MAX; try lia.
  intros a b c. unfold task_fails_at_12. destruct (b =? 12); constructor.
Qed.

Lemma failing_job_done_reachable :
  reachable (host_cpus 1) (init_state 0 [client_par_for task_fails_at_12 10 5])
    failing_job_done.
Proof. apply (run_reachable _ (replicate 9 0%nat)). vm_compute. reflexivity. Qed.

Lemma I3_for_non_empty_jobs_witness : I3 failing_job_done.
Proof.
  exact (I3_for_non_empty_jobs _ _ _ _ calls_pos_failing_client
           failing_job_done_reachable).
Defined.


(** Scenario 2 again: when [par_for(10, 5, task_fails_at_12)] is about to
    return, the task has run at 10, ..., 14 and the five invocations have
    returned. *)
Lemma non_empty_par_for_returns_when_done_witness :
  invoked 0 (log failing_job_done) = [10; 11; 12; 13; 14] /\
  length (returned 0 (log failing_job_done)) = 5%nat.
Proof.
  assert (Hl : pool failing_job_done !! 0%nat
               = Some [FParFor (PF_return 0);
                       FTask (client_par_for task_fails_at_12 10 5)]).
  { vm_compute. reflexivity. }
  destruct (non_empty_par_for_returns_when_done _ _ _ _ _ _ _ _ _ _ _ _ _
              calls_pos_failing_client failing_job_done_reachable Hl)
    as (w & _ & _ & Hinv & Hret & _).
  split; [exact Hinv|lia].
Defined.

(** The counterpart of the nested empty submission: with an inner range of
    one index the single thread of a pool of size 1 drives
    [par_for(0, 2, i => par_for(0, 1, task_ok))] to completion in 17
    transitions; the outer task ran at 0 and 1, each inner task at 0. *)
Example nested_non_empty_par_for_completes :
  exists s,
    run_thread (host_cpus 1) 0 17 (init_state 0 [client_nested_one]) = Some s /\
    pool s = [[FTask (Ret 0)]] /\
    jobs (work_queue s) = None /\
    invoked 0 (log s) = [0; 1] /\
    invoked 1 (log s) = [0] /\
    invoked 2 (log s) = [0].
Proof. eexists. split; [vm_compute; reflexivity|]. vm_compute. tauto. Qed.

(** * One thread alone: the parallel-for is a loop *)

Lemma run_app h l1 l2 s :
  run h (l1 ++ l2) s
  = match run h l1 s with
    | Some s1 => run h l2 s1
    | None => None
    end.
Proof.
  revert s. induction l1 as [|t l1 IH]; intros s; cbn; [done|].
  destruct (contract t s); [|done].
  destruct (thread_step h t s); [apply IH|done].
Qed.

Lemma run_more h n m s s1 s2 :
  run h (replicate n 0%nat) s = Some s1 ->
  run h (replicate m 0%nat) s1 = Some s2 ->
  run h (replicate (n + m) 0%nat) s = Some s2.
Proof. intros H1 H2. by rewrite replicate_add, run_app, H1. Qed.

Lemma run_first h n s s1 s2 :
  contract 0 s = true ->
  thread_step h 0 s = Some s1 ->
  run h (replicate n 0%nat) s1 = Some s2 ->
  run h (replicate (S n) 0%nat) s = Some s2.
Proof. intros Hc Hs Hr. cbn. by rewrite Hc, Hs. Qed.

Lemma pool_of_one_initialized h s :
  thread_pool_initialized s = true -> num_threads s = 1 -> pool_of_one h s.
Proof.
  intros Hi Hn. split; [by rewrite lazy_init_initialized|by rewrite Hi].
Qed.

Lemma pool_of_one_lazy_init h s :
  pool_of_one h s ->
  pool (lazy_init h s) = pool s /\
  jobs (work_queue (lazy_init h s)) = jobs (work_queue s).
Proof.
  intros [Hn Hj]. destruct (thread_pool_initialized s) eqn:Hi.
  - by rewrite lazy_init_initialized.
  - destruct (lazy_init_fresh h s Hi)
      as (E1 & _ & _ & _ & E2 & _ & _ & _ & _ & E3).
    rewrite E3, E2, Hj by done. rewrite E1 in Hn. rewrite Hn. cbn.
    by rewrite app_nil_r.
Qed.

Lemma record_results_cons st r results :
  record_results st (r :: results)
  = record_results (if r =? 0 then st else r) results.
Proof. done. Qed.

Section worker_loop_alone.
Context (h : host) (task : halide_task_t) (uc cl : Z) (R : list frame).
Context (job : addr) (J0 : option addr) (mx : Z).

Hypothesis task_runs : forall idx s rest,
  pool s = [FTask (task uc idx cl) :: rest] ->
  pool_of_one h s ->
  exists steps s',
    run h (replicate steps 0%nat) s = Some s' /\
    pool s' = [FTask (Ret (sequential (task uc idx cl))) :: rest] /\
    pool_of_one h s' /\
    (thread_pool_initialized s = true -> thread_pool_initialized s' = true) /\
    jobs (work_queue s') = jobs (work_queue s) /\
    heap_kept s s'.
Hypothesis mx_int : mx <= INT_MAX.

(** The worker loop of the owner of [job], entered with [m] indices left
    and no task in progress, runs them in order and leaves. *)
Lemma worker_loop_alone (m : nat) : forall s fs0 st,
  pool s = [fs0] ->
  thread_pool_initialized s = true ->
  num_threads s = 1 ->
  INT_MIN <= mx - Z.of_nat m ->
  heap s !! job = Some (mk_work J0 task uc (mx - Z.of_nat m) mx cl 0 st) ->
  jobs (work_queue s) = match m with O => J0 | S _ => Some job end ->
  exists steps s',
    match worker_loop 0 (Some job) R s with
    | Some s1 => run h (replicate steps 0%nat) s1
    | None => None
    end = Some s' /\
    pool s' = [worker_return R] /\
    thread_pool_initialized s' = true /\
    num_threads s' = 1 /\
    jobs (work_queue s') = J0 /\
    heap s' !! job
    = Some (mk_work J0 task uc mx mx cl 0
              (record_results st
                 (List.map (fun idx => sequential (task uc idx cl))
                    (seqZ (mx - Z.of_nat m) (Z.of_nat m))))) /\
    (forall a w, a <> job -> heap s !! a = Some w -> heap s' !! a = Some w) /\
    (forall a w, heap s' !! a = Some w -> (length (heap s) <= a)%nat ->
                 running w = false).
Proof.
  induction m as [|m IH]; intros s fs0 st Hp Hi Hn Hmin Hw Hj.
  - exists 0%nat, (set_frames 0 (worker_return R) s).
    unfold worker_loop. rewrite Hw. cbn -[Z.sub].
    rewrite Z.sub_0_r in *.
    unfold running. cbn. rewrite Z.ltb_irrefl. cbn.
    rewrite Hp. cbn. repeat split; try done.
    intros a w Ha Hge. apply lookup_lt_Some in Ha. lia.
  - set (nx := mx - Z.of_nat (S m)) in *.
    assert (Hnx : nx + 1 = mx - Z.of_nat m) by lia.
    set (w := mk_work J0 task uc nx mx cl 0 st) in *.
    set (w2 := mk_work J0 task uc (nx + 1) mx cl 1 st).
    set (rest := FWorker (Some job) (W_task job w) :: R).
    set (sc := set_frames 0 (FTask (task uc nx cl) :: rest) (claim job w s)).
    assert (Hloop : worker_loop 0 (Some job) R s = Some sc).
    { unfold worker_loop. rewrite Hw, Hj. cbn -[Z.sub claim].
      unfold running. cbn -[Z.sub claim].
      replace (nx <? mx) with true by lia. cbn -[Z.sub claim].
      by rewrite Hw. }
    assert (Hwr : wrap (nx + 1) = nx + 1)
      by (apply wrap_small; unfold INT_MIN, INT_MAX in *; lia).
    assert (Hpc : pool sc = [FTask (task uc nx cl) :: rest])
      by (subst sc; cbn; by rewrite Hp).
    assert (Hhc : heap sc = <[job := w2]> (heap s)).
    { subst sc w w2. unfold claim, set_active_workers, set_next. cbn.
      by rewrite Hwr. }
    assert (Hjc : jobs (work_queue sc)
                  = match m with O => J0 | S _ => Some job end).
    { subst sc w. unfold claim, set_active_workers, set_next. cbn.
      rewrite Hwr. destruct m as [|m'].
      - replace (nx + 1 =? mx) with true by lia. done.
      - replace (nx + 1 =? mx) with false by lia. by rewrite Hj. }
    assert (Hic : thread_pool_initialized sc = true) by done.
    assert (Hnc : num_threads sc = 1) by done.
    clearbody sc.
    destruct (task_runs nx sc rest Hpc (pool_of_one_initialized h sc Hic Hnc))
      as (n1 & sd & Hrun1 & Hpd & [Hnd _] & Hid & Hjd & Hkeep1 & Hnew1).
    specialize (Hid Hic). rewrite lazy_init_initialized in Hnd by done.
    pose proof (lookup_lt_Some _ _ _ Hw) as Hlt.
    assert (Hwd : heap sd !! job = Some w2).
    { apply Hkeep1. rewrite Hhc. by apply list_lookup_insert_eq. }
    set (r := sequential (task uc nx cl)) in *.
    set (st' := if r =? 0 then st else r).
    set (w3 := mk_work J0 task uc (nx + 1) mx cl 0 st').
    set (se := set_log (log sd ++ [EvReturn job nx r])
                 (set_heap (<[job := w3]> (heap sd)) sd)).
    assert (Hfin : finish_task (Some job) job w r sd = Some se).
    { unfold finish_task. rewrite Hwd. cbn.
      rewrite bool_decide_true by done. rewrite andb_false_r.
      subst se w3 st' w2. unfold set_active_workers, set_exit_status. cbn.
      by destruct (r =? 0). }
    assert (Hwe : heap se !! job
                  = Some (mk_work J0 task uc (mx - Z.of_nat m) mx cl 0 st')).
    { subst se w3. cbn. rewrite <- Hnx. apply list_lookup_insert_eq.
      by eapply lookup_lt_Some. }
    destruct (IH se _ st' Hpd Hid Hnd ltac:(lia) Hwe)
      as (n2 & s' & Hrun2 & Hp' & Hi' & Hn' & Hj' & Hw' & Hkeep2 & Hnew2).
    { subst se. cbn. by rewrite Hjd. }
    exists (n1 + S n2)%nat, s'. rewrite Hloop.
    split; [|split; [done|split; [done|split; [done|split; [done|split;
      [|split]]]]]].
    + eapply run_more; [exact Hrun1|]. cbn [replicate run].
      assert (contract 0 sd = true) as -> by (unfold contract; by rewrite Hpd).
      assert (thread_step h 0 sd = worker_loop 0 (Some job) R se) as ->
        by (unfold thread_step; rewrite Hpd; cbn; by rewrite Hfin).
      exact Hrun2.
    + rewrite Hw'. do 2 f_equal.
      rewrite (seqZ_cons nx) by lia. cbn [List.map].
      rewrite record_results_cons. fold r. fold st'.
      by replace (Z.succ nx) with (mx - Z.of_nat m) by lia;
         replace (Z.pred (Z.of_nat (S m))) with (Z.of_nat m) by lia.
    + intros a wa Hne Ha. apply Hkeep2; [done|]. subst se. cbn.
      rewrite list_lookup_insert_ne by done. apply Hkeep1.
      by rewrite Hhc, list_lookup_insert_ne.
    + intros a wa Ha Hge.
      destruct (decide (length (heap se) <= a)%nat) as [Hle|Hgt];
        [by eapply Hnew2|].
      assert (Hlen : length (heap se) = length (heap sd))
        by (subst se; cbn; apply length_insert).
      assert (Hne : a <> job) by lia.
      destruct (lookup_lt_is_Some_2 (heap sd) a) as [wd Hd]; [lia|].
      assert (Hrd : running wd = false).
      { eapply Hnew1; [exact Hd|]. by rewrite Hhc, length_insert. }
      assert (He : heap se !! a = Some wd).
      { subst se. cbn. by rewrite list_lookup_insert_ne. }
      apply (Hkeep2 _ _ Hne) in He. rewrite Ha in He. by injection He as ->.
Qed.
End worker_loop_alone.

(** Lines 207-215 with nobody to wake: the submitter enters
    [worker_thread(&job)]. *)
Lemma wake_alone h s job wb R0 :
  pool s = [FParFor (PF_wake_a job wb) :: R0] ->
  exists steps s',
    run h (replicate steps 0%nat) s = Some s' /\
    pool s'
    = [FWorker (Some job) W_entry :: FParFor (PF_work job) :: R0] /\
    heap s' = heap s /\
    work_queue s' = work_queue s /\
    thread_pool_initialized s' = thread_pool_initialized s /\
    num_threads s' = num_threads s.
Proof.
  intros Hp. destruct wb.
  - exists 2%nat. eexists. split.
    + cbn. unfold contract, thread_step. rewrite Hp. cbn. rewrite Hp. cbn.
      reflexivity.
    + cbn. by rewrite Hp.
  - exists 1%nat. eexists. split.
    + cbn. unfold contract, thread_step. rewrite Hp. cbn. reflexivity.
    + cbn. by rewrite Hp.
Qed.

(** A program with non-empty ranges, run by the only thread of a pool of
    size 1, ends with the status of its sequential reading. *)
Lemma run_alone h p :
  calls_pos p ->
  forall s rest,
    pool s = [FTask p :: rest] ->
    pool_of_one h s ->
    exists steps s',
      run h (replicate steps 0%nat) s = Some s' /\
      pool s' = [FTask (Ret (sequential p)) :: rest] /\
      pool_of_one h s' /\
      (thread_pool_initialized s = true -> thread_pool_initialized s' = true) /\
      jobs (work_queue s') = jobs (work_queue s) /\
      heap_kept s s'.
Proof.
  induction 1 as [status|task uc min size cl k Hsz Hmin Hmax Htask IHtask Hk IHk];
    intros s rest Hp Hone.
  - exists 0%nat, s. cbn. repeat split; try done; try apply Hone.
    intros a w Ha Hge. apply lookup_lt_Some in Ha. lia.
  - set (p := ParFor task uc min size cl k) in *.
    destruct (par_for_enter h task uc min size cl s) as [[job wb] s1] eqn:He.
    destruct (par_for_enter_effect _ _ _ _ _ _ _ _ _ _ He)
      as (-> & Hh & _ & Hj & Hpool & Hnum & Hini & _).
    destruct (pool_of_one_lazy_init h s Hone) as [Hpl Hjl].
    rewrite Hpl in Hpool. rewrite Hjl in Hh.
    rewrite lazy_init_is_initialized in Hini.
    rewrite (proj1 Hone) in Hnum.
    rewrite wrap_small in Hh by (unfold INT_MIN, INT_MAX in *; lia).
    set (job := length (heap s)) in *.
    set (R0 := FTask p :: rest).
    set (sA := set_frames 0 (FParFor (PF_wake_a job wb) :: R0) s1).
    assert (HrunA : run h (replicate 1 0%nat) s = Some sA).
    { cbn. unfold contract, thread_step. rewrite Hp. subst p. cbn -[par_for_enter].
      rewrite He. by destruct rest. }
    assert (HpA : pool sA = [FParFor (PF_wake_a job wb) :: R0])
      by (subst sA; cbn; by rewrite Hpool, Hp).
    destruct (wake_alone h sA job wb R0 HpA)
      as (nW & sL & HrunW & HpL & HhL & HqL & HiL & HnL).
    set (R := FParFor (PF_work job) :: R0) in *.
    set (m := Z.to_nat size).
    destruct (worker_loop_alone h task uc cl R job (jobs (work_queue s))
                (min + size) (fun idx => IHtask uc idx cl) Hmax m sL _ 0 HpL)
      as (n2 & s2 & Hrun2 & Hp2 & Hi2 & Hn2 & Hj2 & Hw2 & Hkeep2 & Hnew2).
    { by rewrite HiL. }
    { by rewrite HnL. }
    { subst m. lia. }
    { rewrite HhL. subst sA. cbn. rewrite Hh.
      replace (min + size - Z.of_nat m) with min by (subst m; lia).
      by apply list_lookup_middle. }
    { rewrite HqL. subst sA. cbn. rewrite Hj. subst m.
      destruct (Z.to_nat size) eqn:E; [lia|done]. }
    replace (min + size - Z.of_nat m) with min in Hw2 by (subst m; lia).
    replace (Z.of_nat m) with size in Hw2 by (subst m; lia).
    set (status := record_results 0 _) in Hw2.
    set (s3 := set_frames 0 (FTask (k status) :: rest) s2).
    assert (Hp3 : pool s3 = [FTask (k status) :: rest])
      by (subst s3; cbn; by rewrite Hp2).
    destruct (IHk status s3 rest Hp3 (pool_of_one_initialized h s3 Hi2 Hn2))
      as (n4 & s4 & Hrun4 & Hp4 & Hone4 & Hi4 & Hj4 & Hkeep4 & Hnew4).
    exists (1 + (nW + (S n2 + S n4)))%nat, s4.
    split; [|split; [done|split; [done|split; [by intros _; apply Hi4|split;
      [|split]]]]].
    + eapply run_more; [exact HrunA|]. eapply run_more; [exact HrunW|].
      eapply run_more.
      * cbn [replicate run].
        assert (contract 0 sL = true) as ->
          by (unfold contract; by rewrite HpL).
        assert (thread_step h 0 sL = worker_loop 0 (Some job) R sL) as ->
          by (unfold thread_step; by rewrite HpL).
        exact Hrun2.
      * eapply run_first; [| |exact Hrun4].
        -- unfold contract. by rewrite Hp2.
        -- unfold thread_step. rewrite Hp2. subst R R0 p. cbn. by rewrite Hw2.
    + by rewrite Hj4.
    + intros a w Ha. apply Hkeep4. subst s3. cbn.
      pose proof (lookup_lt_Some _ _ _ Ha) as Hlt.
      apply Hkeep2; [subst job; lia|]. rewrite HhL. subst sA. cbn. rewrite Hh.
      by apply lookup_app_l_Some.
    + intros a w Ha Hge.
      destruct (decide (length (heap s3) <= a)%nat) as [Hle|Hgt];
        [by eapply Hnew4|].
      destruct (lookup_lt_is_Some_2 (heap s3) a) as [w3 H3]; [lia|].
      pose proof (Hkeep4 _ _ H3) as H4. rewrite Ha in H4. injection H4 as ->.
      subst s3. cbn in H3.
      destruct (decide (a = job)) as [->|Hne].
      * rewrite Hw2 in H3. injection H3 as <-. unfold running. cbn.
        rewrite Z.ltb_irrefl. done.
      * eapply Hnew2; [exact H3|]. rewrite HhL. subst sA. cbn. rewrite Hh.
        rewrite length_app. cbn. subst job. lia.
Qed.

(** X4.  A pool of one thread runs the parallel-for as a loop.  Let the pool
    size come out as 1 (a host with one CPU, [HL_NUM_THREADS=1], a value
    that [atoi] reads as zero or less, or [num_threads] set to 1) and let
    the client submit non-empty ranges only, nested to any depth.  Then the
    submitter, alone, runs its program to the end: each call of
    [default_do_par_for] returns, with the status of the last task of its
    range that failed when the tasks are run one after the other in
    increasing order of index, or zero; at the end the job stack is empty
    and no job is running. *)
Theorem one_thread_runs_par_for_as_loop h n p :
  calls_pos p ->
  clamp_num_threads (choose_num_threads h n) = 1 ->
  exists steps s,
    run h (replicate steps 0%nat) (init_state n [p]) = Some s /\
    pool s = [[FTask (Ret (sequential p))]] /\
    jobs (work_queue s) = None /\
    forall a w, heap s !! a = Some w -> running w = false.
Proof.
  intros Hp Hn.
  assert (Hone : pool_of_one h (init_state n [p])).
  { split; [|done].
    by destruct (lazy_init_fresh h (init_state n [p]) eq_refl) as (-> & _). }
  destruct (run_alone h p Hp (init_state n [p]) [] eq_refl Hone)
    as (steps & s & Hrun & Hpool & _ & _ & Hj & _ & Hnew).
  exists steps, s. split; [done|]. split; [done|]. split; [done|].
  intros a w Ha. eapply Hnew; [exact Ha|]. cbn. lia.
Qed.

Lemma calls_pos_nested_one : calls_pos client_nested_one.
Proof.
  constructor; unfold INT_MIN, INT_MAX; try lia; [|constructor].
  intros a b c. constructor; unfold INT_MIN, INT_MAX; try lia; constructor.
Qed.

Lemma one_thread_runs_par_for_as_loop_witness :
  exists steps s,
    run (host_cpus 1) (replicate steps 0%nat) (init_state 0 [client_nested_one])
    = Some s /\
    pool s = [[FTask (Ret 0)]] /\
    jobs (work_queue s) = None.
Proof.
  destruct (one_thread_runs_par_for_as_loop (host_cpus 1) 0 client_nested_one
              calls_pos_nested_one eq_refl)
    as (steps & s & Hrun & Hpool & Hj & _).
  exists steps, s. split; [exact Hrun|]. split; [exact Hpool|exact Hj].
Defined.

(** * The size of the pool *)

Lemma initialized_prim h t s s' :
  (thread_pool_initialized s = true -> 1 <= num_threads s <= MAX_THREADS) ->
  prim h t s s' ->
  thread_pool_initialized s' = true -> 1 <= num_threads s' <= MAX_THREADS.
Proof.
  intros Hn Hp.
  destruct Hp as
    [task uc min size cl k rest job wb s1 Hl Hc He
    |job wb rest Hl|job rest Hl|job task uc min size cl k rest w Hl Hw
    |o rest s' Hl Hloop|o c rest Hl|result o job myjob rest s1 Hl Hf
    |k rest Hl Hc Hi|k rest Hl Hc Hi|i k rest th Hl Hi Hth Hex
    |i k rest Hl Hi|o c rest Hl]; try done.
  - destruct (par_for_enter_effect _ _ _ _ _ _ _ _ _ _ He)
      as (_ & _ & _ & _ & _ & En & _).
    intros _. cbn. rewrite En. destruct (thread_pool_initialized s) eqn:Hi.
    + rewrite lazy_init_initialized by done. auto.
    + destruct (lazy_init_fresh h s Hi) as (-> & _).
      rewrite clamp_num_threads_spec. unfold MAX_THREADS. lia.
  - apply worker_loop_outcome in Hloop.
    by destruct Hloop as [Hc|a Hc -> Hj|Hc -> Hj Hle|Hc -> Hj Hlt|job w Hc Hj Hw].
  - by destruct c.
  - unfold finish_task in Hf. destruct (heap s !! job) as [w|]; [|done].
    injection Hf as <-. by destruct (negb _ && negb _).
Qed.

Lemma initialized_prims h n clients s :
  prims h (init_state n clients) s ->
  thread_pool_initialized s = true -> 1 <= num_threads s <= MAX_THREADS.
Proof.
  induction 1 as [|t s s' _ IH Hp]; [done|]. by eapply initialized_prim.
Qed.

(** X5.  The pool size is settled by the first initialisation.  Once a
    submission has initialised the pool, [num_threads] is in
    [1, MAX_THREADS] and keeps its value whatever happens next, whatever the
    environment and the CPU count say by then ([h'] is any host): a later
    initialisation, after a shutdown, finds [num_threads] non-zero and does
    not read [HL_NUM_THREADS] again (line 148). *)
Theorem pool_size_is_settled_once h n clients s :
  reachable h (init_state n clients) s ->
  thread_pool_initialized s = true ->
  1 <= num_threads s <= MAX_THREADS /\
  forall h' s', reachable h' s s' -> num_threads s' = num_threads s.
Proof.
  intros Hr Hi. apply reachable_prims in Hr.
  pose proof (initialized_prims _ _ _ _ Hr Hi) as Hn. split; [done|].
  intros h' s' Hr'. apply reachable_prims in Hr'.
  by eapply num_threads_prims.
Qed.

Lemma pool_size_is_settled_once_witness :
  num_threads restart_before_shutdown = 2 /\
  thread_pool_initialized restart_on_eight_cpus = true /\
  length (pool restart_on_eight_cpus) = 3%nat /\
  num_threads restart_on_eight_cpus = 2.
Proof.
  assert (Hr : reachable (host_cpus 2) (init_state 0 [client_restart])
                 restart_before_shutdown).
  { apply (run_reachable _ (replicate 6 0%nat)). vm_compute. reflexivity. }
  assert (Hi : thread_pool_initialized restart_before_shutdown = true)
    by (vm_compute; reflexivity).
  assert (Hr' : reachable (host_cpus 8) restart_before_shutdown
                  restart_on_eight_cpus).
  { apply (run_reachable _ [0; 1; 0; 0; 0]%nat). vm_compute. reflexivity. }
  assert (Hn : num_threads restart_before_shutdown = 2)
    by (vm_compute; reflexivity).
  destruct (pool_size_is_settled_once _ _ _ _ Hr Hi) as [_ H].
  split; [exact Hn|]. split; [vm_compute; reflexivity|].
  split; [vm_compute; reflexivity|].
  rewrite (H _ _ Hr'). exact Hn.
Defined.

(** X6.  The pool never holds more workers than its size allows.  Under the
    input contract, in every state the system can reach the number of
    [worker_thread] frames without owned job (one per live spawned thread)
    is at most [MAX_THREADS - 1]; while the pool is initialised it is at
    most [num_threads - 1], so is the number of frames parked on the B
    team, and [a_team_size] is at least 1.  Initialisations after a
    shutdown do not pile workers up. *)
Theorem workers_never_exceed_pool_size h n clients s :
  0 <= n ->
  Forall sizes_ok clients ->
  reachable h (init_state n clients) s ->
  total (tally is_unowned) (pool s) <= MAX_THREADS - 1 /\
  (thread_pool_initialized s = true ->
   total (tally is_unowned) (pool s) <= num_threads s - 1 /\
   total (tally is_b_frame) (pool s) <= num_threads s - 1 /\
   1 <= a_team_size (work_queue s)).
Proof.
  intros Hn Hc Hr. apply reachable_prims in Hr.
  destruct (astep_invariants _ _ _ _ Hn Hc Hr)
    as (_ & _ & _ & _ & Hb & Hini & Hunini).
  assert (Hle : total (tally is_b_frame) (pool s)
                <= total (tally is_unowned) (pool s)).
  { apply total_le. intros t fs Hfs. apply tally_b_le_unowned. eauto. }
  destruct (thread_pool_initialized s) eqn:Hi.
  - destruct (Hini eq_refl) as (Hrange & Hsum & Hun & _).
    unfold MAX_THREADS in *. split; [lia|]. intros _. lia.
  - rewrite (Hunini eq_refl). unfold MAX_THREADS. split; [lia|done].
Qed.

Lemma workers_never_exceed_pool_size_witness :
  total (tally is_unowned) (pool b_team_parked) = 1 /\
  total (tally is_b_frame) (pool b_team_parked) = 1 /\
  num_threads b_team_parked = 2 /\
  1 <= a_team_size (work_queue b_team_parked).
Proof.
  assert (Hr : reachable (host_cpus 2)
                 (init_state 0 [client_par_for task_ok 0 1]) b_team_parked).
  { apply (run_reachable _ [0; 0; 0; 1]%nat). vm_compute. reflexivity. }
  assert (Hc : Forall sizes_ok [client_par_for task_ok 0 1]).
  { constructor; [|constructor]. apply sizes_ok_ParFor; [lia| |];
      intros; apply sizes_ok_Ret. }
  assert (Hi : thread_pool_initialized b_team_parked = true)
    by (vm_compute; reflexivity).
  destruct (workers_never_exceed_pool_size _ _ _ _ (Z.le_refl 0) Hc Hr)
    as [_ H].
  destruct (H Hi) as (_ & _ & Ha).
  split; [vm_compute; reflexivity|]. split; [vm_compute; reflexivity|].
  split; [vm_compute; reflexivity|exact Ha].
Defined.

(** * A job that is over *)

Lemma prims_trans h s0 s1 s2 : prims h s0 s1 -> prims h s1 s2 -> prims h s0 s2.
Proof.
  intros H1 H2. induction H2 as [|t s s' _ IH Hp]; [done|].
  by eapply prims_step.
Qed.

Lemma finish_task_effect o job myjob r s s1 :
  finish_task o job myjob r s = Some s1 ->
  exists w,
    heap s !! job = Some w /\
    heap s1
    = <[job := set_active_workers
                 (wrap (active_workers
                          (if r =? 0 then w else set_exit_status r w) - 1))
                 (if r =? 0 then w else set_exit_status r w)]> (heap s) /\
    log s1 = log s ++ [EvReturn job (next myjob) r].
Proof.
  unfold finish_task. destruct (heap s !! job) as [w|]; [|done].
  intros [= <-]. exists w. by destruct (negb _ && negb _).
Qed.

(** No transition touches the record of a job that is not running, and none
    invokes its task. *)
Lemma job_over_prim h t s s' a w :
  jobs_inv s ->
  heap s !! a = Some w ->
  running w = false ->
  prim h t s s' ->
  heap s' !! a = Some w /\
  invoked a (log s') = invoked a (log s) /\
  returned a (log s') = returned a (log s).
Proof.
  intros (Hst & _ & (l & Hch & _ & Hjobs) & _) Ha Hrun Hp.
  destruct (Hjobs a w Ha)
    as (mn & sz & _ & _ & _ & _ & _ & J6 & _ & _ & J9 & J10).
  pose proof (total_task_nonneg a (pool s)) as Hnn.
  unfold running in Hrun. apply orb_false_iff in Hrun.
  destruct Hrun as [Hr1 Hr2].
  assert (Hnext : next w = max w) by lia.
  assert (Haw : active_workers w = 0) by lia.
  assert (Hclaim : forall job wj, jobs (work_queue s) = Some job ->
            heap s !! job = Some wj ->
            heap (claim job wj s) !! a = Some w /\
            invoked a (log (claim job wj s)) = invoked a (log s) /\
            returned a (log (claim job wj s)) = returned a (log s)).
  { intros job wj Hj Hwj. rewrite Hj in Hch.
    destruct (chain_head _ _ _ Hch) as (w' & l' & -> & _ & _).
    assert (Hne : job <> a).
    { intros ->. assert (next w < max w) by (apply J10; by left). lia. }
    unfold claim. cbn. rewrite list_lookup_insert_ne by done.
    rewrite invoked_app, returned_app. cbn.
    destruct (Nat.eqb_spec job a); [done|]. by rewrite !app_nil_r. }
  destruct Hp as
    [task uc min size cl k rest job wb s1 Hl Hc He
    |job wb rest Hl|job rest Hl|job task uc min size cl k rest w0 Hl Hw
    |o rest s' Hl Hloop|o c rest Hl|result o job myjob rest s1 Hl Hf
    |k rest Hl Hc Hi|k rest Hl Hc Hi|i k rest th Hl Hi Hth Hex
    |i k rest Hl Hi|o c rest Hl]; try done.
  - destruct (par_for_enter_effect _ _ _ _ _ _ _ _ _ _ He)
      as (_ & Hh & Hlog & _).
    cbn. rewrite Hh, Hlog, invoked_app, returned_app. cbn.
    rewrite !app_nil_r. split; [by apply lookup_app_l_Some|done].
  - apply worker_loop_outcome in Hloop.
    destruct Hloop as [Hc|b Hc -> Hj|Hc -> Hj Hle|Hc -> Hj Hlt|job wj Hc Hj Hwj];
      try done.
    by apply Hclaim.
  - by destruct c.
  - destruct (finish_task_effect _ _ _ _ _ _ Hf) as (wj & Hwj & Hh & Hlog).
    assert (Hne : job <> a).
    { intros ->. rewrite Ha in Hwj. injection Hwj as <-.
      pose proof (total_ge_elem (tally (is_task_of a)) _ _ _
                    (tally_nonneg _) Hl) as Hle.
      pose proof (tally_nonneg (is_task_of a) rest).
      cbn in Hle. rewrite Nat.eqb_refl in Hle. cbn in Hle. lia. }
    cbn. rewrite Hh, Hlog, list_lookup_insert_ne by done.
    rewrite invoked_app, returned_app. cbn.
    destruct (Nat.eqb_spec job a); [done|]. by rewrite !app_nil_r.
Qed.

Lemma jobs_inv_I3 s : jobs_inv s -> I3 s.
Proof.
  intros (_ & _ & (l & Hch & Hnd & Hjobs) & _) a w Hw.
  destruct (Hjobs a w Hw) as (mn & sz & _ & _ & _ & _ & _ & _ & _ & _ & _ & J10).
  pose proof (on_stack_chain s l a Hch Hnd) as Hon. split.
  - intros Hlt. apply Hon, J10, Hlt.
  - intros Heq. destruct (on_stack s a) eqn:E; [|done].
    assert (In a l) as Hin by by apply Hon. apply J10 in Hin. lia.
Qed.

Lemma job_over_prims h n clients s s' a w :
  Forall calls_pos clients ->
  prims h (init_state n clients) s ->
  heap s !! a = Some w ->
  running w = false ->
  prims h s s' ->
  prims h (init_state n clients) s' /\
  heap s' !! a = Some w /\
  invoked a (log s') = invoked a (log s) /\
  returned a (log s') = returned a (log s).
Proof.
  intros Hc Hr Ha Hrun. induction 1 as [|t s1 s2 _ (IH1 & IH2 & IH3 & IH4) Hp];
    [done|].
  split; [by eapply prims_step|].
  destruct (job_over_prim h t s1 s2 a w (jobs_inv_prims _ _ _ _ Hc IH1) IH2 Hrun
              Hp) as (E1 & E2 & E3).
  by rewrite E2, E3.
Qed.

(** X7.  A job that is over is left alone.  For clients whose every parallel-for, nested ones
    included, has [size >= 1] and a range within [int], and that never call
    [halide_shutdown_thread_pool] ([calls_pos]): once [running()] of a job is false (the condition on which
    its submitter leaves [worker_thread] and returns, lines 73 and 219), no
    transition of any thread writes to its record, claims from it, invokes
    its task or takes a result back for it, and it stays off the job stack.
    The record, which lives on the submitter's stack (line 177), is dead
    when the call returns. *)
Theorem job_over_is_left_alone h n clients s s' a w :
  Forall calls_pos clients ->
  reachable h (init_state n clients) s ->
  heap s !! a = Some w ->
  running w = false ->
  reachable h s s' ->
  heap s' !! a = Some w /\
  invoked a (log s') = invoked a (log s) /\
  returned a (log s') = returned a (log s) /\
  on_stack s' a = false.
Proof.
  intros Hc Hr Ha Hrun Hr'.
  apply reachable_prims in Hr. apply reachable_prims in Hr'.
  destruct (job_over_prims _ _ _ _ _ _ _ Hc Hr Ha Hrun Hr')
    as (Hr2 & E1 & E2 & E3).
  split; [done|]. split; [done|]. split; [done|].
  pose proof (jobs_inv_prims _ _ _ _ Hc Hr2) as Hinv.
  destruct (jobs_inv_I3 _ Hinv a w E1) as [_ Hoff].
  destruct Hinv as (_ & _ & (l & _ & _ & Hjobs) & _).
  destruct (Hjobs a w E1) as (mn & sz & _ & _ & _ & _ & _ & J6 & _).
  unfold running in Hrun. apply orb_false_iff in Hrun. apply Hoff. lia.
Qed.

Lemma job_over_is_left_alone_witness :
  pool failing_job_returned = [[FTask (Ret 7)]] /\
  heap failing_job_returned !! 0%nat
  = Some (mk_work None task_fails_at_12 0 15 15 0 0 7) /\
  on_stack failing_job_returned 0 = false.
Proof.
  assert (Hw : heap failing_job_done !! 0%nat
               = Some (mk_work None task_fails_at_12 0 15 15 0 0 7)).
  { vm_compute. reflexivity. }
  assert (Hr' : reachable (host_cpus 1) failing_job_done failing_job_returned).
  { apply (run_reachable _ [0%nat]). vm_compute. reflexivity. }
  destruct (job_over_is_left_alone _ _ _ _ _ _ _ calls_pos_failing_client
              failing_job_done_reachable Hw eq_refl Hr') as (H1 & _ & _ & H2).
  split; [vm_compute; reflexivity|]. split; [exact H1|exact H2].
Defined.

(** * The spawned workers stay until shutdown *)

Lemma wake_like_last g fs pc :
  wake_like g -> last fs = Some (FWorker None pc) ->
  exists pc', last (g fs) = Some (FWorker None pc').
Proof.
  intros Hg Hl. destruct (Hg fs) as [->|(o & c & rest & -> & ->)]; [eauto|].
  destruct rest as [|fr rest]; [|eauto].
  cbn in Hl. injection Hl as -> _. cbn. eauto.
Qed.

(** A transition that spawns nothing. *)
Lemma workers_alive_update s s' t fs fs' g :
  workers_alive s ->
  pool s !! t = Some fs ->
  wake_like g ->
  pool s' = <[t := fs']> (g <$> pool s) ->
  threads (work_queue s') = threads (work_queue s) ->
  num_threads s' = num_threads s ->
  (thread_pool_initialized s' = true -> shutdown (work_queue s') = false ->
   thread_pool_initialized s = true /\ shutdown (work_queue s) = false /\
   forall pc, last fs = Some (FWorker None pc) ->
              exists pc', last fs' = Some (FWorker None pc')) ->
  workers_alive s'.
Proof.
  intros [Hlen Hw] Hl Hg Hp Ht Hn Hkeep. split; [by rewrite Ht|].
  intros Hi Hs j Hj. destruct (Hkeep Hi Hs) as (Hi0 & Hs0 & Hlast).
  rewrite Hn in Hj. destruct (Hw Hi0 Hs0 j Hj) as (th & x & pc & H1 & H2 & H3).
  rewrite Ht, Hp. destruct (decide (th = t)) as [->|Hne].
  - rewrite Hl in H2. injection H2 as <-. destruct (Hlast _ H3) as [pc' Hpc'].
    exists t, fs', pc'. split; [done|]. split; [|done].
    apply list_lookup_insert_eq. rewrite length_fmap. by eapply lookup_lt_Some.
  - destruct (wake_like_last g x pc Hg H3) as [pc' Hpc'].
    exists th, (g x), pc'. split; [done|]. split; [|done].
    rewrite list_lookup_insert_ne by done. by rewrite list_lookup_fmap, H2.
Qed.

Lemma workers_alive_same s s' t fs fs' :
  workers_alive s ->
  pool s !! t = Some fs ->
  pool s' = <[t := fs']> (pool s) ->
  threads (work_queue s') = threads (work_queue s) ->
  num_threads s' = num_threads s ->
  (thread_pool_initialized s' = true -> shutdown (work_queue s') = false ->
   thread_pool_initialized s = true /\ shutdown (work_queue s) = false /\
   forall pc, last fs = Some (FWorker None pc) ->
              exists pc', last fs' = Some (FWorker None pc')) ->
  workers_alive s'.
Proof.
  intros Hw Hl Hp. apply (workers_alive_update s s' t fs fs' id); try done.
  - apply wake_like_id.
  - by rewrite list_fmap_id.
Qed.

Lemma last_worker_return rest pc :
  rest <> [] -> last rest = Some (FWorker None pc) ->
  last (worker_return rest) = Some (FWorker None pc).
Proof.
  destruct rest as [|[?|[]|? ?|?] rest]; try done.
  destruct rest; [done|]. done.
Qed.

Lemma workers_alive_prim h t s s' :
  workers_alive s -> prim h t s s' -> workers_alive s'.
Proof.
  intros Hw Hp.
  destruct Hp as
    [task uc min size cl k rest job wb s1 Hl Hc He
    |job wb rest Hl|job rest Hl|job task uc min size cl k rest w Hl Hw0
    |o rest s' Hl Hloop|o c rest Hl|result o job myjob rest s1 Hl Hf
    |k rest Hl Hc Hi|k rest Hl Hc Hi|i k rest th Hl Hi Hth Hex
    |i k rest Hl Hi|o c rest Hl].
  - (* submission *)
    destruct (par_for_enter_effect _ _ _ _ _ _ _ _ _ _ He)
      as (_ & _ & _ & _ & Hpool & Hnum & _ & _ & Hthr & Hsd & _).
    destruct (thread_pool_initialized s) eqn:Hi.
    + rewrite lazy_init_initialized in * by done.
      eapply (workers_alive_same s _ t); [done|exact Hl|by cbn; rewrite Hpool
                                         |done|done|].
      cbn. rewrite Hsd. intros Hi' Hs. split; [done|]. split; [done|].
      intros pc Hlast. destruct rest; cbn in *; simplify_eq; eauto.
    + destruct Hw as [Hlen _].
      destruct (lazy_init_fresh h s Hi)
        as (_ & _ & _ & _ & _ & _ & _ & _ & Hlen' & Hpool').
      split; [cbn; by rewrite Hthr, Hlen', Hlen|].
      intros _ _ j Hj. cbn in Hj. rewrite Hnum in Hj.
      pose proof (lazy_init_threads h s j Hi Hlen Hj) as Hth.
      exists (length (pool s) + j)%nat, [FWorker None W_entry], W_entry.
      cbn. rewrite Hthr, Hpool, Hpool'. split; [done|]. split; [|done].
      pose proof (lookup_lt_Some _ _ _ Hl) as Hlt.
      rewrite list_lookup_insert_ne by lia.
      rewrite lookup_app_r by lia.
      apply lookup_replicate_2.
      destruct (lazy_init_fresh h s Hi) as (En & _). rewrite En in Hj. lia.
  - eapply (workers_alive_update s _ t _ _ (wake wakeup_a_team));
      [done|exact Hl|apply wake_like_wake|done|done|done|].
    intros Hi' Hs. split; [done|]. split; [done|].
    intros pc Hlast. destruct wb, rest; cbn in *; simplify_eq; eauto.
  - eapply (workers_alive_update s _ t _ _ (wake wakeup_b_team));
      [done|exact Hl|apply wake_like_wake|done|done|done|].
    intros Hi' Hs. split; [done|]. split; [done|].
    intros pc Hlast. destruct rest; cbn in *; simplify_eq; eauto.
  - eapply (workers_alive_same s _ t); [done|exact Hl|done|done|done|].
    intros Hi' Hs. split; [done|]. split; [done|].
    intros pc Hlast. destruct rest; cbn in *; simplify_eq; eauto.
  - apply worker_loop_outcome in Hloop.
    destruct Hloop as [Hcond|a Hcond -> Hj|Hcond -> Hj Hle|Hcond -> Hj Hlt
                      |job w Hcond Hj Hw0].
    + eapply (workers_alive_same s _ t); [done|exact Hl|done|done|done|].
      intros Hi Hs. split; [done|]. split; [done|].
      intros pc Hlast. destruct rest as [|fr rest].
      * cbn in Hlast. injection Hlast as -> _. cbn in Hcond, Hs.
        unfold queue_running in Hcond. rewrite Hs in Hcond. done.
      * exists pc. by apply last_worker_return.
    + eapply (workers_alive_same s _ t); [done|exact Hl|done|done|done|].
      intros Hi' Hs. split; [done|]. split; [done|].
      intros pc Hlast. destruct rest; cbn in *; simplify_eq; eauto.
    + eapply (workers_alive_same s _ t); [done|exact Hl|done|done|done|].
      intros Hi' Hs. split; [done|]. split; [done|].
      intros pc Hlast. destruct rest; cbn in *; simplify_eq; eauto.
    + eapply (workers_alive_same s _ t); [done|exact Hl|done|done|done|].
      intros Hi' Hs. split; [done|]. split; [done|].
      intros pc Hlast. destruct rest; cbn in *; simplify_eq; eauto.
    + eapply (workers_alive_same s _ t); [done|exact Hl|done|..].
      * unfold claim. cbn. by destruct (wrap (next w + 1) =? max w).
      * done.
      * unfold claim. cbn. intros Hi Hs. split; [done|].
        split; [by destruct (wrap (next w + 1) =? max w)|].
        intros pc Hlast. destruct rest; cbn in *; simplify_eq; eauto.
  - destruct c;
      (eapply (workers_alive_same s _ t); [done|exact Hl|done|done|done|];
       intros Hi' Hs; split; [done|]; split; [done|];
       intros pc Hlast; destruct rest; cbn in *; simplify_eq; eauto).
  - unfold finish_task in Hf. destruct (heap s !! job) as [w|]; [|done].
    injection Hf as <-. destruct (negb _ && negb _).
    + eapply (workers_alive_update s _ t _ _ (wake wakeup_owners));
        [done|exact Hl|apply wake_like_wake|done|done|done|].
      intros Hi' Hs. split; [done|]. split; [done|].
      intros pc Hlast. destruct rest; cbn in *; simplify_eq; eauto.
    + eapply (workers_alive_same s _ t); [done|exact Hl|done|done|done|].
      intros Hi' Hs. split; [done|]. split; [done|].
      intros pc Hlast. destruct rest; cbn in *; simplify_eq; eauto.
  - eapply (workers_alive_same s _ t); [done|exact Hl|done|done|done|].
    intros Hi' Hs. split; [done|]. split; [done|].
    intros pc Hlast. destruct rest; cbn in *; simplify_eq; eauto.
  - eapply (workers_alive_update s _ t _ _
              (wake wakeup_b_team ∘ wake wakeup_a_team ∘ wake wakeup_owners));
      [done|exact Hl|repeat apply wake_like_compose; apply wake_like_wake
      |cbn; by rewrite <- !list_fmap_compose|done|done|].
    intros Hi' Hs. done.
  - eapply (workers_alive_same s _ t); [done|exact Hl|done|done|done|].
    intros Hi' Hs. split; [done|]. split; [done|].
    intros pc Hlast. destruct rest; cbn in *; simplify_eq; eauto.
  - eapply (workers_alive_same s _ t); [done|exact Hl|done|done|done|].
    intros Hi'. done.
  - eapply (workers_alive_same s _ t); [done|exact Hl|done|done|done|].
    intros Hi' Hs. split; [done|]. split; [done|].
    intros pc Hlast. destruct rest; cbn in *; simplify_eq; eauto.
Qed.

Lemma workers_alive_prims h n clients s :
  prims h (init_state n clients) s -> workers_alive s.
Proof.
  induction 1 as [|t s s' _ IH Hp]; [by split|]. by eapply workers_alive_prim.
Qed.

(** X8.  The spawned workers stay until shutdown.  In every state the system can
    reach in which the pool is initialised and [shutdown] is not set, each
    of the [num_threads - 1] handles of [work_queue.threads] is that of a
    thread that has not returned from [worker_thread(NULL)]: its outermost
    frame is still that call.  A worker leaves its loop only through the
    test of line 74, on [work_queue.running()]; whatever the clients do, the
    pool does not lose a thread before [halide_shutdown_thread_pool]. *)
Theorem workers_stay_until_shutdown h n clients s j :
  reachable h (init_state n clients) s ->
  thread_pool_initialized s = true ->
  shutdown (work_queue s) = false ->
  (j < Z.to_nat (num_threads s - 1))%nat ->
  exists th fs pc,
    threads (work_queue s) !! j = Some (Some th) /\
    pool s !! th = Some fs /\
    last fs = Some (FWorker None pc).
Proof.
  intros Hr Hi Hs Hj. apply reachable_prims in Hr.
  destruct (workers_alive_prims _ _ _ _ Hr) as [_ H]. by apply H.
Qed.

Lemma workers_stay_until_shutdown_witness :
  exists fs pc,
    threads (work_queue b_team_parked) !! 0%nat = Some (Some 1%nat) /\
    pool b_team_parked !! 1%nat = Some fs /\
    last fs = Some (FWorker None pc).
Proof.
  assert (Hr : reachable (host_cpus 2)
                 (init_state 0 [client_par_for task_ok 0 1]) b_team_parked).
  { apply (run_reachable _ [0; 0; 0; 1]%nat). vm_compute. reflexivity. }
  assert (Hi : thread_pool_initialized b_team_parked = true)
    by (vm_compute; reflexivity).
  assert (Hs : shutdown (work_queue b_team_parked) = false)
    by (vm_compute; reflexivity).
  assert (Hj : (0 < Z.to_nat (num_threads b_team_parked - 1))%nat)
    by (vm_compute; lia).
  assert (Ht : threads (work_queue b_team_parked) !! 0%nat = Some (Some 1%nat))
    by (vm_compute; reflexivity).
  destruct (workers_stay_until_shutdown _ _ _ _ 0%nat Hr Hi Hs Hj)
    as (th & fs & pc & H1 & H2 & H3).
  rewrite Ht in H1. injection H1 as <-.
  exists fs, pc. split; [exact Ht|]. split; [exact H2|exact H3].
Defined.

(** * No wake-up is lost *)

Lemma wake_like_no_wait_below g fs :
  wake_like g -> no_wait_below fs -> no_wait_below (g fs).
Proof.
  intros Hg. by destruct (Hg fs) as [->|(o & c & rest & -> & ->)].
Qed.

Lemma wake_like_waits_on g c fs :
  wake_like g -> waits_on c (g fs) = true -> waits_on c fs = true.
Proof.
  intros Hg. by destruct (Hg fs) as [->|(o & c' & rest & -> & ->)].
Qed.

Lemma wake_like_pending g fs :
  wake_like g -> wake_a_pending fs = true -> g fs = fs.
Proof.
  intros Hg. by destruct (Hg fs) as [->|(o & c' & rest & -> & ->)].
Qed.

Lemma waits_on_wake c fs : waits_on c (wake c fs) = false.
Proof.
  destruct fs as [|[?|?|o [|c'|?|? ?]|?] rest]; try done.
  cbn. destruct (cond_eqb c c') eqn:E; [done|]. cbn. by rewrite E.
Qed.

Lemma no_wait_below_tail fr fs :
  no_wait_below (fr :: fs) -> no_wait_below fs.
Proof.
  unfold no_wait_below. cbn. intros H. destruct fs; [done|].
  by inversion H.
Qed.

Lemma no_wait_below_top fr fr' fs :
  no_wait_below (fr :: fs) -> no_wait_below (fr' :: fs).
Proof. done. Qed.

Lemma no_wait_below_push fr fr' fs :
  is_wait_frame fr = false ->
  no_wait_below (fr :: fs) -> no_wait_below (fr' :: fr :: fs).
Proof. intros Hfr H. by constructor. Qed.

Lemma no_wait_below_worker_return rest :
  no_wait_below rest -> no_wait_below (worker_return rest).
Proof. by destruct rest as [|[?|[]|? ?|?] rest]. Qed.

(** A transition that neither pushes a job nor broadcasts
    [wakeup_a_team]. *)
Lemma a_team_inv_update s s' t fs fs' g :
  a_team_inv s ->
  pool s !! t = Some fs ->
  wake_like g ->
  pool s' = <[t := fs']> (g <$> pool s) ->
  (jobs (work_queue s') <> None -> jobs (work_queue s) <> None) ->
  no_wait_below fs' ->
  wake_a_pending fs = false ->
  (waits_on wakeup_a_team fs' = true -> jobs (work_queue s') = None) ->
  a_team_inv s'.
Proof.
  intros [Hnw Hinv] Hl Hg Hp Hj Hfs' Hnp Hwait. split.
  - intros t' x Hx. rewrite Hp in Hx. apply lookup_update in Hx.
    destruct Hx as [[-> ->]|(_ & x0 & Hx0 & ->)]; [done|].
    apply wake_like_no_wait_below; eauto.
  - intros Hne (t1 & x1 & Hx1 & Hw1).
    destruct Hinv as (t2 & x2 & Hx2 & Hp2); [auto| |].
    + rewrite Hp in Hx1. apply lookup_update in Hx1.
      destruct Hx1 as [[-> ->]|(_ & x0 & Hx0 & ->)].
      * by specialize (Hwait Hw1).
      * exists t1, x0. split; [done|]. by eapply wake_like_waits_on.
    + assert (t2 <> t)
        by (intros ->; rewrite Hl in Hx2; injection Hx2 as <-; congruence).
      exists t2, x2. split; [|done].
      rewrite Hp, list_lookup_insert_ne by done.
      rewrite list_lookup_fmap, Hx2. cbn. by rewrite (wake_like_pending g).
Qed.

Lemma a_team_inv_prim h t s s' : a_team_inv s -> prim h t s s' -> a_team_inv s'.
Proof.
  intros Hinv Hp. pose proof Hinv as [Hnw Ha].
  destruct Hp as
    [task uc min size cl k rest job wb s1 Hl Hc He
    |job wb rest Hl|job rest Hl|job task uc min size cl k rest w Hl Hw0
    |o rest s' Hl Hloop|o c rest Hl|result o job myjob rest s1 Hl Hf
    |k rest Hl Hc Hi|k rest Hl Hc Hi|i k rest th Hl Hi Hth Hex
    |i k rest Hl Hi|o c rest Hl];
    pose proof (Hnw _ _ Hl) as Hfs.
  - (* the push: the broadcast is pending *)
    destruct (par_for_enter_effect _ _ _ _ _ _ _ _ _ _ He)
      as (_ & _ & _ & _ & Hpool & _).
    destruct (lazy_init_pool h s) as [m Hm]. rewrite Hm in Hpool.
    pose proof (lookup_lt_Some _ _ _ Hl) as Hlt. split.
    + intros t' x Hx. apply lookup_set_frames in Hx.
      destruct Hx as [[-> ->]|[_ Hx]]; [by apply no_wait_below_push|].
      rewrite Hpool in Hx. apply lookup_spawned in Hx.
      destruct Hx as [Hx|[_ ->]]; [eauto|by constructor].
    + intros _ _.
      exists t, (FParFor (PF_wake_a job wb)
                 :: FTask (ParFor task uc min size cl k) :: rest).
      split; [|done]. apply pool_set_frames_eq. rewrite Hpool.
      exists (FTask (ParFor task uc min size cl k) :: rest).
      by apply lookup_app_l_Some.
  - (* the broadcast of line 207: nobody is left asleep on the A team *)
    split.
    + intros t' x Hx. apply lookup_update in Hx.
      destruct Hx as [[-> ->]|(_ & x0 & Hx0 & ->)].
      * destruct wb; [done|]. by apply no_wait_below_push.
      * apply wake_like_no_wait_below; [apply wake_like_wake|eauto].
    + intros _ (t1 & x1 & Hx1 & Hw1). apply lookup_update in Hx1.
      destruct Hx1 as [[-> ->]|(_ & x0 & Hx0 & ->)]; [by destruct wb|].
      by rewrite waits_on_wake in Hw1.
  - eapply (a_team_inv_update s _ t _ _ (wake wakeup_b_team));
      [done|exact Hl|apply wake_like_wake|done|done| |done|done].
    by apply no_wait_below_push.
  - eapply (a_team_inv_update s _ t _ _ id);
      [done|exact Hl|apply wake_like_id|by cbn; rewrite list_fmap_id|done
      | |done|done].
    eapply no_wait_below_top, no_wait_below_tail, Hfs.
  - apply worker_loop_outcome in Hloop.
    destruct Hloop as [Hcond|a Hcond -> Hj|Hcond -> Hj Hle|Hcond -> Hj Hlt
                      |job w Hcond Hj Hw0].
    + eapply (a_team_inv_update s _ t _ _ id);
        [done|exact Hl|apply wake_like_id|by cbn; rewrite list_fmap_id|done
        | |done|].
      * by eapply no_wait_below_worker_return, no_wait_below_tail.
      * intros Hw. apply no_wait_below_tail in Hfs as Hr.
        destruct rest as [|[?|[]|? [| | |]|?] rest]; try done.
        unfold no_wait_below in Hfs. cbn in Hfs.
        inversion Hfs as [|? ? Hx _]. by cbn in Hx.
    + eapply (a_team_inv_update s _ t _ _ id);
        [done|exact Hl|apply wake_like_id|by cbn; rewrite list_fmap_id|done
        |done|done|done].
    + eapply (a_team_inv_update s _ t _ _ id);
        [done|exact Hl|apply wake_like_id|by cbn; rewrite list_fmap_id|done
        |done|done|done].
    + eapply (a_team_inv_update s _ t _ _ id);
        [done|exact Hl|apply wake_like_id|by cbn; rewrite list_fmap_id|done
        |done|done|done].
    + eapply (a_team_inv_update s _ t _ _ id);
        [done|exact Hl|apply wake_like_id|by cbn; rewrite list_fmap_id
        |by rewrite Hj|by apply no_wait_below_push|done|done].
  - destruct c;
      (eapply (a_team_inv_update s _ t _ _ id);
       [done|exact Hl|apply wake_like_id|by cbn; rewrite list_fmap_id|done
       |done|done|done]).
  - unfold finish_task in Hf. destruct (heap s !! job) as [w|]; [|done].
    injection Hf as <-. destruct (negb _ && negb _).
    + eapply (a_team_inv_update s _ t _ _ (wake wakeup_owners));
        [done|exact Hl|apply wake_like_wake|done|done| |done|done].
      eapply no_wait_below_top, no_wait_below_tail, Hfs.
    + eapply (a_team_inv_update s _ t _ _ id);
        [done|exact Hl|apply wake_like_id|by cbn; rewrite list_fmap_id|done
        | |done|done].
      eapply no_wait_below_top, no_wait_below_tail, Hfs.
  - eapply (a_team_inv_update s _ t _ _ id);
      [done|exact Hl|apply wake_like_id|by cbn; rewrite list_fmap_id|done
      |done|done|done].
  - eapply (a_team_inv_update s _ t _ _
              (wake wakeup_b_team ∘ wake wakeup_a_team ∘ wake wakeup_owners));
      [done|exact Hl|repeat apply wake_like_compose; apply wake_like_wake
      |cbn; by rewrite <- !list_fmap_compose|done| |done|done].
    by apply no_wait_below_push.
  - eapply (a_team_inv_update s _ t _ _ id);
      [done|exact Hl|apply wake_like_id|by cbn; rewrite list_fmap_id|done
      |done|done|done].
  - eapply (a_team_inv_update s _ t _ _ id);
      [done|exact Hl|apply wake_like_id|by cbn; rewrite list_fmap_id|done
      | |done|done].
    eapply no_wait_below_top, no_wait_below_tail, Hfs.
  - eapply (a_team_inv_update s _ t _ _ id);
      [done|exact Hl|apply wake_like_id|by cbn; rewrite list_fmap_id|done
      |done|done|done].
Qed.

Lemma a_team_inv_prims h n clients s :
  prims h (init_state n clients) s -> a_team_inv s.
Proof.
  induction 1 as [|t s s' _ IH Hp]; [|by eapply a_team_inv_prim].
  split; [|done]. cbn. intros t fs Hfs. rewrite list_lookup_fmap in Hfs.
  destruct (clients !! t); [|done]. injection Hfs as <-. constructor.
Qed.

(** X9.  No wake-up of the A team is lost.  In every state the system can reach,
    whatever the clients submit: if a thread is asleep on [wakeup_a_team]
    (line 83) while a job is on the stack, then some submitter has pushed a
    job and released the mutex (line 204) and has its broadcast of
    [wakeup_a_team] (line 207) still to do.  A thread goes to sleep there
    only when it finds the stack empty, with the mutex held, and every push
    is followed by the broadcast. *)
Theorem a_team_sleeper_is_woken h n clients s t o rest :
  reachable h (init_state n clients) s ->
  pool s !! t = Some (FWorker o (W_wait wakeup_a_team) :: rest) ->
  jobs (work_queue s) = None \/
  exists t' job wb rest',
    pool s !! t' = Some (FParFor (PF_wake_a job wb) :: rest').
Proof.
  intros Hr Hl. apply reachable_prims in Hr.
  destruct (a_team_inv_prims _ _ _ _ Hr) as [_ H].
  destruct (jobs (work_queue s)) as [job|] eqn:Hj; [right|by left].
  destruct H as (t' & fs & Hfs & Hp); [done|by eauto|].
  destruct fs as [|[?|[job' wb| | |]|? ?|?] rest']; try done. eauto.
Qed.

Lemma a_team_sleeper_is_woken_witness :
  pool second_job_pushed !! 1%nat
  = Some [FWorker None (W_wait wakeup_a_team)] /\
  jobs (work_queue second_job_pushed) = Some 1%nat /\
  exists t' job wb rest',
    pool second_job_pushed !! t' = Some (FParFor (PF_wake_a job wb) :: rest').
Proof.
  assert (Hr : reachable (host_cpus 2) (init_state 0 [client_twice])
                 second_job_pushed).
  { apply (run_reachable _ [0; 0; 0; 0; 0; 0; 1; 0]%nat).
    vm_compute. reflexivity. }
  assert (Hl : pool second_job_pushed !! 1%nat
               = Some [FWorker None (W_wait wakeup_a_team)])
    by (vm_compute; reflexivity).
  assert (Hj : jobs (work_queue second_job_pushed) = Some 1%nat)
    by (vm_compute; reflexivity).
  split; [exact Hl|]. split; [exact Hj|].
  destruct (a_team_sleeper_is_woken _ _ _ _ _ _ _ Hr Hl) as [H|H].
  - rewrite Hj in H. discriminate H.
  - exact H.
Defined.

(** ** The owner of a job *)

Lemma total_ge_two F (pl : list (list frame)) t1 t2 x1 x2 :
  (forall x, 0 <= F x) -> t1 <> t2 ->
  pl !! t1 = Some x1 -> pl !! t2 = Some x2 ->
  F x1 + F x2 <= total F pl.
Proof.
  intros Hnn. revert t1 t2.
  induction pl as [|x pl IH]; intros [|t1] [|t2] Hne H1 H2; try done; cbn in *.
  - injection H1 as ->. pose proof (total_ge_elem F pl _ _ Hnn H2). lia.
  - injection H2 as ->. pose proof (total_ge_elem F pl _ _ Hnn H1). lia.
  - assert (t1 <> t2) by congruence. specialize (IH _ _ H H1 H2).
    specialize (Hnn x). lia.
Qed.

Lemma total_pos_elem F (pl : list (list frame)) :
  0 < total F pl -> exists t fs, pl !! t = Some fs /\ 0 < F fs.
Proof.
  induction pl as [|x pl IH]; cbn; [lia|]. intros H.
  destruct (decide (0 < F x)) as [Hx|Hx]; [by exists 0%nat, x|].
  destruct IH as (t & fs & Ht & Hfs); [lia|]. by exists (S t), fs.
Qed.

Lemma wake_like_tally_par_for g a fs :
  wake_like g -> tally (is_par_for_of a) (g fs) = tally (is_par_for_of a) fs.
Proof. intros H. by destruct (H fs) as [->|(o & c & rest & -> & ->)]. Qed.

Lemma tally_par_for_worker_return a rest :
  tally (is_par_for_of a) (worker_return rest) = tally (is_par_for_of a) rest.
Proof. by destruct rest as [|[?|[]|? ?|?] rest]. Qed.

Lemma tally_par_for_fresh hp fs :
  Forall (frame_valid hp) fs -> tally (is_par_for_of (length hp)) fs = 0.
Proof.
  induction 1 as [|fr fs Hfr _ IH]; cbn; [done|]. rewrite IH.
  destruct fr as [?|[| | |]|? ?|?]; cbn; try done; cbn in Hfr;
    (destruct (Nat.eqb_spec job (length hp)); [lia|done]).
Qed.

Lemma wake_like_asleep g fs o c rest :
  wake_like g -> g fs = FWorker o (W_wait c) :: rest -> g fs = fs.
Proof.
  intros Hg Hfs. destruct (Hg fs) as [E|(o' & c' & rest' & E1 & E2)]; [done|].
  rewrite E2 in Hfs. done.
Qed.

Lemma owner_inv_update s s' t fs fs' g :
  owner_inv s ->
  pool s !! t = Some fs ->
  wake_like g ->
  pool s' = <[t := fs']> (g <$> pool s) ->
  (forall a, tally (is_par_for_of a) fs' <= tally (is_par_for_of a) fs) ->
  (forall a rest, fs' = FWorker (Some a) (W_wait wakeup_owners) :: rest ->
     exists w, heap s' !! a = Some w /\ next w = max w /\
               0 < active_workers w) ->
  (forall t1 a rest w,
     t1 <> t ->
     pool s !! t1 = Some (FWorker (Some a) (W_wait wakeup_owners) :: rest) ->
     g (FWorker (Some a) (W_wait wakeup_owners) :: rest)
     = FWorker (Some a) (W_wait wakeup_owners) :: rest ->
     heap s !! a = Some w -> next w = max w -> 0 < active_workers w ->
     exists w', heap s' !! a = Some w' /\ next w' = max w' /\
                0 < active_workers w') ->
  owner_inv s'.
Proof.
  intros [Huniq Hown] Hl Hg Hp Hle Hnew Hold. split.
  - intros a. rewrite Hp, (total_update _ _ _ fs) by
      (done || intros; by apply wake_like_tally_par_for).
    specialize (Huniq a). specialize (Hle a). lia.
  - intros t1 a rest Hx. rewrite Hp in Hx. apply lookup_update in Hx.
    destruct Hx as [[-> E]|(Hne & x0 & Hx0 & E)]; [by eapply Hnew|].
    pose proof (wake_like_asleep _ _ _ _ _ Hg (eq_sym E)) as E'.
    rewrite E' in E. subst x0.
    destruct (Hown _ _ _ Hx0) as (w & Hw & Hn & Ha). by eapply Hold.
Qed.

(** A transition that leaves the job records as they are and puts no owner
    to sleep. *)
Lemma owner_inv_keep s s' t fs fs' g :
  owner_inv s ->
  pool s !! t = Some fs ->
  wake_like g ->
  pool s' = <[t := fs']> (g <$> pool s) ->
  heap s' = heap s ->
  (forall a, tally (is_par_for_of a) fs' <= tally (is_par_for_of a) fs) ->
  (forall a rest, fs' <> FWorker (Some a) (W_wait wakeup_owners) :: rest) ->
  owner_inv s'.
Proof.
  intros Hinv Hl Hg Hp Hh Hle Hne.
  eapply owner_inv_update; try done.
  - intros a rest E. by destruct (Hne a rest).
  - intros t1 a rest w _ _ _ Hw Hn Ha. exists w. by rewrite Hh.
Qed.

Lemma owner_inv_same s s' t fs fs' :
  owner_inv s ->
  pool s !! t = Some fs ->
  pool s' = <[t := fs']> (pool s) ->
  heap s' = heap s ->
  (forall a, tally (is_par_for_of a) fs' <= tally (is_par_for_of a) fs) ->
  (forall a rest, fs' <> FWorker (Some a) (W_wait wakeup_owners) :: rest) ->
  owner_inv s'.
Proof.
  intros Hinv Hl Hp. apply (owner_inv_keep s s' t fs fs' id); try done.
  - apply wake_like_id.
  - by rewrite list_fmap_id.
Qed.

Lemma owner_inv_prim h t s s' :
  valid_addrs s -> jobs_inv s -> owner_inv s -> prim h t s s' -> owner_inv s'.
Proof.
  intros (_ & _ & Hvalid) Hjinv Hinv Hp.
  pose proof Hjinv as (Hst & _ & (l & Hch & _ & Hjobs) & _).
  pose proof Hinv as [Huniq Hown].
  destruct Hp as
    [task uc min size cl k rest job wb s1 Hl Hc He
    |job wb rest Hl|job rest Hl|job task uc min size cl k rest w Hl Hw
    |o rest s' Hl Hloop|o c rest Hl|result o job myjob rest s1 Hl Hf
    |k rest Hl Hc Hi|k rest Hl Hc Hi|i k rest th Hl Hi Hth Hex
    |i k rest Hl Hi|o c rest Hl];
    pose proof (Hst _ _ Hl) as Hfs.
  - (* submission *)
    destruct (par_for_enter_effect _ _ _ _ _ _ _ _ _ _ He)
      as (-> & Hh & _ & _ & Hpool & _).
    destruct (lazy_init_pool h s) as [m Hm]. rewrite Hm in Hpool.
    split.
    + intros a. cbn [pool set_frames set_pool]. rewrite Hpool.
      rewrite (total_insert _ _ _ (FTask (ParFor task uc min size cl k) :: rest))
        by by apply lookup_app_l_Some.
      rewrite total_app, total_replicate. cbn.
      destruct (Nat.eqb_spec (length (heap s)) a) as [<-|Hne]; cbn.
      * rewrite (total_all_zero (tally (is_par_for_of (length (heap s))))
                   (pool s)); [lia|].
        intros t' x Hx. apply tally_par_for_fresh. eauto.
      * specialize (Huniq a). lia.
    + intros t1 a rest1 Hx. apply lookup_set_frames in Hx.
      destruct Hx as [[_ Hx]|[_ Hx]]; [done|].
      rewrite Hpool in Hx. apply lookup_spawned in Hx.
      destruct Hx as [Hx|[_ Hx]]; [|done].
      destruct (Hown _ _ _ Hx) as (w & Hw & Hn & Ha).
      exists w. cbn. rewrite Hh. split; [by apply lookup_app_l_Some|done].
  - eapply (owner_inv_keep s _ t _ _ (wake wakeup_a_team));
      [done|exact Hl|apply wake_like_wake|done|done| |].
    + intros a. destruct wb; cbn; lia.
    + intros a rest1. by destruct wb.
  - eapply (owner_inv_keep s _ t _ _ (wake wakeup_b_team));
      [done|exact Hl|apply wake_like_wake|done|done| |done].
    intros a. cbn. lia.
  - eapply (owner_inv_same s _ t); [done|exact Hl|done|done| |done].
    intros a. cbn. destruct (_ =? _)%nat; cbn; lia.
  - apply worker_loop_outcome in Hloop.
    destruct Hloop as [Hcond|a Hcond -> Hj|Hcond -> Hj Hle|Hcond -> Hj Hlt
                      |job w Hcond Hj Hw].
    + eapply (owner_inv_same s _ t); [done|exact Hl|done|done| |].
      * intros a. rewrite tally_par_for_worker_return. cbn. lia.
      * intros a rest1 E. destruct o as [b|]; [|cbn in Hfs; by subst rest].
        destruct rest as [|[?|[]|? ?|?] rest]; try (cbn in Hfs; tauto).
        all: done.
    + eapply (owner_inv_update s _ t _ _ id);
        [done|exact Hl|apply wake_like_id|by cbn; rewrite list_fmap_id
        |intros b; cbn; lia| |].
      * intros b rest1 [= <- <-]. cbn in Hcond.
        destruct (heap s !! a) as [w|] eqn:Hw; [|done]. injection Hcond as Hr.
        exists w. split; [done|].
        destruct (Hjobs a w Hw)
          as (mn & sz & _ & _ & _ & _ & _ & J6 & _ & _ & _ & J10).
        rewrite Hj in Hch. inversion Hch; subst. cbn in J10.
        unfold running in Hr. apply orb_true_iff in Hr.
        assert (~ next w < max w) by tauto. lia.
      * intros t1 b rest1 w _ _ _ Hw Hn Ha. by exists w.
    + by eapply (owner_inv_same s _ t).
    + by eapply (owner_inv_same s _ t).
    + eapply (owner_inv_update s _ t _ _ id);
        [done|exact Hl|apply wake_like_id|by cbn; rewrite list_fmap_id
        |intros b; cbn; lia|done|].
      intros t1 b rest1 wb _ _ _ Hwb Hn Ha. exists wb. split; [|done].
      unfold claim. cbn. rewrite list_lookup_insert_ne; [done|].
      intros <-. rewrite Hw in Hwb. injection Hwb as <-.
      rewrite Hj in Hch. destruct (chain_head _ _ _ Hch) as (w' & l' & -> & _).
      destruct (Hjobs job w Hw)
        as (mn & sz & _ & _ & _ & _ & _ & _ & _ & _ & _ & J10).
      assert (next w < max w) by (apply J10; by left). lia.
  - destruct c; by eapply (owner_inv_same s _ t).
  - (* a result is taken back: lines 115-129 *)
    unfold finish_task in Hf. destruct (heap s !! job) as [wj|] eqn:Hwj; [|done].
    injection Hf as <-.
    set (w2 := set_active_workers _ _).
    destruct (negb (running w2) && negb (bool_decide (o = Some job))) eqn:Hb.
    + eapply (owner_inv_update s _ t _ _ (wake wakeup_owners));
        [done|exact Hl|apply wake_like_wake|done| |done|done].
      intros a. cbn. lia.
    + eapply (owner_inv_update s _ t _ _ id);
        [done|exact Hl|apply wake_like_id|by cbn; rewrite list_fmap_id
        |intros b; cbn; lia|done|].
      intros t1 b rest1 w Hne Hx _ Hw Hn Ha. cbn [heap set_frames set_pool set_log set_heap].
      destruct (decide (job = b)) as [->|Hjb];
        [|exists w; by rewrite list_lookup_insert_ne].
      rewrite Hw in Hwj. injection Hwj as <-.
      exists w2. split; [apply list_lookup_insert_eq; by eapply lookup_lt_Some|].
      destruct (Hjobs b w Hw)
        as (mn & sz & J1 & J2 & J3 & J4 & J5 & J6 & J7 & J8 & J9 & J10).
      assert (Hw2 : next w2 = next w /\ max w2 = max w /\
                    active_workers w2 = active_workers w - 1).
      { subst w2. cbn. assert (forall x : work,
          next (if result =? 0 then x else set_exit_status result x) = next x /\
          max (if result =? 0 then x else set_exit_status result x) = max x /\
          active_workers (if result =? 0 then x else set_exit_status result x)
          = active_workers x) as E by (intros x; by destruct (result =? 0)).
        destruct (E w) as (-> & -> & ->). split; [done|]. split; [done|].
        apply wrap_small. unfold INT_MIN, INT_MAX in *. lia. }
      destruct Hw2 as (E1 & E2 & E3). split; [lia|].
      destruct (decide (0 < active_workers w2)) as [|Hz]; [done|]. exfalso.
      assert (Hnr : running w2 = false).
      { unfold running. apply orb_false_iff. split; lia. }
      rewrite Hnr in Hb. cbn in Hb. apply negb_false_iff in Hb.
      apply bool_decide_eq_true in Hb. subst o.
      cbn in Hfs. destruct Hfs as (_ & Hrest & _).
      destruct rest as [|[?|[]|? ?|?] rest]; try done. subst job.
      pose proof (Hst _ _ Hx) as Hx1. cbn in Hx1. destruct Hx1 as [Hr1 _].
      destruct rest1 as [|[?|[]|? ?|?] rest1]; try done. subst job.
      pose proof (total_ge_two (tally (is_par_for_of b)) _ _ _ _ _
                    (tally_nonneg _) Hne Hx Hl) as Htwo.
      cbn in Htwo. rewrite Nat.eqb_refl in Htwo. cbn in Htwo.
      pose proof (tally_nonneg (is_par_for_of b) rest).
      pose proof (tally_nonneg (is_par_for_of b) rest1).
      specialize (Huniq b). lia.
  - cbn in Hfs. destruct Hfs as [Hcp _]. inversion Hcp.
  - cbn in Hfs. destruct Hfs as [Hcp _]. inversion Hcp.
  - by cbn in Hfs.
  - by cbn in Hfs.
  - by eapply (owner_inv_same s _ t).
Qed.

Lemma owner_inv_prims h n clients s :
  Forall calls_pos clients -> prims h (init_state n clients) s -> owner_inv s.
Proof.
  intros Hc. induction 1 as [|t s s' Hr IH Hp].
  - split.
    + intros a. rewrite (total_all_zero (tally (is_par_for_of a))); [lia|].
      cbn. intros t fs Hfs. rewrite list_lookup_fmap in Hfs.
      destruct (clients !! t); [|done]. by injection Hfs as <-.
    + cbn. intros t a rest Hfs. rewrite list_lookup_fmap in Hfs.
      destruct (clients !! t); done.
  - eapply owner_inv_prim; [| |exact IH|exact Hp].
    + by destruct (prims_invariants _ _ _ _ Hr).
    + by eapply jobs_inv_prims.
Qed.

(** X10.  No wake-up of an owner is lost.  For clients whose every parallel-for, nested ones
    included, has [size >= 1] and a range within [int], and that never call
    [halide_shutdown_thread_pool] ([calls_pos]):
    in every state the system can reach, a submitter asleep on
    [wakeup_owners] (line 80) has every index of its job claimed and at
    least one task of the job still in progress in some thread.  The
    thread that takes back the last of these results finds the job not
    running and is not its owner, so it does the broadcast of line 128: the
    owner cannot be left asleep with its job over. *)
Theorem owner_asleep_has_task_in_flight h n clients s t a rest :
  Forall calls_pos clients ->
  reachable h (init_state n clients) s ->
  pool s !! t = Some (FWorker (Some a) (W_wait wakeup_owners) :: rest) ->
  exists w t' fs,
    heap s !! a = Some w /\
    next w = max w /\
    0 < active_workers w /\
    pool s !! t' = Some fs /\
    0 < tally (is_task_of a) fs.
Proof.
  intros Hc Hr Hl. apply reachable_prims in Hr.
  destruct (owner_inv_prims _ _ _ _ Hc Hr) as [_ Hown].
  destruct (Hown _ _ _ Hl) as (w & Hw & Hn & Ha).
  destruct (jobs_inv_prims _ _ _ _ Hc Hr) as (_ & _ & (l & _ & _ & Hjobs) & _).
  destruct (Hjobs a w Hw)
    as (mn & sz & _ & _ & _ & _ & _ & _ & _ & _ & J9 & _).
  destruct (total_pos_elem (tally (is_task_of a)) (pool s))
    as (t' & fs & Hfs & Hpos); [lia|].
  exists w, t', fs. done.
Qed.

Lemma owner_asleep_has_task_in_flight_witness :
  pool owner_asleep !! 0%nat
  = Some [FWorker (Some 0%nat) (W_wait wakeup_owners); FParFor (PF_work 0);
          FTask (client_par_for task_ok 0 2)] /\
  exists w t' fs,
    heap owner_asleep !! 0%nat = Some w /\
    0 < active_workers w /\
    pool owner_asleep !! t' = Some fs /\
    0 < tally (is_task_of 0) fs.
Proof.
  assert (Hr : reachable (host_cpus 2)
                 (init_state 0 [client_par_for task_ok 0 2]) owner_asleep).
  { apply (run_reachable _ [0; 0; 0; 1; 0]%nat). vm_compute. reflexivity. }
  assert (Hl : pool owner_asleep !! 0%nat
               = Some [FWorker (Some 0%nat) (W_wait wakeup_owners);
                       FParFor (PF_work 0);
                       FTask (client_par_for task_ok 0 2)])
    by (vm_compute; reflexivity).
  assert (Hc : Forall calls_pos [client_par_for task_ok 0 2]).
  { repeat constructor; unfold INT_MIN, INT_MAX; lia. }
  split; [exact Hl|].
  destruct (owner_asleep_has_task_in_flight _ _ _ _ _ _ _ Hc Hr Hl)
    as (w & t' & fs & H1 & _ & H2 & H3 & H4).
  exists w, t', fs. split; [exact H1|]. split; [exact H2|].
  split; [exact H3|exact H4].
Defined.

(** * Progress *)

(** ** The shape of the call stacks *)

Lemma wake_like_top_ok g fs : wake_like g -> top_ok fs -> top_ok (g fs).
Proof. intros H. by destruct (H fs) as [->|(o & c & rest & -> & ->)]. Qed.

Lemma wake_like_stack_shape g fs :
  wake_like g -> stack_shape fs -> stack_shape (g fs).
Proof.
  intros H. destruct (H fs) as [->|(o & c & rest & -> & ->)]; [done|].
  destruct o; cbn; tauto.
Qed.

Lemma frame_valid_claimed_before hp fs :
  Forall (frame_valid hp) fs -> Forall (claimed_before (length hp)) fs.
Proof.
  intros H. eapply Forall_impl; [exact H|].
  intros [?|?|o [| | |job myjob]|?]; cbn; try done. tauto.
Qed.

Lemma shape_inv_update s s' t fs fs' g :
  shape_inv s ->
  pool s !! t = Some fs ->
  wake_like g ->
  pool s' = <[t := fs']> (g <$> pool s) ->
  top_ok fs' -> stack_shape fs' ->
  shape_inv s'.
Proof.
  intros Hinv Hl Hg Hp Htop Hshape t' x Hx.
  rewrite Hp in Hx. apply lookup_update in Hx.
  destruct Hx as [[-> ->]|(_ & x0 & Hx0 & ->)]; [done|].
  destruct (Hinv _ _ Hx0).
  split; [by apply wake_like_top_ok|by apply wake_like_stack_shape].
Qed.

Lemma shape_inv_same s s' t fs fs' :
  shape_inv s ->
  pool s !! t = Some fs ->
  pool s' = <[t := fs']> (pool s) ->
  top_ok fs' -> stack_shape fs' ->
  shape_inv s'.
Proof.
  intros Hinv Hl Hp. apply (shape_inv_update s s' t fs fs' id); try done.
  - apply wake_like_id.
  - by rewrite list_fmap_id.
Qed.

Lemma shape_inv_prim h t s s' :
  valid_addrs s -> jobs_inv s -> shape_inv s -> prim h t s s' -> shape_inv s'.
Proof.
  intros (_ & _ & Hvalid) (Hst & _) Hinv Hp.
  destruct Hp as
    [task uc min size cl k rest job wb s1 Hl Hc He
    |job wb rest Hl|job rest Hl|job task uc min size cl k rest w Hl Hw
    |o rest s' Hl Hloop|o c rest Hl|result o job myjob rest s1 Hl Hf
    |k rest Hl Hc Hi|k rest Hl Hc Hi|i k rest th Hl Hi Hth Hex
    |i k rest Hl Hi|o c rest Hl];
    pose proof (Hst _ _ Hl) as Hfs;
    destruct (Hinv _ _ Hl) as [Htop Hshape].
  - destruct (par_for_enter_effect _ _ _ _ _ _ _ _ _ _ He)
      as (-> & _ & _ & _ & Hpool & _).
    destruct (lazy_init_pool h s) as [m Hm]. rewrite Hm in Hpool.
    intros t' x Hx. apply lookup_set_frames in Hx.
    destruct Hx as [[-> ->]|[_ Hx]].
    + split; [done|]. split; [|done].
      apply frame_valid_claimed_before. eauto.
    + rewrite Hpool in Hx. apply lookup_spawned in Hx.
      destruct Hx as [Hx|[_ ->]]; [eauto|done].
  - eapply (shape_inv_update s _ t _ _ (wake wakeup_a_team));
      [done|exact Hl|apply wake_like_wake|done|by destruct wb|by destruct wb].
  - by eapply (shape_inv_update s _ t _ _ (wake wakeup_b_team));
      [done|exact Hl|apply wake_like_wake|done|done|done].
  - eapply (shape_inv_same s _ t); [done|exact Hl|done|done|].
    cbn in Hshape. cbn. tauto.
  - apply worker_loop_outcome in Hloop.
    destruct Hloop as [Hcond|a Hcond -> Hj|Hcond -> Hj Hle|Hcond -> Hj Hlt
                      |job w Hcond Hj Hw].
    + destruct o as [b|]; [|cbn in Hfs; subst rest;
                             by eapply (shape_inv_same s _ t)].
      destruct rest as [|[?|[]|? ?|?] rest]; try (cbn in Hfs; tauto).
      by eapply (shape_inv_same s _ t).
    + by eapply (shape_inv_same s _ t).
    + by eapply (shape_inv_same s _ t).
    + by eapply (shape_inv_same s _ t).
    + eapply (shape_inv_same s _ t); [done|exact Hl|done|done|].
      cbn. split; [done|]. by destruct o.
  - destruct c; (eapply (shape_inv_same s _ t); [done|exact Hl|done|done|]);
      by destruct o.
  - unfold finish_task in Hf. destruct (heap s !! job) as [w|]; [|done].
    injection Hf as <-. cbn in Hshape. destruct Hshape as [_ Hshape].
    destruct (negb _ && negb _).
    + eapply (shape_inv_update s _ t _ _ (wake wakeup_owners));
        [done|exact Hl|apply wake_like_wake|done|done|by destruct o].
    + eapply (shape_inv_same s _ t); [done|exact Hl|done|done|by destruct o].
  - cbn in Hfs. destruct Hfs as [Hcp _]. inversion Hcp.
  - cbn in Hfs. destruct Hfs as [Hcp _]. inversion Hcp.
  - by cbn in Hfs.
  - by cbn in Hfs.
  - eapply (shape_inv_same s _ t); [done|exact Hl|done|done|].
    destruct o; cbn in *; tauto.
Qed.

Lemma shape_inv_prims h n clients s :
  Forall calls_pos clients -> prims h (init_state n clients) s -> shape_inv s.
Proof.
  intros Hc. induction 1 as [|t s s' Hr IH Hp].
  - intros t fs Hfs. cbn in Hfs. rewrite list_lookup_fmap in Hfs.
    destruct (clients !! t); [|done]. by injection Hfs as <-.
  - eapply shape_inv_prim; [| |exact IH|exact Hp].
    + by destruct (prims_invariants _ _ _ _ Hr).
    + by eapply jobs_inv_prims.
Qed.

(** ** A thread that can run *)

Lemma stack_ok_no_shutdown s fs : stack_ok s fs -> in_shutdown fs = false.
Proof.
  induction fs as [|fr fs IH]; [done|].
  destruct fr as [p|pc|[a|] pc|pc]; cbn [stack_ok]; try tauto.
  by intros ->.
Qed.

Lemma contract_calls_pos s t :
  (forall t fs, pool s !! t = Some fs -> stack_ok s fs) -> contract t s = true.
Proof.
  intros Hst. unfold contract.
  destruct (pool s !! t) as [fs|] eqn:Hl; [|done].
  pose proof (Hst _ _ Hl) as Hfs.
  destruct fs as [|[[r|task uc min size cl k|k]|?|? ?|?] rest]; try done.
  - destruct rest; [|done]. apply forallb_forall. intros x Hx.
    apply list_elem_of_In, list_elem_of_lookup_1 in Hx. destruct Hx as [t' Hx].
    apply negb_true_iff. eapply stack_ok_no_shutdown. eauto.
  - cbn in Hfs. destruct Hfs as [Hcp _]. inversion Hcp.
Qed.

Lemma worker_loop_is_some t o rest s :
  (forall a, o = Some a -> (a < length (heap s))%nat) ->
  (forall j, jobs (work_queue s) = Some j -> (j < length (heap s))%nat) ->
  is_Some (worker_loop t o rest s).
Proof.
  intros Ho Hj. unfold worker_loop.
  assert (Hc : is_Some (loop_condition o s)).
  { destruct o as [a|]; cbn; [|done].
    destruct (lookup_lt_is_Some_2 (heap s) a) as [w ->]; [auto|done]. }
  fold (loop_condition o s). destruct Hc as [[|] ->]; [|done].
  destruct (jobs (work_queue s)) as [j|] eqn:E.
  - destruct (lookup_lt_is_Some_2 (heap s) j) as [w ->]; [auto|done].
  - destruct o; [done|]. by destruct (_ <=? _).
Qed.

Lemma finish_task_is_some o job myjob r s :
  (job < length (heap s))%nat ->
  exists s1, finish_task o job myjob r s = Some s1 /\
             length (heap s1) = length (heap s) /\
             jobs (work_queue s1) = jobs (work_queue s).
Proof.
  intros Hlt. unfold finish_task.
  destruct (lookup_lt_is_Some_2 (heap s) job) as [w ->]; [done|].
  eexists. split; [done|].
  destruct (negb _ && negb _); cbn; by rewrite length_insert.
Qed.

(** What a thread can be doing: it can take a transition, or it has ended,
    or it is a spawned worker asleep, or it is an owner asleep on
    [wakeup_owners]. *)
Lemma thread_cases h s t fs :
  valid_addrs s -> jobs_inv s -> shape_inv s ->
  pool s !! t = Some fs ->
  can_step h s t \/
  fs = [] \/
  (exists r, fs = [FTask (Ret r)]) \/
  (exists c, fs = [FWorker None (W_wait c)]) \/
  (exists b rest,
     fs = FWorker (Some b) (W_wait wakeup_owners) :: FParFor (PF_work b)
          :: rest).
Proof.
  intros (Hvj & _ & Hvalid) (Hst & _) Hinv Hl.
  pose proof (Hst _ _ Hl) as Hfs. destruct (Hinv _ _ Hl) as [Htop Hshape].
  pose proof (Hvalid _ _ Hl) as Hfv.
  assert (Hc : contract t s = true) by by apply contract_calls_pos.
  unfold can_step, thread_step. rewrite Hl.
  destruct fs as [|[[r|task uc min size cl k|k]|[job wb|job|job|job]
                   |o [|c|c|job myjob]|?] rest]; try done; auto.
  - (* a task has returned *)
    destruct rest as [|[?|?|o [| | |job myjob]|?] rest];
      try (cbn in Hshape; tauto); [eauto 6|].
    left. split; [done|].
    inversion Hfv as [|? ? _ Hfv']; subst.
    inversion Hfv' as [|? ? Hfr _]; subst. destruct Hfr as [Ho Hjob].
    destruct (finish_task_is_some o job myjob r s Hjob) as (s1 & -> & E1 & E2).
    apply worker_loop_is_some; rewrite E1; [done|]. by rewrite E2.
  - cbn in Hfs. destruct Hfs as [Hcp _]. inversion Hcp.
  - left. split; [done|]. by destruct wb.
  - left. split; [done|].
    destruct rest as [|[[| |]|?|? ?|?] rest]; try (cbn in Hfs; tauto).
    inversion Hfv as [|? ? Hjob _]; subst. cbn in Hjob.
    by destruct (lookup_lt_is_Some_2 (heap s) job) as [w ->].
  - left. split; [done|]. apply worker_loop_is_some; [|done].
    inversion Hfv as [|? ? Hfr _]; subst. by destruct Hfr.
  - destruct o as [b|].
    + cbn in Hshape. destruct Hshape as [-> _].
      destruct rest as [|[?|[]|? ?|?] rest]; try (cbn in Hfs; tauto).
      cbn in Hfs. destruct Hfs as [<- _]. eauto 10.
    + cbn in Hfs. subst rest. eauto 10.
  - left. split; [done|].
    inversion Hfv as [|? ? Hfr _]; subst. destruct Hfr as [Ho _].
    destruct c; by apply worker_loop_is_some.
Qed.

Lemma claimed_before_tally a b fs :
  Forall (claimed_before b) fs -> 0 < tally (is_task_of a) fs -> (a < b)%nat.
Proof.
  induction 1 as [|fr fs Hfr _ IH]; cbn; [lia|].
  destruct fr as [?|?|o [| | |job myjob]|?]; cbn; try (intros; apply IH; lia).
  destruct (Nat.eqb_spec job a) as [->|_]; cbn; [done|]. intros. apply IH. lia.
Qed.

Lemma tally_task_beyond hp fs b :
  Forall (frame_valid hp) fs -> (length hp <= b)%nat ->
  tally (is_task_of b) fs = 0.
Proof.
  intros H Hb. induction H as [|fr fs Hfr _ IH]; cbn; [done|]. rewrite IH.
  destruct fr as [?|?|o [| | |job myjob]|?]; cbn; try done.
  destruct Hfr as [_ Hfr]. destruct (Nat.eqb_spec job b); [lia|done].
Qed.

(** ** From a task in progress to a thread that can run

    A thread inside a task of job [a] can run, or it sleeps as the owner of
    a younger job [b], which has a task in progress in its turn; the
    addresses of the jobs are bounded by the heap. *)
Lemma task_in_flight_can_step h s (k : nat) :
  valid_addrs s -> jobs_inv s -> shape_inv s -> owner_inv s ->
  forall a t fs,
    (length (heap s) - a <= k)%nat ->
    pool s !! t = Some fs ->
    0 < tally (is_task_of a) fs ->
    exists t', can_step h s t'.
Proof.
  intros Hva Hji Hsh [_ Hown].
  induction k as [|k IH]; intros a t fs Hk Hl Ha.
  - destruct Hva as (_ & _ & Hvalid).
    rewrite (tally_task_beyond (heap s)) in Ha; [lia|eauto|lia].
  - destruct (thread_cases h s t fs Hva Hji Hsh Hl)
      as [Hc|[->|[[r ->]|[[c ->]|(b & rest & ->)]]]]; try (cbn in Ha; lia).
    + by exists t.
    + destruct (Hsh _ _ Hl) as [_ Hshape]. cbn in Hshape.
      destruct Hshape as (_ & Hcb & _).
      assert (Hab : (a < b)%nat).
      { eapply claimed_before_tally; [exact Hcb|]. cbn in Ha. lia. }
      destruct (Hown _ _ _ Hl) as (w & Hw & _ & Haw).
      destruct Hji as (_ & _ & (l & _ & _ & Hjobs) & _).
      destruct (Hjobs b w Hw)
        as (mn & sz & _ & _ & _ & _ & _ & _ & _ & _ & J9 & _).
      destruct (total_pos_elem (tally (is_task_of b)) (pool s))
        as (t2 & fs2 & Hfs2 & Hpos); [lia|].
      apply (IH b t2 fs2); [|done|done].
      apply lookup_lt_Some in Hw. lia.
Qed.

(** X11.  The pool does not deadlock.  For clients whose every parallel-for, nested ones
    included, has [size >= 1] and a range within [int], and that never call
    [halide_shutdown_thread_pool] ([calls_pos]), with
    any depth of nesting and any number of threads: in
    every state the system can reach, if some thread has neither ended its
    program nor is a spawned worker asleep, then some thread can take a
    transition of its own, with no need of a spurious wake-up.  A submitter
    asleep on [wakeup_owners] waits for a task in progress; the thread that
    runs it can go on, or sleeps in its turn as the owner of a job submitted
    later, and so on, up to a thread that runs. *)
Theorem pool_never_deadlocks h n clients s t fs :
  Forall calls_pos clients ->
  reachable h (init_state n clients) s ->
  pool s !! t = Some fs ->
  fs <> [] ->
  (forall r, fs <> [FTask (Ret r)]) ->
  (forall c, fs <> [FWorker None (W_wait c)]) ->
  exists t' s', step h s s' /\ thread_step h t' s = Some s'.
Proof.
  intros Hc Hr Hl Hne Hend Hidle. apply reachable_prims in Hr.
  destruct (prims_invariants _ _ _ _ Hr) as [Hva _].
  pose proof (jobs_inv_prims _ _ _ _ Hc Hr) as Hji.
  pose proof (shape_inv_prims _ _ _ _ Hc Hr) as Hsh.
  pose proof (owner_inv_prims _ _ _ _ Hc Hr) as Hown.
  assert (Hcan : exists t', can_step h s t').
  { destruct (thread_cases h s t fs Hva Hji Hsh Hl)
      as [H|[->|[[r ->]|[[c ->]|(b & rest & ->)]]]]; try done.
    - by exists t.
    - by destruct (Hend r).
    - by destruct (Hidle c).
    - destruct Hown as [Huniq Hown'].
      destruct (Hown' _ _ _ Hl) as (w & Hw & _ & Haw).
      pose proof Hji as (_ & _ & (l & _ & _ & Hjobs) & _).
      destruct (Hjobs b w Hw)
        as (mn & sz & _ & _ & _ & _ & _ & _ & _ & _ & J9 & _).
      destruct (total_pos_elem (tally (is_task_of b)) (pool s))
        as (t2 & fs2 & Hfs2 & Hpos); [lia|].
      by apply (task_in_flight_can_step h s (length (heap s)) Hva Hji Hsh
                  (conj Huniq Hown') b t2 fs2 ltac:(lia)). }
  destruct Hcan as (t' & Hct & [s' Hs']).
  exists t', s'. split; [by eapply step_thread|done].
Qed.

Lemma pool_never_deadlocks_witness :
  pool nested_owner_asleep !! 0%nat
  = Some [FWorker (Some 0%nat) (W_wait wakeup_owners); FParFor (PF_work 0);
          FTask client_nested_one] /\
  thread_step (host_cpus 2) 0 nested_owner_asleep = None /\
  exists t' s',
    step (host_cpus 2) nested_owner_asleep s' /\
    thread_step (host_cpus 2) t' nested_owner_asleep = Some s'.
Proof.
  assert (Hr : reachable (host_cpus 2) (init_state 0 [client_nested_one])
                 nested_owner_asleep).
  { apply (run_reachable _ [0; 0; 0; 1; 0; 0; 0; 0; 0; 0]%nat).
    vm_compute. reflexivity. }
  assert (Hl : pool nested_owner_asleep !! 0%nat
               = Some [FWorker (Some 0%nat) (W_wait wakeup_owners);
                       FParFor (PF_work 0); FTask client_nested_one])
    by (vm_compute; reflexivity).
  assert (Hc : Forall calls_pos [client_nested_one])
    by (constructor; [exact calls_pos_nested_one|constructor]).
  split; [exact Hl|]. split; [vm_compute; reflexivity|].
  apply (pool_never_deadlocks _ 0 [client_nested_one] _ 0%nat _ Hc Hr Hl);
    [discriminate|intros r; discriminate|intros c; discriminate].
Defined.

(** * Shutdown and restart *)

(** ** The shutdown flag *)

Lemma shutdown_flag_update s s' t fs fs' g :
  shutdown_flag_inv s ->
  pool s !! t = Some fs ->
  wake_like g ->
  pool s' = <[t := fs']> (g <$> pool s) ->
  (thread_pool_initialized s' = true -> shutdown (work_queue s') = true ->
   in_shutdown fs' = true \/
   (thread_pool_initialized s = true /\ shutdown (work_queue s) = true /\
    (in_shutdown fs = true -> in_shutdown fs' = true))) ->
  shutdown_flag_inv s'.
Proof.
  intros Hinv Hl Hg Hp Hkeep Hi Hs.
  assert (Hlt : (t < length (g <$> pool s))%nat).
  { rewrite length_fmap. by eapply lookup_lt_Some. }
  destruct (Hkeep Hi Hs) as [Hin|(Hi0 & Hs0 & Hin)].
  - exists t, fs'. split; [|done]. rewrite Hp. by apply list_lookup_insert_eq.
  - destruct (Hinv Hi0 Hs0) as (t0 & x & Hx & Hsx).
    destruct (decide (t0 = t)) as [->|Hne].
    + rewrite Hl in Hx. injection Hx as <-.
      exists t, fs'. split; [|auto]. rewrite Hp. by apply list_lookup_insert_eq.
    + exists t0, (g x). split.
      * rewrite Hp, list_lookup_insert_ne by done.
        by rewrite list_lookup_fmap, Hx.
      * by rewrite wake_like_in_shutdown.
Qed.

Lemma shutdown_flag_same s s' t fs fs' :
  shutdown_flag_inv s ->
  pool s !! t = Some fs ->
  pool s' = <[t := fs']> (pool s) ->
  (thread_pool_initialized s' = true -> shutdown (work_queue s') = true ->
   in_shutdown fs' = true \/
   (thread_pool_initialized s = true /\ shutdown (work_queue s) = true /\
    (in_shutdown fs = true -> in_shutdown fs' = true))) ->
  shutdown_flag_inv s'.
Proof.
  intros Hinv Hl Hp. apply (shutdown_flag_update s s' t fs fs' id); try done.
  - apply wake_like_id.
  - by rewrite list_fmap_id.
Qed.

Lemma shutdown_flag_prim h t s s' :
  shutdown_flag_inv s -> prim h t s s' -> shutdown_flag_inv s'.
Proof.
  intros Hw Hp.
  destruct Hp as
    [task uc min size cl k rest job wb s1 Hl Hc He
    |job wb rest Hl|job rest Hl|job task uc min size cl k rest w Hl Hw0
    |o rest s' Hl Hloop|o c rest Hl|result o job myjob rest s1 Hl Hf
    |k rest Hl Hc Hi|k rest Hl Hc Hi|i k rest th Hl Hi Hth Hex
    |i k rest Hl Hi|o c rest Hl].
  - destruct (par_for_enter_effect _ _ _ _ _ _ _ _ _ _ He)
      as (_ & _ & _ & _ & Hpool & Hnum & Hini & _ & Hthr & Hsd & _).
    destruct (thread_pool_initialized s) eqn:Hi.
    + rewrite lazy_init_initialized in * by done.
      eapply (shutdown_flag_same s _ t); [done|exact Hl|by cbn; rewrite Hpool|].
      cbn. rewrite Hsd, Hini. intros Hi' Hs. right. done.
    + intros _ Hs. cbn in Hs. rewrite Hsd in Hs.
      destruct (lazy_init_fresh h s Hi)
        as (_ & _ & _ & _ & _ & _ & _ & E & _). by rewrite E in Hs.
  - eapply (shutdown_flag_update s _ t _ _ (wake wakeup_a_team));
      [done|exact Hl|apply wake_like_wake|done|].
    intros Hi' Hs. right. split; [done|]. split; [done|]. by destruct wb.
  - eapply (shutdown_flag_update s _ t _ _ (wake wakeup_b_team));
      [done|exact Hl|apply wake_like_wake|done|].
    intros Hi' Hs. right. done.
  - eapply (shutdown_flag_same s _ t); [done|exact Hl|done|].
    intros Hi' Hs. right. done.
  - apply worker_loop_outcome in Hloop.
    destruct Hloop as [Hcond|a Hcond -> Hj|Hcond -> Hj Hle|Hcond -> Hj Hlt
                      |job w Hcond Hj Hw0].
    + eapply (shutdown_flag_same s _ t); [done|exact Hl|done|].
      intros Hi Hs. right. split; [done|]. split; [done|].
      cbn. by rewrite in_shutdown_worker_return.
    + eapply (shutdown_flag_same s _ t); [done|exact Hl|done|].
      intros Hi' Hs. right. done.
    + eapply (shutdown_flag_same s _ t); [done|exact Hl|done|].
      intros Hi' Hs. right. done.
    + eapply (shutdown_flag_same s _ t); [done|exact Hl|done|].
      intros Hi' Hs. right. done.
    + eapply (shutdown_flag_same s _ t); [done|exact Hl|done|].
      unfold claim. cbn. intros Hi Hs. right. split; [done|].
      split; [by destruct (wrap (next w + 1) =? max w)|done].
  - destruct c;
      (eapply (shutdown_flag_same s _ t); [done|exact Hl|done|];
       intros Hi' Hs; right; done).
  - unfold finish_task in Hf. destruct (heap s !! job) as [w|]; [|done].
    injection Hf as <-. destruct (negb _ && negb _).
    + eapply (shutdown_flag_update s _ t _ _ (wake wakeup_owners));
        [done|exact Hl|apply wake_like_wake|done|].
      intros Hi' Hs. right. done.
    + eapply (shutdown_flag_same s _ t); [done|exact Hl|done|].
      intros Hi' Hs. right. done.
  - eapply (shutdown_flag_same s _ t); [done|exact Hl|done|].
    intros Hi' Hs. right. done.
  - eapply (shutdown_flag_update s _ t _ _
              (wake wakeup_b_team ∘ wake wakeup_a_team ∘ wake wakeup_owners));
      [done|exact Hl|repeat apply wake_like_compose; apply wake_like_wake
      |cbn; by rewrite <- !list_fmap_compose|].
    intros Hi' Hs. by left.
  - eapply (shutdown_flag_same s _ t); [done|exact Hl|done|].
    intros Hi' Hs. by left.
  - intros Hi'. done.
  - eapply (shutdown_flag_same s _ t); [done|exact Hl|done|].
    intros Hi' Hs. right. done.
Qed.

Lemma shutdown_flag_prims h n clients s :
  prims h (init_state n clients) s -> shutdown_flag_inv s.
Proof.
  induction 1 as [|t s s' _ IH Hp]; [by intros ?|].
  by eapply shutdown_flag_prim.
Qed.

(** ** The join loop *)

(** A spawned worker that is in its loop with no task claimed, once
    [shutdown] is set: its next transition is its last. *)
Lemma worker_leaves h s th pc :
  pool s !! th = Some [FWorker None pc] ->
  shutdown (work_queue s) = true ->
  at_rest [FWorker None pc] = true ->
  (forall c, pc <> W_wait c) ->
  exists s', thread_step h th s = Some (set_frames th [] s') /\
             contract th s = true /\
             pool s' = pool s /\ heap s' = heap s /\ log s' = log s /\
             num_threads s' = num_threads s /\
             thread_pool_initialized s' = thread_pool_initialized s /\
             threads (work_queue s') = threads (work_queue s) /\
             shutdown (work_queue s') = true.
Proof.
  intros Hl Hs Hr Hw.
  assert (Hc : contract th s = true) by (unfold contract; by rewrite Hl).
  destruct pc as [|c|c|job myjob]; [|by destruct (Hw c)| |done].
  - exists s. unfold thread_step, worker_loop, queue_running.
    rewrite Hl, Hs. done.
  - exists (after_wait c s). unfold thread_step, worker_loop, queue_running.
    rewrite Hl. destruct c; cbn; rewrite Hs; done.
Qed.

Lemma joining_exit N TH P0 t k i s s' th pc :
  joining N TH P0 t k i s ->
  th <> t ->
  pool s !! th = Some [FWorker None pc] ->
  pool s' = <[th := []]> (pool s) ->
  num_threads s' = num_threads s ->
  thread_pool_initialized s' = thread_pool_initialized s ->
  threads (work_queue s') = threads (work_queue s) ->
  shutdown (work_queue s') = true ->
  joining N TH P0 t k i s' /\ exited s' th = true.
Proof.
  intros (Hl & Hini & Hsd & Hn & Hth & Hlen & Hrest & Hcli & Hhan & Hex)
    Hne Hfs E1 E4 E5 E6 E7.
  assert (Hlt : (th < length (pool s))%nat) by by eapply lookup_lt_Some.
  split.
  - unfold joining. rewrite E1, E4, E5, E6, E7.
    rewrite list_lookup_insert_ne by done. rewrite length_insert.
    split_and!; try done.
    + intros t' x Hne' Hx. apply list_lookup_insert_Some in Hx.
      destruct Hx as [(_ & <- & _)|[_ Hx]]; [done|].
      by apply (Hrest t' x).
    + intros t' p Hne' Hp. specialize (Hcli t' p Hne' Hp).
      rewrite list_lookup_insert_ne; [done|].
      intros <-. rewrite Hfs in Hcli. done.
    + intros j Hj. destruct (Hhan j Hj) as (th' & x & H1 & H2 & H3 & H4).
      destruct (decide (th' = th)) as [->|Hne'].
      * exists th, []. rewrite list_lookup_insert_eq by done. done.
      * exists th', x. by rewrite list_lookup_insert_ne.
    + intros j Hj. destruct (Hex j Hj) as (th' & H1 & H2).
      exists th'. split; [done|]. unfold exited in *. rewrite E1.
      destruct (decide (th' = th)) as [->|Hne'].
      * by rewrite list_lookup_insert_eq.
      * by rewrite list_lookup_insert_ne.
  - unfold exited. rewrite E1. by rewrite list_lookup_insert_eq.
Qed.

Lemma joining_next N TH P0 t k i s th :
  joining N TH P0 t k i s ->
  0 <= i ->
  TH !! Z.to_nat i = Some (Some th) ->
  exited s th = true ->
  joining N TH P0 t k (i + 1)
    (set_frames t [FShutdown (SD_join (i + 1)); FTask (Shutdown k)] s).
Proof.
  intros (Hl & Hini & Hsd & Hn & Hth & Hlen & Hrest & Hcli & Hhan & Hex)
    Hi Hh Hex1.
  assert (Hlt : (t < length (pool s))%nat) by by eapply lookup_lt_Some.
  unfold joining. cbn.
  rewrite list_lookup_insert_eq by done. rewrite length_insert.
  split_and!; try done.
  - intros t' x Hne' Hx. rewrite list_lookup_insert_ne in Hx by done.
    by apply (Hrest t' x).
  - intros t' p Hne' Hp. rewrite list_lookup_insert_ne by done. auto.
  - intros j Hj. destruct (Hhan j Hj) as (th' & x & H1 & H2 & H3 & H4).
    exists th', x. by rewrite list_lookup_insert_ne.
  - intros j Hj. unfold exited. cbn.
    destruct (decide (j = Z.to_nat i)) as [->|Hnj].
    + exists th. split; [done|]. unfold exited in Hex1.
      destruct (decide (th = t)) as [->|Hne'].
      * by rewrite Hl in Hex1.
      * by rewrite list_lookup_insert_ne.
    + destruct (Hex j) as (th' & H1 & H2); [lia|].
      exists th'. split; [done|]. unfold exited in H2.
      destruct (decide (th' = t)) as [->|Hne'].
      * by rewrite Hl in H2.
      * by rewrite list_lookup_insert_ne.
Qed.

(** Whatever thread moves while the caller is in the join loop, the caller is
    still in the join loop afterwards, or has returned. *)
Lemma joining_step h N TH P0 t k i s s' fs :
  1 <= N <= MAX_THREADS ->
  joining N TH P0 t k i s ->
  0 <= i <= N - 1 ->
  step h s s' ->
  pool s' !! t = Some fs ->
  in_shutdown fs = true ->
  exists i',
    joining N TH P0 t k i' s' /\ 0 <= i' <= N - 1 /\
    heap s' = heap s /\ log s' = log s.
Proof.
  intros HN Hj Hi Hstep Hfs Hin.
  pose proof Hj as
    (Hl & Hini & Hsd & Hn & Hth & Hlen & Hrest & Hcli & Hhan & Hex).
  destruct Hstep as [t' s s' Hct Hs|t' s o c rest Hw].
  - destruct (decide (t' = t)) as [->|Hne].
    + (* the caller *)
      unfold thread_step in Hs. rewrite Hl, Hn in Hs.
      destruct (i <? N - 1) eqn:E.
      * destruct (TH !! Z.to_nat i) as [[th|]|] eqn:Hh;
          rewrite Hth, Hh in Hs; try done.
        destruct (exited s th) eqn:Hex1; [|done].
        injection Hs as <-.
        rewrite wrap_small
          by (unfold MAX_THREADS, INT_MIN, INT_MAX in *; lia).
        exists (i + 1). split; [by eapply joining_next; [| lia | |]|].
        split; [lia|done].
      * injection Hs as <-. rewrite pool_set_frames_eq in Hfs by eauto.
        injection Hfs as <-. done.
    + (* another thread *)
      destruct (pool s !! t') as [x|] eqn:Hx;
        [|by unfold thread_step in Hs; rewrite Hx in Hs].
      destruct (Hrest _ _ Hne Hx) as [Hr Hnw].
      destruct x as [|[p|?|[a|] pc|?] [|? ?]]; try done.
      * by unfold thread_step in Hs; rewrite Hx in Hs.
      * destruct p as [r|task uc min size cl k0|k0].
        -- by unfold thread_step in Hs; rewrite Hx in Hs.
        -- unfold contract in Hct. rewrite Hx in Hct.
           by pose proof (forallb_lookup _ _ _ _ Hct Hl).
        -- unfold contract in Hct. rewrite Hx in Hct.
           apply andb_true_iff in Hct. destruct Hct as [_ Hct].
           by pose proof (forallb_lookup _ _ _ _ Hct Hl).
      * destruct (worker_leaves h s t' pc Hx Hsd Hr) as
          (s'' & Hstep & _ & E1 & E2 & E3 & E4 & E5 & E6 & E7).
        { intros c ->. by eapply Hnw. }
        rewrite Hstep in Hs. injection Hs as <-.
        destruct (joining_exit N TH P0 t k i s (set_frames t' [] s'') t' pc
                    Hj Hne Hx) as [Hj' _]; try done.
        { cbn. by rewrite E1. }
        exists i. cbn. by rewrite E2, E3.
  - destruct (decide (t' = t)) as [->|Hne].
    + rewrite Hl in Hw. done.
    + destruct (Hrest _ _ Hne Hw) as [_ Hnw]. by destruct (Hnw o c rest).
Qed.

Lemma inside_shutdown_reachable h t s1 s2 :
  inside_shutdown h t s1 s2 -> reachable h s1 s2.
Proof.
  induction 1 as [|s s' fs _ IH Hstep _ _]; [constructor|].
  by eapply reachable_step.
Qed.

Lemma inside_shutdown_joining h N TH P0 t k s1 s2 :
  1 <= N <= MAX_THREADS ->
  joining N TH P0 t k 0 s1 ->
  inside_shutdown h t s1 s2 ->
  exists i,
    joining N TH P0 t k i s2 /\ 0 <= i <= N - 1 /\
    heap s2 = heap s1 /\ log s2 = log s1.
Proof.
  intros HN Hj. induction 1 as [|s s' fs _ IH Hstep Hfs Hin].
  - exists 0. split; [done|]. split; [lia|done].
  - destruct IH as (i & Hji & Hi & Hh & Hlg).
    destruct (joining_step h N TH P0 t k i s s' fs HN Hji Hi Hstep Hfs Hin)
      as (i' & Hj' & Hi' & Hh' & Hlg').
    exists i'. split; [done|]. split; [done|]. by rewrite Hh', Hlg'.
Qed.

Section join_loop.
Context (h : host) (N : Z) (TH : list (option tid)) (P0 : list (list frame)).
Context (t : tid) (k : prog).
Hypothesis N_range : 1 <= N <= MAX_THREADS.

(** From the join loop at index [i] to the last line of
    [halide_shutdown_thread_pool]: the worker of each handle leaves if it
    has not left yet, and is joined. *)
Lemma join_loop_runs (m : nat) : forall i s,
  joining N TH P0 t k i s ->
  0 <= i ->
  Z.of_nat m = N - 1 - i ->
  exists sched s2 s3,
    run h sched s = Some s2 /\
    joining N TH P0 t k (N - 1) s2 /\
    heap s2 = heap s /\ log s2 = log s /\
    thread_step h t s2 = Some s3 /\
    s3 = set_frames t [FTask k] (shutdown_leave s2).
Proof.
  induction m as [|m IH]; intros i s Hj Hi Hm.
  - assert (i = N - 1) as -> by lia.
    exists [], s, (set_frames t [FTask k] (shutdown_leave s)).
    split; [done|]. split; [done|]. split; [done|]. split; [done|].
    split; [|done].
    destruct Hj as (Hl & _ & _ & Hn & _).
    unfold thread_step. rewrite Hl, Hn.
    destruct (N - 1 <? N - 1) eqn:E; [lia|done].
  - pose proof Hj as
      (Hl & Hini & Hsd & Hn & Hth & Hlen & Hrest & Hcli & Hhan & Hex).
    destruct (Hhan (Z.to_nat i)) as (th & fs & Hh & Hne & Hfs & Hnt); [lia|].
    (* the worker of handle [i] leaves, unless it has left already *)
    assert (Hleave : exists sched s1,
              run h sched s = Some s1 /\
              joining N TH P0 t k i s1 /\
              heap s1 = heap s /\ log s1 = log s /\
              exited s1 th = true).
    { destruct (Hrest th fs Hne Hfs) as [Hr Hw].
      destruct fs as [|fr fs].
      - exists [], s. unfold exited. by rewrite Hfs.
      - destruct fr as [p|?|[a|] pc|?]; try done; destruct fs; try done.
        { by destruct (Hnt p). }
        destruct (worker_leaves h s th pc Hfs Hsd Hr) as
          (s' & Hstep & Hct & E1 & E2 & E3 & E4 & E5 & E6 & E7).
        { intros c ->. by eapply Hw. }
        destruct (joining_exit N TH P0 t k i s (set_frames th [] s') th pc
                    Hj Hne Hfs) as [Hj' Hex']; try done.
        { cbn. by rewrite E1. }
        exists [th], (set_frames th [] s'). cbn [run]. rewrite Hct, Hstep.
        by rewrite <- E2, <- E3. }
    destruct Hleave as (sched1 & s1 & Hrun1 & Hj1 & Hh1 & Hlg1 & Hex1).
    pose proof Hj1 as (Hl1 & _ & _ & Hn1 & Hth1 & _).
    (* the join of line 245 *)
    set (s2 := set_frames t
                 [FShutdown (SD_join (i + 1)); FTask (Shutdown k)] s1).
    assert (Hstep : thread_step h t s1 = Some s2).
    { unfold thread_step. rewrite Hl1, Hn1, Hth1, Hh, Hex1.
      destruct (i <? N - 1) eqn:E; [|lia].
      rewrite wrap_small; [done|].
      unfold MAX_THREADS, INT_MIN, INT_MAX in *. lia. }
    assert (Hct : contract t s1 = true) by (unfold contract; by rewrite Hl1).
    destruct (IH (i + 1) s2)
      as (sched2 & s3 & s4 & Hrun2 & Hj3 & Hh3 & Hlg3 & Hfin); [|lia|lia|].
    { by eapply joining_next. }
    exists (sched1 ++ t :: sched2), s3, s4.
    split.
    { rewrite run_app, Hrun1. cbn [run]. by rewrite Hct, Hstep. }
    split; [done|]. split; [by rewrite Hh3, <- Hh1|].
    split; [by rewrite Hlg3, <- Hlg1|done].
Qed.
End join_loop.

(** ** One thread running while the others stand still *)

Lemma woken_from_trans a b c :
  woken_from a b -> woken_from b c -> woken_from a c.
Proof.
  intros [->|(o & x & rest & -> & ->)] [->|(o' & x' & rest' & E & ->)].
  - by left.
  - right. eauto.
  - right. eauto.
  - done.
Qed.

Lemma woken_from_wake c fs : woken_from fs (wake c fs).
Proof.
  destruct fs as [|[?|?|o [|c'| |]|?] rest]; try by left.
  cbn. destruct (cond_eqb c c'); [right; eauto|by left].
Qed.

Lemma woken_from_in_shutdown fs fs' :
  woken_from fs fs' -> in_shutdown fs' = in_shutdown fs.
Proof. by intros [->|(o & c & rest & -> & ->)]. Qed.

Lemma same_pool_refl s : same_pool s s.
Proof. by repeat split. Qed.

Lemma same_pool_trans s1 s2 s3 :
  same_pool s1 s2 -> same_pool s2 s3 -> same_pool s1 s3.
Proof.
  intros (A1 & A2 & A3 & A4 & A5 & A6 & A7) (B1 & B2 & B3 & B4 & B5 & B6 & B7).
  unfold same_pool. by rewrite B1, B2, B3, B4, B5, B6, B7.
Qed.

Lemma others_woken_refl t s : others_woken t s s.
Proof. split; [done|]. intros t' fs _ H. exists fs. split; [done|by left]. Qed.

Lemma others_woken_trans t s1 s2 s3 :
  others_woken t s1 s2 -> others_woken t s2 s3 -> others_woken t s1 s3.
Proof.
  intros [L1 H1] [L2 H2]. split; [by rewrite L2|].
  intros t' fs Hne Hfs. destruct (H1 _ _ Hne Hfs) as (x & Hx & W1).
  destruct (H2 _ _ Hne Hx) as (y & Hy & W2).
  exists y. split; [done|]. by eapply woken_from_trans.
Qed.

Lemma others_woken_update t s s' fs c :
  pool s' = <[t := fs]> (pool s) \/
  pool s' = <[t := fs]> (wake c <$> pool s) ->
  others_woken t s s'.
Proof.
  intros [Hp|Hp]; (split; [by rewrite Hp, length_insert, ?length_fmap|]);
    intros t' x Hne Hx; rewrite Hp, list_lookup_insert_ne by done.
  - exists x. split; [done|by left].
  - exists (wake c x). rewrite list_lookup_fmap, Hx. split; [done|].
    apply woken_from_wake.
Qed.

Lemma solo_refl t s : solo t s s.
Proof. split; [apply same_pool_refl|apply others_woken_refl]. Qed.

Lemma solo_trans t s1 s2 s3 : solo t s1 s2 -> solo t s2 s3 -> solo t s1 s3.
Proof.
  intros [A1 A2] [B1 B2].
  split; [by eapply same_pool_trans|by eapply others_woken_trans].
Qed.

Lemma calm_others t s s' : calm t s -> others_woken t s s' -> calm t s'.
Proof.
  intros Hc [Hlen Ho] t' fs' Hne Hfs'.
  destruct (lookup_lt_is_Some_2 (pool s) t') as [fs Hfs].
  { rewrite <- Hlen. by eapply lookup_lt_Some. }
  destruct (Ho _ _ Hne Hfs) as (x & Hx & Hw).
  rewrite Hfs' in Hx. injection Hx as <-.
  rewrite (woken_from_in_shutdown _ _ Hw). by eapply Hc.
Qed.

Lemma contract_solo t s fs :
  pool s !! t = Some fs ->
  calm t s ->
  (forall k rest, fs <> FTask (Shutdown k) :: rest) ->
  contract t s = true.
Proof.
  intros Hl Hc Hns. unfold contract. rewrite Hl.
  destruct fs as [|[[r|task uc min size cl k|k]|?|? ?|?] rest]; try done.
  - destruct rest; [|done]. apply forallb_forall. intros x Hx.
    apply list_elem_of_In, list_elem_of_lookup_1 in Hx. destruct Hx as [t' Hx].
    apply negb_true_iff. destruct (decide (t' = t)) as [->|Hne].
    + rewrite Hl in Hx. by injection Hx as <-.
    + by eapply Hc.
  - by destruct (Hns k rest).
Qed.

Lemma run_replicate_add h t n m s s1 s2 :
  run h (replicate n t) s = Some s1 ->
  run h (replicate m t) s1 = Some s2 ->
  run h (replicate (n + m) t) s = Some s2.
Proof. intros H1 H2. by rewrite replicate_add, run_app, H1. Qed.

Lemma run_replicate_S h t n s s1 s2 :
  contract t s = true ->
  thread_step h t s = Some s1 ->
  run h (replicate n t) s1 = Some s2 ->
  run h (replicate (S n) t) s = Some s2.
Proof. intros Hc Hs Hr. cbn. by rewrite Hc, Hs. Qed.

Section worker_loop_solo.
Context (h : host) (t : tid) (task : halide_task_t) (uc cl : Z).
Context (R : list frame) (job : addr) (J0 : option addr) (mx : Z).

Hypothesis task_runs : forall idx, runs_solo h t (task uc idx cl).
Hypothesis mx_int : mx <= INT_MAX.

(** The worker loop of the owner of [job], entered with [m] indices left
    and no task of the job in progress, while no other thread moves: the
    owner runs the [m] tasks in order and leaves. *)
Lemma worker_loop_solo (m : nat) : forall s st,
  is_Some (pool s !! t) ->
  thread_pool_initialized s = true ->
  calm t s ->
  INT_MIN <= mx - Z.of_nat m ->
  heap s !! job = Some (mk_work J0 task uc (mx - Z.of_nat m) mx cl 0 st) ->
  (m <> 0%nat -> jobs (work_queue s) = Some job) ->
  exists steps s',
    match worker_loop t (Some job) R s with
    | Some s1 => run h (replicate steps t) s1
    | None => None
    end = Some s' /\
    pool s' !! t = Some (worker_return R) /\
    solo t s s' /\
    jobs (work_queue s')
    = match m with O => jobs (work_queue s) | S _ => J0 end /\
    heap s' !! job
    = Some (mk_work J0 task uc mx mx cl 0
              (record_results st
                 (List.map (fun idx => sequential (task uc idx cl))
                    (seqZ (mx - Z.of_nat m) (Z.of_nat m))))) /\
    (forall a w, a <> job -> heap s !! a = Some w -> heap s' !! a = Some w) /\
    (forall a w, heap s' !! a = Some w -> (length (heap s) <= a)%nat ->
                 running w = false).
Proof.
  induction m as [|m IH]; intros s st Hp Hi Hcalm Hmin Hw Hj.
  - exists 0%nat, (set_frames t (worker_return R) s).
    unfold worker_loop. rewrite Hw. cbn -[Z.sub].
    rewrite Z.sub_0_r in *.
    unfold running. cbn. rewrite Z.ltb_irrefl. cbn.
    split; [done|]. split; [by apply list_lookup_insert_eq, lookup_lt_is_Some|].
    split.
    { split; [done|]. by eapply (others_woken_update _ _ _ _ wakeup_owners); left. }
    split; [done|]. split; [done|]. split; [done|].
    intros a w Ha Hge. apply lookup_lt_Some in Ha. lia.
  - set (nx := mx - Z.of_nat (S m)) in *.
    assert (Hnx : nx + 1 = mx - Z.of_nat m) by lia.
    set (w := mk_work J0 task uc nx mx cl 0 st) in *.
    set (w2 := mk_work J0 task uc (nx + 1) mx cl 1 st).
    set (rest := FWorker (Some job) (W_task job w) :: R).
    set (sc := set_frames t (FTask (task uc nx cl) :: rest) (claim job w s)).
    assert (Hloop : worker_loop t (Some job) R s = Some sc).
    { unfold worker_loop. rewrite Hw, Hj by done. cbn -[Z.sub claim].
      unfold running. cbn -[Z.sub claim].
      replace (nx <? mx) with true by lia. cbn -[Z.sub claim].
      by rewrite Hw. }
    assert (Hwr : wrap (nx + 1) = nx + 1)
      by (apply wrap_small; unfold INT_MIN, INT_MAX in *; lia).
    assert (Hpc : pool sc !! t = Some (FTask (task uc nx cl) :: rest)).
    { subst sc. cbn. by apply list_lookup_insert_eq, lookup_lt_is_Some. }
    assert (Hhc : heap sc = <[job := w2]> (heap s)).
    { subst sc w w2. unfold claim, set_active_workers, set_next. cbn.
      by rewrite Hwr. }
    assert (Hjc : jobs (work_queue sc)
                  = match m with O => J0 | S _ => Some job end).
    { subst sc w. unfold claim, set_active_workers, set_next. cbn.
      rewrite Hwr. destruct m as [|m'].
      - replace (nx + 1 =? mx) with true by lia. done.
      - replace (nx + 1 =? mx) with false by lia. by rewrite Hj. }
    assert (Hic : thread_pool_initialized sc = true) by done.
    assert (Hsc : solo t s sc).
    { split.
      - subst sc. unfold same_pool, claim. cbn.
        by destruct (wrap (nx + 1) =? mx).
      - by eapply (others_woken_update _ _ _ _ wakeup_owners); left. }
    assert (Hcc : calm t sc) by (eapply calm_others; [exact Hcalm|apply Hsc]).
    clearbody sc.
    destruct (task_runs nx sc rest Hpc Hic Hcc)
      as (n1 & sd & Hrun1 & Hpd & Hsd & Hjd & Hkeep1 & Hnew1).
    assert (Hid : thread_pool_initialized sd = true).
    { destruct Hsd as [(_ & E & _) _]. by rewrite E. }
    pose proof (lookup_lt_Some _ _ _ Hw) as Hlt.
    assert (Hwd : heap sd !! job = Some w2).
    { apply Hkeep1. rewrite Hhc. by apply list_lookup_insert_eq. }
    set (r := sequential (task uc nx cl)) in *.
    set (st' := if r =? 0 then st else r).
    set (w3 := mk_work J0 task uc (nx + 1) mx cl 0 st').
    set (se := set_log (log sd ++ [EvReturn job nx r])
                 (set_heap (<[job := w3]> (heap sd)) sd)).
    assert (Hfin : finish_task (Some job) job w r sd = Some se).
    { unfold finish_task. rewrite Hwd. cbn.
      rewrite bool_decide_true by done. rewrite andb_false_r.
      subst se w3 st' w2. unfold set_active_workers, set_exit_status. cbn.
      by destruct (r =? 0). }
    assert (Hwe : heap se !! job
                  = Some (mk_work J0 task uc (mx - Z.of_nat m) mx cl 0 st')).
    { subst se w3. cbn. rewrite <- Hnx. apply list_lookup_insert_eq.
      by eapply lookup_lt_Some. }
    assert (Hde : solo t sd se) by (split; [done|exact (others_woken_refl t sd)]).
    destruct (IH se st') as (n2 & s' & Hrun2 & Hp' & Hs' & Hj' & Hw' & Hkeep2 & Hnew2).
    { subst se. cbn. by rewrite Hpd. }
    { done. }
    { eapply calm_others; [exact Hcc|]. eapply others_woken_trans; [apply Hsd|apply Hde]. }
    { lia. }
    { exact Hwe. }
    { intros Hm. subst se. cbn. rewrite Hjd, Hjc. by destruct m. }
    exists (n1 + S n2)%nat, s'. rewrite Hloop.
    split; [|split; [done|split; [|split; [|split; [|split]]]]].
    + eapply run_replicate_add; [exact Hrun1|]. cbn [replicate run].
      assert (contract t sd = true) as -> by (unfold contract; by rewrite Hpd).
      assert (thread_step h t sd = worker_loop t (Some job) R se) as ->
        by (unfold thread_step; rewrite Hpd; cbn; by rewrite Hfin).
      exact Hrun2.
    + eapply solo_trans; [exact Hsc|]. eapply solo_trans; [exact Hsd|].
      eapply solo_trans; [exact Hde|exact Hs'].
    + rewrite Hj'. destruct m; [|done]. subst se. cbn. by rewrite Hjd, Hjc.
    + rewrite Hw'. do 2 f_equal.
      rewrite (seqZ_cons nx) by lia. cbn [List.map].
      rewrite record_results_cons. fold r. fold st'.
      by replace (Z.succ nx) with (mx - Z.of_nat m) by lia;
         replace (Z.pred (Z.of_nat (S m))) with (Z.of_nat m) by lia.
    + intros a wa Hne Ha. apply Hkeep2; [done|]. subst se. cbn.
      rewrite list_lookup_insert_ne by done. apply Hkeep1.
      by rewrite Hhc, list_lookup_insert_ne.
    + intros a wa Ha Hge.
      destruct (decide (length (heap se) <= a)%nat) as [Hle|Hgt];
        [by eapply Hnew2|].
      assert (Hlen : length (heap se) = length (heap sd))
        by (subst se; cbn; apply length_insert).
      assert (Hne : a <> job) by lia.
      destruct (lookup_lt_is_Some_2 (heap sd) a) as [wd Hd]; [lia|].
      assert (Hrd : running wd = false).
      { eapply Hnew1; [exact Hd|]. by rewrite Hhc, length_insert. }
      assert (He : heap se !! a = Some wd).
      { subst se. cbn. by rewrite list_lookup_insert_ne. }
      apply (Hkeep2 _ _ Hne) in He. rewrite Ha in He. by injection He as ->.
Qed.
End worker_loop_solo.

(** Lines 207-215: the broadcasts of the submitter. *)
Lemma wake_solo h t s job wb R0 :
  pool s !! t = Some (FParFor (PF_wake_a job wb) :: R0) ->
  exists steps s',
    run h (replicate steps t) s = Some s' /\
    pool s' !! t
    = Some (FWorker (Some job) W_entry :: FParFor (PF_work job) :: R0) /\
    heap s' = heap s /\
    work_queue s' = work_queue s /\
    thread_pool_initialized s' = thread_pool_initialized s /\
    num_threads s' = num_threads s /\
    others_woken t s s'.
Proof.
  intros Hp.
  assert (Hlt : (t < length (pool s))%nat) by by eapply lookup_lt_Some.
  assert (Hc : contract t s = true) by (unfold contract; by rewrite Hp).
  destruct wb.
  - set (s1 := set_frames t (FParFor (PF_wake_b job) :: R0)
                 (halide_cond_broadcast wakeup_a_team s)).
    assert (Hp1 : pool s1 !! t = Some (FParFor (PF_wake_b job) :: R0)).
    { subst s1. cbn. apply list_lookup_insert_eq. by rewrite length_fmap. }
    assert (Hlt1 : (t < length (pool s1))%nat) by by eapply lookup_lt_Some.
    exists 2%nat. eexists. split.
    + cbn [replicate run]. rewrite Hc. unfold thread_step at 1. rewrite Hp.
      fold s1. unfold contract at 1. rewrite Hp1.
      unfold thread_step. rewrite Hp1. reflexivity.
    + split.
      { cbn. apply list_lookup_insert_eq.
        by rewrite length_fmap, length_insert, length_fmap. }
      split; [done|]. split; [done|]. split; [done|]. split; [done|].
      eapply (others_woken_trans _ _ s1).
      * by eapply (others_woken_update _ _ _ _ wakeup_a_team); right.
      * by eapply (others_woken_update _ _ _ _ wakeup_b_team); right.
  - exists 1%nat. eexists. split.
    + cbn [replicate run]. rewrite Hc. unfold thread_step. rewrite Hp.
      reflexivity.
    + split.
      { cbn. apply list_lookup_insert_eq. by rewrite length_fmap. }
      split; [done|]. split; [done|]. split; [done|]. split; [done|].
      by eapply (others_woken_update _ _ _ _ wakeup_a_team); right.
Qed.

Lemma calm_lazy_init h t s : calm t s -> calm t (lazy_init h s).
Proof.
  intros Hc t' fs Hne Hfs.
  destruct (lazy_init_pool h s) as [m Hm]. rewrite Hm in Hfs.
  apply lookup_app_Some in Hfs. destruct Hfs as [Hfs|[_ Hfs]]; [by eapply Hc|].
  apply lookup_replicate in Hfs. by destruct Hfs as [-> _].
Qed.

(** One call of [default_do_par_for], run by its thread alone. *)
Lemma par_for_solo h t task uc min size cl k s rest :
  (forall idx, runs_solo h t (task uc idx cl)) ->
  0 <= size -> INT_MIN <= min -> min + size <= INT_MAX ->
  pool s !! t = Some (FTask (ParFor task uc min size cl k) :: rest) ->
  calm t s ->
  exists steps s',
    run h (replicate steps t) s = Some s' /\
    pool s' !! t
    = Some (FTask (k (record_results 0
                        (List.map (fun idx => sequential (task uc idx cl))
                           (seqZ min size)))) :: rest) /\
    solo t (lazy_init h s) s' /\
    jobs (work_queue s')
    = (if size =? 0 then Some (length (heap s))
       else jobs (work_queue (lazy_init h s))) /\
    heap_kept s s'.
Proof.
  intros Htask Hsz Hmin Hmax Hp Hcalm.
  set (p := ParFor task uc min size cl k) in *.
  destruct (par_for_enter h task uc min size cl s) as [[job wb] s1] eqn:He.
  destruct (par_for_enter_effect _ _ _ _ _ _ _ _ _ _ He)
    as (-> & Hh & _ & Hj & Hpool & Hnum & Hini & Hat & Hthr & Hsd & _).
  rewrite lazy_init_is_initialized in Hini.
  rewrite wrap_small in Hh by (unfold INT_MIN, INT_MAX in *; lia).
  set (job := length (heap s)) in *.
  set (J0 := jobs (work_queue (lazy_init h s))) in *.
  set (R0 := FTask p :: rest).
  set (sA := set_frames t (FParFor (PF_wake_a job wb) :: R0) s1).
  assert (Hct : contract t s = true).
  { eapply contract_solo; [exact Hp|exact Hcalm|done]. }
  assert (HrunA : run h (replicate 1 t) s = Some sA).
  { cbn. rewrite Hct. unfold thread_step. rewrite Hp. subst p.
    cbn -[par_for_enter]. by rewrite He. }
  assert (Hlt : (t < length (pool (lazy_init h s)))%nat).
  { destruct (lazy_init_pool h s) as [m ->]. rewrite length_app.
    apply lookup_lt_Some in Hp. lia. }
  assert (HpA : pool sA !! t = Some (FParFor (PF_wake_a job wb) :: R0)).
  { subst sA. cbn. rewrite Hpool. by apply list_lookup_insert_eq. }
  assert (HsA : solo t (lazy_init h s) sA).
  { split.
    - unfold same_pool. subst sA. cbn. rewrite Hnum, Hini, Hat, Hthr, Hsd.
      rewrite lazy_init_is_initialized.
      unfold par_for_enter in He. injection He as _ _ <-. done.
    - eapply (others_woken_update _ _ _ _ wakeup_owners). left.
      subst sA. cbn. by rewrite Hpool. }
  destruct (wake_solo h t sA job wb R0 HpA)
    as (nW & sL & HrunW & HpL & HhL & HqL & HiL & HnL & HoL).
  assert (HsL : solo t sA sL).
  { split; [|done]. unfold same_pool. by rewrite HqL, HiL, HnL. }
  set (R := FParFor (PF_work job) :: R0) in *.
  set (m := Z.to_nat size).
  assert (HcL : calm t sL).
  { eapply calm_others; [by apply (calm_lazy_init h)|].
    eapply others_woken_trans; [apply HsA|apply HsL]. }
  destruct (worker_loop_solo h t task uc cl R job J0 (min + size) Htask Hmax
              m sL 0)
    as (n2 & s2 & Hrun2 & Hp2 & Hs2 & Hj2 & Hw2 & Hkeep2 & Hnew2).
  { by rewrite HpL. }
  { by rewrite HiL. }
  { exact HcL. }
  { subst m. lia. }
  { rewrite HhL. subst sA. cbn. rewrite Hh.
    replace (min + size - Z.of_nat m) with min by (subst m; lia).
    by apply list_lookup_middle. }
  { intros _. rewrite HqL. subst sA. cbn. by rewrite Hj. }
  replace (min + size - Z.of_nat m) with min in Hw2 by (subst m; lia).
  replace (Z.of_nat m) with size in Hw2 by (subst m; lia).
  set (status := record_results 0 _) in *.
  set (s3 := set_frames t (FTask (k status) :: rest) s2).
  assert (Hlt2 : (t < length (pool s2))%nat) by by eapply lookup_lt_Some.
  exists (1 + (nW + (S n2 + 1)))%nat, s3.
  split; [|split; [|split; [|split; [|split]]]].
  - eapply run_replicate_add; [exact HrunA|].
    eapply run_replicate_add; [exact HrunW|].
    eapply run_replicate_add.
    + cbn [replicate run].
      assert (contract t sL = true) as ->
        by (unfold contract; by rewrite HpL).
      assert (thread_step h t sL = worker_loop t (Some job) R sL) as ->
        by (unfold thread_step; by rewrite HpL).
      exact Hrun2.
    + cbn [replicate run].
      assert (contract t s2 = true) as ->
        by (unfold contract; by rewrite Hp2).
      unfold thread_step. rewrite Hp2. subst R R0 p. cbn. by rewrite Hw2.
  - subst s3. cbn. by apply list_lookup_insert_eq.
  - eapply solo_trans; [exact HsA|]. eapply solo_trans; [exact HsL|].
    eapply solo_trans; [exact Hs2|]. split; [done|].
    by eapply (others_woken_update _ _ _ _ wakeup_owners); left.
  - subst s3. cbn. rewrite Hj2. subst m.
    destruct (Z.to_nat size) eqn:E.
    + replace (size =? 0) with true by lia. rewrite HqL. subst sA. cbn.
      by rewrite Hj.
    + by replace (size =? 0) with false by lia.
  - intros a w Ha. subst s3. cbn.
    pose proof (lookup_lt_Some _ _ _ Ha) as Hlta.
    apply Hkeep2; [subst job; lia|]. rewrite HhL. subst sA. cbn. rewrite Hh.
    by apply lookup_app_l_Some.
  - intros a w Ha Hge. subst s3. cbn in Ha.
    destruct (decide (a = job)) as [->|Hne].
    + rewrite Hw2 in Ha. injection Ha as <-. unfold running. cbn.
      rewrite Z.ltb_irrefl. done.
    + eapply Hnew2; [exact Ha|]. rewrite HhL. subst sA. cbn. rewrite Hh.
      rewrite length_app. cbn. subst job. lia.
Qed.

(** A program with non-empty ranges, run by its thread while no other
    thread moves, ends with the status of its sequential reading. *)
Lemma run_solo h t p : calls_pos p -> runs_solo h t p.
Proof.
  induction 1 as [status|task uc min size cl k Hsz Hmin Hmax Htask IHtask Hk IHk];
    intros s rest Hp Hi Hcalm.
  - exists 0%nat, s. cbn. split; [done|]. split; [done|].
    split; [apply solo_refl|]. split; [done|]. split; [done|].
    intros a w Ha Hge. apply lookup_lt_Some in Ha. lia.
  - destruct (par_for_solo h t task uc min size cl k s rest
                (fun idx => IHtask uc idx cl) ltac:(lia) Hmin Hmax Hp Hcalm)
      as (n1 & s1 & Hrun1 & Hp1 & Hs1 & Hj1 & Hkeep1 & Hnew1).
    rewrite lazy_init_initialized in Hs1, Hj1 by done.
    replace (size =? 0) with false in Hj1 by lia.
    set (status := record_results 0 _) in *.
    assert (Hi1 : thread_pool_initialized s1 = true).
    { destruct Hs1 as [(_ & E & _) _]. by rewrite E. }
    assert (Hc1 : calm t s1) by (eapply calm_others; [exact Hcalm|apply Hs1]).
    destruct (IHk status s1 rest Hp1 Hi1 Hc1)
      as (n2 & s2 & Hrun2 & Hp2 & Hs2 & Hj2 & Hkeep2 & Hnew2).
    exists (n1 + n2)%nat, s2.
    split; [by eapply run_replicate_add|]. split; [done|].
    split; [by eapply solo_trans|]. split; [by rewrite Hj2|].
    split.
    + intros a w Ha. by apply Hkeep2, Hkeep1.
    + intros a w Ha Hge.
      destruct (decide (length (heap s1) <= a)%nat) as [Hle|Hgt];
        [by eapply Hnew2|].
      destruct (lookup_lt_is_Some_2 (heap s1) a) as [w1 H1]; [lia|].
      pose proof (Hkeep2 _ _ H1) as H2. rewrite Ha in H2. injection H2 as ->.
      by eapply Hnew1.
Qed.

(** ** The life cycle of the pool *)

Lemma at_rest_wake c fs : at_rest (wake c fs) = at_rest fs.
Proof.
  destruct fs as [|[?|?|[a|] [|c'| |]|?] [|? ?]]; cbn; try done;
    by destruct (cond_eqb c c').
Qed.

Lemma at_rest_in_shutdown fs : at_rest fs = true -> in_shutdown fs = false.
Proof. by destruct fs as [|[?|?|[a|] ?|?] [|? ?]]. Qed.

Lemma shutdown_enter_lookup s t x :
  pool s !! t = Some x ->
  pool (shutdown_enter s) !! t
  = Some (wake wakeup_b_team (wake wakeup_a_team (wake wakeup_owners x))).
Proof.
  intros Hx. unfold shutdown_enter. rewrite !pool_broadcast.
  change (pool (set_queue (set_shutdown true (work_queue s)) s)) with (pool s).
  by rewrite Hx.
Qed.

Lemma lazy_init_conds h s :
  thread_pool_initialized s = false ->
  conds_ready (work_queue (lazy_init h s)) = true /\
  mutex_destroyed (work_queue (lazy_init h s))
  = mutex_destroyed (work_queue s).
Proof.
  intros Hi. unfold lazy_init. rewrite Hi. cbn.
  set (n := clamp_num_threads (choose_num_threads h (num_threads s))).
  set (s2 := set_num_threads n _).
  generalize (Z.to_nat (n - 1)) 0%nat.
  assert (H : conds_ready (work_queue s2) = true /\
              mutex_destroyed (work_queue s2) = mutex_destroyed (work_queue s))
    by done.
  clearbody s2. intros m. revert s2 H.
  induction m as [|m IH]; intros s2 H i; [done|].
  cbn. apply IH. done.
Qed.



(** * The value a parallel-for of a non-empty range returns *)

Lemma In_returned a i r lg :
  In (i, r) (returned a lg) <-> In (EvReturn a i r) lg.
Proof.
  induction lg as [|[b m z|b j|b j q] lg IH]; cbn; [done|..].
  - rewrite IH. split; [auto|]. by intros [|].
  - rewrite IH. split; [auto|]. by intros [|].
  - destruct (b =? a)%nat eqn:E.
    + apply Nat.eqb_eq in E. subst b. cbn. rewrite IH.
      split; intros [H|H]; auto; left; congruence.
    + apply Nat.eqb_neq in E. rewrite IH. split; [auto|].
      intros [H|H]; [congruence|done].
Qed.

(** X14.  The value a parallel-for of a non-empty range returns.  For
    clients whose every parallel-for, nested ones included, has [size >= 1] and a range within [int], and that never call
    [halide_shutdown_thread_pool] ([calls_pos]): when a thread stands at
    line 219 of [default_do_par_for(f, min, size)], the task has been
    invoked at [min], ..., [min + size - 1], once each, all [size]
    invocations have returned and none is in progress; the call returns
    [exit_status]; if one of the invocations returned a non-zero status, the
    value returned is non-zero and is the status returned by one of them;
    if all returned zero, it is zero. *)
Theorem non_empty_par_for_returns_failing_status h n clients s t job task uc
  min size cl k rest :
  Forall calls_pos clients ->
  reachable h (init_state n clients) s ->
  pool s !! t
  = Some (FParFor (PF_return job) :: FTask (ParFor task uc min size cl k)
          :: rest) ->
  exists w,
    heap s !! job = Some w /\
    thread_step h t s
    = Some (set_frames t (FTask (k (exit_status w)) :: rest) s) /\
    invoked job (log s) = seqZ min size /\
    Z.of_nat (length (returned job (log s))) = size /\
    total (tally (is_task_of job)) (pool s) = 0 /\
    ((exists i r, In (i, r) (returned job (log s)) /\ r <> 0) ->
     exit_status w <> 0 /\
     exists i, In (i, exit_status w) (returned job (log s))) /\
    ((forall i r, In (i, r) (returned job (log s)) -> r = 0) ->
     exit_status w = 0).
Proof.
  intros Hc Hr Hl. apply reachable_prims in Hr.
  destruct (prims_invariants _ _ _ _ Hr) as [_ [_ Hst]].
  destruct (jobs_inv_prims _ _ _ _ Hc Hr)
    as (Hstk & _ & (l & _ & _ & Hjobs) & _ & Huniq & _).
  specialize (Hstk _ _ Hl). cbn in Hstk.
  destruct Hstk as ((Hin & (w & Hw & Hnext & Haw)) & _).
  destruct (Hjobs job w Hw)
    as (mn & sz & J1 & J2 & J3 & J4 & J5 & J6 & J7 & J8 & J9 & J10).
  destruct (Huniq _ _ _ _ _ Hin J1) as [-> ->].
  exists w. split; [done|]. split; [|split; [|split; [|split; [|split]]]].
  - unfold thread_step. by rewrite Hl, Hw.
  - rewrite J7. f_equal. lia.
  - lia.
  - lia.
  - intros (i & r & Hir & Hne). apply In_returned in Hir.
    destruct (Hst _ _ Hw) as [[E Hz]|[E (j & Hj)]].
    + by specialize (Hz _ _ Hir).
    + split; [done|]. exists j. by apply In_returned.
  - intros Hz. destruct (Hst _ _ Hw) as [[E _]|[E (j & Hj)]]; [done|].
    apply In_returned in Hj. by specialize (Hz _ _ Hj).
Qed.

Lemma non_empty_par_for_returns_failing_status_witness :
  exists w,
    heap failing_job_done !! 0%nat = Some w /\
    exit_status w = 7 /\
    thread_step (host_cpus 1) 0 failing_job_done
    = Some (set_frames 0 [FTask (Ret (exit_status w))] failing_job_done) /\
    invoked 0 (log failing_job_done) = [10; 11; 12; 13; 14] /\
    length (returned 0 (log failing_job_done)) = 5%nat.
Proof.
  assert (Hl : pool failing_job_done !! 0%nat
               = Some [FParFor (PF_return 0);
                       FTask (client_par_for task_fails_at_12 10 5)]).
  { vm_compute. reflexivity. }
  assert (Hw0 : heap failing_job_done !! 0%nat
                = Some (mk_work None task_fails_at_12 0 15 15 0 0 7)).
  { vm_compute. reflexivity. }
  destruct (non_empty_par_for_returns_failing_status _ _ _ _ _ _ _ _ _ _ _ _ _
              calls_pos_failing_client failing_job_done_reachable Hl)
    as (w & Hw & Hstep & Hinv & Hret & _).
  exists w. split; [exact Hw|]. split.
  { rewrite Hw0 in Hw. injection Hw as <-. reflexivity. }
  split; [exact Hstep|]. split; [exact Hinv|lia].
Defined.

(** * The submitter alone, in a pool of any size *)

(** X16.  A submitter can always finish its parallel-for on its own.  For
    clients whose every parallel-for, nested ones included, has [size >= 1]
    and a range within [int], and that never call
    [halide_shutdown_thread_pool] ([calls_pos]), with any number of
    threads: in every state the system can reach, a thread that is about to
    call [default_do_par_for], from client code or from inside a task, can
    run the call to its return with no other thread taking a step, whatever
    the other threads are in the middle of.  The submitter pushes its job,
    enters [worker_thread(&job)] and runs every index of the range itself,
    nested calls included; the call returns the status of the sequential
    loop over its range, the job stack is left as it was found, no job made
    on the way is still running, and the other threads have not moved
    (those asleep may have been woken). *)
Theorem submitter_alone_completes_par_for h n clients s t task uc min size cl
  k rest :
  Forall calls_pos clients ->
  reachable h (init_state n clients) s ->
  pool s !! t = Some (FTask (ParFor task uc min size cl k) :: rest) ->
  exists steps s',
    run h (replicate steps t) s = Some s' /\
    pool s' !! t
    = Some (FTask (k (record_results 0
                        (List.map (fun idx => sequential (task uc idx cl))
                           (seqZ min size)))) :: rest) /\
    jobs (work_queue s') = jobs (work_queue s) /\
    heap_kept s s' /\
    forall t' fs, t' <> t -> pool s !! t' = Some fs ->
      exists fs', pool s' !! t' = Some fs' /\ woken_from fs fs'.
Proof.
  intros Hc Hr Hl. apply reachable_prims in Hr.
  destruct (jobs_inv_prims _ _ _ _ Hc Hr) as (Hstk & _ & _ & _ & _ & _ & Hini).
  pose proof (Hstk _ _ Hl) as Hfs. cbn [stack_ok] in Hfs.
  destruct Hfs as [Hcp _].
  inversion Hcp as [|? ? ? ? ? ? Hsz Hmin Hmax Htask Hk]; subst.
  assert (Hcalm : calm t s).
  { intros t' fs _ Hfs. eapply stack_ok_no_shutdown. eauto. }
  destruct (par_for_solo h t task uc min size cl k s rest
              (fun idx => run_solo h t _ (Htask uc idx cl)) ltac:(lia) Hmin
              Hmax Hl Hcalm)
    as (steps & s' & Hrun & Hl' & [_ [_ Hoth]] & Hj & Hkept).
  exists steps, s'. split; [done|]. split; [done|]. split.
  { rewrite Hj. replace (size =? 0) with false by lia.
    destruct (thread_pool_initialized s) eqn:Hi.
    - by rewrite lazy_init_initialized.
    - destruct (lazy_init_fresh h s Hi) as (_ & _ & _ & _ & -> & _).
      by destruct (Hini eq_refl) as [_ ->]. }
  split; [done|].
  intros t' fs Hne Hfs. apply Hoth; [done|].
  destruct (lazy_init_pool h s) as [m ->]. by apply lookup_app_l_Some.
Qed.

Lemma submitter_alone_completes_par_for_witness :
  let rest :=
    [FWorker None (W_task 0 (mk_work None task_nested_one 0 1 2 0 1 0))] in
  pool nested_owner_asleep !! 0%nat
  = Some [FWorker (Some 0%nat) (W_wait wakeup_owners); FParFor (PF_work 0);
          FTask client_nested_one] /\
  pool nested_owner_asleep !! 1%nat
  = Some (FTask (task_nested_one 0 1 0) :: rest) /\
  exists steps s',
    run (host_cpus 2) (replicate steps 1%nat) nested_owner_asleep = Some s' /\
    pool s' !! 1%nat = Some (FTask (Ret 0) :: rest).
Proof.
  intros rest.
  assert (Hc : Forall calls_pos [client_nested_one])
    by (constructor; [apply calls_pos_nested_one|constructor]).
  assert (Hr : reachable (host_cpus 2) (init_state 0 [client_nested_one])
                 nested_owner_asleep).
  { apply (run_reachable _ [0; 0; 0; 1; 0; 0; 0; 0; 0; 0]%nat).
    vm_compute. reflexivity. }
  assert (Hl0 : pool nested_owner_asleep !! 0%nat
                = Some [FWorker (Some 0%nat) (W_wait wakeup_owners);
                        FParFor (PF_work 0); FTask client_nested_one]).
  { vm_compute. reflexivity. }
  assert (Hl : pool nested_owner_asleep !! 1%nat
               = Some (FTask (task_nested_one 0 1 0) :: rest)).
  { vm_compute. reflexivity. }
  split; [exact Hl0|]. split; [exact Hl|].
  destruct (submitter_alone_completes_par_for _ _ _ _ _ _ _ _ _ _ _ _ Hc Hr Hl)
    as (steps & s' & Hrun & Hl' & _).
  exists steps, s'. split; [exact Hrun|exact Hl'].
Defined.

(** * The condition variables *)

Lemma wake_like_bottom_ok g fs : wake_like g -> bottom_ok fs -> bottom_ok (g fs).
Proof.
  intros Hg. destruct (Hg fs) as [->|(o & c & rest & -> & ->)]; [done|].
  unfold bottom_ok. by destruct rest.
Qed.

Lemma wake_like_outside_pool g fs :
  wake_like g -> outside_pool fs -> outside_pool (g fs).
Proof.
  intros Hg. destruct (Hg fs) as [->|(o & c & rest & -> & ->)]; [done|].
  by intros [|[p ?]].
Qed.


Lemma bottom_ok_tail fr rest : bottom_ok (fr :: rest) -> bottom_ok rest.
Proof. unfold bottom_ok. by destruct rest. Qed.

Lemma bottom_ok_worker_return rest :
  bottom_ok rest -> bottom_ok (worker_return rest).
Proof.
  destruct rest as [|[?|[]|? ?|?] rest]; try done.
  unfold bottom_ok. by destruct rest.
Qed.

Lemma primitives_inv_update s s' t fs fs' g :
  primitives_inv s ->
  pool s !! t = Some fs ->
  wake_like g ->
  pool s' = <[t := fs']> (g <$> pool s) ->
  conds_ready (work_queue s') = conds_ready (work_queue s) ->
  thread_pool_initialized s' = thread_pool_initialized s ->
  (bottom_ok fs -> bottom_ok fs') ->
  (thread_pool_initialized s = false -> outside_pool fs -> outside_pool fs') ->
  primitives_inv s'.
Proof.
  intros (Hc & Hb & Hq) Hl Hg Hp E1 E2 Hb' Hq'.
  split; [by rewrite E1, E2|]. split.
  - intros t' x Hx. rewrite Hp in Hx. apply list_lookup_insert_Some in Hx.
    destruct Hx as [(-> & <- & _)|[_ Hx]]; [eauto|].
    rewrite list_lookup_fmap in Hx.
    destruct (pool s !! t') as [y|] eqn:Hy; [|done]. injection Hx as <-.
    apply wake_like_bottom_ok; eauto.
  - rewrite E2. intros Hi t' x Hx. rewrite Hp in Hx.
    apply list_lookup_insert_Some in Hx.
    destruct Hx as [(-> & <- & _)|[_ Hx]]; [eauto|].
    rewrite list_lookup_fmap in Hx.
    destruct (pool s !! t') as [y|] eqn:Hy; [|done]. injection Hx as <-.
    apply wake_like_outside_pool; eauto.
Qed.

Lemma primitives_inv_same s s' t fs fs' :
  primitives_inv s ->
  pool s !! t = Some fs ->
  pool s' = <[t := fs']> (pool s) ->
  conds_ready (work_queue s') = conds_ready (work_queue s) ->
  thread_pool_initialized s' = thread_pool_initialized s ->
  (bottom_ok fs -> bottom_ok fs') ->
  (thread_pool_initialized s = false -> outside_pool fs -> outside_pool fs') ->
  primitives_inv s'.
Proof.
  intros Hinv Hl Hp. apply (primitives_inv_update s s' t fs fs' id); try done.
  - apply wake_like_id.
  - by rewrite list_fmap_id.
Qed.

Lemma tally_unowned_last fs pc :
  last fs = Some (FWorker None pc) -> 0 < tally is_unowned fs.
Proof.
  induction fs as [|fr fs IH]; [done|].
  destruct fs as [|fr' fs].
  - cbn. intros [= ->]. cbn. lia.
  - intros H. specialize (IH H). cbn [tally] in *.
    destruct (is_unowned fr); cbn; lia.
Qed.

Lemma in_call_false_single p fs :
  last fs = Some (FTask p) -> in_call fs = false -> fs = [FTask p].
Proof.
  unfold in_call. intros H. rewrite H.
  destruct fs as [|fr [|fr' fs]]; cbn; try done.
  cbn in H. by injection H as ->.
Qed.

Local Ltac bottom_tac rest :=
  let H := fresh in
  intros H; unfold bottom_ok in *; cbn in *; by destruct rest.

Lemma primitives_inv_prim h t s s' :
  primitives_inv s -> shutdown_inv s -> team_inv s' ->
  prim h t s s' -> primitives_inv s'.
Proof.
  intros Hinv Hsh Hteam Hp.
  pose proof Hinv as (Hc & Hb & Hq).
  destruct Hp as
    [task uc min size cl k rest job wb s1 Hl Hct He
    |job wb rest Hl|job rest Hl|job task uc min size cl k rest w Hl Hw0
    |o rest s' Hl Hloop|o c rest Hl|result o job myjob rest s1 Hl Hf
    |k rest Hl Hct Hi|k rest Hl Hct Hi|i k rest th Hl Hi Hth Hex
    |i k rest Hl Hi|o c rest Hl].
  - (* submission *)
    destruct (par_for_enter_effect _ _ _ _ _ _ _ _ _ _ He)
      as (_ & _ & _ & _ & Hpool & _ & Hini & _).
    rewrite lazy_init_is_initialized in Hini.
    assert (Hcr : conds_ready (work_queue s1)
                  = conds_ready (work_queue (lazy_init h s))).
    { unfold par_for_enter in He. by injection He as _ _ <-. }
    split; [|split].
    + cbn. rewrite Hcr, Hini. destruct (thread_pool_initialized s) eqn:E.
      * by rewrite lazy_init_initialized, Hc.
      * by destruct (lazy_init_conds h s E).
    + intros t' x Hx. apply lookup_set_frames in Hx.
      destruct Hx as [[_ ->]|[_ Hx]].
      * specialize (Hb _ _ Hl). unfold bottom_ok in *. cbn in *.
        by destruct rest.
      * rewrite Hpool in Hx. destruct (lazy_init_pool h s) as [m Hm].
        rewrite Hm in Hx. apply lookup_app_Some in Hx.
        destruct Hx as [Hx|[_ Hx]]; [eauto|].
        apply lookup_replicate in Hx. by destruct Hx as [-> _].
    + cbn. by rewrite Hini.
  - eapply (primitives_inv_update s _ t _ _ (wake wakeup_a_team));
      [done|exact Hl|apply wake_like_wake|done|done|done| |].
    + destruct wb; bottom_tac rest.
    + by intros _ [|[p ?]].
  - eapply (primitives_inv_update s _ t _ _ (wake wakeup_b_team));
      [done|exact Hl|apply wake_like_wake|done|done|done| |].
    + bottom_tac rest.
    + by intros _ [|[p ?]].
  - eapply (primitives_inv_same s _ t); [done|exact Hl|done|done|done| |].
    + bottom_tac rest.
    + by intros _ [|[p ?]].
  - apply worker_loop_outcome in Hloop.
    destruct Hloop as [Hcond|a Hcond -> Hj|Hcond -> Hj Hle|Hcond -> Hj Hlt
                      |job w Hcond Hj Hw0].
    + eapply (primitives_inv_same s _ t); [done|exact Hl|done|done|done| |].
      * intros H. apply bottom_ok_worker_return. by eapply bottom_ok_tail.
      * by intros _ [|[p ?]].
    + eapply (primitives_inv_same s _ t); [done|exact Hl|done|done|done| |].
      * bottom_tac rest.
      * by intros _ [|[p ?]].
    + eapply (primitives_inv_same s _ t); [done|exact Hl|done|done|done| |].
      * bottom_tac rest.
      * by intros _ [|[p ?]].
    + eapply (primitives_inv_same s _ t); [done|exact Hl|done|done|done| |].
      * bottom_tac rest.
      * by intros _ [|[p ?]].
    + eapply (primitives_inv_same s _ t); [done|exact Hl|done|..].
      * unfold claim. cbn. by destruct (wrap (next w + 1) =? max w).
      * done.
      * bottom_tac rest.
      * by intros _ [|[p ?]].
  - destruct c;
      (eapply (primitives_inv_same s _ t); [done|exact Hl|done|done|done| |];
       [bottom_tac rest|by intros _ [|[p ?]]]).
  - unfold finish_task in Hf. destruct (heap s !! job) as [w|]; [|done].
    injection Hf as <-. destruct (negb _ && negb _).
    + eapply (primitives_inv_update s _ t _ _ (wake wakeup_owners));
        [done|exact Hl|apply wake_like_wake|done|done|done| |].
      * intros H. apply bottom_ok_tail in H. revert H. bottom_tac rest.
      * by intros _ [|[p ?]].
    + eapply (primitives_inv_same s _ t); [done|exact Hl|done|done|done| |].
      * intros H. apply bottom_ok_tail in H. revert H. bottom_tac rest.
      * by intros _ [|[p ?]].
  - eapply (primitives_inv_same s _ t); [done|exact Hl|done|done|done| |].
    + bottom_tac rest.
    + intros _ [|[p E]]; [done|]. injection E as _ ->. right. eauto.
  - eapply (primitives_inv_update s _ t _ _
              (wake wakeup_b_team ∘ wake wakeup_a_team ∘ wake wakeup_owners));
      [done|exact Hl|repeat apply wake_like_compose; apply wake_like_wake
      |cbn; by rewrite <- !list_fmap_compose|done|done| |].
    + bottom_tac rest.
    + intros Hf. by rewrite Hi in Hf.
  - eapply (primitives_inv_same s _ t); [done|exact Hl|done|done|done| |].
    + bottom_tac rest.
    + by intros _ [|[p ?]].
  - (* the last line of the shutdown *)
    destruct Hsh as [_ Hsh].
    destruct (Hsh _ _ Hl eq_refl) as (_ & (i0 & k0 & Heq & _) & Hothers).
    injection Heq as -> -> ->.
    destruct Hteam as (_ & _ & _ & _ & Hun). specialize (Hun eq_refl).
    split; [done|]. split.
    + intros t' x Hx. apply lookup_set_frames in Hx.
      destruct Hx as [[_ ->]|[_ Hx]]; [done|]. eauto.
    + intros _ t' x Hx.
      pose proof (total_zero _ _ _ _ (tally_nonneg is_unowned) Hun Hx) as Hz.
      apply lookup_set_frames in Hx.
      destruct Hx as [[_ ->]|[Hne Hx]]; [right; eauto|].
      specialize (Hothers _ _ Hne Hx). specialize (Hb _ _ Hx).
      unfold bottom_ok in Hb.
      destruct (last x) as [[p|?|[a|] pc|?]|] eqn:Hlast; try done.
      * right. exists p. by eapply in_call_false_single.
      * apply tally_unowned_last in Hlast. lia.
      * left. by apply last_None.
  - eapply (primitives_inv_same s _ t); [done|exact Hl|done|done|done| |].
    + bottom_tac rest.
    + by intros _ [|[p ?]].
Qed.

Lemma primitives_inv_prims h n clients s :
  0 <= n -> Forall sizes_ok clients ->
  prims h (init_state n clients) s -> primitives_inv s.
Proof.
  intros Hn Hc. induction 1 as [|t s s' Hr IH Hp].
  - split; [done|]. split.
    + intros t fs Hfs. cbn in Hfs. rewrite list_lookup_fmap in Hfs.
      destruct (clients !! t); [|done]. by injection Hfs as <-.
    + intros _ t fs Hfs. cbn in Hfs. rewrite list_lookup_fmap in Hfs.
      destruct (clients !! t); [|done]. injection Hfs as <-. right. eauto.
  - destruct (astep_invariants _ _ _ _ Hn Hc Hr) as (_ & Hsh & _).
    destruct (astep_invariants _ _ _ _ Hn Hc (prims_step _ _ _ _ _ Hr Hp))
      as (_ & _ & Hteam).
    by eapply primitives_inv_prim.
Qed.

(** X17.  The condition variables are initialised whenever they are used.
    Under the input contract, in every state the system can reach: the
    three condition variables are initialised (lines 143-145) and not
    destroyed (lines 252-254) exactly when [thread_pool_initialized] is
    set; and whenever a thread is inside [default_do_par_for],
    [worker_thread] or [halide_shutdown_thread_pool] (its call stack is
    neither empty nor client code alone), the pool is initialised.  So no
    thread waits on, or broadcasts, a condition variable that has not been
    initialised or has been destroyed. *)
Theorem condition_variables_ready_when_used h n clients s :
  0 <= n ->
  Forall sizes_ok clients ->
  reachable h (init_state n clients) s ->
  conds_ready (work_queue s) = thread_pool_initialized s /\
  forall t fs,
    pool s !! t = Some fs -> fs <> [] -> (forall p, fs <> [FTask p]) ->
    thread_pool_initialized s = true /\ conds_ready (work_queue s) = true.
Proof.
  intros Hn Hc Hr. apply reachable_prims in Hr.
  destruct (primitives_inv_prims _ _ _ _ Hn Hc Hr) as (Hcr & _ & Hq).
  split; [done|]. intros t fs Hfs Hne Hnt. rewrite Hcr.
  destruct (thread_pool_initialized s); [done|].
  destruct (Hq eq_refl _ _ Hfs) as [->|[p ->]]; [done|by destruct (Hnt p)].
Qed.

Lemma condition_variables_ready_when_used_witness :
  pool b_team_parked !! 1%nat = Some [FWorker None (W_wait wakeup_b_team)] /\
  conds_ready (work_queue b_team_parked) = true.
Proof.
  assert (Hr : reachable (host_cpus 2)
                 (init_state 0 [client_par_for task_ok 0 1]) b_team_parked).
  { apply (run_reachable _ [0; 0; 0; 1]%nat). vm_compute. reflexivity. }
  assert (Hc : Forall sizes_ok [client_par_for task_ok 0 1]).
  { constructor; [|constructor].
    apply sizes_ok_ParFor; [lia| |]; intros; apply sizes_ok_Ret. }
  assert (Hl : pool b_team_parked !! 1%nat
               = Some [FWorker None (W_wait wakeup_b_team)]).
  { vm_compute. reflexivity. }
  split; [exact Hl|].
  destruct (condition_variables_ready_when_used _ _ _ _ (Z.le_refl 0) Hc Hr)
    as [_ H].
  apply (H 1%nat _ Hl); [discriminate|intros p; discriminate].
Defined.

(** * Nested submissions *)

(** ** The claims that unlink a job *)

Lemma wrap_succ n :
  INT_MIN <= n <= INT_MAX ->
  wrap (n + 1) = if n =? INT_MAX then INT_MIN else n + 1.
Proof.
  intros Hn. destruct (n =? INT_MAX) eqn:E.
  - apply Z.eqb_eq in E. by subst n.
  - apply wrap_small. unfold INT_MIN, INT_MAX in *. lia.
Qed.

Lemma mod_int_diff a b :
  INT_MIN <= a <= INT_MAX -> INT_MIN <= b <= INT_MAX ->
  (a - b) mod 2 ^ 32 = if a - b <? 0 then a - b + 2 ^ 32 else a - b.
Proof.
  unfold INT_MIN, INT_MAX. intros Ha Hb.
  change (2 ^ 32) with 4294967296. destruct (a - b <? 0) eqn:E.
  - symmetry. apply (Z.mod_unique _ _ (-1)); lia.
  - symmetry. apply (Z.mod_unique _ _ 0); lia.
Qed.

Lemma claims_left_range n mx : 1 <= claims_left n mx <= 2 ^ 32.
Proof.
  unfold claims_left. cbv zeta.
  pose proof (Z.mod_pos_bound (mx - n) (2 ^ 32) ltac:(lia)).
  destruct (_ =? 0) eqn:E; lia.
Qed.

Lemma claims_left_last n mx :
  INT_MIN <= n <= INT_MAX -> INT_MIN <= mx <= INT_MAX ->
  wrap (n + 1) = mx -> claims_left n mx = 1.
Proof.
  intros Hn Hm. rewrite wrap_succ by done. unfold claims_left. cbv zeta.
  rewrite mod_int_diff by done. change (2 ^ 32) with 4294967296.
  unfold INT_MIN, INT_MAX in *.
  destruct (n =? 2147483647) eqn:E1; destruct (mx - n <? 0) eqn:E2;
    intros <-; destruct (_ =? 0) eqn:E3; lia.
Qed.

Lemma claims_left_step n mx :
  INT_MIN <= n <= INT_MAX -> INT_MIN <= mx <= INT_MAX ->
  wrap (n + 1) <> mx ->
  claims_left (wrap (n + 1)) mx = claims_left n mx - 1.
Proof.
  intros Hn Hm. pose proof (wrap_range (n + 1)) as Hw. revert Hw.
  rewrite wrap_succ by done. unfold claims_left. cbv zeta. intros Hw.
  rewrite !mod_int_diff by done. change (2 ^ 32) with 4294967296.
  unfold INT_MIN, INT_MAX in *.
  destruct (n =? 2147483647) eqn:E1; intros Hne;
    repeat match goal with
           | |- context [?a <? ?b] => destruct (a <? b) eqn:?
           | |- context [?a =? ?b] => destruct (a =? b) eqn:?
           end; lia.
Qed.

Lemma kept_except_refl X s : kept_except X s s.
Proof. by split. Qed.

Lemma kept_except_trans X Y Z0 s1 s2 s3 :
  kept_except X s1 s2 -> kept_except Y s2 s3 ->
  (forall a, a ∈ X -> a ∈ Z0) -> (forall a, a ∈ Y -> a ∈ Z0) ->
  kept_except Z0 s1 s3.
Proof.
  intros [L1 H1] [L2 H2] HX HY. split; [lia|].
  intros a w Ha Hw. apply H2; [|apply H1]; auto.
Qed.

Lemma left_over_bound h t hp top L base :
  left_over h t hp top L base -> Forall (fun E => (E < length hp)%nat) L.
Proof.
  revert top. induction L as [|E L IH]; intros top; cbn; [constructor|].
  intros (_ & _ & w & Hw & _ & _ & _ & _ & Hl). constructor.
  - by eapply lookup_lt_Some.
  - by eapply IH.
Qed.

Lemma left_over_kept h t hp hp' top L base :
  left_over h t hp top L base ->
  (forall E w, E ∈ L -> hp !! E = Some w -> hp' !! E = Some w) ->
  left_over h t hp' top L base.
Proof.
  revert top. induction L as [|E L IH]; intros top; cbn; [done|].
  intros (Ht & Hs & w & Hw & Ha & Hn & Hm & Hc & Hl) Hk.
  split; [done|]. split; [done|]. exists w.
  split; [apply Hk; [left|done]|].
  split; [done|]. split; [done|]. split; [done|]. split; [done|].
  apply IH; [done|]. intros E' w' HE'. apply Hk. by right.
Qed.

Lemma left_over_app h t hp top L1 mid L2 base :
  left_over h t hp top L1 mid ->
  left_over h t hp mid L2 base ->
  (forall a b, a ∈ L1 -> b ∈ L2 -> (b < a)%nat) ->
  left_over h t hp top (L1 ++ L2) base.
Proof.
  revert top. induction L1 as [|E L1 IH]; intros top; cbn.
  - by intros ->.
  - intros (Ht & Hs & w & Hw & Ha & Hn & Hm & Hc & Hl) H2 Hlt.
    split; [done|]. split.
    { apply Forall_app. split; [done|]. apply Forall_forall.
      intros b Hb. apply Hlt; [left|done]. }
    exists w. split; [done|]. split; [done|]. split; [done|].
    split; [done|]. split; [done|].
    apply IH; [done|done|]. intros a b Ha' Hb. apply Hlt; [by right|done].
Qed.

(** ** Clearing the jobs left on the stack *)

Lemma solo_is_Some t s s' :
  solo t s s' -> is_Some (pool s !! t) -> is_Some (pool s' !! t).
Proof.
  intros [_ [Hlen _]] Hs. apply lookup_lt_is_Some. rewrite Hlen.
  by apply lookup_lt_is_Some.
Qed.

Lemma solo_initialized t s s' :
  solo t s s' -> thread_pool_initialized s = true ->
  thread_pool_initialized s' = true.
Proof. intros [(_ & E & _) _] Hi. by rewrite E. Qed.

Lemma others_woken_wake t s s' c :
  pool s' = wake c <$> pool s -> others_woken t s s'.
Proof.
  intros Hp. split; [by rewrite Hp, length_fmap|].
  intros t' x _ Hx. exists (wake c x). rewrite Hp, list_lookup_fmap, Hx.
  split; [done|]. apply woken_from_wake.
Qed.

Lemma others_woken_same t s s' : pool s' = pool s -> others_woken t s s'.
Proof.
  intros Hp. split; [by rewrite Hp|].
  intros t' x _ Hx. exists x. rewrite Hp. split; [done|by left].
Qed.

(** Clearing the jobs of [L], one after the other, from the loop of an
    owner whose job is running. *)
Lemma clear_list h t o R : forall L s base P,
  is_Some (pool s !! t) ->
  thread_pool_initialized s = true ->
  left_over h t (heap s) (jobs (work_queue s)) L base ->
  Forall (fun E => (o < E)%nat) L ->
  (exists wo, heap s !! o = Some wo /\ next wo < max wo) ->
  (forall s2,
     solo t s s2 ->
     jobs (work_queue s2) = base ->
     kept_except L s s2 ->
     loop_from h t o R s2 P) ->
  loop_from h t o R s P.
Proof.
  induction L as [|E L IH]; intros s base P Hp Hi Hl Ho Hwo Hk.
  - cbn in Hl. apply Hk; [apply solo_refl|done|apply kept_except_refl].
  - cbn in Hl. destruct Hl as (Ht & Hs & w & Hw & Ha & Hn & Hm & Hc & Hl).
    inversion Ho as [|? ? HoE HoL]; subst.
    apply (Hc o R s (next w) (exit_status w) P); try done.
    { destruct w; cbn in *; by subst. }
    intros s2 Hs2 Hj2 Hk2.
    apply (IH s2 base P).
    + by eapply solo_is_Some.
    + by eapply solo_initialized.
    + rewrite Hj2. eapply left_over_kept; [exact Hl|].
      intros E' w' HE' Hw'. apply Hk2; [|done].
      rewrite Forall_forall in Hs. specialize (Hs _ HE').
      intros Hin. apply list_elem_of_singleton in Hin. lia.
    + done.
    + destruct Hwo as (wo & Hwo & Hr). exists wo. split; [|done].
      apply Hk2; [|done]. intros Hin. apply list_elem_of_singleton in Hin. lia.
    + intros s3 Hs3 Hj3 Hk3. apply Hk; [by eapply solo_trans|done|].
      eapply kept_except_trans; [exact Hk2|exact Hk3| |].
      * intros a Ha'. apply list_elem_of_singleton in Ha'. subst. by left.
      * intros a Ha'. by right.
Qed.

Section clear_rounds.
Context (h : host) (t : tid) (task : halide_task_t) (uc cl : Z).
Hypothesis task_completes : forall idx, completes h t (task uc idx cl).
Context (E : addr) (J : option addr) (mx : Z).
Hypothesis mx_int : INT_MIN <= mx <= INT_MAX.

Lemma clear_rounds (c : nat) : forall n o R s st P,
  claims_left n mx = Z.of_nat c ->
  is_Some (pool s !! t) ->
  thread_pool_initialized s = true ->
  jobs (work_queue s) = Some E ->
  heap s !! E = Some (mk_work J task uc n mx cl 0 st) ->
  INT_MIN <= n <= INT_MAX ->
  (o < E)%nat ->
  (exists wo, heap s !! o = Some wo /\ next wo < max wo) ->
  (forall s2,
     solo t s s2 ->
     jobs (work_queue s2) = J ->
     kept_except [E] s s2 ->
     loop_from h t o R s2 P) ->
  loop_from h t o R s P.
Proof.
  induction c as [|c IH]; intros n o R s st P Hc Hp Hi Hj Hw Hn Ho Hwo Hk.
  { pose proof (claims_left_range n mx). lia. }
  destruct Hwo as (wo & Hwo & Hrun).
  set (w := mk_work J task uc n mx cl 0 st) in *.
  set (n' := wrap (n + 1)).
  set (w2 := mk_work J task uc n' mx cl 1 st).
  set (rest := FWorker (Some o) (W_task E w) :: R).
  set (sc := set_frames t (FTask (task uc n cl) :: rest) (claim E w s)).
  assert (HoE : o <> E) by lia.
  assert (HE : (E < length (heap s))%nat) by by eapply lookup_lt_Some.
  assert (Hloop : worker_loop t (Some o) R s = Some sc).
  { unfold worker_loop. rewrite Hwo. cbn -[claim].
    unfold running. replace (next wo <? max wo) with true by lia.
    cbn -[claim]. by rewrite Hj, Hw. }
  assert (Hpc : pool sc !! t = Some (FTask (task uc n cl) :: rest)).
  { subst sc. cbn. by apply list_lookup_insert_eq, lookup_lt_is_Some. }
  assert (Hhc : heap sc = <[E := w2]> (heap s)) by done.
  assert (Hjc : jobs (work_queue sc) = if n' =? mx then J else Some E).
  { subst sc w. unfold claim, set_active_workers, set_next. cbn. fold n'.
    destruct (n' =? mx); [done|by rewrite Hj]. }
  assert (Hic : thread_pool_initialized sc = true) by done.
  assert (Hsc : solo t s sc).
  { split.
    - subst sc. unfold same_pool, claim. cbn. fold n'.
      by destruct (n' =? mx).
    - by eapply (others_woken_update _ _ _ _ wakeup_owners); left. }
  clearbody sc.
  destruct (task_completes n sc rest Hpc Hic ltac:(done))
    as (n1 & sd & v & L & Hrun1 & Hpd & Hsd & [Hlend Hkd] & Hlo & Hnew).
  assert (Hwd : heap sd !! E = Some w2).
  { apply Hkd; [by apply not_elem_of_nil|].
    rewrite Hhc. by apply list_lookup_insert_eq. }
  set (st' := if v =? 0 then st else v).
  set (w3 := mk_work J task uc n' mx cl 0 st').
  destruct (finish_task (Some o) E w v sd) as [se|] eqn:Hfin;
    [|by unfold finish_task in Hfin; rewrite Hwd in Hfin].
  assert (Hse : heap se = <[E := w3]> (heap sd) /\
                work_queue se = work_queue sd /\
                num_threads se = num_threads sd /\
                thread_pool_initialized se = thread_pool_initialized sd /\
                others_woken t sd se).
  { unfold finish_task in Hfin. rewrite Hwd in Hfin. injection Hfin as <-.
    assert (Hw3 : set_active_workers
                    (wrap (active_workers
                             (if v =? 0 then w2
                              else set_exit_status v w2) - 1))
                    (if v =? 0 then w2 else set_exit_status v w2) = w3).
    { subst w3 st' w2. unfold set_active_workers, set_exit_status.
      by destruct (v =? 0). }
    rewrite Hw3.
    destruct (negb _ && negb _); cbn.
    - split; [done|]. split; [done|]. split; [done|]. split; [done|].
      by apply (others_woken_wake _ _ _ wakeup_owners).
    - split; [done|]. split; [done|]. split; [done|]. split; [done|].
      by apply others_woken_same. }
  destruct Hse as (Hhe & Hqe & Hne & Hie & Hoe).
  assert (Hde : solo t sd se).
  { split; [|done]. unfold same_pool. by rewrite Hqe, Hne, Hie. }
  assert (Hlenc : length (heap sc) = length (heap s))
    by (rewrite Hhc; apply length_insert).
  assert (HnewE : Forall (fun E' => (E < E')%nat) L).
  { eapply Forall_impl; [exact Hnew|]. cbn. intros E' HE'. lia. }
  (* the jobs that the task has left are cleared first *)
  assert (Hloop_e : loop_from h t o R se P).
  { apply (clear_list h t o R L se (jobs (work_queue sc)) P).
    - eapply solo_is_Some; [exact Hde|]. by rewrite Hpd.
    - by eapply solo_initialized; [exact Hde|eapply solo_initialized].
    - rewrite Hqe. eapply left_over_kept; [exact Hlo|].
      intros E' w' HE' Hw'. rewrite Hhe.
      rewrite Forall_forall in HnewE. specialize (HnewE _ HE').
      rewrite list_lookup_insert_ne by lia. done.
    - eapply Forall_impl; [exact HnewE|]. cbn. intros E' HE'. lia.
    - exists wo. split; [|done]. rewrite Hhe.
      rewrite list_lookup_insert_ne by done.
      apply Hkd; [by apply not_elem_of_nil|].
      rewrite Hhc. by rewrite list_lookup_insert_ne.
    - intros s2 Hs2 Hj2 [Hlen2 Hk2].
      assert (Hs02 : solo t s s2).
      { eapply solo_trans; [exact Hsc|]. eapply solo_trans; [exact Hsd|].
        eapply solo_trans; [exact Hde|exact Hs2]. }
      assert (Hlene : length (heap se) = length (heap sd))
        by (rewrite Hhe; apply length_insert).
      assert (Hkeep : forall a wa, a <> E -> heap s !! a = Some wa ->
                                   heap s2 !! a = Some wa).
      { intros a wa Ha Hwa. apply Hk2.
        - intros Hin. rewrite Forall_forall in Hnew. specialize (Hnew _ Hin).
          apply lookup_lt_Some in Hwa. lia.
        - rewrite Hhe, list_lookup_insert_ne by done.
          apply Hkd; [by apply not_elem_of_nil|].
          by rewrite Hhc, list_lookup_insert_ne. }
      assert (HE2 : heap s2 !! E = Some w3).
      { apply Hk2.
        - intros Hin. rewrite Forall_forall in HnewE.
          specialize (HnewE _ Hin). lia.
        - rewrite Hhe. apply list_lookup_insert_eq. by eapply lookup_lt_Some. }
      assert (Hk02 : kept_except [E] s s2).
      { split; [lia|]. intros a wa Ha. apply Hkeep. intros ->. apply Ha.
        by left. }
      rewrite Hjc in Hj2. destruct (n' =? mx) eqn:En.
      + (* the job has been unlinked *)
        by apply Hk.
      + (* the job is at the head again *)
        apply (IH n' o R s2 st' P); try done.
        * subst n'. rewrite claims_left_step by (done || lia). lia.
        * by eapply solo_is_Some.
        * by eapply solo_initialized.
        * apply wrap_range.
        * exists wo. split; [|done]. by apply Hkeep.
        * intros s3 Hs3 Hj3 Hk3. apply Hk; [by eapply solo_trans|done|].
          eapply kept_except_trans; [exact Hk02|exact Hk3|done|done]. }
  destruct Hloop_e as (k & s' & Hrun' & HP).
  exists (n1 + S k)%nat, s'. rewrite Hloop. split; [|done].
  eapply run_replicate_add; [exact Hrun1|]. cbn [replicate run].
  assert (contract t sd = true) as -> by (unfold contract; by rewrite Hpd).
  assert (thread_step h t sd = worker_loop t (Some o) R se) as ->
    by (unfold thread_step; rewrite Hpd; cbn; by rewrite Hfin).
  exact Hrun'.
Qed.
End clear_rounds.

Lemma clearable_of_completes h t task uc cl E J mx :
  (forall idx, completes h t (task uc idx cl)) ->
  INT_MIN <= mx <= INT_MAX ->
  clearable h t E J task uc mx cl.
Proof.
  intros Htask Hmx o R s n st P Hp Hi Hj Hw Hn Ho Hwo Hk.
  apply (clear_rounds h t task uc cl Htask E J mx Hmx
           (Z.to_nat (claims_left n mx)) n o R s st P); try done.
  pose proof (claims_left_range n mx). lia.
Qed.

(** ** The loop of an owner *)

Section own_loop.
Context (h : host) (t : tid) (task : halide_task_t) (uc cl : Z).
Hypothesis task_completes : forall idx, completes h t (task uc idx cl).
Context (R : list frame) (job : addr) (J0 : option addr) (mx : Z).
Hypothesis mx_int : mx <= INT_MAX.

(** The loop of the owner of job [job], entered with [m] indices left, no
    task of [job] in progress and the jobs [L] above [job] on the stack: the
    owner clears [L], claims its next index, runs the task, and so on. *)
Lemma own_loop (m : nat) : forall s st L,
  is_Some (pool s !! t) ->
  thread_pool_initialized s = true ->
  INT_MIN <= mx - Z.of_nat m ->
  heap s !! job = Some (mk_work J0 task uc (mx - Z.of_nat m) mx cl 0 st) ->
  left_over h t (heap s) (jobs (work_queue s)) L
    (match m with 0%nat => J0 | S _ => Some job end) ->
  Forall (fun E => (job < E)%nat) L ->
  loop_from h t job R s (fun s' =>
    pool s' !! t = Some (worker_return R) /\
    solo t s s' /\
    kept_except (job :: L) s s' /\
    is_Some (heap s' !! job) /\
    exists L',
      left_over h t (heap s') (jobs (work_queue s')) L' J0 /\
      Forall (fun E => (job < E)%nat) L').
Proof.
  induction m as [|m IH]; intros s st L Hp Hi Hmin Hw Hl HL.
  - exists 0%nat, (set_frames t (worker_return R) s).
    unfold worker_loop. rewrite Hw. cbn -[Z.sub].
    rewrite Z.sub_0_r in *.
    unfold running. cbn. rewrite Z.ltb_irrefl. cbn.
    split; [done|]. split; [by apply list_lookup_insert_eq, lookup_lt_is_Some|].
    split.
    { split; [done|]. by eapply (others_woken_update _ _ _ _ wakeup_owners); left. }
    split; [by split|]. split; [by cbn; rewrite Hw|].
    exists L. done.
  - set (nx := mx - Z.of_nat (S m)) in *.
    assert (Hnx : nx + 1 = mx - Z.of_nat m) by lia.
    set (w := mk_work J0 task uc nx mx cl 0 st) in *.
    assert (HO : (job < length (heap s))%nat) by by eapply lookup_lt_Some.
    (* the jobs above [job] are cleared first *)
    apply (clear_list h t job R L s (Some job)); try done.
    { exists w. split; [done|]. cbn. lia. }
    intros s1 Hs1 Hj1 [Hlen1 Hk1].
    assert (Hw1 : heap s1 !! job = Some w).
    { apply Hk1; [|done]. intros Hin. rewrite Forall_forall in HL.
      specialize (HL _ Hin). lia. }
    assert (Hp1 : is_Some (pool s1 !! t)) by by eapply solo_is_Some.
    assert (Hi1 : thread_pool_initialized s1 = true)
      by by eapply solo_initialized.
    set (w2 := mk_work J0 task uc (nx + 1) mx cl 1 st).
    set (rest := FWorker (Some job) (W_task job w) :: R).
    set (sc := set_frames t (FTask (task uc nx cl) :: rest) (claim job w s1)).
    assert (Hloop : worker_loop t (Some job) R s1 = Some sc).
    { unfold worker_loop. rewrite Hw1, Hj1. cbn -[Z.sub claim].
      unfold running. cbn -[Z.sub claim].
      replace (nx <? mx) with true by lia. cbn -[Z.sub claim].
      by rewrite Hw1. }
    assert (Hwr : wrap (nx + 1) = nx + 1)
      by (apply wrap_small; unfold INT_MIN, INT_MAX in *; lia).
    assert (Hpc : pool sc !! t = Some (FTask (task uc nx cl) :: rest)).
    { subst sc. cbn. by apply list_lookup_insert_eq, lookup_lt_is_Some. }
    assert (Hhc : heap sc = <[job := w2]> (heap s1)).
    { subst sc w w2. unfold claim, set_active_workers, set_next. cbn.
      by rewrite Hwr. }
    assert (Hjc : jobs (work_queue sc)
                  = match m with 0%nat => J0 | S _ => Some job end).
    { subst sc w. unfold claim, set_active_workers, set_next. cbn.
      rewrite Hwr. destruct m as [|m'].
      - replace (nx + 1 =? mx) with true by lia. done.
      - replace (nx + 1 =? mx) with false by lia. by rewrite Hj1. }
    assert (Hic : thread_pool_initialized sc = true) by done.
    assert (Hsc : solo t s1 sc).
    { split.
      - subst sc. unfold same_pool, claim. cbn.
        by destruct (wrap (nx + 1) =? mx).
      - by eapply (others_woken_update _ _ _ _ wakeup_owners); left. }
    clearbody sc.
    destruct (task_completes nx sc rest Hpc Hic ltac:(done))
      as (n1 & sd & v & L1 & Hrun1 & Hpd & Hsd & [Hlend Hkd] & Hlo & Hnew).
    assert (Hwd : heap sd !! job = Some w2).
    { apply Hkd; [by apply not_elem_of_nil|].
      rewrite Hhc. apply list_lookup_insert_eq. by eapply lookup_lt_Some. }
    set (st' := if v =? 0 then st else v).
    set (w3 := mk_work J0 task uc (nx + 1) mx cl 0 st').
    set (se := set_log (log sd ++ [EvReturn job nx v])
                 (set_heap (<[job := w3]> (heap sd)) sd)).
    assert (Hfin : finish_task (Some job) job w v sd = Some se).
    { unfold finish_task. rewrite Hwd. cbn.
      rewrite bool_decide_true by done. rewrite andb_false_r.
      subst se w3 st' w2. unfold set_active_workers, set_exit_status. cbn.
      by destruct (v =? 0). }
    assert (Hwe : heap se !! job
                  = Some (mk_work J0 task uc (mx - Z.of_nat m) mx cl 0 st')).
    { subst se w3. cbn. rewrite <- Hnx. apply list_lookup_insert_eq.
      by eapply lookup_lt_Some. }
    assert (Hde : solo t sd se)
      by (split; [done|exact (others_woken_refl t sd)]).
    assert (Hlenc : length (heap sc) = length (heap s1))
      by (rewrite Hhc; apply length_insert).
    assert (HnewO : Forall (fun E' => (job < E')%nat) L1).
    { eapply Forall_impl; [exact Hnew|]. cbn. intros E' HE'.
      apply lookup_lt_Some in Hw1. lia. }
    assert (Hpe : is_Some (pool se !! t)).
    { subst se. cbn. rewrite Hpd. eauto. }
    assert (Hie : thread_pool_initialized se = true).
    { eapply solo_initialized; [exact Hde|].
      eapply solo_initialized; [exact Hsd|exact Hic]. }
    assert (Hle : left_over h t (heap se) (jobs (work_queue se)) L1
                    (match m with 0%nat => J0 | S _ => Some job end)).
    { subst se. cbn. rewrite <- Hjc. eapply left_over_kept; [exact Hlo|].
      intros E' w' HE' Hw'. rewrite Forall_forall in HnewO.
      specialize (HnewO _ HE'). rewrite list_lookup_insert_ne by lia. done. }
    destruct (IH se st' L1 Hpe Hie ltac:(lia) Hwe Hle HnewO)
      as (k & s' & Hrun2 & Hp' & Hs' & Hk' & HO' & HL').
    exists (n1 + S k)%nat, s'. rewrite Hloop. split.
    { eapply run_replicate_add; [exact Hrun1|]. cbn [replicate run].
      assert (contract t sd = true) as -> by (unfold contract; by rewrite Hpd).
      assert (thread_step h t sd = worker_loop t (Some job) R se) as ->
        by (unfold thread_step; rewrite Hpd; cbn; by rewrite Hfin).
      exact Hrun2. }
    split; [done|]. split.
    { eapply solo_trans; [exact Hs1|]. eapply solo_trans; [exact Hsc|].
      eapply solo_trans; [exact Hsd|]. eapply solo_trans; [exact Hde|done]. }
    split; [|done].
    destruct Hk' as [Hlen' Hkeep'].
    assert (Hlene : length (heap se) = length (heap sd))
      by (subst se; cbn; apply length_insert).
    split; [lia|].
    intros a wa Ha Hwa.
    assert (HaO : a <> job) by (intros ->; apply Ha; by left).
    assert (HaL : a ∉ L) by (intros Hin; apply Ha; by right).
    apply Hkeep'.
    + intros Hin. apply elem_of_cons in Hin.
      destruct Hin as [->|Hin]; [done|].
      rewrite Forall_forall in Hnew. specialize (Hnew _ Hin).
      apply lookup_lt_Some in Hwa. lia.
    + subst se. cbn. rewrite list_lookup_insert_ne by done.
      apply Hkd; [by apply not_elem_of_nil|].
      rewrite Hhc, list_lookup_insert_ne by done. by apply Hk1.
Qed.
End own_loop.

Lemma contract_submitter t s task uc min size cl k rest :
  pool s !! t = Some (FTask (ParFor task uc min size cl k) :: rest) ->
  (rest = [] -> calm t s) ->
  contract t s = true.
Proof.
  intros Hp Hc. destruct rest as [|fr rest].
  - eapply contract_solo; [exact Hp|by apply Hc|done].
  - unfold contract. by rewrite Hp.
Qed.

(** One call of [default_do_par_for] with any range, run by its thread
    alone. *)
Lemma par_for_general h t task uc min size cl k s rest :
  (forall idx, completes h t (task uc idx cl)) ->
  INT_MIN <= min <= INT_MAX ->
  pool s !! t = Some (FTask (ParFor task uc min size cl k) :: rest) ->
  (rest = [] -> calm t s) ->
  exists steps s' v L,
    run h (replicate steps t) s = Some s' /\
    pool s' !! t = Some (FTask (k v) :: rest) /\
    solo t (lazy_init h s) s' /\
    kept_except [] s s' /\
    left_over h t (heap s') (jobs (work_queue s')) L
      (jobs (work_queue (lazy_init h s))) /\
    Forall (fun E => (length (heap s) <= E)%nat) L.
Proof.
  intros Htask Hmin Hp Hcalm.
  set (p := ParFor task uc min size cl k) in *.
  destruct (par_for_enter h task uc min size cl s) as [[job wb] s1] eqn:He.
  destruct (par_for_enter_effect _ _ _ _ _ _ _ _ _ _ He)
    as (-> & Hh & _ & Hj & Hpool & Hnum & Hini & Hat & Hthr & Hsd & _).
  rewrite lazy_init_is_initialized in Hini.
  set (mx := wrap (min + size)) in *.
  pose proof (wrap_range (min + size)) as Hmx. fold mx in Hmx.
  set (job := length (heap s)) in *.
  set (J0 := jobs (work_queue (lazy_init h s))) in *.
  set (R0 := FTask p :: rest).
  set (sA := set_frames t (FParFor (PF_wake_a job wb) :: R0) s1).
  assert (Hct : contract t s = true) by by eapply contract_submitter.
  assert (HrunA : run h (replicate 1 t) s = Some sA).
  { cbn. rewrite Hct. unfold thread_step. rewrite Hp. subst p.
    cbn -[par_for_enter]. by rewrite He. }
  assert (Hlt : (t < length (pool (lazy_init h s)))%nat).
  { destruct (lazy_init_pool h s) as [m ->]. rewrite length_app.
    apply lookup_lt_Some in Hp. lia. }
  assert (HpA : pool sA !! t = Some (FParFor (PF_wake_a job wb) :: R0)).
  { subst sA. cbn. rewrite Hpool. by apply list_lookup_insert_eq. }
  assert (HsA : solo t (lazy_init h s) sA).
  { split.
    - unfold same_pool. subst sA. cbn. rewrite Hnum, Hini, Hat, Hthr, Hsd.
      rewrite lazy_init_is_initialized.
      unfold par_for_enter in He. injection He as _ _ <-. done.
    - eapply (others_woken_update _ _ _ _ wakeup_owners). left.
      subst sA. cbn. by rewrite Hpool. }
  destruct (wake_solo h t sA job wb R0 HpA)
    as (nW & sL & HrunW & HpL & HhL & HqL & HiL & HnL & HoL).
  assert (HsL : solo t sA sL).
  { split; [|done]. unfold same_pool. by rewrite HqL, HiL, HnL. }
  set (R := FParFor (PF_work job) :: R0) in *.
  set (wO := mk_work J0 task uc min mx cl 0 0) in *.
  assert (HwL : heap sL !! job = Some wO).
  { rewrite HhL. subst sA. cbn. rewrite Hh. by apply list_lookup_middle. }
  assert (HjL : jobs (work_queue sL) = Some job).
  { rewrite HqL. subst sA. cbn. by rewrite Hj. }
  assert (HiL' : thread_pool_initialized sL = true) by by rewrite HiL.
  assert (HctL : contract t sL = true) by (unfold contract; by rewrite HpL).
  assert (HstepL : thread_step h t sL = worker_loop t (Some job) R sL)
    by (unfold thread_step; by rewrite HpL).
  assert (HkL : forall a w, heap s !! a = Some w -> heap sL !! a = Some w).
  { intros a w Ha. rewrite HhL. subst sA. cbn. rewrite Hh.
    by apply lookup_app_l_Some. }
  assert (HlenL : length (heap sL) = S (length (heap s))).
  { rewrite HhL. subst sA. cbn. rewrite Hh, length_app. cbn. lia. }
  destruct (min <? mx) eqn:Hlt'.
  - (* a range with indices: the loop runs them all *)
    set (m := Z.to_nat (mx - min)).
    destruct (own_loop h t task uc cl Htask R job J0 mx (proj2 Hmx) m sL 0 [])
      as (n2 & s2 & Hrun2 & Hp2 & Hs2 & [Hlen2 Hk2] & [w' HO2] & L' & Hl' & HL').
    { by rewrite HpL. }
    { done. }
    { subst m. lia. }
    { replace (mx - Z.of_nat m) with min by (subst m; lia). done. }
    { cbn. subst m. destruct (Z.to_nat (mx - min)) eqn:E; [lia|done]. }
    { constructor. }
    set (s3 := set_frames t (FTask (k (exit_status w')) :: rest) s2).
    assert (Hlt2 : (t < length (pool s2))%nat) by by eapply lookup_lt_Some.
    exists (1 + (nW + (S n2 + 1)))%nat, s3, (exit_status w'), L'.
    split; [|split; [|split; [|split; [|split]]]].
    + eapply run_replicate_add; [exact HrunA|].
      eapply run_replicate_add; [exact HrunW|].
      eapply run_replicate_add.
      * cbn [replicate run]. rewrite HctL, HstepL. exact Hrun2.
      * cbn [replicate run].
        assert (contract t s2 = true) as ->
          by (unfold contract; by rewrite Hp2).
        unfold thread_step. rewrite Hp2. subst R R0 p. cbn. by rewrite HO2.
    + subst s3. cbn. by apply list_lookup_insert_eq.
    + eapply solo_trans; [exact HsA|]. eapply solo_trans; [exact HsL|].
      eapply solo_trans; [exact Hs2|]. split; [done|].
      by eapply (others_woken_update _ _ _ _ wakeup_owners); left.
    + split; [subst s3; cbn; lia|].
      intros a w _ Ha. subst s3. cbn.
      pose proof (lookup_lt_Some _ _ _ Ha) as Hlta.
      apply Hk2; [|by apply HkL].
      intros Hin. apply list_elem_of_singleton in Hin. subst job. lia.
    + done.
    + eapply Forall_impl; [exact HL'|]. cbn. intros E HE. subst job. lia.
  - (* no index to run: the job is left on the stack *)
    set (s2 := set_frames t (worker_return R) sL).
    assert (Hloop : worker_loop t (Some job) R sL = Some s2).
    { unfold worker_loop. rewrite HwL. cbn. unfold running. cbn.
      by rewrite Hlt'. }
    assert (HltL : (t < length (pool sL))%nat) by by eapply lookup_lt_Some.
    assert (Hp2 : pool s2 !! t = Some (FParFor (PF_return job) :: R0)).
    { subst s2. cbn. by apply list_lookup_insert_eq. }
    set (s3 := set_frames t (FTask (k 0) :: rest) s2).
    exists (1 + (nW + 2))%nat, s3, 0, [job].
    split; [|split; [|split; [|split; [|split]]]].
    + eapply run_replicate_add; [exact HrunA|].
      eapply run_replicate_add; [exact HrunW|].
      cbn [replicate run]. rewrite HctL, HstepL, Hloop.
      assert (contract t s2 = true) as ->
        by (unfold contract; by rewrite Hp2).
      unfold thread_step. rewrite Hp2. subst R0 p. cbn. by rewrite HwL.
    + subst s3 s2. cbn. apply list_lookup_insert_eq.
      by rewrite length_insert.
    + eapply solo_trans; [exact HsA|]. eapply solo_trans; [exact HsL|].
      split; [done|].
      eapply (others_woken_trans _ _ s2).
      * by eapply (others_woken_update _ _ _ _ wakeup_owners); left.
      * by eapply (others_woken_update _ _ _ _ wakeup_owners); left.
    + split; [subst s3 s2; cbn; lia|].
      intros a w _ Ha. by apply HkL.
    + cbn. split; [done|]. split; [constructor|]. exists wO.
      split; [done|]. split; [done|]. split; [done|]. split; [done|].
      split; [|done].
      apply clearable_of_completes; done.
    + constructor; [|constructor]. done.
Qed.

(** Code that does not shut the pool down runs to its end when its thread
    runs alone, whatever its ranges are. *)
Lemma completes_all h t p : calls_int p -> completes h t p.
Proof.
  induction 1 as [status|task uc min size cl k Hmin Hsz Htask IHtask Hk IHk];
    intros s rest Hp Hi Hcalm.
  - exists 0%nat, s, status, []. cbn. split; [done|]. split; [done|].
    split; [apply solo_refl|]. split; [apply kept_except_refl|].
    split; [done|constructor].
  - destruct (par_for_general h t task uc min size cl k s rest
                (fun idx => IHtask uc idx cl) Hmin Hp Hcalm)
      as (n1 & s1 & v & L1 & Hrun1 & Hp1 & Hs1 & Hk1 & Hl1 & Hn1).
    rewrite lazy_init_initialized in Hs1, Hl1 by done.
    assert (Hi1 : thread_pool_initialized s1 = true)
      by by eapply solo_initialized.
    assert (Hc1 : rest = [] -> calm t s1).
    { intros Hr. eapply calm_others; [by apply Hcalm|apply Hs1]. }
    destruct (IHk v s1 rest Hp1 Hi1 Hc1)
      as (n2 & s2 & v2 & L2 & Hrun2 & Hp2 & Hs2 & Hk2 & Hl2 & Hn2).
    exists (n1 + n2)%nat, s2, v2, (L2 ++ L1).
    split; [by eapply run_replicate_add|]. split; [done|].
    split; [by eapply solo_trans|].
    split; [by eapply kept_except_trans|].
    split.
    + eapply left_over_app; [exact Hl2| |].
      * eapply left_over_kept; [exact Hl1|].
        intros E w _ Hw. destruct Hk2 as [_ Hk2]. apply Hk2; [|done].
        apply not_elem_of_nil.
      * intros a b Ha Hb.
        rewrite Forall_forall in Hn2. specialize (Hn2 _ Ha).
        pose proof (left_over_bound _ _ _ _ _ _ Hl1) as Hb1.
        rewrite Forall_forall in Hb1. specialize (Hb1 _ Hb). lia.
    + apply Forall_app. split; [|done].
      eapply Forall_impl; [exact Hn2|]. cbn. intros E HE.
      destruct Hk1 as [Hlen _]. lia.
Qed.

Lemma contract_calm t s task uc min size cl k :
  pool s !! t = Some [FTask (ParFor task uc min size cl k)] ->
  contract t s = true ->
  calm t s.
Proof.
  unfold contract. intros -> Hc t' fs _ Hfs.
  apply negb_true_iff. by apply (forallb_lookup _ _ _ _ Hc Hfs).
Qed.


